(* ===== verification/_CoqProject ===== *)
-Q . S2P
Prelude.v
RustStd.v
Syslog.v
SyslogFacts.v
Timestamp.v
StructuredData.v
SyslogRoundtrip.v
SyslogTests.v
Frame.v
Config.v
Json.v
Validator.v
Sample.v
Metrics.v
Effects.v
Forwarder.v
Session.v
SessionFacts.v
SessionBuffer.v
Filter.v
SenderRewrite.v
Received.v
DatagramListener.v
DatagramFilter.v
Accounting.v
Listener.v
Shutdown.v
ConfigFacts.v
ConfigDe.v
Stats.v
Daemon.v
System.v
Policy.v
DatagramPolicy.v
ClientTime.v
Client.v
EndToEnd.v
Reconnect.v
ClientC.v
JsonText.v
UnitTests.v
DaemonTests.v
ConfigTests.v
ValidatorTests.v
JsonTests.v
