(* ===== verification/Prelude.v ===== *)
(** * logfence: a validating syslog filter, verified

    logfence stands between the programs of a host and rsyslog.  The daemon
    [logfenced] takes RFC 5424 messages from a Unix stream or datagram socket,
    checks that the payload is a JSON object (and, in strict mode, that it
    matches a schema), and forwards what passes; what does not is dropped and
    reported.  A client library (Rust and C) builds and sends such messages.

    ** Parts of the program and where they are modelled

    Shared: this file (results with panics, bytes, machine integers, tactics
    and hint databases), [RustStd] (the part of the standard library the
    sources use: UTF-8, slices that check boundaries, string searches,
    integers in text, I/O errors).

    [logfence-proto] ([src/crates/logfence-proto/src]):
    - [syslog.rs]: [Syslog] (types, [parse] with all helpers, [display]);
      facts in [SyslogFacts] (header fields), [Timestamp] (the timestamp
      grammar), [StructuredData] (the two passes over STRUCTURED-DATA) and
      [SyslogRoundtrip] (round trips, panics);
    - [frame.rs]: [Frame] (both codecs as instances of a [Decoder] and an
      [Encoder] class, the frames and faults of each as an independent
      [FrameGrammar], and the [DecoderLaws] the session relies on).

    [logfence-daemon] ([src/crates/logfence-daemon/src]):
    - [config.rs]: [Config], [ConfigFacts]; [ConfigDe] (the derived
      deserializer, from TOML tables);
    - [validator.rs]: [Json] (values, key order, [sorted_value]) and
      [Validator]; [Sample] instantiates the crate interfaces, and
      [JsonText] does so with a reader and printer of JSON text;
    - [metrics.rs]: [Metrics] (counters), [Stats] (stats socket);
    - [forwarder.rs]: [Forwarder]; [session.rs]: [Session], on the effects
      of [Effects]; what a session promises: [SessionFacts] (the fence,
      reads), [SessionBuffer] (what it holds in memory), [Filter] (the
      abstract specification it refines), [SenderRewrite], [Received] (what
      rsyslog reads from the texts sent);
    - [datagram_listener.rs]: [DatagramListener] (its [bind] in [Listener];
      the pool as a filter in [DatagramFilter]); [listener.rs]: [Listener]; [Accounting]: the counters all
      tasks share; [Shutdown]: both listeners after the token is cancelled,
      behind the interface [ListenerTask];
    - [main.rs]: [Daemon] (command line, logging, start-up, signals),
      [System] (the process: handler, listener and token interleaved) and
      [Policy] and [DatagramPolicy] (which configuration judges a session's
      messages, or the datagrams of the pool, while SIGHUPs arrive).

    [logfence-client] and [logfence-client-c]: [ClientTime] (the date of the
    clock), [Client] (builder and transports), [EndToEnd] (a client's
    transport composed with the daemon's receiver), [Reconnect] (the same
    across broken connections), [ClientC] (the C functions).

    The sources' own unit tests are run on the model in [SyslogTests],
    [UnitTests], [DaemonTests], [ConfigTests], [ValidatorTests] and
    [JsonTests].

    ** How code becomes definitions

    A fallible function returns [res E A]: a value, an error, or [Panic],
    which every index and slice the source leaves to run time can give.  A
    string is the list of its UTF-8 bytes; slicing checks character
    boundaries.  A machine integer is a [Z] with the wrapping, saturating and
    checked operations written out.

    An asynchronous task is a function over a [World]: the answers of the
    operating system to the calls the task will make, the trace of the calls
    it made, its connection slot, the shutdown token, the counters, and the
    validator in the watch channel with the updates that arrive before each
    [borrow].  The outcome is [Done], [Panicked], or [Waiting] when the
    answers are used up, so a statement about every world is one about every
    moment at which the task may be suspended.  What runs concurrently with shared
    progress (the datagram pool, the accept loop, the process) is a step
    relation, and its theorems are about every reachable state; a liveness
    theorem ([settles] of Shutdown.v) says that from there every run is
    finite and that a run may only stop where the goal is reached.  Which
    steps a run may not put off for ever is part of the statement: with the
    [due] steps nothing is asked of clients or of rsyslog (a worker that is
    in a call to the forwarder, its retries included, may stay there for
    ever), and with the others the calls under way return.

    Code that is not in the repository enters as a class or a section
    variable: [SerdeJson] and [JsonSchema] (with laws in [SerdeJsonLaws] and
    [JsonSchemaLaws] where a theorem needs them, shown satisfiable by
    [Sample] and by [JsonText]),
    [TomlDe] (TOML text to tables, with [TomlDeLaws]; an instance is in
    [ConfigTests]), [decode_eof] (tokio_util's documented default), the log
    filter and subscriber, the file system, the [Debug]
    rendering of a character, the process id and the clock.

    ** What the theorems show

    - The fence ([session_fence], [datagram_fence]): whatever a client sends
      and however the system answers, every byte string handed to rsyslog is
      a message that is a frame of the client's bytes and was accepted by a
      validator in force, prepared for output, or a rejection report on such
      a message or on bytes that show the fault it names; and what rsyslog
      reads from it is that message or report ([session_sends_messages]).
    - The filter ([session_refines_filter], [session_at_most_once]): a
      session implements a function from the client's messages to texts for
      rsyslog and counters; exactly, when the receiver takes everything, and
      never twice or out of order whatever the system answers.
    - Messages ([parse_display_roundtrip], [parse_display_idempotent],
      [parse_grammar_complete], [validate_timestamp_iff]): the parser accepts
      the grammar of RFC 5424 (but for one form of SD-ID,
      [sd_id_backslash_refused]) and some timestamps beyond it
      ([lenient_timestamps]), reads back what is rendered, and its result is a
      fixed point; it does not panic on ASCII ([parse_ascii_no_panic]) but
      does on some UTF-8 ([parse_utf8_can_panic]).
    - Framing ([octet_roundtrip], [delimiter_roundtrip],
      [octet_decode_consumes]) and its use in a session: a stream cut into
      reads in any way has the effect of its messages in order
      ([session_chunking]), what is held between reads is bounded
      ([session_buffer_bounded]), and an error discards the buffer
      ([session_discards_after_error]).
    - Validation ([validate_accepts_iff], [validate_rejects_iff],
      [sorted_value_canonical], [prepare_preserves_document],
      [prepare_revalidates]).
    - Accounting ([session_metrics] for one task, [shared_counters] for all):
      received = forwarded + dropped + errors, up to the messages in flight.
    - Forwarding ([send_dgram_retries], [send_dgram_exhausts],
      [send_dgram_terminates], [dgram_attempt_delay_spec],
      [forward_dgram_cancels], [forward_stream_spec]) and the sender rewrite
      ([rewrite_sender_roundtrip], [rewrite_sender_corrupts_msg]).
    - Listeners ([datagram_dispatch], [dead_worker_ends_reception],
      [accept_limit]) and their end: both come to it, however they are
      scheduled ([accept_loop_drains], [datagram_pool_drains]), unless the
      datagram loop is held up behind a full channel
      ([full_channel_blocks_shutdown]); with a limit above [u32::MAX] the
      accept loop does not wait for all sessions
      ([clean_return_leaves_session]).
    - Configuration: what [load] answers for every file, down to the entry
      that is missing or of the wrong type ([load_outcome],
      [load_accepts_iff]).
    - Life cycle ([build_validator_spec], [reload_keeps_last_good],
      [exits_only_after_sigterm], [sigterm_ends_the_process]); and the
      daemon as an enforcer of its configuration: with a session, or the
      pool of datagram workers, and the signal handler interleaved in any
      way, each message is judged by the last configuration that could be
      loaded and answered at most once ([daemon_enforces_policy],
      [datagram_daemon_enforces_policy]).
    - The client, end to end with the daemon ([civil_from_days_correct],
      [epoch_secs_timestamp_valid], [builder_roundtrip],
      [client_send_decodes], [datagram_end_to_end], [stream_end_to_end],
      [lf_send_delivers]); and when the stream breaks, messages are handled
      once each, in order, and the frame cut short has no effect
      ([stream_reconnect]).
    - Conformance ([syslog_tests_pass], [unit_tests_pass],
      [daemon_tests_pass], [session_tests_pass], [lf_send_tests_pass],
      [builder_tests_pass], [config_tests_pass], [validator_tests_pass],
      [json_tests_pass]): the authors' tests hold of the definitions.

    ** Fuel

    Loops that are not structural take fuel, and it is shown to suffice: the
    STRUCTURED-DATA loops get the length of the text plus one
    ([validate_structured_data_content_terminates]); the decode loops the
    length of the buffer plus one ([decode_loop_fuel], [eof_loop_fuel]; each
    message takes a byte); the retry loop one more than the answers there are
    ([retry_loop_done]; each attempt takes one); decimal printing the bit
    length of the number ([parse_show]); [trim] the length of the text; the
    JSON reader the length of the text plus one ([read_print]: enough for
    every printed value).

    ** Not modelled

    The text of log records, memory management of the C interface, the
    scheduler's fairness and the passing of time (a sleep is an event with
    its length; a drain timeout is a step that may be taken at any moment of
    the drain), failures of allocation (a [reserve] beyond [isize::MAX] is a
    panic of the model, the allocation of the datagram listener's receive
    buffer always succeeds), the derived [Serialize] of the configuration,
    which nothing calls, and atomics weaker than sequential consistency.  A call to
    the operating system is one step, and so is the work between two calls:
    a reader of the counters can see a message received and not yet counted
    again only while its task waits.  The reading of TOML text and the internals
    of [serde_json] and [jsonschema] are other crates' code: the theorems hold
    for every instance of their interfaces, and the tests run on the instances
    given here.

    ** Further work

    The stats socket as a part of the process of [System]; the sessions and
    workers as parts of it, in one world instead of one each. *)

From stdpp Require Import prelude strings list countable.
From Stdlib Require Export Init.Byte.
From Stdlib Require Strings.Byte.

From Stdlib Require Import ZArith Lia.

#[global] Open Scope Z_scope.

(** ** Computations that can fail or panic

    A Rust function returning [Result<A, E>] may also unwind (slice or index
    out of range).  [res E A] has one constructor for each of the three
    outcomes. *)
Inductive res (E A : Type) : Type :=
| Ok (a : A)
| Err (e : E)
| Panic.
Arguments Ok {E A} a.
Arguments Err {E A} e.
Arguments Panic {E A}.

(** The [?] operator: an error (or a panic) leaves the function at once. *)
Declare Scope res_scope.
Delimit Scope res_scope with res.
#[global] Open Scope res_scope.

Notation "'let?' x := m 'in' k" :=
  (match m with Ok x => k | Err e => Err e | Panic => Panic end)
  (at level 10, x strict pattern, m at level 100, k at level 200)
   : res_scope.

(** Short-circuiting [||] whose operands may panic. *)
Notation "a '||?' c" :=
  (match a with Ok true => Ok true | Ok false => c | Err e => Err e | Panic => Panic end)
  (at level 70, right associativity) : res_scope.

Definition map_err {E F A} (f : E -> F) (m : res E A) : res F A :=
  match m with Ok a => Ok a | Err e => Err (f e) | Panic => Panic end.

Definition ok_or {E A} (o : option A) (e : E) : res E A :=
  match o with Some a => Ok a | None => Err e end.

(** [Option] results of operations that panic on [None] (indexing). *)
Definition or_panic {E A} (o : option A) : res E A :=
  match o with Some a => Ok a | None => Panic end.

Definition is_ok {E A} (m : res E A) : bool :=
  match m with Ok _ => true | _ => false end.

Definition panics {E A} (m : res E A) : Prop := m = Panic.

Lemma ok_or_ok {E A} (o : option A) (e : E) a :
  ok_or o e = Ok a -> o = Some a.
Proof. destruct o; simpl; congruence. Qed.

Lemma map_err_ok {E F A} (f : E -> F) (m : res E A) a :
  map_err f m = Ok a -> m = Ok a.
Proof. destruct m; simpl; congruence. Qed.

(** ** Bytes and strings

    A Rust [&[u8]] is a list of bytes; a Rust [&str] is one whose UTF-8
    well-formedness is the predicate [utf8_valid] of [RustStd]. *)
Abbreviation bytes := (list byte).

Definition lit (s : string) : bytes := String.list_byte_of_string s.
Arguments lit s%_string.

Definition bz (c : byte) : Z := Z.of_N (Byte.to_N c).

Lemma bz_range c : 0 <= bz c <= 255.
Proof. unfold bz. pose proof (Byte.to_N_bounded c). lia. Qed.

Lemma bz_inj c d : bz c = bz d -> c = d.
Proof.
  unfold bz. intros H. apply N2Z.inj in H.
  pose proof (Byte.of_to_N c) as Hc. pose proof (Byte.of_to_N d) as Hd.
  rewrite H in Hc. congruence.
Qed.

Lemma beq_spec (c d : byte) : reflect (c = d) (Byte.eqb c d).
Proof.
  destruct (Byte.eqb c d) eqn:E; constructor.
  - by apply Byte.byte_dec_bl.
  - by apply Byte.eqb_false.
Qed.

Lemma beq_refl c : Byte.eqb c c = true.
Proof. by apply Byte.byte_dec_lb. Qed.

Lemma beq_ne c d : c <> d -> Byte.eqb c d = false.
Proof. by destruct (beq_spec c d). Qed.

#[export] Instance byte_eq_dec : EqDecision byte.
Proof. exact Byte.byte_eq_dec. Defined.

#[export] Instance byte_countable : Countable byte.
Proof.
  apply (inj_countable Byte.to_N Byte.of_N). intros c. apply Byte.of_to_N.
Defined.

(** The length of a byte string as a machine integer. *)
Definition len (s : bytes) : Z := Z.of_nat (length s).

Lemma len_app s t : len (s ++ t) = len s + len t.
Proof. unfold len. rewrite length_app. lia. Qed.

Lemma len_nonneg s : 0 <= len s.
Proof. unfold len. lia. Qed.

(** ** Machine integers *)
Definition u8_max : Z := 2 ^ 8 - 1.
Definition u32_max : Z := 2 ^ 32 - 1.
Definition u64_max : Z := 2 ^ 64 - 1.
Definition usize_max : Z := u64_max.

(** [isize::MAX]: no allocation is larger. *)
Definition isize_max : Z := 2 ^ 63 - 1.

Definition wrap (w : Z) (z : Z) : Z := z mod 2 ^ w.

Lemma wrap_small w z : 0 <= z < 2 ^ w -> wrap w z = z.
Proof. intros. by apply Z.mod_small. Qed.

(** ** Loops over a byte string *)

(** The length of the longest prefix of [s] whose bytes satisfy [p]: the
    number of iterations of [while pos < b.len() && p(b[pos]) { pos += 1 }]. *)
Fixpoint span_len (p : byte -> bool) (s : bytes) : nat :=
  match s with
  | c :: r => if p c then S (span_len p r) else 0%nat
  | [] => 0%nat
  end.

Lemma span_len_le p s : (span_len p s <= length s)%nat.
Proof. induction s as [|c r IH]; simpl; [lia|]. destruct (p c); lia. Qed.

Lemma span_len_app p s c t :
  Forall (fun d => p d = true) s -> p c = false ->
  span_len p (s ++ c :: t) = length s.
Proof.
  intros Hs Hc. induction Hs as [|d s Hd Hs IH]; simpl.
  - by rewrite Hc.
  - by rewrite Hd, IH.
Qed.

Lemma span_len_all p s :
  Forall (fun d => p d = true) s -> span_len p s = length s.
Proof. induction 1 as [|d s Hd Hs IH]; simpl; [done|]. by rewrite Hd, IH. Qed.

Lemma span_len_take p s : Forall (fun d => p d = true) (take (span_len p s) s).
Proof.
  induction s as [|c r IH]; simpl; [constructor|].
  destruct (p c) eqn:E; simpl; constructor; done.
Qed.

Lemma forallb_Forall {A} (f : A -> bool) l :
  forallb f l = true <-> Forall (fun x => f x = true) l.
Proof.
  induction l as [|x l IH]; simpl; [by split|].
  rewrite andb_true_iff, Forall_cons_iff. tauto.
Qed.

(** *** Numbers in a small range *)

(** [p] holds for [n] numbers from [z] on. *)
Fixpoint all_from (p : Z -> bool) (n : nat) (z : Z) : bool :=
  match n with
  | O => true
  | S k => p z && all_from p k (z + 1)
  end.

Lemma all_from_spec p n z k :
  all_from p n z = true -> z <= k < z + Z.of_nat n -> p k = true.
Proof.
  revert z. induction n as [|n IH]; intros z H Hk; [lia|]. cbn [all_from] in H.
  apply andb_true_iff in H as [Hz H]. destruct (Z.eq_dec z k) as [->|]; [done|].
  apply (IH (z + 1)); [done|lia].
Qed.

Lemma drop_past {A} (a b : list A) c : drop (S (length a)) (a ++ c :: b) = b.
Proof. induction a as [|d a IH]; [done|]. exact IH. Qed.

(** ** Automation *)

(** The lemmas that settle the common cases of this library. *)
Create HintDb logfence.
Create Rewrite HintDb logfence.
#[export] Hint Resolve bz_range len_nonneg beq_refl beq_ne span_len_le : logfence.
#[export] Hint Rewrite beq_refl len_app @length_app : logfence.

(** Case analysis on the innermost scrutinee of the goal: a computation a
    [let?] inspects, or the condition of a conditional. *)
Ltac atomic_scrutinee m :=
  lazymatch m with
  | context [match _ with _ => _ end] => fail
  | _ => idtac
  end.

Ltac destruct_inner :=
  match goal with
  | |- context [match ?m with _ => _ end] => atomic_scrutinee m; destruct m eqn:?
  end.

(** Run a monadic hypothesis [H : ... = Ok _] to the values it produced. *)
Ltac inv_res H :=
  repeat match type of H with
         | context [match ?m with Ok _ => _ | Err _ => _ | Panic => _ end] =>
             destruct m eqn:?; [|discriminate H|discriminate H]
         | context [match ?p with (_, _) => _ end] => destruct p
         | context [if ?b then _ else _] =>
             destruct b eqn:?; try discriminate H
         end.

(** Decide every comparison of bytes in sight. *)
Ltac byte_cases :=
  repeat match goal with
         | |- context [Byte.eqb ?c ?d] => destruct (beq_spec c d); subst
         | H : context [Byte.eqb ?c ?d] |- _ => destruct (beq_spec c d); subst
         end.

(** [lia] with the quotients and remainders of the goal expanded. *)
Ltac dlia := Z.to_euclidean_division_equations; lia.

(** Boolean comparisons of positions, as the inequalities they decide. *)
Ltac nat_bools :=
  repeat match goal with
         | H : _ && _ = true |- _ => apply andb_true_iff in H as [? ?]
         | H : negb _ = true |- _ => apply negb_true_iff in H
         | H : negb _ = false |- _ => apply negb_false_iff in H
         | H : Nat.leb _ _ = true |- _ => apply Nat.leb_le in H
         | H : Nat.leb _ _ = false |- _ => apply Nat.leb_gt in H
         | H : Nat.ltb _ _ = true |- _ => apply Nat.ltb_lt in H
         | H : Nat.ltb _ _ = false |- _ => apply Nat.ltb_ge in H
         | H : Nat.eqb _ _ = true |- _ => apply Nat.eqb_eq in H
         | H : Nat.eqb _ _ = false |- _ => apply Nat.eqb_neq in H
         end.
