(* ===== verification/RustStd.v ===== *)
(** * The part of the Rust standard library the sources use

    UTF-8 validation and slicing of [str], the string searches, and decimal
    and octal integers, as the language's documentation gives them. *)

From stdpp Require Import prelude strings list.
From Stdlib Require Import ZArith Lia.
From S2P Require Import Prelude.

(** ** UTF-8 *)

(** A continuation byte [10xxxxxx]. *)
Definition is_cont (c : byte) : bool := (128 <=? bz c) && (bz c <=? 191).

Definition is_ascii (c : byte) : bool := bz c <? 128.

(** The second byte of a three-byte sequence led by [c0] (no overlong form,
    no surrogate). *)
Definition second3 (c0 c1 : byte) : bool :=
  if bz c0 =? 224 then (160 <=? bz c1) && (bz c1 <=? 191)
  else if bz c0 =? 237 then (128 <=? bz c1) && (bz c1 <=? 159)
  else is_cont c1.

(** The second byte of a four-byte sequence led by [c0] (no overlong form,
    nothing above U+10FFFF). *)
Definition second4 (c0 c1 : byte) : bool :=
  if bz c0 =? 240 then (144 <=? bz c1) && (bz c1 <=? 191)
  else if bz c0 =? 244 then (128 <=? bz c1) && (bz c1 <=? 143)
  else is_cont c1.

(** Well-formed UTF-8: what [std::str::from_utf8] accepts. *)
Fixpoint utf8_valid (s : bytes) : bool :=
  match s with
  | [] => true
  | c0 :: r =>
      if bz c0 <? 128 then utf8_valid r
      else if bz c0 <? 194 then false
      else if bz c0 <? 224 then
        match r with
        | c1 :: r1 => is_cont c1 && utf8_valid r1
        | _ => false
        end
      else if bz c0 <? 240 then
        match r with
        | c1 :: c2 :: r2 => second3 c0 c1 && is_cont c2 && utf8_valid r2
        | _ => false
        end
      else if bz c0 <? 245 then
        match r with
        | c1 :: c2 :: c3 :: r3 =>
            second4 c0 c1 && is_cont c2 && is_cont c3 && utf8_valid r3
        | _ => false
        end
      else false
  end.

(** [std::str::from_utf8]; the error value carries nothing the sources use. *)
Definition from_utf8 (b : bytes) : option bytes :=
  if utf8_valid b then Some b else None.

(** [str::chars], each [char] as its code point.  Only meaningful on
    well-formed UTF-8. *)
Fixpoint chars (s : bytes) : list Z :=
  match s with
  | [] => []
  | c0 :: r =>
      if bz c0 <? 128 then bz c0 :: chars r
      else if bz c0 <? 224 then
        match r with
        | c1 :: r1 =>
            (bz c0 mod 32) * 64 + bz c1 mod 64 :: chars r1
        | _ => []
        end
      else if bz c0 <? 240 then
        match r with
        | c1 :: c2 :: r2 =>
            (bz c0 mod 16) * 4096 + (bz c1 mod 64) * 64 + bz c2 mod 64 :: chars r2
        | _ => []
        end
      else
        match r with
        | c1 :: c2 :: c3 :: r3 =>
            (bz c0 mod 8) * 262144 + (bz c1 mod 64) * 4096
            + (bz c2 mod 64) * 64 + bz c3 mod 64 :: chars r3
        | _ => []
        end
  end.

(** [str::is_char_boundary]. *)
Definition is_char_boundary (s : bytes) (i : nat) : bool :=
  match i with
  | O => true
  | _ =>
      match s !! i with
      | Some c => negb (is_cont c)
      | None => Nat.eqb i (length s)
      end
  end.

(** [&s[i..j]] on a [str]: [None] is the panic. *)
Definition str_slice (s : bytes) (i j : nat) : option bytes :=
  if (Nat.leb i j && is_char_boundary s i && is_char_boundary s j)
  then Some (take (j - i) (drop i s)) else None.

(** [b[i]] and [&b[i..j]] on a byte slice. *)
Definition index {E} (b : bytes) (i : nat) : res E byte := or_panic (b !! i).

Definition slice {E} (b : bytes) (i j : nat) : res E bytes :=
  if (Nat.leb i j && Nat.leb j (length b))
  then Ok (take (j - i) (drop i b)) else Panic.

(** ** Searching strings

    Every pattern the sources search for is ASCII, so a byte search finds
    what [str]'s [char] search finds. *)
Fixpoint strip_prefix (p s : bytes) : option bytes :=
  match p, s with
  | [], _ => Some s
  | c :: p', d :: s' => if Byte.eqb c d then strip_prefix p' s' else None
  | _, _ => None
  end.

Definition starts_with (p s : bytes) : bool :=
  match strip_prefix p s with Some _ => true | None => false end.

(** [str::split_once] at the first occurrence of [c]. *)
Fixpoint split_once (c : byte) (s : bytes) : option (bytes * bytes) :=
  match s with
  | [] => None
  | d :: r =>
      if Byte.eqb d c then Some ([], r)
      else match split_once c r with
           | Some (a, t) => Some (d :: a, t)
           | None => None
           end
  end.

(** [iter().position(|b| b == c)]. *)
Fixpoint position (c : byte) (s : bytes) : option nat :=
  match s with
  | [] => None
  | d :: r => if Byte.eqb d c then Some 0%nat else S <$> position c r
  end.

(** [trim_start_matches] / [trim_end_matches] with a set of characters. *)
Fixpoint trim_start_matches (p : byte -> bool) (s : bytes) : bytes :=
  match s with
  | c :: r => if p c then trim_start_matches p r else s
  | [] => []
  end.

Fixpoint trim_end_matches (p : byte -> bool) (s : bytes) : bytes :=
  match s with
  | [] => []
  | c :: r =>
      match trim_end_matches p r with
      | [] => if p c then [] else [c]
      | t => c :: t
      end
  end.

(** ** Integers *)

Definition is_ascii_digit (c : byte) : bool := (48 <=? bz c) && (bz c <=? 57).

(** [char::to_digit] for a radix of at most ten. *)
Definition to_digit (radix : Z) (c : byte) : option Z :=
  let d := bz c - 48 in
  if (0 <=? d) && (d <? radix) then Some d else None.

(** The digit loop of [from_str_radix] with its checked multiply and add. *)
Fixpoint digits_value (radix max acc : Z) (s : bytes) : option Z :=
  match s with
  | [] => Some acc
  | c :: r =>
      match to_digit radix c with
      | None => None
      | Some d =>
          let acc' := acc * radix + d in
          if acc' <=? max then digits_value radix max acc' r else None
      end
  end.

(** [<uN>::from_str_radix]: empty strings and a lone sign are errors, a
    leading [+] is accepted, overflow is an error. *)
Definition from_str_radix (radix max : Z) (s : bytes) : option Z :=
  match s with
  | [] => None
  | c :: r =>
      if Byte.eqb c "+" then
        match r with [] => None | _ => digits_value radix max 0 r end
      else digits_value radix max 0 s
  end.

(** [str::parse::<uN>]. *)
Definition parse_uint (max : Z) (s : bytes) : option Z := from_str_radix 10 max s.

Definition digit_byte (d : Z) : byte :=
  default "0"%byte (Byte.of_N (Z.to_N (48 + d))).

(** [to_string] of an unsigned integer, least significant digit first.  The
    fuel is the bit length of the number, which bounds its decimal length. *)
Fixpoint rev_digits (fuel : nat) (n : Z) : bytes :=
  match fuel with
  | O => []
  | S f =>
      digit_byte (n mod 10) :: (if n <? 10 then [] else rev_digits f (n / 10))
  end.

Definition show_uint (n : Z) : bytes :=
  reverse (rev_digits (S (Z.to_nat (Z.log2 n))) n).

(** [{:0w$}]: zero-padded to [w] digits. *)
Definition show_pad (w : nat) (n : Z) : bytes :=
  let s := show_uint n in replicate (w - length s) "0"%byte ++ s.

(** ** I/O errors

    [std::io::Error] as far as the programs look at it: its kind (those they
    name, and the rest) and the raw OS error number.  [io_other] is
    [io::Error::other]. *)
Inductive ErrorKind : Type := WouldBlock | NotConnected | OtherKind.

Record io_error : Type := mkIoError {
  io_kind : ErrorKind;
  raw_os_error : option Z;
  io_text : bytes
}.

Definition io_other (text : bytes) : io_error := mkIoError OtherKind None text.

#[export] Instance ErrorKind_eq_dec : EqDecision ErrorKind.
Proof. solve_decision. Defined.
#[export] Instance io_error_eq_dec : EqDecision io_error.
Proof. solve_decision. Defined.

(** ** Facts on UTF-8 *)

Lemma is_ascii_cont c : is_ascii c = true -> is_cont c = false.
Proof. unfold is_ascii, is_cont. intros. lia. Qed.

Lemma second3_cont c0 c1 : second3 c0 c1 = true -> is_cont c1 = true.
Proof. unfold second3, is_cont. intros. repeat case_match; lia. Qed.

Lemma second4_cont c0 c1 : second4 c0 c1 = true -> is_cont c1 = true.
Proof. unfold second4, is_cont. intros. repeat case_match; lia. Qed.

Lemma utf8_valid_ascii s :
  Forall (fun c => is_ascii c = true) s -> utf8_valid s = true.
Proof.
  induction 1 as [|c s Hc Hs IH]; simpl; [done|].
  unfold is_ascii in Hc. by rewrite Hc.
Qed.

(** A byte that can complete no multi-byte sequence splits a string into two
    strings that are well formed exactly when the whole is. *)
Lemma utf8_valid_split a c b :
  is_ascii c = true ->
  utf8_valid (a ++ c :: b) = utf8_valid a && utf8_valid b.
Proof.
  intros Hc. pose proof (is_ascii_cont c Hc) as Hk.
  assert (H3 : forall x, second3 x c = false).
  { intros x. destruct (second3 x c) eqn:E; [|done]. apply second3_cont in E. congruence. }
  assert (H4 : forall x, second4 x c = false).
  { intros x. destruct (second4 x c) eqn:E; [|done]. apply second4_cont in E. congruence. }
  remember (length a) as n eqn:Hn. revert a Hn.
  induction n as [n IH] using lt_wf_ind. intros a ->.
  destruct a as [|c0 a]; simpl.
  - unfold is_ascii in Hc. by rewrite Hc.
  - destruct (bz c0 <? 128); [apply (IH (length a)); simpl; lia|].
    destruct (bz c0 <? 194); [done|].
    destruct (bz c0 <? 224).
    { destruct a as [|c1 a]; simpl; [by rewrite Hk|].
      rewrite (IH (length a)) by (simpl; lia). by rewrite andb_assoc. }
    destruct (bz c0 <? 240).
    { destruct a as [|c1 [|c2 a]]; simpl.
      - destruct b; [done|]. by rewrite H3.
      - rewrite Hk. by rewrite !andb_false_r.
      - rewrite (IH (length a)) by (simpl; lia). by rewrite andb_assoc. }
    destruct (bz c0 <? 245); [|done].
    destruct a as [|c1 [|c2 [|c3 a]]]; simpl.
    + destruct b as [|? [|? b]]; try done. by rewrite H4.
    + destruct b as [|? b]; try done. rewrite Hk. by rewrite !andb_false_r.
    + rewrite Hk. by rewrite !andb_false_r.
    + rewrite (IH (length a)) by (simpl; lia). by rewrite andb_assoc.
Qed.

Lemma utf8_valid_app a b :
  utf8_valid a = true -> utf8_valid (a ++ b) = utf8_valid b.
Proof.
  remember (length a) as n eqn:Hn. revert a Hn.
  induction n as [n IH] using lt_wf_ind. intros a -> Ha.
  destruct a as [|c0 a]; [done|]; simpl in *.
  destruct (bz c0 <? 128); [apply (IH (length a)); simpl; auto; lia|].
  destruct (bz c0 <? 194); [done|].
  destruct (bz c0 <? 224).
  { destruct a as [|c1 a]; [done|]; simpl in *.
    apply andb_true_iff in Ha as [-> Ha]. apply (IH (length a)); auto; lia. }
  destruct (bz c0 <? 240).
  { destruct a as [|c1 [|c2 a]]; try done; simpl in *.
    apply andb_true_iff in Ha as [-> Ha]. apply (IH (length a)); auto; lia. }
  destruct (bz c0 <? 245); [|done].
  destruct a as [|c1 [|c2 [|c3 a]]]; try done; simpl in *.
  apply andb_true_iff in Ha as [-> Ha]. apply (IH (length a)); auto; lia.
Qed.

Lemma chars_ascii s :
  Forall (fun c => is_ascii c = true) s -> chars s = map bz s.
Proof.
  induction 1 as [|c s Hc Hs IH]; simpl; [done|].
  unfold is_ascii in Hc. rewrite Hc. by rewrite IH.
Qed.

(** A [char] outside ASCII has a code point of at least 128, so a string whose
    [char]s are all ASCII has only ASCII bytes. *)
Lemma chars_forall_ascii (P : Z -> Prop) s :
  (forall z, P z -> z < 128) ->
  utf8_valid s = true -> Forall P (chars s) -> Forall (fun c => P (bz c)) s.
Proof.
  intros HP. remember (length s) as n eqn:Hn. revert s Hn.
  induction n as [n IH] using lt_wf_ind. intros s -> Hv Hs.
  destruct s as [|c0 s]; [constructor|]; cbn [utf8_valid chars] in *.
  pose proof (bz_range c0).
  destruct (bz c0 <? 128) eqn:E0.
  { apply Forall_cons in Hs as [H0 Hs]. constructor; [done|].
    apply (IH (length s)); simpl; auto; lia. }
  destruct (bz c0 <? 194) eqn:E1; [done|].
  exfalso. destruct (bz c0 <? 224) eqn:E2.
  { destruct s as [|c1 s]; [done|]. apply Forall_cons in Hs as [H0 _].
    apply HP in H0. pose proof (bz_range c1). dlia. }
  destruct (bz c0 <? 240) eqn:E3.
  { destruct s as [|c1 [|c2 s]]; try done. apply Forall_cons in Hs as [H0 _].
    apply HP in H0. pose proof (bz_range c1). unfold second3, is_cont in Hv.
    repeat case_match; dlia. }
  destruct (bz c0 <? 245) eqn:E4; [|done].
  destruct s as [|c1 [|c2 [|c3 s]]]; try done. apply Forall_cons in Hs as [H0 _].
  apply HP in H0. pose proof (bz_range c1). unfold second4, is_cont in Hv.
  repeat case_match; dlia.
Qed.

Lemma chars_nil s : utf8_valid s = true -> chars s = [] -> s = [].
Proof.
  destruct s as [|c0 s]; [done|]; cbn [utf8_valid chars]. intros Hv Hc.
  repeat case_match; simplify_eq; done.
Qed.

(** ** Facts on searches *)

Lemma strip_prefix_app p s : strip_prefix p (p ++ s) = Some s.
Proof. induction p as [|c p IH]; simpl; [done|]. by rewrite beq_refl. Qed.

Lemma strip_prefix_some p s r : strip_prefix p s = Some r -> s = p ++ r.
Proof.
  revert s. induction p as [|c p IH]; intros s; simpl; [congruence|].
  destruct s as [|d s]; [done|]. destruct (beq_spec c d); [|done].
  intros H. subst. by rewrite (IH _ H).
Qed.

Lemma starts_with_iff p s : starts_with p s = true <-> exists r, s = p ++ r.
Proof.
  unfold starts_with. split.
  - destruct (strip_prefix p s) eqn:E; [|done]. intros _. eauto using strip_prefix_some.
  - intros [r ->]. by rewrite strip_prefix_app.
Qed.

Lemma split_once_app c a b : c ∉ a -> split_once c (a ++ c :: b) = Some (a, b).
Proof.
  induction a as [|d a IH]; intros Hn; simpl; [by rewrite beq_refl|].
  apply not_elem_of_cons in Hn as [Hd Hn]. rewrite beq_ne by done. by rewrite IH.
Qed.

Lemma split_once_some c s a b :
  split_once c s = Some (a, b) -> s = a ++ c :: b /\ c ∉ a.
Proof.
  revert a. induction s as [|d s IH]; intros a; simpl; [done|].
  destruct (beq_spec d c) as [->|Hne].
  - intros [= <- <-]. split; [done|]. apply not_elem_of_nil.
  - destruct (split_once c s) as [[a' b']|]; [|done]. intros [= <- <-].
    destruct (IH a' eq_refl) as [-> Hn]. split; [done|].
    apply not_elem_of_cons. by split.
Qed.

Lemma split_once_none c s : split_once c s = None <-> c ∉ s.
Proof.
  split.
  - induction s as [|d s IH]; simpl; [intros; apply not_elem_of_nil|].
    destruct (beq_spec d c); [done|]. destruct (split_once c s) as [[? ?]|]; [done|].
    intros _. apply not_elem_of_cons. split; [done|]. by apply IH.
  - intros H. destruct (split_once c s) as [[a b]|] eqn:E; [|done].
    apply split_once_some in E as [-> _]. exfalso. apply H.
    apply elem_of_app. right. apply elem_of_cons. by left.
Qed.

Lemma position_app c a b : c ∉ a -> position c (a ++ c :: b) = Some (length a).
Proof.
  induction a as [|d a IH]; intros Hn; simpl; [by rewrite beq_refl|].
  apply not_elem_of_cons in Hn as [Hd Hn]. rewrite beq_ne by done. by rewrite IH.
Qed.

Lemma position_some c s n :
  position c s = Some n ->
  s = take n s ++ c :: drop (S n) s /\ (c ∉ take n s) /\ (n < length s)%nat.
Proof.
  revert n. induction s as [|d s IH]; intros n; simpl; [done|].
  destruct (beq_spec d c) as [->|Hne].
  - intros [= <-]. simpl. rewrite drop_0. split_and!; [done|apply not_elem_of_nil|lia].
  - destruct (position c s) as [m|]; [|done]. intros [= <-].
    destruct (IH m eq_refl) as (Hs & Hn & Hl). simpl. split_and!; [congruence| |lia].
    apply not_elem_of_cons. by split.
Qed.

Lemma position_none c s : position c s = None <-> c ∉ s.
Proof.
  split.
  - induction s as [|d s IH]; simpl; [intros; apply not_elem_of_nil|].
    destruct (beq_spec d c); [done|]. destruct (position c s) as [m|]; [done|].
    intros _. apply not_elem_of_cons. split; [done|]. by apply IH.
  - intros H. destruct (position c s) as [n|] eqn:E; [|done].
    apply position_some in E as (Hs & _ & _). exfalso. apply H. rewrite Hs.
    apply elem_of_app. right. apply elem_of_cons. by left.
Qed.

Lemma trim_end_snoc p s c : p c = false -> trim_end_matches p (s ++ [c]) = s ++ [c].
Proof.
  intros Hc. induction s as [|d s IH]; simpl; [by rewrite Hc|].
  rewrite IH. by destruct s.
Qed.

(** What does not end in a matching byte is left alone in front of the rest. *)
Lemma trim_end_app p s t :
  (forall c, last s = Some c -> p c = false) -> trim_end_matches p (s ++ t) = s ++ trim_end_matches p t.
Proof.
  intros Hs. destruct s as [|c s _] using rev_ind; [done|]. specialize (Hs c ltac:(apply last_snoc)).
  rewrite <- !app_assoc. induction s as [|d s IH]; cbn [app trim_end_matches] in *.
  - rewrite Hs. by destruct (trim_end_matches p t).
  - rewrite IH. by destruct s.
Qed.

(** [trim_end_matches] cuts off a suffix of matching bytes ... *)
Lemma trim_end_prefix p s :
  exists t, s = trim_end_matches p s ++ t /\ Forall (fun c => p c = true) t.
Proof.
  induction s as [|c s (t & Hs & Ht)]; simpl; [by exists []|].
  destruct (trim_end_matches p s) as [|d u].
  - destruct (p c) eqn:E.
    + exists (c :: s). simpl in *. subst. split; [done|]. by constructor.
    + exists s. simpl in *. subst. done.
  - exists t. simpl in *. by rewrite Hs at 1.
Qed.

(** ... and leaves a string that does not end in one. *)
Lemma trim_end_last p s c :
  last (trim_end_matches p s) = Some c -> p c = false.
Proof.
  induction s as [|d s IH]; simpl; [done|].
  destruct (trim_end_matches p s) as [|e u] eqn:E.
  - destruct (p d) eqn:Ed; simpl; congruence.
  - rewrite last_cons_cons. exact IH.
Qed.

Lemma trim_end_id p s :
  (forall c, last s = Some c -> p c = false) -> trim_end_matches p s = s.
Proof.
  destruct s as [|c s _] using rev_ind; [done|].
  intros H. apply trim_end_snoc, H. apply last_snoc.
Qed.

(** ** Facts on integers *)

Lemma digit_byte_bz d : 0 <= d <= 9 -> bz (digit_byte d) = 48 + d.
Proof.
  intros Hd. apply Z.eqb_eq, (all_from_spec (fun d => bz (digit_byte d) =? 48 + d) 10 0); [done|lia].
Qed.

Lemma is_digit_ascii c : is_ascii_digit c = true -> is_ascii c = true.
Proof. unfold is_ascii_digit, is_ascii. lia. Qed.

Lemma to_digit_digit_byte d : 0 <= d <= 9 -> to_digit 10 (digit_byte d) = Some d.
Proof.
  intros Hd. unfold to_digit. rewrite digit_byte_bz by done.
  rewrite (proj2 (andb_true_iff _ _)) by lia. f_equal. lia.
Qed.

Lemma digits_value_snoc radix max acc s c v d :
  digits_value radix max acc s = Some v -> to_digit radix c = Some d ->
  v * radix + d <= max ->
  digits_value radix max acc (s ++ [c]) = Some (v * radix + d).
Proof.
  revert acc. induction s as [|e s IH]; intros acc; simpl.
  - intros [= ->] -> Hle. by rewrite (proj2 (Z.leb_le _ _)).
  - destruct (to_digit radix e); [|done]. case_match; [|done]. apply IH.
Qed.

Lemma rev_digits_value max fuel n :
  0 <= n <= max -> n < 2 ^ Z.of_nat fuel ->
  digits_value 10 max 0 (reverse (rev_digits fuel n)) = Some n.
Proof.
  revert n. induction fuel as [|f IH]; intros n Hn Hf.
  { simpl in Hf. assert (n = 0) by lia. by subst. }
  assert (Hm : 0 <= n mod 10 <= 9) by dlia.
  cbn [rev_digits]. rewrite reverse_cons.
  rewrite Nat2Z.inj_succ, Z.pow_succ_r in Hf by lia.
  destruct (Z.ltb_spec n 10) as [Hlt|Hge].
  - cbn. rewrite to_digit_digit_byte by done.
    case_match; [f_equal|]; dlia.
  - erewrite digits_value_snoc; [| |apply to_digit_digit_byte, Hm|].
    + f_equal. instantiate (1 := n / 10). dlia.
    + apply IH; dlia.
    + dlia.
Qed.

Lemma rev_digits_forall fuel n :
  0 <= n -> Forall (fun c => is_ascii_digit c = true) (rev_digits fuel n).
Proof.
  revert n. induction fuel as [|f IH]; intros n Hn; simpl; constructor.
  - unfold is_ascii_digit. rewrite digit_byte_bz by dlia. dlia.
  - destruct (n <? 10); [constructor|]. apply IH. dlia.
Qed.

Lemma show_uint_digits n :
  0 <= n -> Forall (fun c => is_ascii_digit c = true) (show_uint n).
Proof. intros. apply Forall_reverse. by apply rev_digits_forall. Qed.

Lemma show_uint_not_nil n : show_uint n <> [].
Proof.
  unfold show_uint. cbn [rev_digits]. rewrite reverse_cons. intros H. by apply app_eq_nil in H as [_ ?].
Qed.

Lemma log2_fuel n : 0 <= n -> n < 2 ^ Z.of_nat (S (Z.to_nat (Z.log2 n))).
Proof.
  intros Hn. destruct (Z.eq_dec n 0) as [->|Hne]; [done|].
  rewrite Nat2Z.inj_succ, Z2Nat.id by apply Z.log2_nonneg.
  apply Z.log2_spec. lia.
Qed.

(** Printing then parsing an integer that fits gives the integer back. *)
Lemma parse_show max n : 0 <= n <= max -> parse_uint max (show_uint n) = Some n.
Proof.
  intros Hn. unfold parse_uint, from_str_radix.
  pose proof (show_uint_digits n ltac:(lia)) as Hd.
  pose proof (rev_digits_value max _ n Hn (log2_fuel n ltac:(lia))) as Hv.
  fold (show_uint n) in Hv.
  destruct (show_uint n) as [|c r] eqn:E; [by apply show_uint_not_nil in E|].
  apply Forall_cons in Hd as [Hc _].
  destruct (beq_spec c "+") as [->|Hne]; [discriminate Hc|exact Hv].
Qed.

(** The number of digits of a number below a power of ten. *)
Lemma rev_digits_length fuel n k :
  0 <= n < 10 ^ Z.of_nat k -> (0 < k)%nat -> (length (rev_digits fuel n) <= k)%nat.
Proof.
  revert n k. induction fuel as [|f IH]; intros n k Hn Hk; simpl; [lia|].
  destruct (Z.ltb_spec n 10); simpl; [lia|].
  destruct k as [|[|k]]; [lia|simpl in Hn; lia|].
  rewrite Nat2Z.inj_succ, Z.pow_succ_r in Hn by lia.
  specialize (IH (n / 10) (S k)). apply le_n_S, IH; [dlia|lia].
Qed.

Lemma show_uint_length n k :
  0 <= n < 10 ^ Z.of_nat k -> (0 < k)%nat -> (length (show_uint n) <= k)%nat.
Proof. intros. unfold show_uint. rewrite length_reverse. by apply rev_digits_length. Qed.

Lemma digits_value_range radix max acc s v :
  0 <= radix -> 0 <= acc <= max -> digits_value radix max acc s = Some v -> 0 <= v <= max.
Proof.
  revert acc. induction s as [|c s IH]; intros acc Hr Ha; simpl; [congruence|].
  destruct (to_digit radix c) as [d|] eqn:Ed; [|done].
  destruct (Z.leb_spec (acc * radix + d) max); [|done].
  apply IH; [done|]. unfold to_digit in Ed. case_match; simplify_eq. nia.
Qed.

Lemma parse_uint_range max s v : 0 <= max -> parse_uint max s = Some v -> 0 <= v <= max.
Proof.
  unfold parse_uint, from_str_radix. intros Hm H. repeat case_match; try done;
    (eapply (digits_value_range 10 max 0); [lia|lia|eassumption]).
Qed.

(** ** Positions relative to a prefix already read *)

Lemma lookup_app_add (p r : bytes) k : (p ++ r) !! (length p + k)%nat = r !! k.
Proof. rewrite lookup_app_r by lia. f_equal. lia. Qed.

Lemma index_app {E} p r k : @index E (p ++ r) (length p + k) = index r k.
Proof. unfold index. by rewrite lookup_app_add. Qed.

Lemma slice_app {E} p r i j :
  @slice E (p ++ r) (length p + i) (length p + j) = slice r i j.
Proof.
  unfold slice. rewrite length_app.
  replace (Nat.leb (length p + i) (length p + j)) with (Nat.leb i j)
    by (destruct (Nat.leb_spec i j), (Nat.leb_spec (length p + i) (length p + j)); lia).
  replace (Nat.leb (length p + j) (length p + length r)) with (Nat.leb j (length r))
    by (destruct (Nat.leb_spec j (length r)),
          (Nat.leb_spec (length p + j) (length p + length r)); lia).
  replace (length p + j - (length p + i))%nat with (j - i)%nat by lia.
  by rewrite drop_app_add.
Qed.
