(* ===== verification/Syslog.v ===== *)
(** * RFC 5424 messages: [logfence-proto/src/syslog.rs]

    The data types, [SyslogMessage::parse] with all its helpers, and the
    [Display] rendering.  Every byte index and slice that Rust checks at run
    time is checked here too, so a panic is an outcome of the model. *)

From stdpp Require Import prelude strings list.
From Stdlib Require Import ZArith Lia.
From S2P Require Import Prelude RustStd.

(** ** Errors *)

(** The reason text of a rejected field.  [{c:?}] (the [Debug] form of a
    [char], which depends on the Unicode tables) stays symbolic: [RChar pre c]
    is [pre] followed by [{c:?}]. *)
Inductive Reason : Type :=
| RText (s : bytes)
| RChar (pre : bytes) (c : Z).

Inductive ParseError : Type :=
| InvalidPriority (s : bytes)
| MalformedHeader (s : bytes)
| InvalidUtf8
| InvalidField (field : bytes) (reason : Reason).

(** The [Display] implementations [thiserror] derives from the [#[error]]
    attributes; [debug_char] is [<char as Debug>::fmt]. *)
Definition Reason_display (debug_char : Z -> bytes) (r : Reason) : bytes :=
  match r with
  | RText s => s
  | RChar pre c => pre ++ debug_char c
  end.

Definition ParseError_display (debug_char : Z -> bytes) (e : ParseError) : bytes :=
  match e with
  | InvalidPriority s =>
      lit "invalid priority value '" ++ s ++ lit "' (valid range: 0–191)"
  | MalformedHeader s => lit "malformed syslog header: " ++ s
  | InvalidUtf8 => lit "message is not valid UTF-8"
  | InvalidField field reason =>
      lit "invalid " ++ field ++ lit ": " ++ Reason_display debug_char reason
  end.

(** ** Facility, severity, priority *)

Inductive Facility : Type :=
| Kern | User | Mail | Daemon | Auth | Syslog | Lpr | News | Uucp | Cron
| AuthPriv | Ftp | Ntp | LogAudit | LogAlert | Clock
| Local0 | Local1 | Local2 | Local3 | Local4 | Local5 | Local6 | Local7.

Definition Facility_as_u8 (f : Facility) : Z :=
  match f with
  | Kern => 0 | User => 1 | Mail => 2 | Daemon => 3 | Auth => 4 | Syslog => 5
  | Lpr => 6 | News => 7 | Uucp => 8 | Cron => 9 | AuthPriv => 10 | Ftp => 11
  | Ntp => 12 | LogAudit => 13 | LogAlert => 14 | Clock => 15
  | Local0 => 16 | Local1 => 17 | Local2 => 18 | Local3 => 19
  | Local4 => 20 | Local5 => 21 | Local6 => 22 | Local7 => 23
  end.

Definition Facility_from_integer (n : Z) : res ParseError Facility :=
  match n with
  | 0 => Ok Kern | 1 => Ok User | 2 => Ok Mail | 3 => Ok Daemon | 4 => Ok Auth
  | 5 => Ok Syslog | 6 => Ok Lpr | 7 => Ok News | 8 => Ok Uucp | 9 => Ok Cron
  | 10 => Ok AuthPriv | 11 => Ok Ftp | 12 => Ok Ntp | 13 => Ok LogAudit
  | 14 => Ok LogAlert | 15 => Ok Clock | 16 => Ok Local0 | 17 => Ok Local1
  | 18 => Ok Local2 | 19 => Ok Local3 | 20 => Ok Local4 | 21 => Ok Local5
  | 22 => Ok Local6 | 23 => Ok Local7
  | _ => Err (InvalidPriority (show_uint n))
  end.

Inductive Severity : Type :=
| Emergency | Alert | Critical | Error | Warning | Notice | Info | Debug.

Definition Severity_as_u8 (s : Severity) : Z :=
  match s with
  | Emergency => 0 | Alert => 1 | Critical => 2 | Error => 3
  | Warning => 4 | Notice => 5 | Info => 6 | Debug => 7
  end.

Definition Severity_from_integer (n : Z) : Severity :=
  match n with
  | 0 => Emergency | 1 => Alert | 2 => Critical | 3 => Error
  | 4 => Warning | 5 => Notice | 6 => Info | _ => Debug
  end.

Record Priority : Type := mkPriority { facility : Facility; severity : Severity }.

Definition Priority_from_integer (pri : Z) : res ParseError Priority :=
  if 191 <? pri then Err (InvalidPriority (show_uint pri))
  else
    let? f := Facility_from_integer (pri / 8) in
    Ok (mkPriority f (Severity_from_integer (pri mod 8))).

(** [u8] arithmetic. *)
Definition Priority_as_integer (p : Priority) : Z :=
  wrap 8 (wrap 8 (Facility_as_u8 (facility p) * 8) + Severity_as_u8 (severity p)).

(** ** Messages *)

Record SyslogMessage : Type := mkMessage {
  priority : Priority;
  timestamp : option bytes;
  hostname : option bytes;
  app_name : option bytes;
  proc_id : option bytes;
  msg_id : option bytes;
  structured_data : bytes;
  msg : bytes
}.

#[export] Instance Reason_eq_dec : EqDecision Reason.
Proof. solve_decision. Defined.
#[export] Instance ParseError_eq_dec : EqDecision ParseError.
Proof. solve_decision. Defined.
#[export] Instance Facility_eq_dec : EqDecision Facility.
Proof. solve_decision. Defined.
#[export] Instance Severity_eq_dec : EqDecision Severity.
Proof. solve_decision. Defined.
#[export] Instance Priority_eq_dec : EqDecision Priority.
Proof. solve_decision. Defined.
#[export] Instance SyslogMessage_eq_dec : EqDecision SyslogMessage.
Proof. solve_decision. Defined.

(** ** Header fields *)

Definition nil_to_option (s : bytes) : option bytes :=
  if bool_decide (s = lit "-") then None else Some s.

Definition split_header_field (s field_name : bytes)
    : res ParseError (option bytes * bytes) :=
  let? (raw, rest) :=
    ok_or (split_once " " s) (MalformedHeader (lit "expected " ++ field_name)) in
  Ok (nil_to_option raw, rest).

(** PRINTUSASCII, 33 to 126. *)
Definition printusascii (z : Z) : bool := (33 <=? z) && (z <=? 126).

(** The [for c in s.chars()] loop that returns at the first [c] with
    [bad c]. *)
Fixpoint reject_first (bad : Z -> bool) (err : Z -> ParseError) (cs : list Z)
    : res ParseError unit :=
  match cs with
  | [] => Ok tt
  | c :: r => if bad c then Err (err c) else reject_first bad err r
  end.

Definition validate_printusascii_field (s field : bytes) (max_len : Z)
    : res ParseError unit :=
  if bool_decide (s = []) then
    Err (InvalidField field (RText (lit "must not be empty")))
  else if max_len <? len s then
    Err (InvalidField field (RText (lit "exceeds " ++ show_uint max_len
      ++ lit "-character limit (got " ++ show_uint (len s) ++ lit ")")))
  else
    reject_first (fun c => negb (printusascii c))
      (fun c => InvalidField field
         (RChar (lit "contains non-printable ASCII character ") c)) (chars s).

(** ** Timestamps *)

Definition ts_err (reason : string) : ParseError :=
  InvalidField (lit "TIMESTAMP") (RText (lit reason)).
Arguments ts_err reason%_string.

Definition all_digits (b : bytes) : bool :=
  negb (bool_decide (b = [])) && forallb is_ascii_digit b.

(** [(b[0] - b'0') * 10 + (b[1] - b'0')] in [u8]. *)
Definition parse2digit (b : bytes) : res ParseError Z :=
  let? c0 := index b 0 in
  let? c1 := index b 1 in
  Ok (wrap 8 (wrap 8 (wrap 8 (bz c0 - 48) * 10) + wrap 8 (bz c1 - 48))).

(** [!all_digits(&b[i..j])] *)
Definition not_digits (b : bytes) (i j : nat) : res ParseError bool :=
  let? d := slice b i j in Ok (negb (all_digits d)).

(** [b[i] != c] *)
Definition byte_ne (b : bytes) (i : nat) (c : byte) : res ParseError bool :=
  let? d := index b i in Ok (negb (Byte.eqb d c)).

(** [parse2digit(&b[i..j])] *)
Definition digits2 (b : bytes) (i j : nat) : res ParseError Z :=
  let? d := slice b i j in parse2digit d.

(** The timezone part from [pos]: the position just past it. *)
Definition validate_timezone (b : bytes) (pos : nat) : res ParseError nat :=
  let? c := index b pos in
  if Byte.eqb c "Z" then Ok (pos + 1)%nat
  else if Byte.eqb c "+" || Byte.eqb c "-" then
    let pos := (pos + 1)%nat in
    if Nat.ltb (length b) (pos + 5) then Err (ts_err "timezone offset too short")
    else
      let? bad := not_digits b pos (pos + 2) ||? byte_ne b (pos + 2) ":"
                  ||? not_digits b (pos + 3) (pos + 5) in
      if bad then Err (ts_err "timezone offset does not match hh:mm format")
      else
        let? tz_hour := digits2 b pos (pos + 2) in
        let? tz_min := digits2 b (pos + 3) (pos + 5) in
        if (23 <? tz_hour) || (59 <? tz_min)
        then Err (ts_err "timezone offset out of range")
        else Ok (pos + 5)%nat
  else Err (ts_err "invalid timezone indicator (expected 'Z' or '+'/'-')").

(** The optional fraction from [pos]: the position just past it. *)
Definition validate_fraction (b : bytes) (pos : nat) : res ParseError nat :=
  match b !! pos with
  | Some c =>
      if Byte.eqb c "." then
        let pos := (pos + 1)%nat in
        let frac_len := span_len is_ascii_digit (drop pos b) in
        if Nat.leb 1 frac_len && Nat.leb frac_len 6 then Ok (pos + frac_len)%nat
        else Err (ts_err "fractional seconds must be 1–6 digits")
      else Ok pos
  | None => Ok pos
  end.

Definition validate_timestamp (s : bytes) : res ParseError unit :=
  let b := s in
  if Nat.ltb (length b) 20 then Err (ts_err "too short for RFC 5424 timestamp")
  else
    let? bad :=
      not_digits b 0 4 ||? byte_ne b 4 "-" ||? not_digits b 5 7 ||? byte_ne b 7 "-"
      ||? not_digits b 8 10 ||? byte_ne b 10 "T" ||? not_digits b 11 13
      ||? byte_ne b 13 ":" ||? not_digits b 14 16 ||? byte_ne b 16 ":"
      ||? not_digits b 17 19 in
    if bad then Err (ts_err "does not match YYYY-MM-DDThh:mm:ss format")
    else
      let? month := digits2 b 5 7 in
      let? day := digits2 b 8 10 in
      let? hour := digits2 b 11 13 in
      let? minute := digits2 b 14 16 in
      let? second := digits2 b 17 19 in
      if negb ((1 <=? month) && (month <=? 12)) then Err (ts_err "month out of range (01–12)")
      else if negb ((1 <=? day) && (day <=? 31)) then Err (ts_err "day out of range (01–31)")
      else if 23 <? hour then Err (ts_err "hour out of range (00–23)")
      else if 59 <? minute then Err (ts_err "minute out of range (00–59)")
      else if 60 <? second then Err (ts_err "second out of range (00–60)")
      else
        let? pos := validate_fraction b 19 in
        if Nat.leb (length b) pos then Err (ts_err "missing timezone")
        else
          let? pos := validate_timezone b pos in
          if negb (Nat.eqb pos (length b))
          then Err (ts_err "trailing characters after timezone")
          else Ok tt.

(** ** STRUCTURED-DATA: where it ends *)

(** The loop state of [find_structured_data_end]: [Outside] is the head of
    the outer [while]; [Inside in_param_value escaped] the head of the inner
    [loop]. *)
Inductive ScanState : Type :=
| Outside
| Inside (in_param_value escaped : bool).

Fixpoint scan_sd (st : ScanState) (s : bytes) (i : nat) : res ParseError nat :=
  match s with
  | [] =>
      match st with
      | Outside => Ok i
      | Inside _ _ => Err (MalformedHeader (lit "unterminated SD-ELEMENT (missing ']')"))
      end
  | c :: r =>
      match st with
      | Outside => if Byte.eqb c "[" then scan_sd (Inside false false) r (S i) else Ok i
      | Inside pv true => scan_sd (Inside pv false) r (S i)
      | Inside pv false =>
          if Byte.eqb c "\" then scan_sd (Inside pv true) r (S i)
          else if Byte.eqb c x22 then scan_sd (Inside (negb pv) false) r (S i)
          else if Byte.eqb c "]" && negb pv then scan_sd Outside r (S i)
          else scan_sd (Inside pv false) r (S i)
      end
  end.

Definition find_structured_data_end (s : bytes) : res ParseError nat :=
  scan_sd Outside s 0.

Definition parse_structured_data_and_msg (s : bytes) : res ParseError (bytes * bytes) :=
  match strip_prefix (lit "-") s with
  | Some rest => Ok (lit "-", default [] (strip_prefix (lit " ") rest))
  | None =>
      if negb (starts_with (lit "[") s) then
        Err (MalformedHeader (lit "STRUCTURED-DATA must start with '-' or '['"))
      else
        let? sd_end := find_structured_data_end s in
        let? structured_data := or_panic (str_slice s 0 sd_end) in
        let? rest := or_panic (str_slice s sd_end (length s)) in
        Ok (structured_data, default [] (strip_prefix (lit " ") rest))
  end.

(** ** STRUCTURED-DATA: its content *)

Definition sd_err (reason : string) : ParseError :=
  InvalidField (lit "STRUCTURED-DATA") (RText (lit reason)).
Arguments sd_err reason%_string.

Definition sd_name_char (c : Z) : bool :=
  printusascii c && negb ((c =? 61) || (c =? 93) || (c =? 34)).

Definition validate_sd_name (s field : bytes) : res ParseError unit :=
  if bool_decide (s = []) then
    Err (InvalidField field (RText (lit "must not be empty")))
  else if 32 <? len s then
    Err (InvalidField field (RText (lit "exceeds 32-character limit (got "
      ++ show_uint (len s) ++ lit ")")))
  else
    reject_first (fun c => negb (sd_name_char c))
      (fun c => InvalidField field (RChar (lit "contains invalid character ") c)) (chars s).

(** The [loop] that skips a PARAM-VALUE: the number of bytes consumed, the
    closing quote included; [None] when the bytes run out. *)
Fixpoint skip_param_value (escaped : bool) (s : bytes) : option nat :=
  match s with
  | [] => None
  | c :: r =>
      if escaped then S <$> skip_param_value false r
      else if Byte.eqb c "\" then S <$> skip_param_value true r
      else if Byte.eqb c x22 then Some 1%nat
      else S <$> skip_param_value false r
  end.

Definition byte_is (b : bytes) (pos : nat) (c : byte) : bool :=
  match b !! pos with Some d => Byte.eqb d c | None => false end.

(** [while pos < b.len() && p(b[pos]) { pos += 1 }] *)
Definition advance (p : byte -> bool) (b : bytes) (pos : nat) : nat :=
  (pos + span_len p (drop pos b))%nat.

(** The body of the inner [while]: one [ NAME="VALUE"] entry from the
    space at [pos].  [inl] is the [break], [inr] the position to go on from. *)
Definition validate_param (sd : bytes) (pos : nat) : res ParseError (nat + nat) :=
  let pos := S pos in
  if byte_is sd pos "]" then Ok (inl pos)
  else
    let name_start := pos in
    let pos := advance (fun c => negb (Byte.eqb c "=") && negb (Byte.eqb c "]")) sd pos in
    if negb (byte_is sd pos "=") then Err (sd_err "PARAM-NAME not followed by '='")
    else
      let? name := or_panic (str_slice sd name_start pos) in
      let? _ := validate_sd_name name (lit "PARAM-NAME") in
      let pos := S pos in
      if negb (byte_is sd pos x22) then Err (sd_err "PARAM-VALUE must be quoted")
      else
        let pos := S pos in
        match skip_param_value false (drop pos sd) with
        | None => Err (sd_err "unterminated PARAM-VALUE")
        | Some n => Ok (inr (pos + n)%nat)
        end.

(** The inner [while]; [None] is out of fuel. *)
Fixpoint validate_params (fuel : nat) (sd : bytes) (pos : nat) : option (res ParseError nat) :=
  match fuel with
  | O => None
  | S f =>
      if byte_is sd pos " " then
        match validate_param sd pos with
        | Ok (inl pos') => Some (Ok pos')
        | Ok (inr pos') => validate_params f sd pos'
        | Err e => Some (Err e)
        | Panic => Some Panic
        end
      else Some (Ok pos)
  end.

(** One iteration of the outer [while], from [pos] on. *)
Definition validate_element (sd : bytes) (pos : nat) : option (res ParseError nat) :=
  let pos := S pos in
  let id_start := pos in
  let pos := advance (fun c => negb (Byte.eqb c " ") && negb (Byte.eqb c "]")) sd pos in
  match or_panic (str_slice sd id_start pos) with
  | Err e => Some (Err e)
  | Panic => Some Panic
  | Ok id =>
      match validate_sd_name id (lit "SD-ID") with
      | Err e => Some (Err e)
      | Panic => Some Panic
      | Ok _ =>
          match validate_params (S (length sd)) sd pos with
          | Some (Ok pos) => Some (Ok (if byte_is sd pos "]" then S pos else pos))
          | r => r
          end
      end
  end.

Fixpoint validate_elements (fuel : nat) (sd : bytes) (pos : nat) : option (res ParseError unit) :=
  match fuel with
  | O => None
  | S f =>
      if Nat.ltb pos (length sd) then
        match validate_element sd pos with
        | Some (Ok pos') => validate_elements f sd pos'
        | Some (Err e) => Some (Err e)
        | Some Panic => Some Panic
        | None => None
        end
      else Some (Ok tt)
  end.

(** Both loops advance [pos] at every iteration, so the length of the string
    bounds them: [validate_structured_data_content_terminates] below. *)
Definition validate_structured_data_content (sd : bytes) : res ParseError unit :=
  if bool_decide (sd = lit "-") then Ok tt
  else
    match validate_elements (S (length sd)) sd 0 with
    | Some r => r
    | None => Panic
    end.

(** ** Parsing *)

Definition trimmed (c : byte) : bool :=
  Byte.eqb c x0a || Byte.eqb c x0d || Byte.eqb c x00.

Definition validate_opt (f : bytes -> res ParseError unit) (o : option bytes)
    : res ParseError unit :=
  match o with Some s => f s | None => Ok tt end.

Definition parse (raw : bytes) : res ParseError SyslogMessage :=
  let s := trim_end_matches trimmed raw in
  let? s := ok_or (strip_prefix (lit "<") s) (MalformedHeader (lit "expected '<' to start PRI")) in
  let? (pri_str, s) :=
    ok_or (split_once ">" s) (MalformedHeader (lit "expected '>' to close PRI")) in
  let? pri_val := ok_or (parse_uint u8_max pri_str) (InvalidPriority pri_str) in
  let? priority := Priority_from_integer pri_val in
  let? s := ok_or (strip_prefix (lit "1 ") s) (MalformedHeader (lit "expected VERSION '1'")) in
  let? (timestamp, s) := split_header_field s (lit "TIMESTAMP") in
  let? (hostname, s) := split_header_field s (lit "HOSTNAME") in
  let? (app_name, s) := split_header_field s (lit "APP-NAME") in
  let? (proc_id, s) := split_header_field s (lit "PROCID") in
  let? (msg_id, s) := split_header_field s (lit "MSGID") in
  let? (structured_data, msg) := parse_structured_data_and_msg s in
  let? _ := validate_opt validate_timestamp timestamp in
  let? _ := validate_opt (fun h => validate_printusascii_field h (lit "HOSTNAME") 255) hostname in
  let? _ := validate_opt (fun a => validate_printusascii_field a (lit "APP-NAME") 48) app_name in
  let? _ := validate_opt (fun p => validate_printusascii_field p (lit "PROCID") 128) proc_id in
  let? _ := validate_opt (fun m => validate_printusascii_field m (lit "MSGID") 32) msg_id in
  let? _ := validate_structured_data_content structured_data in
  Ok (mkMessage priority timestamp hostname app_name proc_id msg_id structured_data msg).

(** ** Rendering *)

Definition opt_field (o : option bytes) : bytes := default (lit "-") o.

Definition display (m : SyslogMessage) : bytes :=
  lit "<" ++ show_uint (Priority_as_integer (priority m)) ++ lit ">1 "
  ++ opt_field (timestamp m) ++ lit " " ++ opt_field (hostname m) ++ lit " "
  ++ opt_field (app_name m) ++ lit " " ++ opt_field (proc_id m) ++ lit " "
  ++ opt_field (msg_id m) ++ lit " " ++ structured_data m
  ++ (if bool_decide (msg m = []) then [] else lit " " ++ msg m).
