(* ===== verification/SyslogFacts.v ===== *)
(** * Priorities and header fields

    The numeric codes of facilities and severities, and what the header field
    validators accept. *)

From stdpp Require Import prelude strings list.
From Stdlib Require Import ZArith Lia.
From S2P Require Import Prelude RustStd Syslog.

(** ** Priorities *)

Lemma Facility_as_u8_range f : 0 <= Facility_as_u8 f <= 23.
Proof. destruct f; simpl; lia. Qed.

Lemma Severity_as_u8_range s : 0 <= Severity_as_u8 s <= 7.
Proof. destruct s; simpl; lia. Qed.

Lemma Facility_from_as f : Facility_from_integer (Facility_as_u8 f) = Ok f.
Proof. by destruct f. Qed.

Lemma Severity_from_as s : Severity_from_integer (Severity_as_u8 s) = s.
Proof. by destruct s. Qed.

(** No [u8] operation of [as_integer] wraps. *)
Lemma Priority_as_integer_exact p :
  Priority_as_integer p = Facility_as_u8 (facility p) * 8 + Severity_as_u8 (severity p).
Proof.
  unfold Priority_as_integer.
  pose proof (Facility_as_u8_range (facility p)).
  pose proof (Severity_as_u8_range (severity p)).
  rewrite (wrap_small 8 (_ * 8)) by lia. apply wrap_small. lia.
Qed.

Lemma Priority_as_integer_range p : 0 <= Priority_as_integer p <= 191.
Proof.
  rewrite Priority_as_integer_exact.
  pose proof (Facility_as_u8_range (facility p)).
  pose proof (Severity_as_u8_range (severity p)). lia.
Qed.

Lemma Priority_from_as p : Priority_from_integer (Priority_as_integer p) = Ok p.
Proof. by destruct p as [[] []]. Qed.

Lemma Facility_as_from n f : Facility_from_integer n = Ok f -> Facility_as_u8 f = n.
Proof.
  unfold Facility_from_integer. intros H.
  repeat match type of H with context [match ?p with _ => _ end] => destruct p end;
    by simplify_eq.
Qed.

Lemma Severity_as_from n : 0 <= n <= 7 -> Severity_as_u8 (Severity_from_integer n) = n.
Proof.
  intros Hn. apply Z.eqb_eq.
  apply (all_from_spec (fun n => Severity_as_u8 (Severity_from_integer n) =? n) 8 0); [done|lia].
Qed.

Lemma Priority_from_range n p :
  0 <= n -> Priority_from_integer n = Ok p -> n <= 191 /\ Priority_as_integer p = n.
Proof.
  unfold Priority_from_integer. intros Hn H.
  destruct (Z.ltb_spec 191 n); [done|]. inv_res H. simplify_eq.
  split; [done|]. rewrite Priority_as_integer_exact. cbn [facility severity].
  erewrite Facility_as_from by eassumption. rewrite Severity_as_from by dlia. dlia.
Qed.

(** ** Header fields *)

(** RFC 5424 header fields: 1 to [max] PRINTUSASCII bytes, and not the nil
    value, which is represented by [None]. *)
Definition field_ok (max : Z) (o : option bytes) : Prop :=
  match o with
  | None => True
  | Some s =>
      s <> [] /\ s <> lit "-" /\ len s <= max
      /\ Forall (fun c => printusascii (bz c) = true) s
  end.

#[export] Instance field_ok_dec max o : Decision (field_ok max o).
Proof. destruct o; simpl; apply _. Defined.

Lemma printusascii_ascii c : printusascii (bz c) = true -> is_ascii c = true.
Proof. unfold printusascii, is_ascii. lia. Qed.

Lemma printusascii_not_space s :
  Forall (fun c => printusascii (bz c) = true) s -> (" "%byte ∉ s).
Proof.
  intros Hs Hin. rewrite Forall_forall in Hs. apply Hs in Hin. done.
Qed.

Lemma reject_first_ok bad err cs :
  reject_first bad err cs = Ok tt <-> Forall (fun c => bad c = false) cs.
Proof.
  induction cs as [|c cs IH]; simpl.
  - split; [constructor|done].
  - rewrite Forall_cons. destruct (bad c); [split; [done|intros []; done]|tauto].
Qed.

Lemma reject_first_no_panic bad err cs : reject_first bad err cs <> Panic.
Proof. induction cs as [|c cs IH]; simpl; [done|]. by destruct (bad c). Qed.

Lemma chars_printusascii s :
  Forall (fun c => printusascii (bz c) = true) s ->
  chars s = map bz s /\ Forall (fun c => negb (printusascii c) = false) (chars s).
Proof.
  intros Hs. assert (Ha : Forall (fun c => is_ascii c = true) s)
    by (eapply Forall_impl; [exact Hs|apply printusascii_ascii]).
  rewrite (chars_ascii s Ha). split; [done|].
  apply Forall_map. eapply Forall_impl; [exact Hs|]. simpl. intros c ->. done.
Qed.

(** [validate_printusascii_field] accepts exactly the strings of 1 to [max]
    PRINTUSASCII bytes. *)
Lemma validate_printusascii_field_ok s field max :
  utf8_valid s = true ->
  validate_printusascii_field s field max = Ok tt <->
  s <> [] /\ len s <= max /\ Forall (fun c => printusascii (bz c) = true) s.
Proof.
  intros Hu. unfold validate_printusascii_field. case_bool_decide as Hn.
  { split; [done|]. intros [? _]. done. }
  destruct (Z.ltb_spec max (len s)) as [Hl|Hl].
  { split; [done|]. lia. }
  rewrite reject_first_ok. split.
  - intros Hf. split_and!; [done|done|].
    eapply (chars_forall_ascii (fun z => printusascii z = true)); [|done|].
    + unfold printusascii. lia.
    + eapply Forall_impl; [exact Hf|]. simpl. intros c. by destruct (printusascii c).
  - intros (_ & _ & Hf). by apply chars_printusascii.
Qed.

Lemma nil_to_option_opt o : o <> Some (lit "-") -> nil_to_option (opt_field o) = o.
Proof.
  destruct o as [s|]; simpl; [|done]. intros Hne. unfold nil_to_option.
  rewrite bool_decide_eq_false_2; [done|congruence].
Qed.

Lemma split_header_field_app o rest name :
  (" "%byte ∉ opt_field o) -> o <> Some (lit "-") ->
  split_header_field (opt_field o ++ lit " " ++ rest) name = Ok (o, rest).
Proof.
  intros Hs Hne. unfold split_header_field. change (lit " " ++ rest) with (" "%byte :: rest).
  rewrite split_once_app by done. simpl. by rewrite nil_to_option_opt.
Qed.

Lemma split_header_field_ok s name o rest :
  split_header_field s name = Ok (o, rest) ->
  s = opt_field o ++ " "%byte :: rest /\ (" "%byte ∉ opt_field o) /\ o <> Some (lit "-").
Proof.
  unfold split_header_field. intros H. inv_res H. simplify_eq.
  match goal with E : ok_or _ _ = _ |- _ =>
    apply ok_or_ok, split_once_some in E as [-> Hn] end.
  unfold nil_to_option. case_bool_decide as Hd; subst; simpl; split_and!; try done.
  congruence.
Qed.

Lemma field_ok_no_space max o : field_ok max o -> (" "%byte ∉ opt_field o).
Proof.
  destruct o as [s|]; simpl.
  - intros (_ & _ & _ & Hf). by apply printusascii_not_space.
  - intros _ H. by apply list_elem_of_singleton in H.
Qed.

Lemma field_ok_not_dash max o : field_ok max o -> o <> Some (lit "-").
Proof. destruct o; simpl; [|done]. intros (_ & ? & _) [= ->]. done. Qed.

Lemma field_ok_validate max name o :
  field_ok max o ->
  validate_opt (fun s => validate_printusascii_field s name max) o = Ok tt.
Proof.
  destruct o as [s|]; simpl; [|done]. intros (Hn & _ & Hl & Hf).
  apply validate_printusascii_field_ok; [|done].
  apply utf8_valid_ascii. eapply Forall_impl; [exact Hf|apply printusascii_ascii].
Qed.

Lemma field_ok_of_validate max name o :
  (forall s, o = Some s -> utf8_valid s = true) -> o <> Some (lit "-") ->
  validate_opt (fun s => validate_printusascii_field s name max) o = Ok tt ->
  field_ok max o.
Proof.
  destruct o as [s|]; simpl; [|done]. intros Hu Hne H.
  apply validate_printusascii_field_ok in H as (? & ? & ?); [|by apply Hu].
  split_and!; try done. congruence.
Qed.
