(* ===== verification/Timestamp.v ===== *)
(** * RFC 5424 timestamps

    [validate_timestamp] against the grammar of RFC 5424 section 6, stated
    independently of the positions the code works with. *)

From stdpp Require Import prelude strings list.
From Stdlib Require Import ZArith Lia.
From S2P Require Import Prelude RustStd Syslog SyslogFacts.

Definition digits (s : bytes) : Prop := Forall (fun c => is_ascii_digit c = true) s.

(** Two digits whose value lies between [lo] and [hi]. *)
Definition num2 (lo hi : Z) (s : bytes) : Prop :=
  exists a c, s = [a; c] /\ is_ascii_digit a = true /\ is_ascii_digit c = true
    /\ lo <= (bz a - 48) * 10 + (bz c - 48) <= hi.

(** ["." 1*6DIGIT], or nothing. *)
Definition time_secfrac (s : bytes) : Prop :=
  s = [] \/ exists ds, s = "."%byte :: ds /\ (1 <= length ds <= 6)%nat /\ digits ds.

(** ["Z"], or a signed [hh:mm]. *)
Definition time_offset (s : bytes) : Prop :=
  s = ["Z"%byte] \/
  exists sg h m, s = sg :: h ++ ":"%byte :: m /\ (sg = "+"%byte \/ sg = "-"%byte)
    /\ num2 0 23 h /\ num2 0 59 m.

(** The text [YYYY-MM-DDThh:mm:ss], a fraction and an offset. *)
Definition stamp (Y M D h m sec frac off : bytes) : bytes :=
  Y ++ "-"%byte :: M ++ "-"%byte :: D ++ "T"%byte :: h ++ ":"%byte :: m ++ ":"%byte :: sec ++ frac ++ off.

(** The value of a string of digits. *)
Definition value_of (s : bytes) : Z := foldl (fun n c => n * 10 + (bz c - 48)) 0 s.

(** *** The calendar *)

Definition leap (y : Z) : bool :=
  (y mod 4 =? 0) && (negb (y mod 100 =? 0) || (y mod 400 =? 0)).

Definition month_length (is_leap : bool) (m : Z) : Z :=
  if m =? 2 then (if is_leap then 29 else 28)
  else if (m =? 4) || (m =? 6) || (m =? 9) || (m =? 11) then 30 else 31.

Definition days_in_month (y m : Z) : Z := month_length (leap y) m.

(** *** RFC 5424

    TIMESTAMP of section 6: the day is bounded by the month, and seconds are
    00 to 59 (section 6.2.3 rules leap seconds out). *)
Definition rfc_timestamp (s : bytes) : Prop :=
  exists Y M D h m sec frac off,
    s = stamp Y M D h m sec frac off
    /\ length Y = 4%nat /\ digits Y /\ num2 1 12 M
    /\ num2 1 (days_in_month (value_of Y) (value_of M)) D
    /\ num2 0 23 h /\ num2 0 59 m /\ num2 0 59 sec
    /\ time_secfrac frac /\ time_offset off.

(** The same with days up to 31 in any month and seconds up to 60. *)
Definition accepted_timestamp (s : bytes) : Prop :=
  exists Y M D h m sec frac off,
    s = stamp Y M D h m sec frac off
    /\ length Y = 4%nat /\ digits Y /\ num2 1 12 M /\ num2 1 31 D
    /\ num2 0 23 h /\ num2 0 59 m /\ num2 0 60 sec
    /\ time_secfrac frac /\ time_offset off.

(** The fields of a timestamp by their places. *)
Definition stamp_year (s : bytes) : Z := value_of (take 4 s).
Definition stamp_month (s : bytes) : Z := value_of (take 2 (drop 5 s)).
Definition stamp_day (s : bytes) : Z := value_of (take 2 (drop 8 s)).
Definition stamp_second (s : bytes) : Z := value_of (take 2 (drop 17 s)).

(** ** Positions relative to a prefix already read *)

Definition shift (n : nat) (m : res ParseError nat) : res ParseError nat :=
  let? k := m in Ok (n + k)%nat.

Lemma validate_fraction_app p r :
  validate_fraction (p ++ r) (length p) = shift (length p) (validate_fraction r 0).
Proof.
  unfold validate_fraction, shift.
  rewrite <- (Nat.add_0_r (length p)) at 1. rewrite lookup_app_add.
  destruct r as [|c r]; simpl; [by rewrite Nat.add_0_r|].
  destruct (Byte.eqb c "."); [|by rewrite Nat.add_0_r].
  rewrite drop_app_add. cbn [drop]. rewrite drop_0. case_match; [|done].
  f_equal. lia.
Qed.

Lemma validate_timezone_app p r :
  validate_timezone (p ++ r) (length p) = shift (length p) (validate_timezone r 0).
Proof.
  unfold validate_timezone, shift, not_digits, byte_ne, digits2.
  rewrite <- (Nat.add_0_r (length p)) at 1. rewrite index_app.
  rewrite <- !Nat.add_assoc, !index_app, !slice_app, length_app. cbn [Nat.add].
  replace (Nat.ltb (length p + length r) (length p + 6)) with (Nat.ltb (length r) 6)
    by (destruct (Nat.ltb_spec (length r) 6),
          (Nat.ltb_spec (length p + length r) (length p + 6)); lia).
  repeat (destruct_inner; try reflexivity).
Qed.

(** ** The parts *)

Lemma parse2digit_digits a c :
  is_ascii_digit a = true -> is_ascii_digit c = true ->
  parse2digit [a; c] = Ok ((bz a - 48) * 10 + (bz c - 48)).
Proof.
  unfold is_ascii_digit, parse2digit. intros Ha Hc. cbn.
  rewrite (wrap_small 8 (bz a - 48)), (wrap_small 8 (bz c - 48)) by lia.
  rewrite (wrap_small 8 ((bz a - 48) * 10)) by lia.
  rewrite wrap_small by lia. done.
Qed.

Lemma all_digits_2 a c :
  all_digits [a; c] = is_ascii_digit a && is_ascii_digit c.
Proof. unfold all_digits. cbn. by rewrite andb_true_r. Qed.

Lemma all_digits_4 a c d e :
  all_digits [a; c; d; e]
  = is_ascii_digit a && is_ascii_digit c && is_ascii_digit d && is_ascii_digit e.
Proof. unfold all_digits. cbn. by rewrite andb_true_r, !andb_assoc. Qed.

Lemma validate_timezone_ok r k :
  validate_timezone r 0 = Ok k -> k = length r -> time_offset r.
Proof.
  unfold validate_timezone. intros H Hk. destruct r as [|c r]; [done|].
  cbn -[Byte.eqb Nat.ltb not_digits byte_ne digits2 Z.ltb] in H.
  destruct (beq_spec c "Z") as [->|Hz].
  { simplify_eq. destruct r; [|simpl in *; lia]. by left. }
  right. destruct (Byte.eqb c "+" || Byte.eqb c "-") eqn:Hs; [|done].
  assert (Hsg : c = "+"%byte \/ c = "-"%byte) by (byte_cases; (done || auto)).
  destruct r as [|h1 [|h2 [|co [|m1 [|m2 r]]]]]; try discriminate H.
  cbn -[parse2digit all_digits Z.ltb Byte.eqb] in H. rewrite !all_digits_2 in H.
  destruct (is_ascii_digit h1) eqn:D1, (is_ascii_digit h2) eqn:D2; try discriminate H.
  destruct (beq_spec co ":") as [->|]; [|discriminate H].
  destruct (is_ascii_digit m1) eqn:D3, (is_ascii_digit m2) eqn:D4; try discriminate H.
  cbn -[parse2digit Z.ltb] in H. rewrite !parse2digit_digits in H by done.
  destruct (_ || _) eqn:Hr in H; [done|]. simplify_eq.
  destruct r; [|simpl in *; lia].
  exists c, [h1; h2], [m1; m2]. split_and!; [done|done| |].
  - exists h1, h2. unfold is_ascii_digit in *. split_and!; try done; lia.
  - exists m1, m2. unfold is_ascii_digit in *. split_and!; try done; lia.
Qed.

Lemma validate_timezone_complete r :
  time_offset r -> validate_timezone r 0 = Ok (length r).
Proof.
  intros [->|(sg & h & m & -> & Hsg & (h1 & h2 & -> & D1 & D2 & Hh)
             & (m1 & m2 & -> & D3 & D4 & Hm))]; [done|].
  unfold validate_timezone. destruct Hsg as [-> | ->];
  cbn -[parse2digit all_digits Z.ltb]; rewrite !all_digits_2, D1, D2, D3, D4;
  cbn -[parse2digit Z.ltb]; rewrite !parse2digit_digits by done;
  rewrite (proj2 (Z.ltb_ge _ _)), (proj2 (Z.ltb_ge _ _)) by lia; done.
Qed.

Lemma time_offset_head r : time_offset r ->
  exists c t, r = c :: t /\ is_ascii_digit c = false /\ c <> "."%byte.
Proof.
  intros [->|(sg & h & m & -> & [-> | ->] & _)]; [by exists "Z"%byte, []|by eauto..].
Qed.

(** The fraction and the timezone together. *)
Definition validate_tail (r : bytes) : res ParseError unit :=
  let? pos := validate_fraction r 0 in
  if Nat.leb (length r) pos then Err (ts_err "missing timezone")
  else
    let? pos := validate_timezone r pos in
    if negb (Nat.eqb pos (length r))
    then Err (ts_err "trailing characters after timezone") else Ok tt.

Lemma validate_fraction_ok r k :
  validate_fraction r 0 = Ok k ->
  exists frac off, r = frac ++ off /\ length frac = k /\ time_secfrac frac.
Proof.
  unfold validate_fraction. destruct r as [|c r]; cbn -[Nat.leb Byte.eqb span_len].
  { intros [= <-]. exists [], []. split_and!; try done. by left. }
  destruct (beq_spec c ".") as [->|].
  - rewrite drop_0. set (n := span_len is_ascii_digit r).
    destruct (Nat.leb 1 n && Nat.leb n 6) eqn:En; [|done]. intros [= <-].
    nat_bools.
    exists ("."%byte :: take n r), (drop n r). simpl. rewrite take_drop.
    assert (Hl : length (take n r) = n).
    { rewrite length_take. pose proof (span_len_le is_ascii_digit r). lia. }
    split_and!; [done|by rewrite Hl|]. right. exists (take n r). rewrite Hl.
    split_and!; [done|lia|lia|]. apply span_len_take.
  - intros [= <-]. exists [], (c :: r). split_and!; try done. by left.
Qed.

Lemma validate_tail_iff r :
  validate_tail r = Ok tt <->
  exists frac off, r = frac ++ off /\ time_secfrac frac /\ time_offset off.
Proof.
  unfold validate_tail. split.
  - intros H. inv_res H.
    match goal with E : validate_fraction _ _ = _ |- _ =>
      apply validate_fraction_ok in E as (frac & off & -> & <- & Hf) end.
    rewrite validate_timezone_app in *. unfold shift in *.
    destruct (validate_timezone off 0) as [k| |] eqn:Et; try done. simplify_eq.
    exists frac, off. split_and!; try done. eapply validate_timezone_ok; [done|].
    rewrite length_app in *. nat_bools. lia.
  - intros (frac & off & -> & Hf & Ho).
    destruct (time_offset_head off Ho) as (c & t & Heq & Hd & Hp).
    assert (Hv : validate_fraction (frac ++ off) 0 = Ok (length frac)).
    { subst off. destruct Hf as [->|(ds & -> & Hl & Hds)].
      - cbn -[Byte.eqb]. by rewrite beq_ne by done.
      - cbn -[Nat.leb span_len]. rewrite drop_0. rewrite span_len_app by done.
        rewrite (proj2 (andb_true_iff _ _)); [done|]. rewrite !Nat.leb_le. lia. }
    rewrite Hv, validate_timezone_app, validate_timezone_complete by done. cbn.
    rewrite length_app, Nat.eqb_refl. cbn.
    destruct (Nat.leb_spec (length frac + length off) (length frac)); [|done].
    subst off. simpl in *. lia.
Qed.

(** ** The whole timestamp *)

(** The first nineteen bytes, checked at once. *)
Lemma validate_timestamp_eq c0 c1 c2 c3 c4 c5 c6 c7 c8 c9 c10 c11 c12 c13 c14 c15 c16 c17 c18 r :
  r <> [] ->
  let D := is_ascii_digit in
  let N a c := (bz a - 48) * 10 + (bz c - 48) in
  validate_timestamp (c0 :: c1 :: c2 :: c3 :: c4 :: c5 :: c6 :: c7 :: c8 :: c9 :: c10
    :: c11 :: c12 :: c13 :: c14 :: c15 :: c16 :: c17 :: c18 :: r) = Ok tt <->
  (D c0 && D c1 && D c2 && D c3 && Byte.eqb c4 "-" && D c5 && D c6 && Byte.eqb c7 "-"
   && D c8 && D c9 && Byte.eqb c10 "T" && D c11 && D c12 && Byte.eqb c13 ":"
   && D c14 && D c15 && Byte.eqb c16 ":" && D c17 && D c18
   && (1 <=? N c5 c6) && (N c5 c6 <=? 12) && (1 <=? N c8 c9) && (N c8 c9 <=? 31)
   && (N c11 c12 <=? 23) && (N c14 c15 <=? 59) && (N c17 c18 <=? 60)) = true
  /\ validate_tail r = Ok tt.
Proof.
  intros Hr D N.
  set (p := [c0; c1; c2; c3; c4; c5; c6; c7; c8; c9; c10; c11; c12; c13; c14; c15; c16; c17; c18]).
  change (c0 :: _) with (p ++ r).
  assert (Htail :
    (let? pos := validate_fraction (p ++ r) 19 in
     if Nat.leb (length (p ++ r)) pos then Err (ts_err "missing timezone")
     else
       let? pos := validate_timezone (p ++ r) pos in
       if negb (Nat.eqb pos (length (p ++ r)))
       then Err (ts_err "trailing characters after timezone") else Ok tt)
    = validate_tail r).
  { unfold validate_tail. change 19%nat with (length p). rewrite validate_fraction_app.
    destruct (validate_fraction r 0) as [k| |] eqn:Ef; try done. cbn [shift].
    rewrite length_app. apply validate_fraction_ok in Ef as (f & o & -> & <- & _).
    rewrite app_assoc. rewrite <- (length_app p f).
    rewrite (validate_timezone_app (p ++ f) o), (validate_timezone_app f o).
    rewrite !length_app. unfold shift.
    destruct (validate_timezone o 0) as [k| |];
      destruct (Nat.leb_spec (length p + (length f + length o)) (length p + length f)),
        (Nat.leb_spec (length f + length o) (length f)); (lia || done). }
  unfold validate_timestamp. rewrite Htail. clear Htail.
  destruct r as [|e r]; [done|].
  unfold not_digits, byte_ne, digits2, p.
  cbn -[all_digits parse2digit validate_tail Z.leb Z.ltb Byte.eqb].
  rewrite !all_digits_2, all_digits_4. subst D N. cbv beta.
  repeat match goal with
  | |- context [is_ascii_digit ?c] =>
      destruct (is_ascii_digit c) eqn:?; [|by split; [|intros [? _]]]
  | |- context [Byte.eqb ?c ?d] =>
      destruct (Byte.eqb c d); [|by split; [|intros [? _]]]
  end.
  rewrite !parse2digit_digits by done. cbn -[validate_tail Z.leb Z.ltb Z.mul Z.sub Z.add].
  rewrite !Z.ltb_antisym.
  repeat match goal with
  | |- context [?a <=? ?c] => destruct (a <=? c); [|by split; [|intros [? _]]]
  end.
  cbn -[validate_tail]. tauto.
Qed.

(** A timestamp of twenty bytes or more, cut after the seconds. *)
Lemma cut19 (s : bytes) :
  (20 <= length s)%nat ->
  exists c0 c1 c2 c3 c4 c5 c6 c7 c8 c9 c10 c11 c12 c13 c14 c15 c16 c17 c18 r,
    s = c0 :: c1 :: c2 :: c3 :: c4 :: c5 :: c6 :: c7 :: c8 :: c9 :: c10
      :: c11 :: c12 :: c13 :: c14 :: c15 :: c16 :: c17 :: c18 :: r /\ r <> [].
Proof.
  intros H. do 19 (destruct s as [|? s]; [simpl in H; lia|]).
  do 20 eexists. split; [reflexivity|]. intros ->. simpl in H. lia.
Qed.

Lemma validate_timestamp_grammar s : validate_timestamp s = Ok tt <-> accepted_timestamp s.
Proof.
  split.
  - intros H. destruct (Nat.ltb_spec (length s) 20) as [Hl|Hl].
    { unfold validate_timestamp in H. by rewrite (proj2 (Nat.ltb_lt _ _) Hl) in H. }
    destruct (cut19 s Hl) as (c0 & c1 & c2 & c3 & c4 & c5 & c6 & c7 & c8 & c9 & c10 & c11
      & c12 & c13 & c14 & c15 & c16 & c17 & c18 & r & -> & Hr).
    apply validate_timestamp_eq in H as [H (frac & off & -> & Hf & Ho)%validate_tail_iff];
      [|done].
    cbv zeta in H. rewrite !andb_true_iff in H. destruct_and! H. byte_cases; try done.
    exists [c0; c1; c2; c3], [c5; c6], [c8; c9], [c11; c12], [c14; c15], [c17; c18], frac, off.
    unfold num2. split_and!; try done; repeat constructor; try done;
      do 2 eexists; split_and!; try done; unfold is_ascii_digit in *; lia.
  - intros (Y & M & D & h & m & sec & frac & off & -> & HY & HYd & (a1 & b1 & -> & ?)
      & (a2 & b2 & -> & ?) & (a3 & b3 & -> & ?) & (a4 & b4 & -> & ?) & (a5 & b5 & -> & ?)
      & Hf & Ho).
    destruct Y as [|y1 [|y2 [|y3 [|y4 [|? ?]]]]]; try discriminate HY.
    unfold digits in HYd. rewrite !Forall_cons in HYd. destruct_and! HYd. destruct_and!.
    cbn [app]. apply validate_timestamp_eq.
    { destruct (time_offset_head off Ho) as (? & ? & -> & _). by destruct frac. }
    cbv zeta. rewrite !andb_true_iff, !Z.leb_le. split_and!; try done; try lia.
    apply validate_tail_iff. eauto.
Qed.

(** The fields of a timestamp in either grammar. *)
Lemma stamp_fields Y M D h m sec frac off :
  length Y = 4%nat -> length M = 2%nat -> length D = 2%nat -> length h = 2%nat -> length m = 2%nat ->
  length sec = 2%nat ->
  let s := stamp Y M D h m sec frac off in
  stamp_year s = value_of Y /\ stamp_month s = value_of M /\ stamp_day s = value_of D
  /\ stamp_second s = value_of sec.
Proof.
  intros HY HM HD Hh Hm Hs.
  destruct Y as [|y1 [|y2 [|y3 [|y4 [|]]]]], M as [|M1 [|M2 [|]]], D as [|D1 [|D2 [|]]], h as [|h1 [|h2 [|]]],
    m as [|m1 [|m2 [|]]], sec as [|s1 [|s2 [|]]]; done.
Qed.

Lemma num2_length lo hi s : num2 lo hi s -> length s = 2%nat.
Proof. by intros (a & c & -> & _). Qed.

Lemma num2_value lo hi s : num2 lo hi s -> lo <= value_of s <= hi.
Proof. intros (a & c & -> & _ & _ & H). unfold value_of. cbn [foldl]. lia. Qed.

Lemma num2_within lo hi hi' s : num2 lo hi s -> value_of s <= hi' -> num2 lo hi' s.
Proof.
  intros (a & c & -> & Ha & Hc & H) Hv. exists a, c. unfold value_of in Hv. cbn [foldl] in Hv.
  split_and!; try done; lia.
Qed.

Lemma days_in_month_le y m : days_in_month y m <= 31.
Proof. unfold days_in_month, month_length. repeat case_match; lia. Qed.

Lemma rfc_accepted s :
  rfc_timestamp s <-> accepted_timestamp s
    /\ stamp_day s <= days_in_month (stamp_year s) (stamp_month s) /\ stamp_second s <= 59.
Proof.
  split.
  - intros (Y & M & D & h & m & sec & frac & off & -> & HY & HYd & HM & HD & Hh & Hm & Hs & Hf & Ho).
    pose proof (stamp_fields Y M D h m sec frac off) as Hst. cbv zeta in Hst.
    destruct Hst as (-> & -> & -> & ->); eauto using num2_length.
    pose proof (num2_value _ _ _ HD). pose proof (num2_value _ _ _ Hs).
    pose proof (days_in_month_le (value_of Y) (value_of M)). split; [|lia].
    exists Y, M, D, h, m, sec, frac, off.
    split_and!; eauto; eapply num2_within; eauto; lia.
  - intros [(Y & M & D & h & m & sec & frac & off & -> & HY & HYd & HM & HD & Hh & Hm & Hs & Hf & Ho) Hc].
    pose proof (stamp_fields Y M D h m sec frac off) as Hst. cbv zeta in Hst.
    destruct Hst as (E1 & E2 & E3 & E4); eauto using num2_length. rewrite E1, E2, E3, E4 in Hc.
    exists Y, M, D, h, m, sec, frac, off.
    split_and!; eauto; eapply num2_within; eauto; lia.
Qed.

(** C28: what [validate_timestamp] accepts, against RFC 5424.  It accepts exactly the
    fixed [YYYY-MM-DDThh:mm:ss] shape with month 01-12, day 01-31, hour 00-23,
    minute 00-59 and second 00-60, an optional fraction of one to six digits
    and a [Z] or signed [hh:mm] offset, with nothing after it.  Every TIMESTAMP
    of the RFC is among these, and those accepted beyond the RFC are exactly
    the ones with second 60 or a day after the end of the month. *)
Theorem validate_timestamp_iff s :
  (validate_timestamp s = Ok tt <-> accepted_timestamp s)
  /\ (rfc_timestamp s <->
       validate_timestamp s = Ok tt
       /\ stamp_day s <= days_in_month (stamp_year s) (stamp_month s) /\ stamp_second s <= 59).
Proof. rewrite validate_timestamp_grammar, rfc_accepted. done. Qed.

(** Two that the RFC does not allow. *)
Lemma lenient_timestamps :
  validate_timestamp (lit "2026-02-31T12:00:00Z") = Ok tt
  /\ validate_timestamp (lit "2026-05-14T12:00:60Z") = Ok tt
  /\ ~ rfc_timestamp (lit "2026-02-31T12:00:00Z") /\ ~ rfc_timestamp (lit "2026-05-14T12:00:60Z").
Proof.
  split; [by vm_compute|]. split; [by vm_compute|].
  split; rewrite rfc_accepted; intros (_ & H1 & H2); vm_compute in H1, H2; done.
Qed.

(** ** Consequences *)

Lemma num2_printable lo hi s : num2 lo hi s -> Forall (fun c => printusascii (bz c) = true) s.
Proof.
  intros (a & c & -> & Ha & Hc & _). unfold is_ascii_digit, printusascii in *.
  repeat constructor; lia.
Qed.

Lemma digits_printable s : digits s -> Forall (fun c => printusascii (bz c) = true) s.
Proof.
  intros H. eapply Forall_impl; [exact H|]. simpl. unfold is_ascii_digit, printusascii. lia.
Qed.

Lemma accepted_timestamp_printable s :
  accepted_timestamp s -> Forall (fun c => printusascii (bz c) = true) s /\ (20 <= length s)%nat.
Proof.
  intros (Y & M & D & h & m & sec & frac & off & -> & HY & HYd & HM & HD & Hh & Hm & Hs & Hf & Ho).
  unfold stamp. split.
  - repeat (rewrite Forall_app || rewrite Forall_cons). split_and!;
      try done; eauto using num2_printable, digits_printable.
    + destruct Hf as [->|(ds & -> & _ & Hd)]; constructor; [done|by apply digits_printable].
    + destruct Ho as [->|(sg & x & y & -> & Hsg & Hx & Hy)]; [by repeat constructor|].
      constructor; [by destruct Hsg; subst|]. apply Forall_app. split; [by eapply num2_printable|].
      constructor; [done|by eapply num2_printable].
  - destruct HM as (? & ? & -> & _), HD as (? & ? & -> & _), Hh as (? & ? & -> & _),
      Hm as (? & ? & -> & _), Hs as (? & ? & -> & _).
    destruct (time_offset_head off Ho) as (? & ? & -> & _).
    rewrite !length_app. simpl. rewrite !length_app. simpl. lia.
Qed.

(** ** No index of the validator is out of range *)

Lemma index_total {E} b i : (i < length b)%nat -> exists c, @index E b i = Ok c.
Proof. intros H. unfold index. apply lookup_lt_is_Some in H as [c ->]. by exists c. Qed.

Lemma slice_total {E} b i j :
  (i <= j <= length b)%nat -> @slice E b i j = Ok (take (j - i) (drop i b)).
Proof.
  intros [H1 H2]. unfold slice.
  by rewrite (proj2 (Nat.leb_le _ _) H1), (proj2 (Nat.leb_le _ _) H2).
Qed.

Lemma not_digits_total b i j :
  (i <= j <= length b)%nat -> exists x, not_digits b i j = Ok x.
Proof. intros H. unfold not_digits. rewrite slice_total by done. eauto. Qed.

Lemma byte_ne_total b i c : (i < length b)%nat -> exists x, byte_ne b i c = Ok x.
Proof. intros H. unfold byte_ne. destruct (@index_total ParseError b i H) as [d ->]. eauto. Qed.

Lemma digits2_total b i j :
  j = (i + 2)%nat -> (j <= length b)%nat -> exists x, digits2 b i j = Ok x.
Proof.
  intros -> H. unfold digits2. rewrite slice_total by lia. unfold parse2digit.
  destruct (take _ _) as [|c [|d ?]] eqn:E;
    apply (f_equal length) in E; rewrite length_take, length_drop in E; simpl in E;
    try lia. cbn. eauto.
Qed.

(** Replace each access of the goal by its value. *)
Ltac total_accesses :=
  repeat match goal with
  | |- context [not_digits ?b ?i ?j] =>
      destruct (not_digits_total b i j) as [? ->]; [lia|]
  | |- context [byte_ne ?b ?i ?c] => destruct (byte_ne_total b i c) as [? ->]; [lia|]
  | |- context [digits2 ?b ?i ?j] =>
      destruct (digits2_total b i j) as [? ->]; [lia|lia|]
  end.

Lemma validate_timezone_no_panic b pos :
  (pos < length b)%nat -> validate_timezone b pos <> Panic.
Proof.
  intros H. unfold validate_timezone.
  destruct (@index_total ParseError b pos H) as [c ->].
  destruct (Byte.eqb c "Z"); [done|]. destruct (_ || _); [|done].
  destruct (Nat.ltb_spec (length b) (pos + 1 + 5)); [done|].
  total_accesses. by repeat destruct_inner.
Qed.

Lemma validate_fraction_no_panic b pos : validate_fraction b pos <> Panic.
Proof. unfold validate_fraction. by repeat case_match. Qed.

(** [validate_timestamp] never panics, whatever the bytes. *)
Lemma validate_timestamp_no_panic s : validate_timestamp s <> Panic.
Proof.
  unfold validate_timestamp.
  destruct (Nat.ltb_spec (length s) 20); [done|]. total_accesses.
  match goal with |- context [match ?m with Ok _ => _ | _ => _ end] =>
    assert (Hm : exists x, m = Ok x) by (repeat destruct_inner; eauto);
    destruct Hm as [bad ->] end.
  repeat (case_match; try done); simplify_eq; nat_bools.
  - match goal with E : validate_timezone _ _ = Panic |- _ =>
      by apply validate_timezone_no_panic in E end.
  - match goal with E : validate_fraction _ _ = Panic |- _ =>
      by apply validate_fraction_no_panic in E end.
Qed.
