(* ===== verification/StructuredData.v ===== *)
(** * STRUCTURED-DATA

    The two passes over STRUCTURED-DATA: the scanner that finds its end and
    the validator of its content.  Both terminate; on data that follows the
    grammar of RFC 5424 section 6.3 both succeed and agree on where it ends,
    except for an SD-ID that ends in an unpaired backslash before its
    closing bracket ([element_ok]). *)

From stdpp Require Import prelude strings list.
From Stdlib Require Import ZArith Lia.
From S2P Require Import Prelude RustStd Syslog SyslogFacts.

(** ** Termination of the content validator *)

Lemma validate_param_progress sd pos p :
  validate_param sd pos = Ok p -> (pos < match p with inl q | inr q => q end)%nat.
Proof.
  unfold validate_param. intros H. destruct (byte_is sd (S pos) "]"); [simplify_eq; lia|].
  unfold advance in H. repeat case_match; simplify_eq; lia.
Qed.

Lemma byte_is_lt b pos c : byte_is b pos c = true -> (pos < length b)%nat.
Proof.
  unfold byte_is. destruct (b !! pos) eqn:E; [|done]. intros _. by apply lookup_lt_Some in E.
Qed.

Lemma validate_params_total fuel sd pos :
  (length sd - pos < fuel)%nat ->
  exists r, validate_params fuel sd pos = Some r
            /\ forall p, r = Ok p -> (pos <= p)%nat.
Proof.
  revert pos. induction fuel as [|f IH]; intros pos Hf; [lia|]. simpl.
  destruct (byte_is sd pos " ") eqn:Eb.
  - apply byte_is_lt in Eb.
    destruct (validate_param sd pos) as [[q|q]|e|] eqn:Ep;
      try (apply validate_param_progress in Ep as Hq).
    + eexists. split; [done|]. intros p [= ->]. lia.
    + destruct (IH q) as (r & Hr & Hp); [lia|]. exists r. split; [done|].
      intros p Hp'. specialize (Hp p Hp'). lia.
    + by eexists.
    + by eexists.
  - eexists. split; [done|]. intros p [= ->]. lia.
Qed.

Lemma validate_element_total sd pos :
  exists r, validate_element sd pos = Some r /\ forall p, r = Ok p -> (pos < p)%nat.
Proof.
  unfold validate_element. destruct (or_panic _) as [id|e|]; try by eexists.
  destruct (validate_sd_name id _); try by eexists.
  set (q := advance _ sd (S pos)).
  destruct (validate_params_total (S (length sd)) sd q) as (r & -> & Hp); [lia|].
  assert (Hq : (pos < q)%nat) by (unfold q, advance; lia).
  destruct r as [p|e|]; eexists; (split; [done|]); try done.
  intros p' [= <-]. specialize (Hp p eq_refl). case_match; lia.
Qed.

Lemma validate_elements_total fuel sd pos :
  (length sd - pos < fuel)%nat -> exists r, validate_elements fuel sd pos = Some r.
Proof.
  revert pos. induction fuel as [|f IH]; intros pos Hf; [lia|]. simpl.
  destruct (Nat.ltb_spec pos (length sd)); [|by eexists].
  destruct (validate_element_total sd pos) as (r & -> & Hp).
  destruct r as [p|e|]; try by eexists. apply IH. specialize (Hp p eq_refl). lia.
Qed.

(** The fuel of [validate_structured_data_content] is enough: the loops of the
    content validator always finish. *)
Lemma validate_structured_data_content_terminates sd :
  exists r, validate_elements (S (length sd)) sd 0 = Some r.
Proof. apply validate_elements_total. lia. Qed.

(** ** The scanner *)

Lemma scan_sd_bounds st s i j :
  scan_sd st s i = Ok j -> exists k, j = (i + k)%nat /\ (k <= length s)%nat
    /\ scan_sd st (take k s) i = Ok j.
Proof.
  revert st i. induction s as [|c s IH]; intros st i; simpl.
  { destruct st; [|done]. intros [= <-]. exists 0%nat. simpl. split_and!; try done; lia. }
  assert (Hstep : forall st', scan_sd st' s (S i) = Ok j ->
    exists k, j = (i + S k)%nat /\ (S k <= S (length s))%nat
              /\ scan_sd st' (take k s) (S i) = Ok j).
  { intros st' H. apply IH in H as (k & -> & Hk & Ht). exists k. split_and!; [lia|lia|].
    rewrite Ht. f_equal. }
  destruct st as [|pv [|]].
  - destruct (Byte.eqb c "[") eqn:E.
    + intros (k & -> & Hk & Ht)%Hstep. exists (S k). simpl. by rewrite E.
    + intros [= <-]. exists 0%nat. simpl. split_and!; try done; lia.
  - intros (k & -> & Hk & Ht)%Hstep. exists (S k). by simpl.
  - destruct (Byte.eqb c "\") eqn:E1; [|destruct (Byte.eqb c x22) eqn:E2;
      [|destruct (Byte.eqb c "]" && negb pv) eqn:E3]];
      intros (k & -> & Hk & Ht)%Hstep; exists (S k); simpl; by rewrite ?E1, ?E2, ?E3.
Qed.

(** Data that the scanner reads to its end is read the same way when
    something other than a new element follows. *)
Lemma scan_sd_app st s t i :
  scan_sd st s i = Ok (i + length s)%nat ->
  match t with c :: _ => c <> "["%byte | [] => True end ->
  scan_sd st (s ++ t) i = Ok (i + length s)%nat.
Proof.
  revert st i. induction s as [|c s IH]; intros st i; simpl.
  { destruct st; [|done]. intros _ Ht. rewrite Nat.add_0_r. destruct t as [|d t]; [done|].
    simpl. by rewrite beq_ne. }
  rewrite <- !Nat.add_succ_comm. intros H Ht.
  destruct st as [|pv [|]].
  - destruct (Byte.eqb c "["); [by apply IH|]. injection H. lia.
  - by apply IH.
  - repeat (case_match; [|]); by apply IH.
Qed.

(** The scanner leaves an element only through its closing bracket. *)
Lemma scan_sd_last st s i :
  scan_sd st s i = Ok (i + length s)%nat -> s <> [] -> last s = Some "]"%byte.
Proof.
  revert st i. induction s as [|c s IH]; intros st i; [done|]. intros H _.
  simpl in H. rewrite <- Nat.add_succ_comm in H.
  destruct s as [|d s].
  - simpl in H. destruct st as [|pv [|]]; repeat (case_match; try discriminate H);
      simplify_eq/=; try lia. byte_cases; try done.
  - rewrite last_cons_cons.
    destruct st as [|pv [|]]; repeat (case_match; try discriminate H);
      try (by eapply IH; [exact H|done]). injection H. simpl. lia.
Qed.

(** ** Slices at character boundaries *)

(** What may follow a position for it to be a character boundary. *)
Definition boundary_head (s : bytes) : Prop :=
  match s with c :: _ => is_cont c = false | [] => True end.

Lemma is_char_boundary_app a r :
  boundary_head r -> is_char_boundary (a ++ r) (length a) = true.
Proof.
  intros H. unfold is_char_boundary. destruct a as [|c a]; [done|].
  cbn [length]. change (S (length a)) with (length (c :: a)).
  rewrite <- (Nat.add_0_r (length (c :: a))), lookup_app_add, Nat.add_0_r.
  destruct r as [|d r]; simpl in *.
  - rewrite app_nil_r. by rewrite Nat.eqb_refl.
  - by rewrite H.
Qed.

Lemma str_slice_mid a b c :
  boundary_head (b ++ c) -> boundary_head c ->
  str_slice (a ++ b ++ c) (length a) (length a + length b) = Some b.
Proof.
  intros Hb Hc. unfold str_slice. rewrite is_char_boundary_app by done.
  rewrite app_assoc, <- length_app, is_char_boundary_app by done.
  rewrite (proj2 (Nat.leb_le _ _)) by (rewrite length_app; lia). simpl.
  rewrite <- app_assoc, drop_app_length, length_app.
  replace (length a + length b - length a)%nat with (length b) by lia.
  by rewrite take_app_length.
Qed.

Lemma str_slice_some s i j r : str_slice s i j = Some r -> r = take (j - i) (drop i s).
Proof. unfold str_slice. case_match; [|done]. by intros [= <-]. Qed.

Lemma utf8_valid_head s : utf8_valid s = true -> boundary_head s.
Proof.
  destruct s as [|c s]; simpl; [done|]. unfold is_cont. intros H.
  repeat case_match; try done; lia.
Qed.

Lemma ascii_boundary s i :
  Forall (fun c => is_ascii c = true) s -> (i <= length s)%nat ->
  is_char_boundary s i = true.
Proof.
  intros Hs Hi. unfold is_char_boundary. destruct i as [|i]; [done|].
  destruct (s !! S i) as [c|] eqn:E.
  - rewrite Forall_lookup in Hs. by rewrite (is_ascii_cont c (Hs _ _ E)).
  - apply lookup_ge_None in E. apply Nat.eqb_eq. lia.
Qed.

(** ** ASCII data never panics *)

Lemma str_slice_ascii s i j :
  Forall (fun c => is_ascii c = true) s -> (i <= j <= length s)%nat ->
  exists r, str_slice s i j = Some r.
Proof.
  intros Hs [H1 H2]. unfold str_slice.
  rewrite (proj2 (Nat.leb_le i j) H1), !ascii_boundary by (done || lia). eauto.
Qed.

Lemma advance_bounds p b pos :
  (pos <= length b)%nat -> (pos <= advance p b pos <= length b)%nat.
Proof.
  intros H. unfold advance. pose proof (span_len_le p (drop pos b)) as Hs.
  rewrite length_drop in Hs. lia.
Qed.

Lemma validate_sd_name_no_panic s f : validate_sd_name s f <> Panic.
Proof.
  unfold validate_sd_name. repeat case_match; try done. by apply reject_first_no_panic.
Qed.

Lemma validate_param_ascii sd pos :
  Forall (fun c => is_ascii c = true) sd -> (pos < length sd)%nat ->
  validate_param sd pos <> Panic.
Proof.
  intros Hs Hp. unfold validate_param. destruct (byte_is sd (S pos) "]"); [done|].
  pose proof (advance_bounds (fun c => negb (Byte.eqb c "=") && negb (Byte.eqb c "]"))
    sd (S pos) ltac:(lia)) as Ha.
  case_match; [done|]. destruct (str_slice_ascii sd (S pos) _ Hs Ha) as [n ->]. simpl.
  destruct (validate_sd_name n (lit "PARAM-NAME")) eqn:En; try done.
  - repeat (case_match; try done).
  - by apply validate_sd_name_no_panic in En.
Qed.

Lemma validate_params_ascii fuel sd pos :
  Forall (fun c => is_ascii c = true) sd -> validate_params fuel sd pos <> Some Panic.
Proof.
  intros Hs. revert pos. induction fuel as [|f IH]; intros pos; simpl; [done|].
  destruct (byte_is sd pos " ") eqn:Eb; [|done]. apply byte_is_lt in Eb.
  pose proof (validate_param_ascii sd pos Hs Eb). by destruct (validate_param sd pos) as [[]| |].
Qed.

Lemma validate_element_ascii sd pos :
  Forall (fun c => is_ascii c = true) sd -> (pos < length sd)%nat ->
  validate_element sd pos <> Some Panic.
Proof.
  intros Hs Hp. unfold validate_element.
  set (q := advance _ sd (S pos)).
  assert (Ha : (S pos <= q <= length sd)%nat) by (apply advance_bounds; lia).
  destruct (str_slice_ascii sd (S pos) q Hs Ha) as [n ->]. cbn [or_panic].
  destruct (validate_sd_name n (lit "SD-ID")) eqn:En; try done.
  - pose proof (validate_params_ascii (S (length sd)) sd q Hs).
    by destruct (validate_params _ sd q) as [[| |]|].
  - by apply validate_sd_name_no_panic in En.
Qed.

Lemma validate_structured_data_content_ascii sd :
  Forall (fun c => is_ascii c = true) sd -> validate_structured_data_content sd <> Panic.
Proof.
  intros Hs. unfold validate_structured_data_content. case_bool_decide; [done|].
  destruct (validate_structured_data_content_terminates sd) as [r Hr]. rewrite Hr.
  intros ->. revert Hr. generalize (S (length sd)) 0%nat. intros fuel.
  induction fuel as [|f IH]; intros pos; [done|]. simpl.
  destruct (Nat.ltb_spec pos (length sd)) as [Hlt|]; [|done].
  pose proof (validate_element_ascii sd pos Hs Hlt).
  destruct (validate_element sd pos) as [[| |]|]; try done. apply IH.
Qed.

(** The slices of [parse_structured_data_and_msg] are at character
    boundaries of any well-formed string. *)
Lemma parse_structured_data_and_msg_no_panic s :
  utf8_valid s = true -> parse_structured_data_and_msg s <> Panic.
Proof.
  intros Hu. unfold parse_structured_data_and_msg.
  destruct (strip_prefix (lit "-") s); [done|]. case_match; [done|].
  destruct (find_structured_data_end s) as [k|e|] eqn:Ek; try done.
  - apply scan_sd_bounds in Ek as (k' & -> & Hk & Ht). simpl in *.
    assert (Hla : length (take k' s) = k') by (rewrite length_take; lia).
    rewrite <- (take_drop k' s) in Hu |- *.
    revert Hla Ht Hu. generalize (take k' s) (drop k' s). intros a b Hla Ht Hu.
    assert (Hb : utf8_valid b = true).
    { destruct (decide (a = [])) as [->|Hne]; [done|].
      assert (Hl : last a = Some "]"%byte).
      { eapply scan_sd_last; [|done]. rewrite Ht. by rewrite <- Hla. }
      apply last_Some in Hl as [a'' ->]. rewrite <- app_assoc in Hu. cbn [app] in Hu.
      rewrite utf8_valid_split in Hu by done. by apply andb_true_iff in Hu as [_ ?]. }
    assert (H1 : str_slice (a ++ b) 0 k' = Some a).
    { rewrite <- Hla. apply (str_slice_mid [] a b).
      - by apply utf8_valid_head in Hu.
      - by apply utf8_valid_head. }
    assert (H2 : str_slice (a ++ b) k' (length (a ++ b)) = Some b).
    { rewrite length_app, <- Hla. rewrite <- (app_nil_r b) at 1. apply str_slice_mid.
      - rewrite app_nil_r. by apply utf8_valid_head.
      - done. }
    rewrite H1, H2. done.
  - exfalso. clear -Ek. revert Ek. unfold find_structured_data_end.
    generalize Outside 0%nat. induction s as [|c s IH]; intros st i; simpl; [by destruct st|].
    destruct st as [|pv [|]]; repeat case_match; try done; apply IH.
Qed.

(** ** The grammar of RFC 5424

    PARAM-VALUEs escape the quote, the backslash and the closing bracket. *)

Definition needs_escape (c : byte) : bool :=
  Byte.eqb c x22 || Byte.eqb c "\" || Byte.eqb c "]".

(** [session.rs]'s [escape_sd_param]. *)
Fixpoint escape_sd_param (s : bytes) : bytes :=
  match s with
  | [] => []
  | c :: r =>
      if needs_escape c then "\"%byte :: c :: escape_sd_param r
      else c :: escape_sd_param r
  end.

Record SdElement : Type := mkSdElement {
  sd_id : bytes;
  sd_params : list (bytes * bytes)
}.

Definition render_param (p : bytes * bytes) : bytes :=
  " "%byte :: fst p ++ "="%byte :: x22 :: escape_sd_param (snd p) ++ [x22].

Definition render_params (ps : list (bytes * bytes)) : bytes := concat (map render_param ps).

Definition render_element (e : SdElement) : bytes :=
  "["%byte :: sd_id e ++ render_params (sd_params e) ++ ["]"%byte].

Definition render_sd (es : list SdElement) : bytes := concat (map render_element es).

(** SD-NAME: 1 to 32 PRINTUSASCII bytes other than the equals sign, the
    closing bracket and the quote. *)
Definition sd_name_ok (s : bytes) : Prop :=
  s <> [] /\ len s <= 32 /\ Forall (fun c => sd_name_char (bz c) = true) s.

(** SD-ELEMENT. *)
Definition rfc_element (e : SdElement) : Prop :=
  sd_name_ok (sd_id e) /\ Forall (fun p => sd_name_ok (fst p)) (sd_params e).

(** Whether the scanner of the code, which takes a backslash for an escape
    anywhere in an element, is left in the middle of one. *)
Fixpoint escape_open (open : bool) (s : bytes) : bool :=
  match s with
  | [] => open
  | c :: r => escape_open (negb open && Byte.eqb c "\") r
  end.

(** The elements that are read: an SD-ID that stands alone in its brackets
    must not end in an unpaired backslash. *)
Definition element_ok (e : SdElement) : Prop :=
  rfc_element e /\ (sd_params e = [] -> escape_open false (sd_id e) = false).

#[export] Instance sd_name_ok_dec s : Decision (sd_name_ok s).
Proof. unfold sd_name_ok. apply _. Defined.

#[export] Instance element_ok_dec e : Decision (element_ok e).
Proof.
  unfold element_ok, rfc_element. apply and_dec; [apply _|].
  destruct (sd_params e); [|by left]. destruct (decide (escape_open false (sd_id e) = false)); [by left|].
  right. naive_solver.
Defined.

(** *** The scanner on rendered data *)

Lemma sd_name_char_plain c :
  sd_name_char (bz c) = true -> c <> x22 /\ c <> "]"%byte /\ c <> "="%byte /\ c <> " "%byte
    /\ is_ascii c = true.
Proof.
  unfold sd_name_char, printusascii, is_ascii. intros H. split_and!; try lia.
  all: intros ->; by vm_compute in H.
Qed.

Lemma scan_sd_name op n r i :
  sd_name_ok n ->
  scan_sd (Inside false op) (n ++ r) i = scan_sd (Inside false (escape_open op n)) r (i + length n)%nat.
Proof.
  intros (_ & _ & Hf). revert op i. induction Hf as [|c n Hc Hf IH]; intros op i; simpl.
  { by rewrite Nat.add_0_r. }
  apply sd_name_char_plain in Hc as (? & ? & _). rewrite <- Nat.add_succ_comm.
  destruct op; cbn [negb andb]; [apply IH|]. destruct (Byte.eqb c "\"); [apply IH|].
  rewrite !beq_ne by done. apply IH.
Qed.

Lemma scan_sd_escape v r i :
  scan_sd (Inside true false) (escape_sd_param v ++ r) i
  = scan_sd (Inside true false) r (i + length (escape_sd_param v))%nat.
Proof.
  revert i. induction v as [|c v IH]; intros i; simpl; [by rewrite Nat.add_0_r|].
  unfold needs_escape. destruct (beq_spec c x22) as [->|H1]; simpl.
  { rewrite IH. f_equal. lia. }
  destruct (beq_spec c "\") as [->|H2]; simpl.
  { rewrite IH. f_equal. lia. }
  destruct (beq_spec c "]") as [->|H3]; simpl.
  { rewrite IH. f_equal. lia. }
  rewrite !beq_ne by done. simpl. rewrite IH. f_equal. lia.
Qed.

Lemma scan_sd_param op p r i :
  sd_name_ok (fst p) ->
  scan_sd (Inside false op) (render_param p ++ r) i
  = scan_sd (Inside false false) r (i + length (render_param p))%nat.
Proof.
  intros Hn. unfold render_param. destruct op; cbn -[Nat.add];
    rewrite <- app_assoc, scan_sd_name by done; destruct (escape_open false (fst p)); cbn -[Nat.add];
    rewrite <- app_assoc, scan_sd_escape; cbn -[Nat.add]; f_equal;
    rewrite length_app; simpl; rewrite length_app; simpl; lia.
Qed.

Lemma scan_sd_params op ps r i :
  Forall (fun p => sd_name_ok (fst p)) ps ->
  scan_sd (Inside false op) (render_params ps ++ r) i
  = scan_sd (Inside false (match ps with [] => op | _ => false end)) r (i + length (render_params ps))%nat.
Proof.
  intros Hf. revert op i. induction Hf as [|p ps Hp Hf IH]; intros op i.
  { simpl. by rewrite Nat.add_0_r. }
  unfold render_params in *. cbn [map concat].
  rewrite <- app_assoc, scan_sd_param, IH by done. rewrite length_app, Nat.add_assoc. by destruct ps.
Qed.

Lemma scan_sd_element e r i :
  element_ok e ->
  scan_sd Outside (render_element e ++ r) i
  = scan_sd Outside r (i + length (render_element e))%nat.
Proof.
  intros [[Hi Hp] Ho]. unfold render_element. cbn -[Nat.add].
  rewrite <- app_assoc, scan_sd_name by done.
  rewrite <- app_assoc, scan_sd_params by done.
  assert (E : match sd_params e with [] => escape_open false (sd_id e) | _ => false end = false)
    by (destruct (sd_params e); auto).
  rewrite E. cbn -[Nat.add]. f_equal. rewrite !length_app. simpl. lia.
Qed.

Lemma scan_sd_elements es r i :
  Forall element_ok es ->
  scan_sd Outside (render_sd es ++ r) i
  = scan_sd Outside r (i + length (render_sd es))%nat.
Proof.
  intros Hf. revert i. induction Hf as [|e es He Hf IH]; intros i.
  { simpl. by rewrite Nat.add_0_r. }
  unfold render_sd in *. cbn [map concat].
  rewrite <- app_assoc, scan_sd_element, IH by done. f_equal. rewrite length_app. lia.
Qed.

(** *** The content validator on rendered data

    Facts on [sd = a ++ r] at the position just past [a]. *)

Lemma byte_is_at sd a r pos c :
  sd = a ++ r -> pos = length a ->
  byte_is sd pos c = match r with d :: _ => Byte.eqb d c | [] => false end.
Proof.
  intros -> ->. unfold byte_is. rewrite <- (Nat.add_0_r (length a)), lookup_app_add.
  by destruct r.
Qed.

Lemma advance_at p sd a s c r pos :
  sd = a ++ s ++ c :: r -> pos = length a ->
  Forall (fun d => p d = true) s -> p c = false ->
  advance p sd pos = (length a + length s)%nat.
Proof.
  intros -> -> Hs Hc. unfold advance. rewrite drop_app_length. by rewrite span_len_app.
Qed.

Lemma drop_at (sd a r : bytes) pos : sd = a ++ r -> pos = length a -> drop pos sd = r.
Proof. intros -> ->. apply drop_app_length. Qed.

Lemma skip_param_value_escape v r :
  skip_param_value false (escape_sd_param v ++ x22 :: r)
  = Some (S (length (escape_sd_param v))).
Proof.
  induction v as [|c v IH]; simpl; [done|]. unfold needs_escape.
  destruct (beq_spec c x22) as [->|H1]; simpl; [by rewrite IH|].
  destruct (beq_spec c "\") as [->|H2]; simpl; [by rewrite IH|].
  destruct (beq_spec c "]") as [->|H3]; simpl; [by rewrite IH|].
  rewrite !beq_ne by done. by rewrite IH.
Qed.

Lemma sd_name_ok_ascii n : sd_name_ok n -> Forall (fun c => is_ascii c = true) n.
Proof.
  intros (_ & _ & Hf). eapply Forall_impl; [exact Hf|].
  intros c Hc. apply sd_name_char_plain in Hc. tauto.
Qed.

Lemma validate_sd_name_ok n field : sd_name_ok n -> validate_sd_name n field = Ok tt.
Proof.
  intros Hn. pose proof (sd_name_ok_ascii n Hn) as Ha. destruct Hn as (Hne & Hl & Hf).
  unfold validate_sd_name. rewrite bool_decide_eq_false_2 by done.
  rewrite (proj2 (Z.ltb_ge _ _) Hl). apply reject_first_ok.
  rewrite chars_ascii by done. apply Forall_map. eapply Forall_impl; [exact Hf|].
  simpl. by intros c ->.
Qed.

Lemma sd_name_boundary n r : sd_name_ok n -> boundary_head (n ++ r).
Proof.
  intros Hn. pose proof (sd_name_ok_ascii n Hn) as Ha. destruct Hn as (Hne & _ & _).
  destruct n as [|c n]; [done|]. apply Forall_cons in Ha as [Hc _]. by apply is_ascii_cont.
Qed.

Lemma sd_name_avoids n (p : byte -> bool) :
  sd_name_ok n -> (forall c, sd_name_char (bz c) = true -> p c = true) ->
  Forall (fun c => p c = true) n.
Proof.
  intros (_ & _ & Hf) Hp. eapply Forall_impl; [exact Hf|]. intros c Hc. by apply Hp.
Qed.

(** Solve the side conditions [sd = _ ++ _] and [pos = length _]. *)
Ltac at_pos :=
  solve [ by rewrite <- ?app_assoc
        | repeat (progress (rewrite ?length_app; cbn [length])); lia ].

Lemma validate_param_render sd a n v r pos :
  sd = a ++ render_param (n, v) ++ r -> pos = length a -> sd_name_ok n ->
  validate_param sd pos = Ok (inr (length a + length (render_param (n, v)))%nat).
Proof.
  intros Hsd -> Hn. unfold render_param in *. cbn [fst snd] in *.
  assert (E1 : sd = (a ++ [" "%byte]) ++ n ++ "="%byte :: x22 :: escape_sd_param v ++ x22 :: r)
    by (subst sd; by simplify_list_eq).
  assert (E2 : sd = (a ++ " "%byte :: n) ++ "="%byte :: x22 :: escape_sd_param v ++ x22 :: r)
    by (subst sd; by simplify_list_eq).
  assert (E3 : sd = (a ++ " "%byte :: n ++ ["="%byte]) ++ x22 :: escape_sd_param v ++ x22 :: r)
    by (subst sd; by simplify_list_eq).
  assert (E4 : sd = (a ++ " "%byte :: n ++ ["="%byte; x22]) ++ escape_sd_param v ++ x22 :: r)
    by (subst sd; by simplify_list_eq).
  clear Hsd. unfold validate_param. rewrite (byte_is_at _ _ _ _ _ E1) by at_pos.
  assert (Hh : match n ++ "="%byte :: x22 :: escape_sd_param v ++ x22 :: r with
               | d :: _ => Byte.eqb d "]" | [] => false end = false).
  { destruct Hn as (Hne & _ & Hf). destruct n as [|d n]; [done|].
    apply Forall_cons in Hf as [Hd _]. apply sd_name_char_plain in Hd as (_ & ? & _).
    by apply beq_ne. }
  rewrite Hh. erewrite advance_at; [|exact E1|at_pos| |done].
  2:{ apply sd_name_avoids; [done|]. intros c (_ & H1 & H2 & _)%sd_name_char_plain.
      by rewrite !beq_ne. }
  rewrite (byte_is_at _ _ _ _ _ E2) by at_pos. cbn [negb Byte.eqb].
  rewrite beq_refl. cbn [negb].
  replace (S (length a)) with (length (a ++ [" "%byte])) by at_pos.
  rewrite E1 at 1. rewrite str_slice_mid by (done || by apply sd_name_boundary).
  cbn [or_panic]. rewrite validate_sd_name_ok by done.
  rewrite (byte_is_at _ _ _ _ _ E3) by at_pos. rewrite beq_refl. cbn [negb].
  rewrite (drop_at _ _ _ _ E4) by at_pos. rewrite skip_param_value_escape.
  do 2 f_equal. at_pos.
Qed.

Lemma validate_params_render sd a ps r pos fuel :
  sd = a ++ render_params ps ++ "]"%byte :: r -> pos = length a ->
  Forall (fun p => sd_name_ok (fst p)) ps -> (length ps < fuel)%nat ->
  validate_params fuel sd pos = Some (Ok (length a + length (render_params ps))%nat).
Proof.
  intros Hsd Hpos Hf. revert a pos fuel Hsd Hpos.
  induction Hf as [|[n v] ps Hp Hf IH]; intros a pos fuel Hsd Hpos Hfuel;
    (destruct fuel as [|f]; [simpl in *; lia|]); cbn [validate_params].
  - rewrite (byte_is_at _ _ _ _ _ Hsd Hpos). simpl. do 2 f_equal. lia.
  - unfold render_params in *. cbn [map concat] in *. rewrite <- app_assoc in Hsd.
    rewrite (byte_is_at _ _ _ _ _ Hsd Hpos). unfold render_param at 1. cbn [app]. rewrite beq_refl.
    rewrite (validate_param_render _ _ _ _ _ _ Hsd Hpos Hp).
    rewrite (IH (a ++ render_param (n, v))); [|by rewrite <- app_assoc|by rewrite length_app|simpl in *; lia].
    do 2 f_equal. rewrite !length_app. lia.
Qed.

Lemma render_params_length ps : (length ps <= length (render_params ps))%nat.
Proof.
  induction ps as [|p ps IH]; simpl; [lia|]. unfold render_params in *. cbn [map concat].
  rewrite length_app. assert (1 <= length (render_param p))%nat by (simpl; lia). lia.
Qed.

Lemma validate_element_render sd a e r pos :
  sd = a ++ render_element e ++ r -> pos = length a -> element_ok e ->
  validate_element sd pos = Some (Ok (length a + length (render_element e))%nat).
Proof.
  intros Hsd -> [[Hi Hp] _]. unfold render_element in *.
  assert (E1 : sd = (a ++ ["["%byte]) ++ sd_id e ++ render_params (sd_params e) ++ "]"%byte :: r)
    by (subst sd; by simplify_list_eq).
  assert (E2 : sd = (a ++ "["%byte :: sd_id e) ++ render_params (sd_params e) ++ "]"%byte :: r)
    by (subst sd; by simplify_list_eq).
  assert (E3 : sd = (a ++ "["%byte :: sd_id e ++ render_params (sd_params e)) ++ "]"%byte :: r)
    by (subst sd; by simplify_list_eq).
  assert (Ht : exists c t, render_params (sd_params e) ++ "]"%byte :: r = c :: t
                           /\ (c = " "%byte \/ c = "]"%byte)).
  { destruct (sd_params e) as [|p ps]; simpl; [by eauto|]. unfold render_params, render_param.
    cbn [map concat app]. eauto. }
  destruct Ht as (c & t & Ht & Hc).
  assert (Hb : boundary_head (c :: t)) by (by destruct Hc; subst).
  unfold validate_element. clear Hsd. rewrite Ht in E1.
  erewrite advance_at; [|exact E1|at_pos| |by destruct Hc; subst].
  2:{ apply sd_name_avoids; [done|]. intros d (_ & H1 & _ & H2 & _)%sd_name_char_plain.
      by rewrite !beq_ne. }
  replace (S (length a)) with (length (a ++ ["["%byte])) by at_pos.
  rewrite E1 at 1. rewrite str_slice_mid by (done || by apply sd_name_boundary).
  cbn [or_panic]. rewrite validate_sd_name_ok by done.
  erewrite validate_params_render; [|exact E2|at_pos|done|].
  2:{ pose proof (render_params_length (sd_params e)). rewrite E2, !length_app. simpl. lia. }
  rewrite (byte_is_at _ _ _ _ _ E3) by at_pos. rewrite beq_refl. do 2 f_equal.
  at_pos.
Qed.

Lemma validate_elements_render sd a es pos fuel :
  sd = a ++ render_sd es -> pos = length a -> Forall element_ok es ->
  (length es < fuel)%nat ->
  validate_elements fuel sd pos = Some (Ok tt).
Proof.
  intros Hsd Hpos Hf. revert a pos fuel Hsd Hpos.
  induction Hf as [|e es He Hf IH]; intros a pos fuel Hsd Hpos Hfuel;
    (destruct fuel as [|f]; [simpl in *; lia|]); cbn [validate_elements]; subst pos.
  - subst sd. rewrite app_nil_r. by rewrite Nat.ltb_irrefl.
  - unfold render_sd in *. cbn [map concat] in *.
    rewrite (proj2 (Nat.ltb_lt _ _))
      by (subst sd; rewrite !length_app; unfold render_element; simpl; lia).
    rewrite (validate_element_render _ _ _ _ _ Hsd eq_refl He).
    apply (IH (a ++ render_element e)); [by rewrite <- app_assoc|by rewrite length_app|simpl in *; lia].
Qed.

Lemma render_sd_length es : (length es <= length (render_sd es))%nat.
Proof.
  induction es as [|e es IH]; simpl; [lia|]. unfold render_sd in *. cbn [map concat].
  rewrite length_app. assert (1 <= length (render_element e))%nat by (simpl; lia). lia.
Qed.

(** Rendered data passes the content validator. *)
Lemma validate_content_render es :
  Forall element_ok es -> validate_structured_data_content (render_sd es) = Ok tt.
Proof.
  intros Hf. unfold validate_structured_data_content. case_bool_decide; [done|].
  pose proof (render_sd_length es).
  by rewrite (validate_elements_render _ [] es) by (done || lia).
Qed.
