(* ===== verification/SyslogRoundtrip.v ===== *)
(** * Round trips of the RFC 5424 parser

    Parsing what was rendered gives the message back; what was parsed is well
    formed and survives rendering; where the parser panics and where it
    cannot. *)

From stdpp Require Import prelude strings list.
From Stdlib Require Import ZArith Lia.
From S2P Require Import Prelude RustStd Syslog SyslogFacts Timestamp StructuredData.

(** ** Well-formed messages *)

Definition wf_timestamp (o : option bytes) : Prop :=
  match o with None => True | Some s => accepted_timestamp s end.

(** Nil, or elements the scanner reads to their end and whose content is
    accepted. *)
Definition wf_sd (sd : bytes) : Prop :=
  sd = lit "-" \/
  (exists r, sd = "["%byte :: r) /\ find_structured_data_end sd = Ok (length sd)
  /\ validate_structured_data_content sd = Ok tt.

(** Framing strips trailing newlines and NULs. *)
Definition wf_msg (s : bytes) : Prop := forall c, last s = Some c -> trimmed c = false.

Definition wf_message (m : SyslogMessage) : Prop :=
  wf_timestamp (timestamp m) /\ field_ok 255 (hostname m) /\ field_ok 48 (app_name m)
  /\ field_ok 128 (proc_id m) /\ field_ok 32 (msg_id m) /\ wf_sd (structured_data m)
  /\ wf_msg (msg m).

Lemma wf_timestamp_no_space o : wf_timestamp o -> (" "%byte ∉ opt_field o).
Proof.
  destruct o as [s|]; simpl.
  - intros [Hp _]%accepted_timestamp_printable. by apply printusascii_not_space.
  - intros _ H. by apply list_elem_of_singleton in H.
Qed.

Lemma wf_timestamp_not_dash o : wf_timestamp o -> o <> Some (lit "-").
Proof.
  destruct o; simpl; [|done]. intros [_ Hl]%accepted_timestamp_printable [= ->].
  simpl in Hl. lia.
Qed.

Lemma wf_timestamp_validate o : wf_timestamp o -> validate_opt validate_timestamp o = Ok tt.
Proof. destruct o; simpl; [|done]. by apply validate_timestamp_grammar. Qed.

(** ** STRUCTURED-DATA and MSG *)

(** The tail of [display]. *)
Definition render_tail (sd m : bytes) : bytes :=
  sd ++ (if bool_decide (m = []) then [] else lit " " ++ m).

(** [SP MSG], or nothing. *)
Definition msg_text (om : option bytes) : bytes :=
  match om with Some m => lit " " ++ m | None => [] end.

Lemma parse_sd_msg sd om :
  wf_sd sd -> parse_structured_data_and_msg (sd ++ msg_text om) = Ok (sd, default [] om).
Proof.
  unfold parse_structured_data_and_msg. intros [->|[[r Hr] [Hf Hc]]].
  - rewrite strip_prefix_app. destruct om as [m|]; [|done]. unfold msg_text. by rewrite strip_prefix_app.
  - set (t := msg_text om).
    assert (Ht : match t with c :: _ => c <> "["%byte | [] => True end) by (by destruct om).
    assert (Hb : boundary_head t) by (by destruct om).
    assert (He : find_structured_data_end (sd ++ t) = Ok (length sd))
      by (unfold find_structured_data_end in *; by apply scan_sd_app).
    assert (H0 : boundary_head (sd ++ t)) by (by rewrite Hr).
    assert (S1 : str_slice (sd ++ t) 0 (length sd) = Some sd)
      by exact (str_slice_mid [] sd t H0 Hb).
    assert (S2 : str_slice (sd ++ t) (length sd) (length (sd ++ t)) = Some t).
    { rewrite length_app. pose proof (str_slice_mid sd t []) as H. rewrite app_nil_r in H.
      by apply H. }
    assert (N : strip_prefix (lit "-") (sd ++ t) = None) by (by rewrite Hr).
    assert (B : starts_with (lit "[") (sd ++ t) = true) by (by rewrite Hr).
    rewrite N, B, He, S1, S2. by destruct om.
Qed.

Lemma render_tail_msg sd m : render_tail sd m = sd ++ msg_text (if bool_decide (m = []) then None else Some m).
Proof. unfold render_tail. by case_bool_decide. Qed.

Lemma wf_sd_validate sd : wf_sd sd -> validate_structured_data_content sd = Ok tt.
Proof. intros [->|(_ & _ & H)]; [done|exact H]. Qed.

Lemma wf_sd_last sd : wf_sd sd -> exists c, last sd = Some c /\ trimmed c = false.
Proof.
  intros [->|([r Hr] & Hf & _)]; [by exists "-"%byte|].
  exists "]"%byte. split; [|done]. eapply scan_sd_last; [exact Hf|]. by subst.
Qed.

Lemma render_tail_last sd m c :
  wf_sd sd -> wf_msg m -> last (render_tail sd m) = Some c -> trimmed c = false.
Proof.
  intros Hs Hm. unfold render_tail. case_bool_decide as Hn.
  - rewrite app_nil_r. destruct (wf_sd_last sd Hs) as (d & -> & Hd). by intros [= <-].
  - rewrite last_app. destruct m as [|d m]; [done|].
    change (lit " " ++ d :: m) with (" "%byte :: d :: m). rewrite last_cons_cons.
    destruct (last (d :: m)) as [e|] eqn:El.
    + intros [= <-]. by apply Hm.
    + apply last_None in El. done.
Qed.

(** ** Rendering then parsing *)

(** The header, with the space after it. *)
Definition header_text (p : Priority) (ts h a pid mid : option bytes) : bytes :=
  lit "<" ++ show_uint (Priority_as_integer p) ++ lit ">1 "
  ++ opt_field ts ++ lit " " ++ opt_field h ++ lit " " ++ opt_field a ++ lit " " ++ opt_field pid ++ lit " "
  ++ opt_field mid ++ lit " ".

Lemma display_eq m :
  display m = header_text (priority m) (timestamp m) (hostname m) (app_name m) (proc_id m) (msg_id m)
              ++ render_tail (structured_data m) (msg m).
Proof. unfold display, header_text, render_tail. by rewrite <- !app_assoc. Qed.

Lemma last_app_ne {A} (a b : list A) : b <> [] -> last (a ++ b) = last b.
Proof.
  intros Hb. rewrite last_app. destruct (last b) eqn:E; [done|].
  by apply last_None in E.
Qed.

Lemma render_tail_not_nil sd m : wf_sd sd -> render_tail sd m <> [].
Proof.
  intros Hs Hn. apply app_eq_nil in Hn as [-> _]. destruct (wf_sd_last [] Hs) as (? & ? & _). done.
Qed.

Lemma display_last m c :
  wf_message m -> last (display m) = Some c -> trimmed c = false.
Proof.
  intros (_ & _ & _ & _ & _ & Hs & Hm).
  assert (Hd : exists pre, display m = pre ++ render_tail (structured_data m) (msg m)).
  { unfold display. fold (render_tail (structured_data m) (msg m)).
    rewrite !app_assoc. by eexists. }
  destruct Hd as [pre ->]. rewrite last_app_ne by by apply render_tail_not_nil.
  by apply render_tail_last.
Qed.

Lemma digits_no_gt n : 0 <= n -> (">"%byte ∉ show_uint n).
Proof.
  intros Hn Hin. pose proof (show_uint_digits n Hn) as Hd.
  rewrite Forall_forall in Hd. by apply Hd in Hin.
Qed.

(** From the parts of a text to the parts of the message. *)
Lemma parse_parts raw p ts h a pid mid sd tail m :
  wf_timestamp ts -> field_ok 255 h -> field_ok 48 a -> field_ok 128 pid -> field_ok 32 mid -> wf_sd sd ->
  trim_end_matches trimmed raw = header_text p ts h a pid mid ++ tail ->
  parse_structured_data_and_msg tail = Ok (sd, m) ->
  parse raw = Ok (mkMessage p ts h a pid mid sd m).
Proof.
  intros Ht Hh Ha Hp Hi Hs Heq Htail. unfold parse. rewrite Heq. unfold header_text.
  pose proof (Priority_as_integer_range p) as Hpr.
  rewrite <- !app_assoc, strip_prefix_app. cbn [ok_or].
  change (lit ">1 " ++ ?x) with (">"%byte :: lit "1 " ++ x).
  rewrite split_once_app by (apply digits_no_gt; lia). cbn [ok_or].
  rewrite parse_show by (unfold u8_max; lia). cbn [ok_or].
  rewrite Priority_from_as, strip_prefix_app. cbn [ok_or].
  rewrite (split_header_field_app ts) by eauto using wf_timestamp_no_space, wf_timestamp_not_dash.
  rewrite (split_header_field_app h) by eauto using field_ok_no_space, field_ok_not_dash.
  rewrite (split_header_field_app a) by eauto using field_ok_no_space, field_ok_not_dash.
  rewrite (split_header_field_app pid) by eauto using field_ok_no_space, field_ok_not_dash.
  rewrite (split_header_field_app mid) by eauto using field_ok_no_space, field_ok_not_dash.
  rewrite Htail.
  by rewrite wf_timestamp_validate, !field_ok_validate, wf_sd_validate by done.
Qed.

(** The round trip, for use by the other components. *)
Lemma parse_display_wf m : wf_message m -> parse (display m) = Ok m.
Proof.
  intros Hw. pose proof Hw as (Ht & Hh & Ha & Hp & Hi & Hs & Hm).
  rewrite (parse_parts _ (priority m) (timestamp m) (hostname m) (app_name m) (proc_id m) (msg_id m)
    (structured_data m) (render_tail (structured_data m) (msg m)) (msg m)); try done; [by destruct m| |].
  - rewrite trim_end_id by (intros c; by apply display_last). apply display_eq.
  - rewrite render_tail_msg, parse_sd_msg by done. by case_bool_decide as E; rewrite ?E.
Qed.

(** ** Parsing *)

Lemma trim_end_utf8 p s :
  (forall c, p c = true -> is_ascii c = true) ->
  utf8_valid s = true -> utf8_valid (trim_end_matches p s) = true.
Proof.
  intros Hp Hs. destruct (trim_end_prefix p s) as (t & Ht & Hf). rewrite Ht in Hs.
  destruct t as [|c t]; [by rewrite app_nil_r in Hs|].
  apply Forall_cons in Hf as [Hc _]. rewrite utf8_valid_split in Hs by auto.
  by apply andb_true_iff in Hs as [? _].
Qed.

Lemma trimmed_ascii c : trimmed c = true -> is_ascii c = true.
Proof. unfold trimmed. by byte_cases. Qed.

Lemma parse_sd_ok s sd m :
  parse_structured_data_and_msg s = Ok (sd, m) ->
  validate_structured_data_content sd = Ok tt ->
  wf_sd sd /\ (m = [] \/ s = sd ++ " "%byte :: m).
Proof.
  unfold parse_structured_data_and_msg. intros H Hv.
  destruct (strip_prefix (lit "-") s) as [r|] eqn:Ed.
  - apply strip_prefix_some in Ed as ->.
    destruct (strip_prefix (lit " ") r) as [t|] eqn:Es; injection H as <- <-;
      (split; [by left|]); [right|by left].
    by apply strip_prefix_some in Es as ->.
  - destruct (starts_with (lit "[") s) eqn:Eb; [|discriminate H]. cbn [negb] in H.
    apply starts_with_iff in Eb as [u Hu].
    destruct (find_structured_data_end s) as [j| |] eqn:Ej; try discriminate H.
    assert (1 <= j)%nat.
    { rewrite Hu in Ej. apply (scan_sd_bounds (Inside false false)) in Ej.
      destruct Ej as (k & ? & _). lia. }
    apply scan_sd_bounds in Ej as (k & -> & Hk & Ht). cbn [Nat.add] in *.
    destruct (str_slice s 0 k) as [a|] eqn:E1; [|discriminate H].
    destruct (str_slice s k (length s)) as [b|] eqn:E2; [|discriminate H].
    cbn [or_panic] in H. apply str_slice_some in E1 as ->, E2 as ->.
    rewrite drop_0, Nat.sub_0_r, (take_ge (drop k s)) in * by (rewrite length_drop; lia).
    assert (Hw : validate_structured_data_content (take k s) = Ok tt -> wf_sd (take k s)).
    { intros Hc. right. split_and!; [| |done].
      2:{ unfold find_structured_data_end. by rewrite Ht, length_take, Nat.min_l by lia. }
      rewrite Hu. destruct k as [|k]; [lia|by eexists]. }
    destruct (strip_prefix (lit " ") (drop k s)) as [t|] eqn:Es; injection H as <- <-;
      (split; [by apply Hw|]); [right|by left].
    apply strip_prefix_some in Es. rewrite <- (take_drop k s) at 1. by rewrite Es.
Qed.

(** The anatomy of a successful parse: the input, cut at the fields of the
    result, and the checks each of them passed. *)
Lemma parse_inv raw m :
  parse raw = Ok m ->
  exists pri n tail,
    trim_end_matches trimmed raw =
      "<"%byte :: pri ++ ">"%byte :: "1"%byte :: " "%byte :: opt_field (timestamp m)
      ++ " "%byte :: opt_field (hostname m) ++ " "%byte :: opt_field (app_name m)
      ++ " "%byte :: opt_field (proc_id m) ++ " "%byte :: opt_field (msg_id m)
      ++ " "%byte :: tail
    /\ parse_uint u8_max pri = Some n /\ Priority_from_integer n = Ok (priority m)
    /\ parse_structured_data_and_msg tail = Ok (structured_data m, msg m)
    /\ (timestamp m <> Some (lit "-") /\ hostname m <> Some (lit "-")
        /\ app_name m <> Some (lit "-") /\ proc_id m <> Some (lit "-")
        /\ msg_id m <> Some (lit "-"))
    /\ validate_opt validate_timestamp (timestamp m) = Ok tt
    /\ validate_opt (fun h => validate_printusascii_field h (lit "HOSTNAME") 255) (hostname m) = Ok tt
    /\ validate_opt (fun h => validate_printusascii_field h (lit "APP-NAME") 48) (app_name m) = Ok tt
    /\ validate_opt (fun h => validate_printusascii_field h (lit "PROCID") 128) (proc_id m) = Ok tt
    /\ validate_opt (fun h => validate_printusascii_field h (lit "MSGID") 32) (msg_id m) = Ok tt
    /\ validate_structured_data_content (structured_data m) = Ok tt.
Proof.
  unfold parse. intros H. inv_res H. simplify_eq.
  repeat match goal with
  | E : ok_or _ _ = Ok _ |- _ => apply ok_or_ok in E
  | E : split_once _ _ = Some _ |- _ => apply split_once_some in E as [-> _]
  | E : strip_prefix _ _ = Some _ |- _ => apply strip_prefix_some in E; simpl in E; subst
  | E : split_header_field _ _ = Ok _ |- _ => apply split_header_field_ok in E as (-> & _ & ?)
  | x : unit |- _ => destruct x
  end.
  do 3 eexists. split; [eassumption|]. cbn. by split_and!.
Qed.

Lemma opt_utf8 o r :
  utf8_valid (opt_field o ++ " "%byte :: r) = true ->
  (forall s, o = Some s -> utf8_valid s = true) /\ utf8_valid r = true.
Proof.
  rewrite utf8_valid_split by done. intros [Ho Hr]%andb_true_iff. split; [|done].
  by intros s ->.
Qed.

(** What [parse] returns on a Rust [str] is well formed. *)
Lemma parse_wf raw m : utf8_valid raw = true -> parse raw = Ok m -> wf_message m.
Proof.
  intros Hu (pri & n & tail & Hs & _ & _ & Hp & (N1 & N2 & N3 & N4 & N5) & V1 & V2 & V3 & V4 & V5 & V6)%parse_inv.
  apply (trim_end_utf8 trimmed raw trimmed_ascii) in Hu. rewrite Hs in Hu.
  pose proof (trim_end_last trimmed raw) as Hl. rewrite Hs in Hl. clear Hs.
  change (utf8_valid (pri ++ ">"%byte :: "1"%byte :: " "%byte :: opt_field (timestamp m) ++ " "%byte
    :: opt_field (hostname m) ++ " "%byte :: opt_field (app_name m)
      ++ " "%byte :: opt_field (proc_id m) ++ " "%byte :: opt_field (msg_id m)
      ++ " "%byte :: tail) = true) in Hu.
  rewrite utf8_valid_split in Hu by done. apply andb_true_iff in Hu as [_ Hu].
  apply (opt_utf8 (timestamp m)) in Hu as [_ Hu]. apply opt_utf8 in Hu as [U2 Hu].
  apply opt_utf8 in Hu as [U3 Hu]. apply opt_utf8 in Hu as [U4 Hu].
  apply opt_utf8 in Hu as [U5 Hu].
  apply parse_sd_ok in Hp as [Hsd Hm]; [|done].
  split_and!; eauto using field_ok_of_validate.
  - destruct (timestamp m); simpl in *; [|done]. by apply validate_timestamp_grammar.
  - intros c Hc. destruct Hm as [Hm| ->]; [by rewrite Hm in Hc|].
    apply Hl. destruct (msg m) as [|d t]; [done|].
    match goal with |- last ?s = _ => assert (Hsuf : (d :: t) `suffix_of` s) end.
    { repeat first [ reflexivity | apply suffix_cons_r | apply suffix_app_r ]. }
    destruct Hsuf as [pre ->]. by rewrite last_app_ne.
Qed.

(** ** The properties *)

(** C4: parsing the wire form of a well-formed message gives that message
    back: every header field, the STRUCTURED-DATA and the MSG text. *)
Theorem parse_display_roundtrip m : wf_message m -> parse (display m) = Ok m.
Proof. apply parse_display_wf. Qed.

Definition sample : SyslogMessage :=
  mkMessage (mkPriority Local7 Info) (Some (lit "2026-05-14T12:00:00Z")) (Some (lit "myhost"))
    (Some (lit "myapp")) (Some (lit "7823")) (Some (lit "REQUEST"))
    (render_sd [mkSdElement (lit "exampleSDID@32473") [(lit "iut", lit "3]"); (lit "x", lit "\")]])
    (lit "{'user_id':42}").

Lemma sample_parses : parse (display sample) = Ok sample.
Proof. vm_compute. reflexivity. Qed.

Lemma sample_utf8 : utf8_valid (display sample) = true.
Proof. vm_compute. reflexivity. Qed.

Lemma sample_wf : wf_message sample.
Proof. exact (parse_wf (display sample) sample sample_utf8 sample_parses). Defined.

Lemma parse_display_roundtrip_witness :
  wf_message sample /\ parse (display sample) = Ok sample.
Proof. split; [exact sample_wf|]. exact (parse_display_roundtrip sample sample_wf). Defined.

(** Whatever the input, a message that was accepted re-parses to itself
    from its wire form: the receiver of a forwarded message sees the fields
    that were validated. *)
Theorem parse_display_idempotent raw m :
  utf8_valid raw = true -> parse raw = Ok m -> parse (display m) = Ok m.
Proof. intros Hu Hp. apply parse_display_wf. exact (parse_wf raw m Hu Hp). Qed.

Definition odd_raw : bytes := lit "<+014>1 - - - - - [a\]bcd]junk" ++ [x0d; x0a; x00].

Definition odd_message : SyslogMessage :=
  mkMessage (mkPriority User Info) None None None None None (lit "[a\]bcd]") [].

Lemma parse_display_idempotent_witness :
  parse odd_raw = Ok odd_message /\ parse (display odd_message) = Ok odd_message.
Proof.
  assert (H : parse odd_raw = Ok odd_message) by (vm_compute; reflexivity).
  split; [exact H|]. refine (parse_display_idempotent odd_raw odd_message _ H).
  vm_compute. reflexivity.
Defined.

(** An accepted message satisfies the RFC 5424 limits: HOSTNAME, APP-NAME,
    PROCID and MSGID are nil or 1 to 255, 48, 128 and 32 PRINTUSASCII bytes,
    TIMESTAMP is nil or follows the grammar, and the MSG carries no trailing
    newline, carriage return or NUL. *)
Theorem parse_sound raw m :
  utf8_valid raw = true -> parse raw = Ok m ->
  wf_timestamp (timestamp m) /\ field_ok 255 (hostname m) /\ field_ok 48 (app_name m)
  /\ field_ok 128 (proc_id m) /\ field_ok 32 (msg_id m) /\ wf_msg (msg m).
Proof.
  intros Hu Hp. destruct (parse_wf raw m Hu Hp) as (? & ? & ? & ? & ? & _ & ?).
  by split_and!.
Qed.

Lemma parse_sound_witness :
  parse (display sample) = Ok sample /\ field_ok 255 (hostname sample).
Proof.
  split; [exact sample_parses|].
  exact (proj1 (proj2 (parse_sound _ _ sample_utf8 sample_parses))).
Defined.

(** ** Panics *)

Lemma bind_no_panic {E A B} (m : res E A) (k : A -> res E B) :
  m <> Panic -> (forall a, m = Ok a -> k a <> Panic) ->
  (let? a := m in k a) <> Panic.
Proof. destruct m; auto. Qed.

Lemma bind_panic {E A B} (m : res E A) (k : A -> res E B) :
  (let? a := m in k a) = Panic -> m <> Panic -> exists a, m = Ok a /\ k a = Panic.
Proof. destruct m; [eauto|done|done]. Qed.

Lemma ok_or_no_panic {E A} (o : option A) (e : E) : ok_or o e <> Panic.
Proof. by destruct o. Qed.

Lemma Priority_from_integer_no_panic n : Priority_from_integer n <> Panic.
Proof.
  unfold Priority_from_integer. case_match; [done|]. apply bind_no_panic; [|done].
  unfold Facility_from_integer. by repeat case_match.
Qed.

Lemma split_header_field_no_panic s n : split_header_field s n <> Panic.
Proof. unfold split_header_field. by destruct (split_once " " s) as [[? ?]|]. Qed.

Lemma validate_field_no_panic s f n : validate_printusascii_field s f n <> Panic.
Proof.
  unfold validate_printusascii_field. repeat case_match; try done.
  by apply reject_first_no_panic.
Qed.

Lemma validate_opt_no_panic f o : (forall s, f s <> Panic) -> validate_opt f o <> Panic.
Proof. intros H. by destruct o; simpl. Qed.

#[export] Hint Resolve ok_or_no_panic Priority_from_integer_no_panic
  split_header_field_no_panic validate_field_no_panic validate_opt_no_panic
  validate_timestamp_no_panic : logfence.

Lemma ascii_sublists s a c b :
  Forall (fun d => is_ascii d = true) s -> s = a ++ c :: b ->
  Forall (fun d => is_ascii d = true) b.
Proof. intros Hs ->. by apply Forall_app in Hs as [_ [_ ?]%Forall_cons]. Qed.

(** A panic of [parse] comes from the content validator and from nowhere
    else. *)
Lemma parse_panic_source raw :
  utf8_valid raw = true -> parse raw = Panic ->
  exists tail sd m pre, trim_end_matches trimmed raw = pre ++ tail
    /\ parse_structured_data_and_msg tail = Ok (sd, m)
    /\ validate_structured_data_content sd = Panic.
Proof.
  intros Hu Hp. apply (trim_end_utf8 trimmed raw trimmed_ascii) in Hu. unfold parse in Hp.
  assert (Hsuf : trim_end_matches trimmed raw `suffix_of` trim_end_matches trimmed raw) by done.
  revert Hu Hp Hsuf. generalize (trim_end_matches trimmed raw) at 1 2 3. intros s Hu Hp Hsuf.
  destruct (ok_or (strip_prefix (lit "<") s) _) as [s1| |] eqn:E1; try done;
    [|by apply ok_or_no_panic in E1].
  apply ok_or_ok, strip_prefix_some in E1 as ->. rewrite utf8_valid_app in Hu by done.
  destruct (ok_or (split_once ">" s1) _) as [[p s2]| |] eqn:E2; try done;
    [|by apply ok_or_no_panic in E2].
  apply ok_or_ok, split_once_some in E2 as [-> _].
  rewrite utf8_valid_split in Hu by done. apply andb_true_iff in Hu as [_ Hu].
  destruct (ok_or (parse_uint _ _) _) as [n| |] eqn:E3; try done; [|by apply ok_or_no_panic in E3].
  destruct (Priority_from_integer n) as [pr| |] eqn:E4; try done;
    [|by apply Priority_from_integer_no_panic in E4].
  destruct (ok_or (strip_prefix (lit "1 ") s2) _) as [s3| |] eqn:E5; try done;
    [|by apply ok_or_no_panic in E5].
  apply ok_or_ok, strip_prefix_some in E5 as ->. rewrite utf8_valid_app in Hu by done.
  do 5 (match type of Hp with context [split_header_field ?x ?y] =>
    let E := fresh "E" in
    destruct (split_header_field x y) as [[? ?]| |] eqn:E; [|done|by apply split_header_field_no_panic in E];
    apply split_header_field_ok in E as (-> & _ & _); apply opt_utf8 in Hu as [_ Hu] end).
  match type of Hp with context [parse_structured_data_and_msg ?t] =>
    rename t into tail; pose proof (parse_structured_data_and_msg_no_panic tail Hu);
    destruct (parse_structured_data_and_msg tail) as [[sd m]| |] eqn:Esd; try done end.
  assert (Hc : validate_structured_data_content sd = Panic).
  { do 5 (apply bind_panic in Hp as (? & _ & Hp); [|solve [auto with logfence]]).
    by destruct (validate_structured_data_content sd). }
  assert (Ht : tail `suffix_of` trim_end_matches trimmed raw).
  { etrans; [|exact Hsuf].
    repeat first [ reflexivity | apply suffix_cons_r | apply suffix_app_r ]. }
  destruct Ht as [pre Hpre]. by exists tail, sd, m, pre.
Qed.

Lemma parse_structured_data_substring s sd m :
  parse_structured_data_and_msg s = Ok (sd, m) ->
  Forall (fun c => is_ascii c = true) s -> Forall (fun c => is_ascii c = true) sd.
Proof.
  unfold parse_structured_data_and_msg. intros H Hs.
  destruct (strip_prefix (lit "-") s); [injection H as <- _; by repeat constructor|].
  inv_res H. injection H as <- _.
  match goal with E : or_panic (str_slice _ 0 _) = Ok _ |- _ =>
    unfold or_panic in E; destruct (str_slice s 0 _) eqn:Es in E; simplify_eq end.
  apply str_slice_some in Es as ->. by apply Forall_take.
Qed.

Lemma parse_ascii_total raw :
  Forall (fun c => is_ascii c = true) raw -> parse raw <> Panic.
Proof.
  intros Ha Hp. destruct (trim_end_prefix trimmed raw) as (t & Ht & _).
  destruct (parse_panic_source raw (utf8_valid_ascii raw Ha) Hp)
    as (tail & sd & m & pre & Hs & Hsd & Hc).
  rewrite Ht, Hs, !Forall_app in Ha. destruct Ha as [[_ Ha] _].
  apply (parse_structured_data_substring _ _ _ Hsd) in Ha.
  by apply validate_structured_data_content_ascii in Ha.
Qed.

(** C29: [parse] on ASCII input never panics; what it accepts is a well-formed
    message, and its wire form parses to that message again. *)
Theorem parse_ascii_no_panic raw :
  Forall (fun c => is_ascii c = true) raw ->
  match parse raw with
  | Ok m => wf_message m /\ parse (display m) = Ok m
  | Err _ => True
  | Panic => False
  end.
Proof.
  intros Ha. pose proof (parse_ascii_total raw Ha) as Hn.
  destruct (parse raw) as [m|e|] eqn:E; [|done|done].
  apply parse_wf in E; [|by apply utf8_valid_ascii]. split; [done|by apply parse_display_wf].
Qed.

Lemma parse_ascii_no_panic_witness :
  is_ok (parse odd_raw) = true
  /\ match parse odd_raw with
     | Ok m => wf_message m /\ parse (display m) = Ok m
     | Err _ => True
     | Panic => False
     end.
Proof.
  split; [by vm_compute|].
  apply (parse_ascii_no_panic odd_raw). apply (bool_decide_unpack _). by vm_compute.
Defined.

(** An SD-ID the scanner reads past its bracket (it takes [\]] for an
    escape) and the content validator stops at. *)
Definition panic_raw : bytes := lit "<13>1 - - - - - [a\]é] x".

(** [parse] is not total on strings: there is valid UTF-8 it panics on.
    The scanner of [find_structured_data_end] honours a backslash outside a
    quoted value, the content validator does not, and the validator's next
    SD-ID then starts inside a character. *)
Theorem parse_utf8_can_panic : utf8_valid panic_raw = true /\ parse panic_raw = Panic.
Proof. by vm_compute. Qed.

(** ** Completeness for the RFC 5424 grammar *)

Lemma wf_sd_render es : es <> [] -> Forall element_ok es -> wf_sd (render_sd es).
Proof.
  intros Hne He. right. split; [|split].
  - destruct es as [|e es]; [done|]. unfold render_sd, render_element. cbn [map concat app]. eauto.
  - unfold find_structured_data_end. rewrite <- (app_nil_r (render_sd es)) at 1.
    by rewrite scan_sd_elements by done.
  - by apply validate_content_render.
Qed.

(** STRUCTURED-DATA: NILVALUE or SD-ELEMENTs. *)
Definition sd_text (es : list SdElement) : bytes := match es with [] => lit "-" | _ => render_sd es end.

Lemma sd_text_wf es : Forall element_ok es -> wf_sd (sd_text es).
Proof. intros He. destruct es as [|e es]; [by left|]. by apply wf_sd_render. Qed.

(** SYSLOG-MSG of RFC 5424 section 6, version 1: HEADER SP STRUCTURED-DATA [SP MSG]. *)
Definition syslog_msg_text (p : Priority) (ts h a pid mid : option bytes) (es : list SdElement)
    (om : option bytes) : bytes :=
  header_text p ts h a pid mid ++ sd_text es ++ msg_text om.

(** C10: the messages of the RFC 5424 grammar are accepted with exactly their fields.
    The header fields are nil or in range (with all timestamps that are accepted, which
    include the RFC's); STRUCTURED-DATA is nil or any list of SD-ELEMENTs with
    arbitrary parameter values (quotes, backslashes and brackets escaped); MSG
    is absent or any text.  The MSG is returned without the newlines, carriage
    returns and NULs at its end.  The one exception among the SD-ELEMENTs of
    the grammar: an element without parameters whose SD-ID ends in an unpaired
    backslash. *)
Theorem parse_grammar_complete p ts h a pid mid es om :
  wf_timestamp ts -> field_ok 255 h -> field_ok 48 a -> field_ok 128 pid -> field_ok 32 mid ->
  Forall rfc_element es ->
  Forall (fun e => sd_params e = [] -> escape_open false (sd_id e) = false) es ->
  parse (syslog_msg_text p ts h a pid mid es om)
  = Ok (mkMessage p ts h a pid mid (sd_text es) (trim_end_matches trimmed (default [] om))).
Proof.
  intros Ht Hh Ha Hp Hi He Ho. assert (Hsd : wf_sd (sd_text es)) by (apply sd_text_wf; by apply Forall_and).
  apply (parse_parts _ _ _ _ _ _ _ _ (sd_text es ++ msg_text (trim_end_matches trimmed <$> om))); try done.
  - unfold syslog_msg_text. rewrite app_assoc, trim_end_app, <- app_assoc.
    + do 2 f_equal. destruct om as [m|]; [|done]. cbn [msg_text fmap option_fmap option_map].
      apply trim_end_app. by intros c [= <-].
    + intros c. destruct (wf_sd_last _ Hsd) as (d & Hd & Hn).
      rewrite last_app, Hd. by intros [= <-].
  - rewrite parse_sd_msg by done. by destruct om.
Qed.

(** Backslashes in names, an element without parameters, and a newline at
    the end. *)
Lemma parse_grammar_complete_witness :
  let es := [mkSdElement (lit "a@1") [(lit "k\", lit "x]\"); (lit "k2", [x22])];
             mkSdElement (lit "b\c") []; mkSdElement (lit "d\") [(lit "e", [])]] in
  parse (syslog_msg_text (mkPriority Kern Alert) None None (Some (lit "app")) None None es (Some (lit "é" ++ [x0a])))
  = Ok (mkMessage (mkPriority Kern Alert) None None (Some (lit "app")) None None (render_sd es) (lit "é")).
Proof.
  apply parse_grammar_complete; try done.
  - by repeat split; try apply (bool_decide_unpack _); vm_compute.
  - by repeat constructor.
  - by repeat constructor.
Defined.

(** The exception: the element [[a\]] follows the grammar and the message is
    refused, because the scanner takes the bracket for an escaped one. *)
Lemma sd_id_backslash_refused :
  rfc_element (mkSdElement (lit "a\") [])
  /\ parse (syslog_msg_text (mkPriority User Notice) None None None None None
              [mkSdElement (lit "a\") []] (Some (lit "x")))
     = Err (MalformedHeader (lit "unterminated SD-ELEMENT (missing ']')")).
Proof. split; [by repeat constructor|by vm_compute]. Qed.

(** [Priority::from_integer] and [as_integer] are inverse to each other,
    without [u8] wrap-around, and exactly the values 0 to 191 are priorities. *)
Theorem priority_roundtrip :
  (forall p, 0 <= Priority_as_integer p <= 191 /\ Priority_from_integer (Priority_as_integer p) = Ok p)
  /\ (forall n p, Priority_from_integer n = Ok p -> 0 <= n -> n <= 191 /\ Priority_as_integer p = n)
  /\ (forall n, 191 < n <= u8_max -> Priority_from_integer n = Err (InvalidPriority (show_uint n))).
Proof.
  split; [|split].
  - intros p. auto using Priority_as_integer_range, Priority_from_as.
  - intros n p Hp Hn. by apply Priority_from_range.
  - intros n Hn. unfold Priority_from_integer. by rewrite (proj2 (Z.ltb_lt _ _)) by lia.
Qed.
