(* ===== verification/SyslogTests.v ===== *)
(** * The unit tests of [logfence-proto/src/syslog.rs], run on the model

    Each definition is one test function: the conjunction of its assertions,
    as a boolean.  That they all hold ([syslog_tests_pass]) is what the
    authors expect of the parser and the printer, checked of the definitions
    of Syslog.v. *)

From stdpp Require Import prelude strings list.
From Stdlib Require Import ZArith Lia.
From S2P Require Import Prelude RustStd Syslog.

(** A string literal in which ['] stands for the double quote. *)
Definition quo (s : string) : bytes := map (fun c => if Byte.eqb c "'" then x22 else c) (lit s).

(** [assert_eq!] *)
Definition same {A} `{!EqDecision A} (a b : A) : bool := bool_decide (a = b).

Definition is_err {E A} (r : res E A) : bool := match r with Err _ => true | _ => false end.

(** [unwrap]: a test whose [unwrap] fails fails. *)
Definition unwrap {E A} (r : res E A) (k : A -> bool) : bool := match r with Ok a => k a | _ => false end.

(** [matches!(r.unwrap_err(), ParseError::InvalidField { field, .. })] *)
Definition invalid_field {A} (field : bytes) (r : res ParseError A) : bool :=
  match r with Err (InvalidField f _) => same f field | _ => false end.

(** ** Priority *)

Definition priority_round_trip : bool :=
  forallb (fun pri => unwrap (Priority_from_integer (Z.of_nat pri))
                        (fun p => same (Priority_as_integer p) (Z.of_nat pri))) (seq 0 192).

Definition priority_rejects_out_of_range : bool :=
  is_err (Priority_from_integer 192) && is_err (Priority_from_integer 255).

Definition priority_local7_info : bool :=
  unwrap (Priority_from_integer 190) (fun p =>
    same (facility p) Local7 && same (severity p) Info && same (Priority_as_integer p) 190).

(** ** Valid input *)

Definition parse_full_message : bool :=
  let raw := quo "<190>1 2026-05-14T12:00:00Z myhost myapp 7823 REQUEST - {'user_id':42}" in
  unwrap (parse raw) (fun m =>
    same (Priority_as_integer (priority m)) 190
    && same (timestamp m) (Some (lit "2026-05-14T12:00:00Z"))
    && same (hostname m) (Some (lit "myhost"))
    && same (app_name m) (Some (lit "myapp"))
    && same (proc_id m) (Some (lit "7823"))
    && same (msg_id m) (Some (lit "REQUEST"))
    && same (structured_data m) (lit "-")
    && same (msg m) (quo "{'user_id':42}")).

Definition parse_nil_fields : bool :=
  unwrap (parse (lit "<13>1 - - - - - - hello")) (fun m =>
    same (timestamp m) None && same (hostname m) None && same (app_name m) None
    && same (proc_id m) None && same (msg_id m) None
    && same (structured_data m) (lit "-") && same (msg m) (lit "hello")).

Definition parse_empty_msg : bool :=
  unwrap (parse (lit "<13>1 - - - - - -")) (fun m => same (msg m) []).

(** The source's literals are [a\nb] with a backslash, twice. *)
Definition parse_msg_with_spaces_and_embedded_newline : bool :=
  unwrap (parse (quo "<190>1 2026-05-14T12:00:00Z host app 1 ID - {'line':'a\nb'}"))
    (fun m => same (msg m) (quo "{'line':'a\nb'}")).

Definition parse_structured_data_single_element : bool :=
  unwrap (parse (quo "<14>1 - host app 1 ID [exampleSDID@32473 iut='3' eventSource='App'] msg"))
    (fun m => same (structured_data m) (quo "[exampleSDID@32473 iut='3' eventSource='App']")
              && same (msg m) (lit "msg")).

Definition parse_structured_data_multiple_elements : bool :=
  unwrap (parse (quo "<14>1 - - - - - [a x='1'][b y='2'] body"))
    (fun m => same (structured_data m) (quo "[a x='1'][b y='2']") && same (msg m) (lit "body")).

Definition parse_structured_data_escaped_bracket_in_value : bool :=
  unwrap (parse (quo "<14>1 - - - - - [id val='\]'] payload"))
    (fun m => same (structured_data m) (quo "[id val='\]']") && same (msg m) (lit "payload")).

Definition parse_strips_trailing_newline : bool :=
  unwrap (parse (lit "<13>1 - - - - - - body" ++ [x0a])) (fun m => same (msg m) (lit "body")).

Definition parse_strips_trailing_nul : bool :=
  unwrap (parse (lit "<13>1 - - - - - - body" ++ [x00])) (fun m => same (msg m) (lit "body")).

(** ** Errors *)

Definition parse_rejects_missing_pri_open : bool := is_err (parse (lit "13>1 - - - - - - x")).

Definition parse_rejects_missing_pri_close : bool := is_err (parse (lit "<131 - - - - - - x")).

Definition parse_rejects_pri_out_of_range : bool :=
  match parse (lit "<192>1 - - - - - - x") with Err (InvalidPriority _) => true | _ => false end.

Definition parse_rejects_non_numeric_pri : bool := is_err (parse (lit "<abc>1 - - - - - - x")).

Definition parse_rejects_wrong_version : bool := is_err (parse (lit "<13>2 - - - - - - x")).

Definition parse_rejects_truncated_header : bool := is_err (parse (lit "<13>1 - - - -")).

Definition parse_rejects_unterminated_sd_element : bool :=
  is_err (parse (lit "<13>1 - - - - - [unterminated")).

(** ** Printing *)

Definition display_round_trip_full : bool :=
  let raw := quo "<190>1 2026-05-14T12:00:00Z myhost myapp 7823 REQUEST - {'k':'v'}" in
  unwrap (parse raw) (fun m =>
    let rendered := display m in
    same rendered raw && unwrap (parse rendered) (fun m2 => same m m2)).

Definition display_round_trip_nil_fields : bool :=
  let raw := lit "<13>1 - - - - - - body" in unwrap (parse raw) (fun m => same (display m) raw).

Definition display_round_trip_no_msg : bool :=
  let raw := lit "<13>1 - - - - - -" in unwrap (parse raw) (fun m => same (display m) raw).

(** ** TIMESTAMP *)

Definition parse_accepts_timestamp_utc_z : bool :=
  is_ok (parse (lit "<13>1 2026-05-18T09:27:03Z - - - - - body")).

Definition parse_accepts_timestamp_positive_offset : bool :=
  is_ok (parse (lit "<13>1 2026-05-18T14:57:03+05:30 - - - - - body")).

Definition parse_accepts_timestamp_negative_offset : bool :=
  is_ok (parse (lit "<13>1 2026-05-18T04:27:03-05:00 - - - - - body")).

Definition parse_accepts_timestamp_fractional_seconds : bool :=
  is_ok (parse (lit "<13>1 2026-05-18T09:27:03.874960+00:00 - - - - - body")).

Definition parse_accepts_timestamp_single_fraction_digit : bool :=
  is_ok (parse (lit "<13>1 2026-05-18T09:27:03.1Z - - - - - body")).

Definition parse_accepts_timestamp_leap_second : bool :=
  is_ok (parse (lit "<13>1 2026-06-30T23:59:60Z - - - - - body")).

Definition parse_rejects_timestamp_too_short : bool :=
  invalid_field (lit "TIMESTAMP") (parse (lit "<13>1 2026-05-18 - - - - - body")).

Definition parse_rejects_timestamp_invalid_format : bool :=
  invalid_field (lit "TIMESTAMP") (parse (lit "<13>1 not-a-timestamp - - - - - body")).

Definition parse_rejects_timestamp_month_out_of_range : bool :=
  invalid_field (lit "TIMESTAMP") (parse (lit "<13>1 2026-13-01T00:00:00Z - - - - - body")).

Definition parse_rejects_timestamp_day_zero : bool :=
  invalid_field (lit "TIMESTAMP") (parse (lit "<13>1 2026-05-00T00:00:00Z - - - - - body")).

Definition parse_rejects_timestamp_day_out_of_range : bool :=
  invalid_field (lit "TIMESTAMP") (parse (lit "<13>1 2026-05-32T00:00:00Z - - - - - body")).

Definition parse_rejects_timestamp_hour_out_of_range : bool :=
  invalid_field (lit "TIMESTAMP") (parse (lit "<13>1 2026-05-18T24:00:00Z - - - - - body")).

Definition parse_rejects_timestamp_minute_out_of_range : bool :=
  invalid_field (lit "TIMESTAMP") (parse (lit "<13>1 2026-05-18T00:60:00Z - - - - - body")).

Definition parse_rejects_timestamp_second_out_of_range : bool :=
  invalid_field (lit "TIMESTAMP") (parse (lit "<13>1 2026-05-18T00:00:61Z - - - - - body")).

Definition parse_rejects_timestamp_missing_timezone : bool :=
  invalid_field (lit "TIMESTAMP") (parse (lit "<13>1 2026-05-18T09:27:03 - - - - - body")).

Definition parse_rejects_timestamp_fraction_too_long : bool :=
  invalid_field (lit "TIMESTAMP") (parse (lit "<13>1 2026-05-18T09:27:03.1234567Z - - - - - body")).

Definition parse_rejects_timestamp_trailing_chars : bool :=
  invalid_field (lit "TIMESTAMP") (parse (lit "<13>1 2026-05-18T09:27:03ZEXTRA - - - - - body")).

Definition parse_rejects_timestamp_tz_offset_out_of_range : bool :=
  invalid_field (lit "TIMESTAMP") (parse (lit "<13>1 2026-05-18T09:27:03+24:00 - - - - - body")).

(** ** HOSTNAME, APP-NAME, PROCID, MSGID *)

(** [str::repeat] of a character *)
Definition times (n : nat) (c : byte) : bytes := replicate n c.

Definition parse_accepts_hostname_max_length : bool :=
  is_ok (parse (lit "<13>1 - " ++ times 255 "a" ++ lit " - - - - body")).

Definition parse_rejects_hostname_too_long : bool :=
  invalid_field (lit "HOSTNAME") (parse (lit "<13>1 - " ++ times 256 "a" ++ lit " - - - - body")).

Definition parse_rejects_hostname_non_printable_ascii : bool :=
  invalid_field (lit "HOSTNAME") (parse (lit "<13>1 - host" ++ [x01] ++ lit "name - - - - body")).

Definition parse_rejects_hostname_del_char : bool :=
  invalid_field (lit "HOSTNAME") (parse (lit "<13>1 - host" ++ [x7f] ++ lit "name - - - - body")).

Definition parse_accepts_app_name_max_length : bool :=
  is_ok (parse (lit "<13>1 - - " ++ times 48 "a" ++ lit " - - - body")).

Definition parse_rejects_app_name_too_long : bool :=
  invalid_field (lit "APP-NAME") (parse (lit "<13>1 - - " ++ times 49 "a" ++ lit " - - - body")).

Definition parse_rejects_app_name_non_printable_ascii : bool :=
  invalid_field (lit "APP-NAME") (parse (lit "<13>1 - - app" ++ [x09] ++ lit "name - - - body")).

Definition parse_rejects_procid_too_long : bool :=
  invalid_field (lit "PROCID") (parse (lit "<13>1 - - - " ++ times 129 "1" ++ lit " - - body")).

Definition parse_rejects_msgid_too_long : bool :=
  invalid_field (lit "MSGID") (parse (lit "<13>1 - - - - " ++ times 33 "A" ++ lit " - body")).

(** ** STRUCTURED-DATA *)

Definition parse_rejects_sd_id_too_long : bool :=
  invalid_field (lit "SD-ID") (parse (lit "<13>1 - - - - - [" ++ times 33 "a" ++ lit "] body")).

Definition parse_rejects_sd_id_with_equals_sign : bool :=
  invalid_field (lit "SD-ID") (parse (lit "<13>1 - - - - - [bad=id] body")).

Definition parse_rejects_sd_id_with_double_quote : bool :=
  match parse (quo "<13>1 - - - - - [bad'id] body") with Err (MalformedHeader _) => true | _ => false end.

Definition parse_rejects_sd_id_empty : bool :=
  invalid_field (lit "SD-ID") (parse (lit "<13>1 - - - - - [ ] body")).

Definition parse_rejects_param_name_too_long : bool :=
  invalid_field (lit "PARAM-NAME")
    (parse (lit "<13>1 - - - - - [id " ++ times 33 "a" ++ quo "='v'] body")).

Definition parse_rejects_param_name_with_equals_sign : bool :=
  invalid_field (lit "STRUCTURED-DATA") (parse (quo "<13>1 - - - - - [id a=b='v'] body")).

Definition parse_rejects_param_missing_equals : bool :=
  invalid_field (lit "STRUCTURED-DATA") (parse (lit "<13>1 - - - - - [id name] body")).

Definition syslog_tests : list bool :=
  [priority_round_trip;
   priority_rejects_out_of_range;
   priority_local7_info;
   parse_full_message;
   parse_nil_fields;
   parse_empty_msg;
   parse_msg_with_spaces_and_embedded_newline;
   parse_structured_data_single_element;
   parse_structured_data_multiple_elements;
   parse_structured_data_escaped_bracket_in_value;
   parse_strips_trailing_newline;
   parse_strips_trailing_nul;
   parse_rejects_missing_pri_open;
   parse_rejects_missing_pri_close;
   parse_rejects_pri_out_of_range;
   parse_rejects_non_numeric_pri;
   parse_rejects_wrong_version;
   parse_rejects_truncated_header;
   parse_rejects_unterminated_sd_element;
   display_round_trip_full;
   display_round_trip_nil_fields;
   display_round_trip_no_msg;
   parse_accepts_timestamp_utc_z;
   parse_accepts_timestamp_positive_offset;
   parse_accepts_timestamp_negative_offset;
   parse_accepts_timestamp_fractional_seconds;
   parse_accepts_timestamp_single_fraction_digit;
   parse_accepts_timestamp_leap_second;
   parse_rejects_timestamp_too_short;
   parse_rejects_timestamp_invalid_format;
   parse_rejects_timestamp_month_out_of_range;
   parse_rejects_timestamp_day_zero;
   parse_rejects_timestamp_day_out_of_range;
   parse_rejects_timestamp_hour_out_of_range;
   parse_rejects_timestamp_minute_out_of_range;
   parse_rejects_timestamp_second_out_of_range;
   parse_rejects_timestamp_missing_timezone;
   parse_rejects_timestamp_fraction_too_long;
   parse_rejects_timestamp_trailing_chars;
   parse_rejects_timestamp_tz_offset_out_of_range;
   parse_accepts_hostname_max_length;
   parse_rejects_hostname_too_long;
   parse_rejects_hostname_non_printable_ascii;
   parse_rejects_hostname_del_char;
   parse_accepts_app_name_max_length;
   parse_rejects_app_name_too_long;
   parse_rejects_app_name_non_printable_ascii;
   parse_rejects_procid_too_long;
   parse_rejects_msgid_too_long;
   parse_rejects_sd_id_too_long;
   parse_rejects_sd_id_with_equals_sign;
   parse_rejects_sd_id_with_double_quote;
   parse_rejects_sd_id_empty;
   parse_rejects_param_name_too_long;
   parse_rejects_param_name_with_equals_sign;
   parse_rejects_param_missing_equals].

(** All 56 of them. *)
Theorem syslog_tests_pass : Forall (eq true) syslog_tests.
Proof. apply (bool_decide_unpack _). by vm_compute. Qed.
