(* ===== verification/Frame.v ===== *)
(** * RFC 6587 framing: [logfence-proto/src/frame.rs]

    The two codecs as instances of the [Decoder] and [Encoder] interfaces,
    and the laws of a decoder the session loop relies on.  A buffer
    ([BytesMut]) is the list of its bytes; [advance] and [split_to] panic
    past the end of it. *)

From stdpp Require Import prelude strings list.
From Stdlib Require Import ZArith Lia.
From S2P Require Import Prelude RustStd Syslog SyslogFacts Timestamp StructuredData SyslogRoundtrip.

(** ** Errors *)

Inductive FrameError : Type :=
| MessageTooLarge (max got : Z)
| InvalidOctetCount
| FrameInvalidUtf8
| OctetCountPrefixTooLong
| Parse (e : ParseError)
| FrameIo (e : io_error).

Definition MAX_DIGITS : Z := 20.

#[export] Instance FrameError_eq_dec : EqDecision FrameError.
Proof. solve_decision. Defined.

(** ** The codec traits *)

(** [tokio_util::codec::Decoder] and [Encoder] at the item and error types of
    the two codecs: the result and the buffer left behind.  Neither codec
    changes its own state. *)
Class Decoder (C : Type) : Type :=
  decode : C -> bytes -> res FrameError (option SyslogMessage) * bytes.

Class Encoder (C : Type) : Type :=
  encode : C -> SyslogMessage -> bytes -> res FrameError unit * bytes.

(** ** Octet-count framing *)

Record OctetCountCodec : Type := mkOctetCount { oc_max_size : Z }.

Definition OctetCountCodec_new (max_size : Z) : OctetCountCodec := mkOctetCount max_size.

(** The last steps of both decoders, on the extracted bytes. *)
Definition decode_message (msg_bytes : bytes) : res FrameError (option SyslogMessage) :=
  let? msg_str := ok_or (from_utf8 msg_bytes) FrameInvalidUtf8 in
  let? message := map_err Parse (parse msg_str) in
  Ok (Some message).

(** [total] is a [usize] sum: it wraps in a release build.  [reserve] panics
    when the capacity asked for is larger than an allocation can be. *)
Definition octet_decode (c : OctetCountCodec) (buf : bytes)
    : res FrameError (option SyslogMessage) * bytes :=
  match position " " buf with
  | None =>
      if MAX_DIGITS <? len buf then (Err OctetCountPrefixTooLong, buf) else (Ok None, buf)
  | Some sp_pos =>
      match from_utf8 (take sp_pos buf) with
      | None => (Err InvalidOctetCount, buf)
      | Some len_str =>
          match parse_uint usize_max len_str with
          | None => (Err InvalidOctetCount, buf)
          | Some msg_len =>
              if oc_max_size c <? msg_len then
                (Err (MessageTooLarge (oc_max_size c) msg_len), buf)
              else
                let total := wrap 64 (Z.of_nat sp_pos + 1 + msg_len) in
                if len buf <? total then
                  if isize_max <? total then (Panic, buf) else (Ok None, buf)
                else
                  let buf := drop (S sp_pos) buf in
                  if len buf <? msg_len then (Panic, buf)
                  else
                    let msg_bytes := take (Z.to_nat msg_len) buf in
                    let buf := drop (Z.to_nat msg_len) buf in
                    (decode_message msg_bytes, buf)
          end
      end
  end.

Definition octet_encode (c : OctetCountCodec) (item : SyslogMessage) (dst : bytes)
    : res FrameError unit * bytes :=
  let m := display item in
  if oc_max_size c <? len m then (Err (MessageTooLarge (oc_max_size c) (len m)), dst)
  else
    let prefix := show_uint (len m) ++ lit " " in
    (Ok tt, dst ++ prefix ++ m).

(** ** Delimiter framing *)

Record DelimiterCodec : Type := mkDelimiter { delimiter : byte; dl_max_size : Z }.

Definition DelimiterCodec_new (delimiter : byte) (max_size : Z) : DelimiterCodec :=
  mkDelimiter delimiter max_size.

Definition DelimiterCodec_newline (max_size : Z) : DelimiterCodec :=
  DelimiterCodec_new x0a max_size.

Definition delimiter_decode (c : DelimiterCodec) (buf : bytes)
    : res FrameError (option SyslogMessage) * bytes :=
  match position (delimiter c) buf with
  | None =>
      if dl_max_size c <? len buf then
        (Err (MessageTooLarge (dl_max_size c) (len buf)), buf)
      else (Ok None, buf)
  | Some pos =>
      if dl_max_size c <? Z.of_nat pos then
        (Err (MessageTooLarge (dl_max_size c) (Z.of_nat pos)), buf)
      else
        let msg_bytes := take pos buf in
        let buf := drop 1 (drop pos buf) in
        (decode_message msg_bytes, buf)
  end.

Definition delimiter_encode (c : DelimiterCodec) (item : SyslogMessage) (dst : bytes)
    : res FrameError unit * bytes :=
  let m := display item in
  if dl_max_size c <? len m then (Err (MessageTooLarge (dl_max_size c) (len m)), dst)
  else (Ok tt, dst ++ m ++ [delimiter c]).

#[export] Instance OctetCount_Decoder : Decoder OctetCountCodec := octet_decode.
#[export] Instance OctetCount_Encoder : Encoder OctetCountCodec := octet_encode.
#[export] Instance Delimiter_Decoder : Decoder DelimiterCodec := delimiter_decode.
#[export] Instance Delimiter_Encoder : Encoder DelimiterCodec := delimiter_encode.

(** ** The frames, without a decoder

    [frame_of c fr m]: the bytes [fr] are a complete frame that carries [m].
    [bad_frame c e b]: the bytes [b], at the front of what is to be decoded,
    are no frame the codec takes, and [e] says why. *)
Class FrameGrammar (C : Type) : Type := {
  frame_of : C -> bytes -> SyslogMessage -> Prop;
  bad_frame : C -> FrameError -> bytes -> Prop
}.

(** A length prefix, its space, and as many bytes as it says. *)
Definition counted (c : OctetCountCodec) (b body : bytes) : Prop :=
  exists pre, b = pre ++ " "%byte :: body /\ (" "%byte ∉ pre) /\ utf8_valid pre = true
    /\ parse_uint usize_max pre = Some (len body) /\ len body <= oc_max_size c.

#[export] Instance OctetCount_Grammar : FrameGrammar OctetCountCodec := {
  frame_of c fr m := exists body, counted c fr body /\ utf8_valid body = true /\ parse body = Ok m;
  bad_frame c e b :=
    match e with
    | OctetCountPrefixTooLong => (" "%byte ∉ b) /\ MAX_DIGITS < len b
    | InvalidOctetCount => exists pre, b = pre ++ [" "%byte] /\ (" "%byte ∉ pre)
        /\ (utf8_valid pre = false \/ parse_uint usize_max pre = None)
    | MessageTooLarge max got => exists pre, b = pre ++ [" "%byte] /\ (" "%byte ∉ pre)
        /\ parse_uint usize_max pre = Some got /\ max = oc_max_size c /\ max < got
    | FrameInvalidUtf8 => exists body, counted c b body /\ utf8_valid body = false
    | Parse pe => exists body, counted c b body /\ utf8_valid body = true /\ parse body = Err pe
    | FrameIo _ => False
    end
}.

(** A line and its delimiter; a line that is too long need not have ended. *)
Definition delimited (c : DelimiterCodec) (b body : bytes) : Prop :=
  b = body ++ [delimiter c] /\ (delimiter c ∉ body) /\ len body <= dl_max_size c.

#[export] Instance Delimiter_Grammar : FrameGrammar DelimiterCodec := {
  frame_of c fr m := exists body, delimited c fr body /\ utf8_valid body = true /\ parse body = Ok m;
  bad_frame c e b :=
    match e with
    | MessageTooLarge max got => (delimiter c ∉ b) /\ got = len b /\ max = dl_max_size c /\ max < got
    | FrameInvalidUtf8 => exists body, delimited c b body /\ utf8_valid body = false
    | Parse pe => exists body, delimited c b body /\ utf8_valid body = true /\ parse body = Err pe
    | _ => False
    end
}.

(** ** What the session loop relies on

    Each law is used by the session's theorems, which are proved for any
    codec that has them. *)
Class DecoderLaws (C : Type) `{Decoder C} `{!FrameGrammar C} : Prop := {
  (** Asking for more bytes leaves the buffer as it is. *)
  decode_none c buf buf' : decode c buf = (Ok None, buf') -> buf' = buf;
  (** A message is taken off the front of the buffer with its frame. *)
  decode_some c buf m buf' :
    decode c buf = (Ok (Some m), buf') -> exists fr, fr <> [] /\ buf = fr ++ buf' /\ frame_of c fr m;
  (** Bytes that arrive later do not change a message already complete. *)
  decode_some_app c buf m buf' more :
    len (buf ++ more) <= usize_max ->
    decode c buf = (Ok (Some m), buf') -> decode c (buf ++ more) = (Ok (Some m), buf' ++ more);
  (** An error is one of the bytes at the front of the buffer. *)
  decode_err c buf e buf' :
    decode c buf = (Err e, buf') -> exists b rest, buf = b ++ rest /\ bad_frame c e b
}.

(** ** Lemmas *)

Lemma decode_message_some b m :
  decode_message b = Ok (Some m) <-> utf8_valid b = true /\ parse b = Ok m.
Proof.
  unfold decode_message, from_utf8. destruct (utf8_valid b); simpl;
    [|by split; [|intros []]].
  destruct (parse b) as [m'| |]; simpl; (split; [intros H|intros [_ H]]); by simplify_eq.
Qed.

Lemma decode_message_not_none b : decode_message b <> Ok None.
Proof.
  unfold decode_message, from_utf8. destruct (utf8_valid b); simpl; [|done].
  by destruct (parse b).
Qed.

Lemma decode_message_err b e :
  decode_message b = Err e ->
  (e = FrameInvalidUtf8 /\ utf8_valid b = false)
  \/ exists pe, e = Parse pe /\ utf8_valid b = true /\ parse b = Err pe.
Proof.
  unfold decode_message, from_utf8. destruct (utf8_valid b); simpl; [|intros [= <-]; by left].
  destruct (parse b) as [m'| |]; simpl; intros H; simplify_eq. right. eauto.
Qed.

(** The decoder on a complete frame, whatever follows it. *)
Lemma octet_decode_frame c pre body rest :
  (" "%byte ∉ pre) -> utf8_valid pre = true -> parse_uint usize_max pre = Some (len body) ->
  len body <= oc_max_size c -> len (pre ++ " "%byte :: body ++ rest) <= usize_max ->
  octet_decode c (pre ++ " "%byte :: body ++ rest) = (decode_message body, rest).
Proof.
  intros Hs Hu Hp Hm Hl. unfold octet_decode. rewrite position_app by done.
  rewrite take_app_length. unfold from_utf8. rewrite Hu, Hp.
  rewrite (proj2 (Z.ltb_ge _ _)) by done.
  assert (Hlen : len (pre ++ " "%byte :: body ++ rest)
                 = Z.of_nat (length pre) + 1 + len body + len rest).
  { unfold len. rewrite !length_app. cbn [length]. rewrite length_app. lia. }
  pose proof (len_nonneg body). pose proof (len_nonneg rest).
  rewrite wrap_small by (unfold usize_max, u64_max in *; lia).
  rewrite (proj2 (Z.ltb_ge _ _)) by lia.
  rewrite drop_past.
  rewrite (proj2 (Z.ltb_ge _ _)) by (rewrite len_app; lia).
  replace (Z.to_nat (len body)) with (length body) by (unfold len; lia).
  by rewrite take_app_length, drop_app_length.
Qed.

(** A message comes from a complete frame at the front of the buffer. *)
Lemma octet_decode_some_inv c buf m buf' :
  octet_decode c buf = (Ok (Some m), buf') ->
  exists pre body, buf = pre ++ " "%byte :: body ++ buf' /\ (" "%byte ∉ pre)
    /\ utf8_valid pre = true /\ parse_uint usize_max pre = Some (len body)
    /\ len body <= oc_max_size c /\ decode_message body = Ok (Some m).
Proof.
  unfold octet_decode. intros H.
  destruct (position " " buf) as [sp|] eqn:Ep; [|by case_match].
  apply position_some in Ep as (Hb & Hn & Hlt).
  unfold from_utf8 in H at 1. destruct (utf8_valid (take sp buf)) eqn:Eu; [|done].
  destruct (parse_uint usize_max _) as [n|] eqn:En; [|done].
  pose proof (parse_uint_range usize_max _ _ ltac:(done) En) as Hr.
  destruct (Z.ltb_spec (oc_max_size c) n); [done|]. cbv zeta in H.
  destruct (_ <? wrap _ _); [by case_match|].
  destruct (Z.ltb_spec (len (drop (S sp) buf)) n) as [|Hle]; [done|].
  injection H as Hd <-.
  assert (Hlen : len (take (Z.to_nat n) (drop (S sp) buf)) = n).
  { unfold len in *. rewrite length_take. lia. }
  exists (take sp buf), (take (Z.to_nat n) (drop (S sp) buf)).
  rewrite Hlen, take_drop. by rewrite <- Hb.
Qed.

Lemma octet_decode_none_inv c buf buf' :
  octet_decode c buf = (Ok None, buf') -> buf' = buf.
Proof.
  unfold octet_decode. intros H. repeat case_match; simplify_eq; try done.
  match goal with E : decode_message _ = _ |- _ => by apply decode_message_not_none in E end.
Qed.

(** An error is one of the bytes up to the space or to the end of the body. *)
Lemma octet_decode_err_inv c buf e buf' :
  octet_decode c buf = (Err e, buf') -> exists b rest, buf = b ++ rest /\ bad_frame c e b.
Proof.
  unfold octet_decode. intros H. destruct (position " " buf) as [sp|] eqn:Ep.
  2:{ destruct (Z.ltb_spec MAX_DIGITS (len buf)); [|done]. injection H as <- _. exists buf, []. rewrite app_nil_r.
      split; [done|]. split; [|done]. by apply position_none. }
  apply position_some in Ep as (Hb & Hn & Hlt).
  assert (Hpre : exists b rest, buf = b ++ rest /\ b = take sp buf ++ [" "%byte]).
  { exists (take sp buf ++ [" "%byte]), (drop (S sp) buf). by rewrite <- app_assoc. }
  unfold from_utf8 in H at 1. destruct (utf8_valid (take sp buf)) eqn:Eu.
  2:{ injection H as <- _. destruct Hpre as (b & rest & ? & ->). exists (take sp buf ++ [" "%byte]), rest. split; [done|].
      exists (take sp buf). auto. }
  destruct (parse_uint usize_max _) as [n|] eqn:En.
  2:{ injection H as <- _. destruct Hpre as (b & rest & ? & ->). exists (take sp buf ++ [" "%byte]), rest. split; [done|].
      exists (take sp buf). auto. }
  pose proof (parse_uint_range usize_max _ _ ltac:(done) En) as Hr.
  destruct (Z.ltb_spec (oc_max_size c) n).
  { injection H as <- _. destruct Hpre as (b & rest & ? & ->). exists (take sp buf ++ [" "%byte]), rest. split; [done|].
    by exists (take sp buf). }
  cbv zeta in H. destruct (_ <? wrap _ _); [by case_match|].
  destruct (Z.ltb_spec (len (drop (S sp) buf)) n) as [|Hle]; [done|]. injection H as Hd <-.
  assert (Hlen : len (take (Z.to_nat n) (drop (S sp) buf)) = n)
    by (unfold len in *; rewrite length_take; lia).
  assert (Hc : counted c (take sp buf ++ " "%byte :: take (Z.to_nat n) (drop (S sp) buf))
                 (take (Z.to_nat n) (drop (S sp) buf))).
  { exists (take sp buf). by rewrite Hlen. }
  exists (take sp buf ++ " "%byte :: take (Z.to_nat n) (drop (S sp) buf)), (drop (Z.to_nat n) (drop (S sp) buf)). split.
  { rewrite <- app_assoc. cbn [app]. rewrite take_drop. exact Hb. }
  apply decode_message_err in Hd as [[-> Hu]|(pe & -> & Hu & Hp)]; eexists; eauto.
Qed.

(** *** The same for the delimiter *)

Lemma delimiter_decode_frame c body rest :
  delimiter c ∉ body -> len body <= dl_max_size c ->
  delimiter_decode c (body ++ delimiter c :: rest) = (decode_message body, rest).
Proof.
  intros Hn Hm. unfold delimiter_decode. rewrite position_app by done.
  rewrite (proj2 (Z.ltb_ge _ _)) by done. by rewrite take_app_length, drop_app_length.
Qed.

Lemma delimiter_decode_some_inv c buf m buf' :
  delimiter_decode c buf = (Ok (Some m), buf') ->
  exists body, buf = body ++ delimiter c :: buf' /\ (delimiter c ∉ body)
    /\ len body <= dl_max_size c /\ decode_message body = Ok (Some m).
Proof.
  unfold delimiter_decode. intros H.
  destruct (position _ buf) as [p|] eqn:Ep; [|by case_match].
  apply position_some in Ep as (Hb & Hn & Hlt).
  destruct (Z.ltb_spec (dl_max_size c) (Z.of_nat p)); [done|]. cbv zeta in H.
  injection H as Hd <-. exists (take p buf). rewrite drop_drop, Nat.add_1_r.
  split_and!; try done. unfold len. rewrite length_take. lia.
Qed.

Lemma delimiter_decode_none_inv c buf buf' :
  delimiter_decode c buf = (Ok None, buf') -> buf' = buf /\ len buf <= dl_max_size c.
Proof.
  unfold delimiter_decode. intros H.
  destruct (position _ buf) eqn:E; repeat case_match; simplify_eq.
  - match goal with E : decode_message _ = _ |- _ => by apply decode_message_not_none in E end.
  - split; [done|]. lia.
Qed.

Lemma delimiter_decode_err_inv c buf e buf' :
  delimiter_decode c buf = (Err e, buf') -> exists b rest, buf = b ++ rest /\ bad_frame c e b.
Proof.
  unfold delimiter_decode. intros H. destruct (position _ buf) as [p|] eqn:Ep.
  2:{ destruct (Z.ltb_spec (dl_max_size c) (len buf)); [|done]. injection H as <- _. exists buf, []. rewrite app_nil_r.
      split; [done|]. split; [|done]. by apply position_none. }
  apply position_some in Ep as (Hb & Hn & Hlt).
  assert (Hl : len (take p buf) = Z.of_nat p) by (unfold len; rewrite length_take; lia).
  destruct (Z.ltb_spec (dl_max_size c) (Z.of_nat p)).
  { injection H as <- _. exists (take p buf), (drop p buf). rewrite take_drop. split; [done|]. split; [done|]. split; [by rewrite Hl|done]. }
  cbv zeta in H. injection H as Hd _.
  exists (take p buf ++ [delimiter c]), (drop (S p) buf). split; [by rewrite <- app_assoc|].
  apply decode_message_err in Hd as [[-> Hu]|(pe & -> & Hu & Hp)]; exists (take p buf);
    (split; [|done]); (split; [done|split; [done|lia]]).
Qed.

(** *** Both codecs have the laws *)

#[export] Instance OctetCount_laws : DecoderLaws OctetCountCodec.
Proof.
  split.
  - apply octet_decode_none_inv.
  - intros c buf m buf' (pre & body & -> & Hs & Hu & Hp & Hm & Hd)%octet_decode_some_inv.
    exists (pre ++ " "%byte :: body). split; [by destruct pre|]. split; [by rewrite <- app_assoc|].
    exists body. split; [by exists pre|]. by apply decode_message_some.
  - intros c buf m buf' more Hl (pre & body & -> & Hs & Hu & Hp & Hm & Hd)%octet_decode_some_inv.
    unfold decode, OctetCount_Decoder.
    replace ((pre ++ " "%byte :: body ++ buf') ++ more) with (pre ++ " "%byte :: body ++ buf' ++ more)
      in * by (by simplify_list_eq).
    rewrite octet_decode_frame by done. by rewrite Hd.
  - apply octet_decode_err_inv.
Qed.

#[export] Instance Delimiter_laws : DecoderLaws DelimiterCodec.
Proof.
  split.
  - intros c buf buf' H. by apply delimiter_decode_none_inv in H as [? _].
  - intros c buf m buf' (body & -> & Hn & Hm & Hd)%delimiter_decode_some_inv.
    exists (body ++ [delimiter c]). split; [by destruct body|]. split; [by rewrite <- app_assoc|].
    exists body. split; [done|]. by apply decode_message_some.
  - intros c buf m buf' more _ (body & -> & Hn & Hm & Hd)%delimiter_decode_some_inv.
    unfold decode, Delimiter_Decoder. rewrite <- app_assoc. cbn [app].
    rewrite delimiter_decode_frame by done. by rewrite Hd.
  - apply delimiter_decode_err_inv.
Qed.

(** *** UTF-8 *)

(** The two free-form [String] fields of a message. *)
Definition utf8_message (m : SyslogMessage) : Prop :=
  utf8_valid (structured_data m) = true /\ utf8_valid (msg m) = true.

Lemma field_ok_utf8 max o : field_ok max o -> utf8_valid (opt_field o) = true.
Proof.
  destruct o as [s|]; simpl; [|done]. intros (_ & _ & _ & Hf). apply utf8_valid_ascii.
  eapply Forall_impl; [exact Hf|]. apply printusascii_ascii.
Qed.

Lemma wf_timestamp_utf8 o : wf_timestamp o -> utf8_valid (opt_field o) = true.
Proof.
  destruct o as [s|]; simpl; [|done]. intros [Hf _]%accepted_timestamp_printable.
  apply utf8_valid_ascii. eapply Forall_impl; [exact Hf|]. apply printusascii_ascii.
Qed.

Lemma show_uint_utf8 n : 0 <= n -> utf8_valid (show_uint n) = true.
Proof.
  intros Hn. apply utf8_valid_ascii. eapply Forall_impl; [by apply show_uint_digits|].
  apply is_digit_ascii.
Qed.

Lemma display_utf8 m : wf_message m -> utf8_message m -> utf8_valid (display m) = true.
Proof.
  intros (Ht & Hh & Ha & Hp & Hi & _ & _) [Hsd Hmsg].
  pose proof (Priority_as_integer_range (priority m)). unfold display.
  rewrite !utf8_valid_app
    by eauto using wf_timestamp_utf8, field_ok_utf8, show_uint_utf8 with lia.
  by case_bool_decide.
Qed.

Lemma show_uint_no_space n : 0 <= n -> (" "%byte ∉ show_uint n).
Proof.
  intros Hn Hin. pose proof (show_uint_digits n Hn) as Hd.
  rewrite Forall_forall in Hd. by apply Hd in Hin.
Qed.

Lemma show_usize_length n : 0 <= n <= usize_max -> len (show_uint n) <= MAX_DIGITS.
Proof.
  intros Hn. unfold len, MAX_DIGITS.
  pose proof (show_uint_length n 20 ltac:(unfold usize_max, u64_max in *; lia) ltac:(lia)). lia.
Qed.

(** A prefix of [a ++ c :: b] stops before [c] or keeps [a]. *)
Lemma prefix_cut {A} (p q a b : list A) c :
  p ++ q = a ++ c :: b -> (exists a', a = p ++ a') \/ (exists b', p = a ++ c :: b' /\ b = b' ++ q).
Proof.
  revert p. induction a as [|d a IH]; intros [|e p] H; cbn [app] in H;
    [left; by exists []|injection H as -> H; right; eauto|left; by exists (d :: a)|].
  injection H as -> H. destruct (IH _ H) as [[a' ->]|(b' & -> & ->)]; [left|right]; eauto.
Qed.

(** ** Theorems *)

(** The frame the octet-count encoder emits for [m]. *)
Definition octet_frame (m : SyslogMessage) : bytes :=
  show_uint (len (display m)) ++ " "%byte :: display m.

Lemma octet_frame_decodes c m rest :
  wf_message m -> utf8_message m -> len (display m) <= oc_max_size c ->
  len (display m) + len rest + 21 <= usize_max ->
  octet_decode c (octet_frame m ++ rest) = (Ok (Some m), rest).
Proof.
  intros Hw Hu Hm Hl. unfold octet_frame.
  pose proof (len_nonneg (display m)) as H0. pose proof (len_nonneg rest).
  pose proof (show_usize_length (len (display m)) ltac:(lia)) as Hd.
  pose proof (show_uint_no_space _ H0) as Hs.
  rewrite <- app_assoc. cbn [app]. rewrite octet_decode_frame; try done.
  - by rewrite (proj2 (decode_message_some _ _)) by eauto using display_utf8, parse_display_wf.
  - by apply show_uint_utf8.
  - apply parse_show. lia.
  - rewrite len_app. change (_ :: ?x) with ([" "%byte] ++ x). rewrite !len_app.
    unfold MAX_DIGITS in Hd. change (len [" "%byte]) with 1. lia.
Qed.

Lemma octet_frame_waits c m p q :
  len (display m) <= oc_max_size c -> len (display m) + 21 <= isize_max ->
  octet_frame m = p ++ q -> q <> [] -> octet_decode c p = (Ok None, p).
Proof.
  unfold octet_frame. intros Hm Hl Heq Hq. symmetry in Heq.
  pose proof (len_nonneg (display m)) as H0.
  pose proof (show_usize_length (len (display m)) ltac:(unfold isize_max, usize_max, u64_max in *; lia)) as Hd.
  pose proof (show_uint_no_space _ H0) as Hs. unfold octet_decode.
  destruct (prefix_cut _ _ _ _ _ Heq) as [[a' Ha]|(b' & -> & Hb)].
  - rewrite (proj2 (position_none _ _)).
    2:{ rewrite Ha in Hs. intros ?. apply Hs. apply elem_of_app. by left. }
    rewrite Ha, len_app in Hd. pose proof (len_nonneg a').
    by rewrite (proj2 (Z.ltb_ge _ _)) by lia.
  - rewrite position_app by done. rewrite take_app_length. unfold from_utf8.
    rewrite show_uint_utf8, parse_show by (unfold isize_max, usize_max, u64_max in *; lia).
    rewrite (proj2 (Z.ltb_ge _ _)) by done. cbv zeta.
    assert (len b' < len (display m)).
    { rewrite Hb, len_app. destruct q; [done|]. unfold len. cbn [length]. lia. }
    rewrite wrap_small by (unfold MAX_DIGITS, isize_max, len in *; lia).
    rewrite (proj2 (Z.ltb_lt _ _)), (proj2 (Z.ltb_ge _ _)); [done| |].
    + unfold MAX_DIGITS, len in *. lia.
    + rewrite len_app. unfold len in *. cbn [length]. lia.
Qed.

(** C5: octet-count framing round-trips.  What [encode] appends for a message
    within the size limit is decoded to that message, whatever bytes follow,
    and those are left in the buffer; from any proper prefix of the frame the
    decoder asks for more and keeps the buffer. *)
Theorem octet_roundtrip c m dst rest :
  wf_message m -> utf8_message m -> len (display m) <= oc_max_size c ->
  len (display m) + len rest + 21 <= isize_max ->
  exists frame, encode c m dst = (Ok tt, dst ++ frame)
    /\ decode c (frame ++ rest) = (Ok (Some m), rest)
    /\ forall p q, frame = p ++ q -> q <> [] -> decode c p = (Ok None, p).
Proof.
  intros Hw Hu Hm Hl. exists (octet_frame m).
  pose proof (len_nonneg rest). split; [|split].
  - unfold encode, OctetCount_Encoder, octet_encode.
    rewrite (proj2 (Z.ltb_ge _ _)) by done. unfold octet_frame. by simplify_list_eq.
  - apply octet_frame_decodes; try done. unfold isize_max, usize_max, u64_max in *. lia.
  - intros p q Heq Hq. apply (octet_frame_waits c m p q); try done. lia.
Qed.

Lemma octet_roundtrip_witness :
  exists frame, encode (OctetCountCodec_new 1024) sample (lit "x") = (Ok tt, lit "x" ++ frame)
    /\ decode (OctetCountCodec_new 1024) (frame ++ lit "12 ") = (Ok (Some sample), lit "12 ")
    /\ forall p q, frame = p ++ q -> q <> [] -> decode (OctetCountCodec_new 1024) p = (Ok None, p).
Proof.
  apply octet_roundtrip; [exact sample_wf|by split|by vm_compute|by vm_compute].
Defined.

Lemma delimiter_frame_decodes c m rest :
  wf_message m -> utf8_message m -> len (display m) <= dl_max_size c ->
  (delimiter c ∉ display m) ->
  delimiter_decode c ((display m ++ [delimiter c]) ++ rest) = (Ok (Some m), rest)
  /\ forall p q, display m ++ [delimiter c] = p ++ q -> q <> [] ->
       delimiter_decode c p = (Ok None, p).
Proof.
  intros Hw Hu Hm Hn. split.
  - rewrite <- app_assoc. cbn [app]. rewrite delimiter_decode_frame by done.
    by rewrite (proj2 (decode_message_some _ _)) by eauto using display_utf8, parse_display_wf.
  - intros p q Heq Hq. symmetry in Heq.
    destruct (prefix_cut _ _ _ _ _ Heq) as [[a' Ha]|(b' & _ & Hb)].
    + unfold delimiter_decode. rewrite (proj2 (position_none _ _)).
      2:{ rewrite Ha in Hn. intros ?. apply Hn. apply elem_of_app. by left. }
      rewrite Ha, len_app in Hm. pose proof (len_nonneg a').
      by rewrite (proj2 (Z.ltb_ge _ _)) by lia.
    + by destruct b', q.
Qed.

(** Delimiter framing round-trips for every message whose wire form does
    not contain the delimiter byte, and waits on every proper prefix. *)
Theorem delimiter_roundtrip c m dst rest :
  wf_message m -> utf8_message m -> len (display m) <= dl_max_size c ->
  (delimiter c ∉ display m) ->
  exists frame, encode c m dst = (Ok tt, dst ++ frame)
    /\ decode c (frame ++ rest) = (Ok (Some m), rest)
    /\ forall p q, frame = p ++ q -> q <> [] -> decode c p = (Ok None, p).
Proof.
  intros Hw Hu Hm Hn. exists (display m ++ [delimiter c]).
  split; [|by apply delimiter_frame_decodes]. unfold encode, Delimiter_Encoder, delimiter_encode.
  by rewrite (proj2 (Z.ltb_ge _ _)) by done.
Qed.

Lemma delimiter_roundtrip_witness :
  exists frame, encode (DelimiterCodec_newline 1024) sample [] = (Ok tt, [] ++ frame)
    /\ decode (DelimiterCodec_newline 1024) (frame ++ lit "<1") = (Ok (Some sample), lit "<1")
    /\ forall p q, frame = p ++ q -> q <> [] -> decode (DelimiterCodec_newline 1024) p = (Ok None, p).
Proof.
  apply delimiter_roundtrip; [exact sample_wf|by split|by vm_compute|].
  apply (bool_decide_unpack _). by vm_compute.
Defined.

(** What the decoder leaves behind.  A message or an error in the body of a
    frame consumes exactly that frame, so that the next one stands at the
    front of the buffer; an error in the length prefix, and a request for
    more bytes, consume nothing. *)
Theorem octet_decode_consumes c buf r buf' :
  decode c buf = (r, buf') ->
  match r with
  | Ok (Some _) | Err FrameInvalidUtf8 | Err (Parse _) =>
      exists pre body, buf = pre ++ " "%byte :: body ++ buf'
        /\ parse_uint usize_max pre = Some (len body) /\ len body <= oc_max_size c
        /\ r = decode_message body
  | Ok None | Err _ => buf' = buf
  | Panic => True
  end.
Proof.
  unfold decode, OctetCount_Decoder, octet_decode. intros H.
  destruct (position " " buf) as [sp|] eqn:Ep; [|case_match; by injection H as <- <-].
  apply position_some in Ep as (Hb & Hn & Hlt).
  unfold from_utf8 in H at 1. destruct (utf8_valid (take sp buf)) eqn:Eu;
    [|by injection H as <- <-].
  destruct (parse_uint usize_max _) as [n|] eqn:En; [|by injection H as <- <-].
  pose proof (parse_uint_range usize_max _ _ ltac:(done) En) as Hr.
  destruct (Z.ltb_spec (oc_max_size c) n); [by injection H as <- <-|]. cbv zeta in H.
  destruct (_ <? wrap _ _); [case_match; by injection H as <- <-|].
  destruct (Z.ltb_spec (len (drop (S sp) buf)) n) as [|Hle]; [by injection H as <- <-|].
  set (body := take (Z.to_nat n) (drop (S sp) buf)) in *.
  assert (Hlen : len body = n) by (unfold body, len in *; rewrite length_take; lia).
  injection H as <- <-.
  assert (Hf : exists pre b, buf = pre ++ " "%byte :: b ++ drop (Z.to_nat n) (drop (S sp) buf)
    /\ parse_uint usize_max pre = Some (len b) /\ len b <= oc_max_size c
    /\ decode_message body = decode_message b).
  { exists (take sp buf), body. unfold body at 1. rewrite Hlen, take_drop. by rewrite <- Hb. }
  clearbody body. unfold decode_message in *. destruct (from_utf8 body); simpl in *; [|done].
  by destruct (parse _).
Qed.

Lemma octet_decode_consumes_witness :
  let buf := lit "3 foo5 <13>1" in
  decode (OctetCountCodec_new 1024) buf
    = (Err (Parse (MalformedHeader (lit "expected '<' to start PRI"))), lit "5 <13>1")
  /\ exists pre body, buf = pre ++ " "%byte :: body ++ lit "5 <13>1"
       /\ parse_uint usize_max pre = Some (len body) /\ len body <= 1024
       /\ Err (Parse (MalformedHeader (lit "expected '<' to start PRI"))) = decode_message body.
Proof.
  intros buf.
  assert (H : decode (OctetCountCodec_new 1024) buf
    = (Err (Parse (MalformedHeader (lit "expected '<' to start PRI"))), lit "5 <13>1"))
    by (by vm_compute).
  split; [exact H|]. exact (octet_decode_consumes _ _ _ _ H).
Defined.

(** A decoder's panic comes from the parser. *)
Definition panic_in (buf : bytes) : Prop :=
  exists p raw q, buf = p ++ raw ++ q /\ utf8_valid raw = true /\ parse raw = Panic.

Lemma decode_message_panic p body q :
  decode_message body = Panic -> panic_in (p ++ body ++ q).
Proof.
  unfold decode_message, from_utf8. destruct (utf8_valid body) eqn:Hu; simpl; [|done].
  intros H. exists p, body, q. split; [done|]. split; [done|]. by destruct (parse body).
Qed.

Lemma octet_decode_panic_in c buf buf' :
  0 <= oc_max_size c -> len buf + oc_max_size c <= isize_max ->
  octet_decode c buf = (Panic, buf') -> panic_in buf.
Proof.
  unfold octet_decode. intros H0 Hl H.
  destruct (position " " buf) as [sp|] eqn:Ep; [|by case_match].
  apply position_some in Ep as (Hb & Hn & Hlt).
  destruct (from_utf8 _); [|done].
  destruct (parse_uint usize_max _) as [n|] eqn:En; [|done].
  pose proof (parse_uint_range usize_max _ _ ltac:(done) En) as Hr.
  destruct (Z.ltb_spec (oc_max_size c) n); [done|]. cbv zeta in H.
  rewrite wrap_small in H by (unfold isize_max, len in *; lia).
  destruct (Z.ltb_spec (len buf) (Z.of_nat sp + 1 + n)).
  { destruct (Z.ltb_spec isize_max (Z.of_nat sp + 1 + n)); [|done]. unfold len in *. lia. }
  destruct (Z.ltb_spec (len (drop (S sp) buf)) n) as [Hlt'|_].
  { unfold len in *. rewrite length_drop in Hlt'. lia. }
  injection H as Hd _.
  apply (decode_message_panic (take sp buf ++ [" "%byte]) _
           (drop (Z.to_nat n) (drop (S sp) buf))) in Hd.
  rewrite take_drop, <- app_assoc in Hd. cbn [app] in Hd. by rewrite <- Hb in Hd.
Qed.

Lemma delimiter_decode_panic_in c buf buf' :
  delimiter_decode c buf = (Panic, buf') -> panic_in buf.
Proof.
  unfold delimiter_decode. intros H.
  destruct (position _ buf) as [p|] eqn:Ep; [|by case_match].
  apply position_some in Ep as (Hb & _ & _). case_match; [done|]. injection H as Hd _.
  apply (decode_message_panic [] _ (delimiter c :: drop (S p) buf)) in Hd. cbn [app] in Hd.
  by rewrite <- Hb in Hd.
Qed.

(** Neither codec adds a panic of its own: with a size limit that leaves room
    for the length arithmetic, decoding any bytes panics only where the
    parser does, and never on ASCII input. *)
Theorem decode_ascii_no_panic buf n d :
  Forall (fun c => is_ascii c = true) buf -> 0 <= n -> len buf + n <= isize_max ->
  fst (decode (OctetCountCodec_new n) buf) <> Panic
  /\ fst (decode (DelimiterCodec_new d n) buf) <> Panic.
Proof.
  intros Ha H0 Hl. assert (Hno : ~ panic_in buf).
  { intros (p & raw & q & -> & _ & Hp). rewrite !Forall_app in Ha.
    destruct Ha as (_ & Ha & _). by apply parse_ascii_total in Ha. }
  split; intros Hp; apply Hno.
  - destruct (decode (OctetCountCodec_new n) buf) as [r b] eqn:E. simpl in Hp. subst r.
    by apply octet_decode_panic_in in E.
  - destruct (decode (DelimiterCodec_new d n) buf) as [r b] eqn:E. simpl in Hp. subst r.
    by apply delimiter_decode_panic_in in E.
Qed.

Lemma decode_ascii_no_panic_witness :
  fst (decode (OctetCountCodec_new 8192) (lit "9 <13>1 - -")) <> Panic
  /\ fst (decode (DelimiterCodec_new x0a 8192) (lit "9 <13>1 - -")) <> Panic.
Proof.
  apply decode_ascii_no_panic; [|by vm_compute|by vm_compute].
  apply (bool_decide_unpack _). by vm_compute.
Defined.

(** What is left to wait with: a short prefix, or a prefix and less than the
    limit behind it. *)
Lemma octet_decode_none_bound c buf :
  0 <= oc_max_size c -> len buf + oc_max_size c <= usize_max -> octet_decode c buf = (Ok None, buf) ->
  ((" "%byte ∉ buf) /\ len buf <= MAX_DIGITS)
  \/ exists pre body, buf = pre ++ " "%byte :: body /\ (" "%byte ∉ pre) /\ len body < oc_max_size c.
Proof.
  intros H0 Hl. unfold octet_decode. intros H.
  destruct (position " " buf) as [sp|] eqn:Ep.
  2:{ left. split; [by apply position_none|]. destruct (Z.ltb_spec MAX_DIGITS (len buf)); [done|lia]. }
  apply position_some in Ep as (Hb & Hn & Hlt). right.
  destruct (from_utf8 _); [|done].
  destruct (parse_uint usize_max _) as [k|] eqn:En; [|done].
  pose proof (parse_uint_range usize_max _ _ ltac:(done) En) as Hr.
  destruct (Z.ltb_spec (oc_max_size c) k); [done|]. cbv zeta in H.
  rewrite wrap_small in H by (unfold usize_max, u64_max, len in *; lia).
  destruct (Z.ltb_spec (len buf) (Z.of_nat sp + 1 + k)).
  - exists (take sp buf), (drop (S sp) buf). split; [done|]. split; [done|].
    unfold len in *. rewrite length_drop. lia.
  - case_match; [done|]. injection H as Hd _. by apply decode_message_not_none in Hd.
Qed.

(** The limit on the digits is looked at only while there is no space: any
    number of leading zeros passes once the space has arrived. *)
Lemma long_prefix_accepted :
  let frame := replicate 30 "0"%byte ++ lit "23 <13>1 - - - - - - hello" in
  (exists m, decode (OctetCountCodec_new 1024) frame = (Ok (Some m), []))
  /\ decode (OctetCountCodec_new 1024) (take 30 frame) = (Err OctetCountPrefixTooLong, take 30 frame).
Proof. split; [eexists|]; by vm_compute. Qed.
