(* ===== verification/Config.v ===== *)
(** * Daemon configuration: [logfence-daemon/src/config.rs]

    The configuration records with their defaults, and [load] with
    [validate].  Reading the file and the TOML deserializer are parameters. *)

From stdpp Require Import prelude strings list gmap.
From Stdlib Require Import ZArith Lia.
From S2P Require Import Prelude RustStd.

(** ** Enumerations *)

Inductive ListenTransport : Type := ListenUnixStream | ListenUnixDgram.
Inductive FramingMode : Type := OctetCount | Newline.
Inductive SenderMode : Type := Original | Logfenced.
Inductive ForwardTransport : Type := ForwardUnixDgram | ForwardUnixStream.
Inductive DgramExhausted : Type := Drop | Terminate.
Inductive CeeCookieMode : Type := Never | Optional | Always.
Inductive ValidationMode : Type := Strict | Warn | Off.

#[export] Instance ListenTransport_eq_dec : EqDecision ListenTransport.
Proof. solve_decision. Defined.
#[export] Instance FramingMode_eq_dec : EqDecision FramingMode.
Proof. solve_decision. Defined.
#[export] Instance SenderMode_eq_dec : EqDecision SenderMode.
Proof. solve_decision. Defined.
#[export] Instance ForwardTransport_eq_dec : EqDecision ForwardTransport.
Proof. solve_decision. Defined.
#[export] Instance DgramExhausted_eq_dec : EqDecision DgramExhausted.
Proof. solve_decision. Defined.
#[export] Instance CeeCookieMode_eq_dec : EqDecision CeeCookieMode.
Proof. solve_decision. Defined.
#[export] Instance ValidationMode_eq_dec : EqDecision ValidationMode.
Proof. solve_decision. Defined.

(** The [#[default]] variants. *)
Definition ListenTransport_default : ListenTransport := ListenUnixStream.
Definition FramingMode_default : FramingMode := OctetCount.
Definition SenderMode_default : SenderMode := Original.
Definition ForwardTransport_default : ForwardTransport := ForwardUnixDgram.
Definition DgramExhausted_default : DgramExhausted := Drop.
Definition CeeCookieMode_default : CeeCookieMode := Never.
Definition ValidationMode_default : ValidationMode := Strict.

(** ** Records and their [Default] implementations *)

Record DaemonConfig : Type := mkDaemonConfig {
  listen_socket : bytes;
  socket_mode : bytes;
  socket_group : option bytes;
  max_connections : Z;
  max_message_size : Z;
  listen_transport : ListenTransport;
  framing : FramingMode;
  sender : SenderMode
}.

Definition default_listen_socket : bytes := lit "/run/logfenced/logfenced.sock".
Definition default_socket_mode : bytes := lit "0660".
Definition default_max_connections : Z := 256.
Definition default_max_message_size : Z := 65536.

Definition DaemonConfig_default : DaemonConfig :=
  mkDaemonConfig default_listen_socket default_socket_mode None
    default_max_connections default_max_message_size
    ListenTransport_default FramingMode_default SenderMode_default.

Record RsyslogConfig : Type := mkRsyslogConfig {
  transport : ForwardTransport;
  rsyslog_socket : bytes;
  dgram_max_attempts : Z;
  dgram_exhausted : DgramExhausted
}.

Definition RsyslogConfig_default : RsyslogConfig :=
  mkRsyslogConfig ForwardTransport_default (lit "/run/syslog") 4 DgramExhausted_default.

Record ValidationConfig : Type := mkValidationConfig {
  mode : ValidationMode;
  schemas : list bytes;
  discriminator : option bytes;
  schema_map : gmap bytes bytes;
  input_cee : CeeCookieMode;
  output_cee : CeeCookieMode;
  canonical_json : bool
}.

Definition ValidationConfig_default : ValidationConfig :=
  mkValidationConfig ValidationMode_default [] None ∅
    CeeCookieMode_default CeeCookieMode_default false.

Record MetricsConfig : Type := mkMetricsConfig {
  metrics_enabled : bool;
  metrics_socket : bytes
}.

Definition MetricsConfig_default : MetricsConfig :=
  mkMetricsConfig false (lit "/run/logfenced/logfenced.stats.sock").

Record LoggingConfig : Type := mkLoggingConfig {
  level : bytes;
  output : bytes
}.

Definition LoggingConfig_default : LoggingConfig := mkLoggingConfig (lit "info") (lit "stderr").

Record Config : Type := mkConfig {
  daemon : DaemonConfig;
  rsyslog : RsyslogConfig;
  validation : ValidationConfig;
  logging : LoggingConfig;
  metrics : MetricsConfig
}.

(** ** Loading *)

Inductive ConfigError (toml_error : Type) : Type :=
| ConfigIo (path : bytes) (source : io_error)
| ConfigParse (path : bytes) (source : toml_error)
| ConfigInvalid (reason : bytes).
Arguments ConfigIo {toml_error} path source.
Arguments ConfigParse {toml_error} path source.
Arguments ConfigInvalid {toml_error} reason.

(** [u32::from_str_radix(s, 8)] after the leading zeros were stripped, as
    [validate] here and [apply_socket_permissions] of the listeners do. *)
Definition octal_mode (s : bytes) : option Z :=
  let mode_str := trim_start_matches (fun c => Byte.eqb c "0") s in
  let mode_str := if bool_decide (mode_str = []) then lit "0" else mode_str in
  from_str_radix 8 u32_max mode_str.

Definition validate_config {toml_error} (cfg : Config) : res (ConfigError toml_error) unit :=
  let? _ := ok_or (octal_mode (socket_mode (daemon cfg)))
    (ConfigInvalid (lit "daemon.socket_mode '" ++ socket_mode (daemon cfg)
       ++ lit "' is not a valid octal permission string")) in
  if max_connections (daemon cfg) =? 0 then
    Err (ConfigInvalid (lit "daemon.max_connections must be at least 1"))
  else if max_message_size (daemon cfg) =? 0 then
    Err (ConfigInvalid (lit "daemon.max_message_size must be at least 1"))
  else if negb (bool_decide (schema_map (validation cfg) = ∅))
          && bool_decide (discriminator (validation cfg) = None) then
    Err (ConfigInvalid (lit "validation.schema_map requires validation.discriminator to be set"))
  else Ok tt.

Section Load.
  Context {toml_error : Type}.
  (** [fs::read_to_string] and [toml::from_str::<Config>]. *)
  Variable read_to_string : bytes -> io_error + bytes.
  Variable toml_from_str : bytes -> toml_error + Config.

Definition load (path : bytes) : res (ConfigError toml_error) Config :=
  let? text := match read_to_string path with
               | inl source => Err (ConfigIo path source)
               | inr text => Ok text
               end in
  let? cfg := match toml_from_str text with
              | inl source => Err (ConfigParse path source)
              | inr cfg => Ok cfg
              end in
  let? _ := validate_config cfg in
  Ok cfg.
End Load.
