(* ===== verification/Json.v ===== *)
(** * JSON values as the program handles them

    [serde_json::Value], the interface to the [serde_json] and [jsonschema]
    crates, and the canonical form [validator.rs] computes ([sorted_value]):
    its keys are in order at every level, it does not depend on the order the
    keys came in, and it has the same content. *)

From stdpp Require Import prelude strings list sorting.
From Stdlib Require Import ZArith Lia.
From S2P Require Import Prelude RustStd.

(** ** Values *)

#[local] Set Warnings "-register-all".

(** An object is the list of its entries in iteration order.  [number] is
    [serde_json::Number]. *)
Inductive Value (number : Type) : Type :=
| Null
| Bool (b : bool)
| Number (n : number)
| String (s : bytes)
| Array (a : list (Value number))
| Object (m : list (bytes * Value number)).
Arguments Null {number}.
Arguments Bool {number} b.
Arguments Number {number} n.
Arguments String {number} s.
Arguments Array {number} a.
Arguments Object {number} m.

(** The interface to the [serde_json] crate: parsing, [to_string], the
    [Display] of a value and of an error, and [Number::from(u64)]. *)
Class SerdeJson (number serde_error : Type) : Type := {
  from_str : bytes -> serde_error + Value number;
  to_string : Value number -> serde_error + bytes;
  value_display : Value number -> bytes;
  serde_error_display : serde_error -> bytes;
  number_of_u64 : Z -> number
}.

(** The interface to the [jsonschema] crate: [validator_for] and
    [Validator::is_valid]. *)
Class JsonSchema (number schema schema_error : Type) : Type := {
  validator_for : Value number -> schema_error + schema;
  is_valid : schema -> Value number -> bool;
  schema_error_display : schema_error -> bytes
}.

(** ** Maps in key order *)

(** [String]'s [Ord]: lexicographic on bytes. *)
Fixpoint bytes_cmp (a b : bytes) : comparison :=
  match a, b with
  | [], [] => Eq
  | [], _ => Lt
  | _, [] => Gt
  | c :: a', d :: b' =>
      match Z.compare (bz c) (bz d) with Eq => bytes_cmp a' b' | o => o end
  end.

(** [BTreeMap::insert] on the entries in key order. *)
Fixpoint btree_insert {V} (k : bytes) (v : V) (m : list (bytes * V)) : list (bytes * V) :=
  match m with
  | [] => [(k, v)]
  | (k', v') :: r =>
      match bytes_cmp k k' with
      | Lt => (k, v) :: m
      | Eq => (k', v) :: r
      | Gt => (k', v') :: btree_insert k v r
      end
  end.

(** [collect::<BTreeMap<_, _>>()] *)
Definition btree_collect {V} (l : list (bytes * V)) : list (bytes * V) :=
  foldl (fun m kv => btree_insert (fst kv) (snd kv) m) [] l.

Section Values.
  Context {number : Type}.
  Implicit Types v w : Value number.

Fixpoint sorted_value (v : Value number) : Value number :=
  match v with
  | Object m => Object (btree_collect (map (fun kv => (fst kv, sorted_value (snd kv))) m))
  | Array a => Array (map sorted_value a)
  | other => other
  end.

Definition json_kind (v : Value number) : bytes :=
  match v with
  | Null => lit "null"
  | Bool _ => lit "boolean"
  | Number _ => lit "number"
  | String _ => lit "string"
  | Array _ => lit "array"
  | Object _ => lit "object"
  end.

(** [Value::is_object], [Value::get] with a string key, [Value::as_str]. *)
Definition is_object (v : Value number) : bool :=
  match v with Object _ => true | _ => false end.

Fixpoint assoc_get {V} (k : bytes) (m : list (bytes * V)) : option V :=
  match m with
  | [] => None
  | (k', v) :: r => if bool_decide (k' = k) then Some v else assoc_get k r
  end.

Definition value_get (v : Value number) (k : bytes) : option (Value number) :=
  match v with Object m => assoc_get k m | _ => None end.

Definition as_str (v : Value number) : option bytes :=
  match v with String s => Some s | _ => None end.

(** ** Predicates and induction *)

Fixpoint value_all (P : Value number -> bool) (v : Value number) : bool :=
  P v && match v with
         | Array a => forallb (value_all P) a
         | Object m => forallb (fun kv => value_all P (snd kv)) m
         | _ => true
         end.

Lemma Value_ind' (P : Value number -> Prop) :
  P Null -> (forall b, P (Bool b)) -> (forall n, P (Number n)) -> (forall s, P (String s)) ->
  (forall a, Forall P a -> P (Array a)) ->
  (forall m, Forall (fun kv => P (snd kv)) m -> P (Object m)) ->
  forall v, P v.
Proof.
  intros H0 H1 H2 H3 Ha Ho. fix IH 1.
  intros [ |b|n|s|a|m]; [exact H0|exact (H1 b)|exact (H2 n)|exact (H3 s)| | ].
  - apply Ha. induction a as [|v a IHa]; constructor; [apply IH|exact IHa].
  - apply Ho. induction m as [|[k v] m IHm]; constructor; [apply IH|exact IHm].
Qed.

(** Every object has each key once: what a [Map] guarantees. *)
Definition obj_unique (v : Value number) : bool :=
  match v with Object m => bool_decide (NoDup (map fst m)) | _ => true end.

Definition unique_keys (v : Value number) : bool := value_all obj_unique v.

(** The entries are in strictly increasing key order. *)
Definition key_lt {V} (p q : bytes * V) : Prop := bytes_cmp (fst p) (fst q) = Lt.

Inductive keys_sorted : Value number -> Prop :=
| ks_null : keys_sorted Null
| ks_bool b : keys_sorted (Bool b)
| ks_number n : keys_sorted (Number n)
| ks_string s : keys_sorted (String s)
| ks_array a : Forall keys_sorted a -> keys_sorted (Array a)
| ks_object m : StronglySorted key_lt m -> Forall (fun kv => keys_sorted (snd kv)) m ->
    keys_sorted (Object m).

(** The same JSON document up to the order of keys, at any depth. *)
Inductive value_equiv : Value number -> Value number -> Prop :=
| ve_null : value_equiv Null Null
| ve_bool b : value_equiv (Bool b) (Bool b)
| ve_number n : value_equiv (Number n) (Number n)
| ve_string s : value_equiv (String s) (String s)
| ve_array a b : Forall2 value_equiv a b -> value_equiv (Array a) (Array b)
| ve_object m m' n :
    m ≡ₚ m' -> Forall2 (fun p q => fst p = fst q /\ value_equiv (snd p) (snd q)) m' n ->
    value_equiv (Object m) (Object n).

(** ** Key order *)

Lemma bytes_cmp_refl a : bytes_cmp a a = Eq.
Proof. induction a as [|c a IH]; simpl; [done|]. by rewrite Z.compare_refl. Qed.

Lemma bytes_cmp_eq a b : bytes_cmp a b = Eq -> a = b.
Proof.
  revert b. induction a as [|c a IH]; intros [|d b]; simpl; try done.
  destruct (Z.compare_spec (bz c) (bz d)) as [E| |]; try done. intros H.
  apply bz_inj in E as ->. f_equal. by apply IH.
Qed.

Lemma bytes_cmp_antisym a b : bytes_cmp b a = CompOpp (bytes_cmp a b).
Proof.
  revert b. induction a as [|c a IH]; intros [|d b]; simpl; try done.
  rewrite Z.compare_antisym. by destruct (Z.compare (bz c) (bz d)); simpl.
Qed.

Lemma bytes_cmp_trans a b c :
  bytes_cmp a b = Lt -> bytes_cmp b c = Lt -> bytes_cmp a c = Lt.
Proof.
  revert b c. induction a as [|x a IH]; intros [|y b] [|z c]; simpl; try done.
  destruct (Z.compare_spec (bz x) (bz y)), (Z.compare_spec (bz y) (bz z)),
    (Z.compare_spec (bz x) (bz z)); try done; try lia. eauto.
Qed.

#[export] Instance key_lt_trans {V} : Transitive (@key_lt V).
Proof. intros p q r. apply bytes_cmp_trans. Qed.

Lemma key_lt_irrefl {V} (p : bytes * V) : ~ key_lt p p.
Proof. unfold key_lt. by rewrite bytes_cmp_refl. Qed.

#[export] Instance key_lt_antisym {V} : AntiSymm eq (@key_lt V).
Proof. intros p q H1 H2. destruct (key_lt_irrefl p). by etrans. Qed.

(** ** [BTreeMap] *)

Section BTree.
  Context {V : Type}.
  Implicit Types (m l : list (bytes * V)) (k : bytes) (x : V).

Lemma btree_insert_keys k x m k' :
  k' ∈ map fst (btree_insert k x m) <-> k' = k \/ k' ∈ map fst m.
Proof.
  induction m as [|[j y] m IH]; simpl.
  { rewrite elem_of_cons. by setoid_rewrite elem_of_nil. }
  destruct (bytes_cmp k j) eqn:E; simpl; rewrite ?elem_of_cons.
  - apply bytes_cmp_eq in E as ->. tauto.
  - tauto.
  - rewrite IH. tauto.
Qed.

Lemma Forall_keys (P : bytes -> Prop) m :
  Forall (fun p => P (fst p)) m <-> Forall P (map fst m).
Proof. by rewrite Forall_map. Qed.

Lemma btree_insert_sorted k x m :
  StronglySorted key_lt m -> StronglySorted key_lt (btree_insert k x m).
Proof.
  induction 1 as [|[j y] m Hs IH Hf]; simpl; [by repeat constructor|].
  destruct (bytes_cmp k j) eqn:E; constructor; try done.
  - by constructor.
  - constructor; [done|]. eapply Forall_impl; [exact Hf|]. intros p. by apply bytes_cmp_trans.
  - apply (Forall_keys (fun k' => bytes_cmp j k' = Lt)). apply Forall_forall. intros k' Hk'.
    apply btree_insert_keys in Hk' as [->|Hk'].
    + rewrite bytes_cmp_antisym, E. done.
    + unfold key_lt in Hf. apply (Forall_keys (fun k' => bytes_cmp j k' = Lt)) in Hf.
      rewrite Forall_forall in Hf. by apply Hf.
Qed.

Lemma btree_insert_perm k x m :
  k ∉ map fst m -> btree_insert k x m ≡ₚ (k, x) :: m.
Proof.
  induction m as [|[j y] m IH]; simpl; [done|]. intros [Hk Hm]%not_elem_of_cons.
  destruct (bytes_cmp k j) eqn:E; [by apply bytes_cmp_eq in E|done|].
  rewrite IH by done. apply Permutation_swap.
Qed.

Lemma btree_insert_last k x m :
  Forall (fun p => bytes_cmp (fst p) k = Lt) m -> btree_insert k x m = m ++ [(k, x)].
Proof.
  induction 1 as [|[j y] m Hj Hm IH]; simpl in *; [done|].
  rewrite bytes_cmp_antisym, Hj. simpl. by rewrite IH.
Qed.

Lemma btree_collect_sorted l : StronglySorted key_lt (btree_collect l).
Proof.
  unfold btree_collect. assert (H : StronglySorted key_lt ([] : list (bytes * V))) by constructor.
  revert H. generalize ([] : list (bytes * V)) as acc.
  induction l as [|p l IH]; intros acc H; simpl; [done|]. apply IH.
  by apply btree_insert_sorted.
Qed.

Lemma btree_collect_perm l : NoDup (map fst l) -> btree_collect l ≡ₚ l.
Proof.
  unfold btree_collect. intros Hn.
  assert (H : foldl (fun m kv => btree_insert (fst kv) (snd kv) m) [] l ≡ₚ [] ++ l
    /\ True); [|by destruct H].
  assert (Hd : forall k, k ∈ map fst ([] : list (bytes * V)) -> k ∉ map fst l)
    by (intros k Hk; by apply elem_of_nil in Hk).
  revert Hd Hn. generalize ([] : list (bytes * V)) as acc.
  induction l as [|[k x] l IH]; intros acc Hd Hn; simpl; [by rewrite app_nil_r|].
  apply NoDup_cons in Hn as [Hk Hn]. split; [|done].
  assert (Hka : k ∉ map fst acc).
  { intros Hin. apply (Hd k Hin). simpl. apply elem_of_cons. by left. }
  destruct (IH (btree_insert k x acc)) as [-> _]; [|done|].
  - intros k' [->|Hin]%btree_insert_keys; [done|]. specialize (Hd _ Hin). simpl in Hd.
    by apply not_elem_of_cons in Hd as [_ ?].
  - rewrite btree_insert_perm by done. simpl. by rewrite Permutation_middle.
Qed.

(** Entries already in order are left alone. *)
Lemma btree_collect_id l : StronglySorted key_lt l -> btree_collect l = l.
Proof.
  unfold btree_collect. intros Hs. change l with ([] ++ l) at 2.
  assert (Hd : Forall (fun p => Forall (key_lt p) l) ([] : list (bytes * V))) by constructor.
  revert Hd. generalize ([] : list (bytes * V)) as acc.
  induction Hs as [|[k x] l Hs IH Hf]; intros acc Hd; simpl; [by rewrite app_nil_r|].
  assert (Ha : Forall (fun p : bytes * V => bytes_cmp (fst p) k = Lt) acc).
  { eapply Forall_impl; [exact Hd|]. intros p Hp. by apply Forall_cons in Hp as [? _]. }
  rewrite btree_insert_last by done. rewrite IH, <- app_assoc; [done|].
  apply Forall_app. split.
  - eapply Forall_impl; [exact Hd|]. intros p Hp. by apply Forall_cons in Hp as [_ ?].
  - by constructor.
Qed.

(** The order of insertion does not matter when the keys are distinct. *)
Lemma btree_collect_Permutation l l' :
  NoDup (map fst l) -> l ≡ₚ l' -> btree_collect l = btree_collect l'.
Proof.
  intros Hn Hp. apply (StronglySorted_unique key_lt);
    [apply btree_collect_sorted|apply btree_collect_sorted|].
  rewrite !btree_collect_perm; [done|by rewrite <- Hp|done].
Qed.
End BTree.

(** ** Canonical form *)

Lemma unique_keys_object m :
  unique_keys (Object m) = true <->
  NoDup (map fst m) /\ Forall (fun kv => unique_keys (snd kv) = true) m.
Proof.
  unfold unique_keys at 1. cbn [value_all obj_unique].
  by rewrite andb_true_iff, bool_decide_eq_true, forallb_Forall.
Qed.

Lemma unique_keys_array a :
  unique_keys (Array a) = true <-> Forall (fun v => unique_keys v = true) a.
Proof.
  unfold unique_keys at 1. cbn [value_all obj_unique andb].
  apply forallb_Forall.
Qed.

Lemma btree_insert_forall {V} (P : bytes * V -> Prop) k (x : V) m :
  P (k, x) -> Forall P m -> Forall P (btree_insert k x m).
Proof.
  intros Hx. induction 1 as [|[j y] m Hy Hm IH]; simpl; [by repeat constructor|].
  destruct (bytes_cmp k j) eqn:E; repeat constructor; try done. by apply bytes_cmp_eq in E as <-.
Qed.

Lemma btree_collect_forall {V} (P : bytes * V -> Prop) (l : list (bytes * V)) :
  Forall P l -> Forall P (btree_collect l).
Proof.
  unfold btree_collect. assert (H : Forall P []) by constructor.
  revert H. generalize ([] : list (bytes * V)) as acc. intros acc Ha Hl. revert acc Ha.
  induction Hl as [|[k x] l Hp Hl IH]; intros acc Ha; simpl; [done|].
  apply IH. by apply btree_insert_forall.
Qed.

Lemma sorted_value_keys_sorted v : keys_sorted (sorted_value v).
Proof.
  induction v as [| | | |a IH|m IH] using Value_ind'; simpl; constructor.
  - by apply Forall_map.
  - apply btree_collect_sorted.
  - apply btree_collect_forall. by apply Forall_map.
Qed.

Lemma map_id_Forall {A} (f : A -> A) l : Forall (fun x => f x = x) l -> map f l = l.
Proof. induction 1 as [|x l Hx Hl IH]; simpl; congruence. Qed.

Lemma sorted_value_fixpoint v : keys_sorted v -> sorted_value v = v.
Proof.
  induction v as [| | | |a IH|m IH] using Value_ind'; intros Hs; simpl; try done;
    inversion_clear Hs as [| | | |? Ha|? Hm Hv].
  - f_equal. apply map_id_Forall. apply Forall_forall. intros v Hv.
    rewrite Forall_forall in IH, Ha. auto.
  - f_equal. rewrite map_id_Forall; [by apply btree_collect_id|].
    apply Forall_forall. intros [k v] Hin. rewrite Forall_forall in IH, Hv. simpl.
    f_equal. exact (IH _ Hin (Hv _ Hin)).
Qed.

Lemma map_fst_sorted (m : list (bytes * Value number)) :
  map fst (map (fun kv => (fst kv, sorted_value (snd kv))) m) = map fst m.
Proof. rewrite map_map. by apply map_ext. Qed.

Lemma value_equiv_sorted v : unique_keys v = true -> value_equiv v (sorted_value v).
Proof.
  induction v as [| | | |a IH|m IH] using Value_ind'; intros Hu; simpl; try constructor.
  - apply unique_keys_array in Hu. clear -IH Hu.
    induction IH as [|v a Hv IH IHa]; simpl; constructor; apply Forall_cons in Hu as [? ?]; auto.
  - apply unique_keys_object in Hu as [Hn Hu].
    pose proof (btree_collect_perm (map (fun kv => (fst kv, sorted_value (snd kv))) m)) as Hp.
    rewrite map_fst_sorted in Hp. specialize (Hp Hn).
    apply Permutation_map_inv in Hp as (m' & Hc & Hm). rewrite Hc. econstructor; [exact Hm|].
    assert (Hf : Forall (fun kv => value_equiv (snd kv) (sorted_value (snd kv))) m').
    { rewrite <- Hm. apply Forall_forall. intros kv Hin. rewrite Forall_forall in IH, Hu. auto. }
    clear -Hf. induction Hf; simpl; constructor; auto.
Qed.

Lemma value_equiv_sorted_eq v w :
  unique_keys v = true -> value_equiv v w -> sorted_value v = sorted_value w.
Proof.
  revert w. induction v as [| | | |a IH|m IH] using Value_ind'; intros w Hu He;
    inversion He as [| | | |? a' Hf|? m' l Hp Hf]; subst; try done; simpl; f_equal.
  - apply unique_keys_array in Hu. clear He. revert a' Hf.
    induction IH as [|v a Hv IH IHa]; intros a' Hf; inversion Hf; subst; simpl; [done|].
    apply Forall_cons in Hu as [? ?]. f_equal; auto.
  - apply unique_keys_object in Hu as [Hn Hu].
    rewrite (btree_collect_Permutation _ (map (fun kv => (fst kv, sorted_value (snd kv))) m'));
      [|by rewrite map_fst_sorted|by rewrite Hp].
    f_equal. assert (Hi : Forall (fun kv => forall w, value_equiv (snd kv) w ->
      sorted_value (snd kv) = sorted_value w) m').
    { rewrite <- Hp. apply Forall_forall. intros kv Hin w. rewrite Forall_forall in IH, Hu. auto. }
    clear -Hf Hi. induction Hf as [|[k v] [k' w] m' l [Hk He] Hf IHf]; simpl in *; [done|].
    apply Forall_cons in Hi as [Hv Hi]. cbn [snd] in Hv. subst k'. rewrite (Hv _ He). f_equal. auto.
Qed.

Lemma StronglySorted_NoDup_keys {V} (m : list (bytes * V)) :
  StronglySorted key_lt m -> NoDup (map fst m).
Proof.
  induction 1 as [|p m Hs IH Hf]; simpl; constructor; [|done].
  intros (q & Hq & Hin)%list_elem_of_fmap. rewrite Forall_forall in Hf.
  apply Hf in Hin. unfold key_lt in Hin. rewrite Hq, bytes_cmp_refl in Hin. done.
Qed.

Lemma keys_sorted_unique v : keys_sorted v -> unique_keys v = true.
Proof.
  induction v as [| | | |a IH|m IH] using Value_ind'; intros Hs; try done;
    inversion_clear Hs as [| | | |? Ha|? Hm Hv].
  - apply unique_keys_array. apply Forall_forall. intros v Hv.
    rewrite Forall_forall in IH, Ha. auto.
  - apply unique_keys_object. split; [by apply StronglySorted_NoDup_keys|].
    apply Forall_forall. intros kv Hin. rewrite Forall_forall in IH, Hv. auto.
Qed.

(** ** The equivalence *)

#[export] Instance value_equiv_refl : Reflexive value_equiv.
Proof.
  intros v. induction v as [| | | |a IH|m IH] using Value_ind'; try constructor.
  - clear -IH. induction IH; constructor; auto.
  - econstructor; [done|]. clear -IH. induction IH; constructor; auto.
Qed.

#[export] Instance value_equiv_sym : Symmetric value_equiv.
Proof.
  intros v. induction v as [| | | |a IH|m IH] using Value_ind'; intros w He;
    inversion He as [| | | |? a' Hf|? m' l Hp Hf]; subst; try constructor.
  - clear He. revert a' Hf. induction IH as [|v a Hv IH IHa]; intros a' Hf; inversion Hf; subst;
      constructor; auto.
  - assert (Hf' : Forall2 (fun p q => fst p = fst q /\ value_equiv (snd p) (snd q)) l m').
    { rewrite Hp in IH. clear -Hf IH. induction Hf as [|p q m' l [Hk Hv] Hf IHf]; constructor;
        apply Forall_cons in IH as [Hs IH]; auto. }
    assert (Hf0 : Forall2 (fun (p q : bytes * Value number) =>
      fst q = fst p /\ value_equiv (snd q) (snd p)) m' l)
      by (clear -Hf'; induction Hf'; constructor; auto).
    symmetry in Hp. destruct (Permutation_Forall2 Hp Hf0) as (l' & Hl & Hf2).
    econstructor; [exact Hl|]. clear -Hf2. induction Hf2; constructor; auto.
Qed.

#[export] Instance value_equiv_trans : Transitive value_equiv.
Proof.
  intros v. induction v as [| | | |a IH|m IH] using Value_ind'; intros w u He1 He2;
    inversion He1 as [| | | |? a' Hf|? m' l Hp Hf]; subst; try done.
  - inversion He2 as [| | | |? a'' Hf2|]; subst. constructor. clear He1 He2.
    revert a' Hf a'' Hf2. induction IH as [|v a Hv IH IHa]; intros a' Hf a'' Hf2;
      inversion Hf; subst; inversion Hf2; subst; constructor; eauto.
  - inversion He2 as [| | | | |? l' u' Hp2 Hf2]; subst.
    assert (Hs : Forall2 (fun q p => fst p = fst q /\ value_equiv (snd p) (snd q)) l m').
    { clear -Hf. induction Hf; constructor; auto. }
    destruct (Permutation_Forall2 Hp2 Hs) as (m'' & Hm & Hs2). econstructor; [by rewrite Hp|].
    rewrite Hp, Hm in IH. clear -IH Hs2 Hf2. revert u' Hf2.
    induction Hs2 as [|q p l' m'' [Hk He] Hs2 IHs]; intros u' Hf2; inversion Hf2 as [|? r ? ? [? ?]];
      subst; constructor; apply Forall_cons in IH as [Hv IH]; [|by apply IHs].
    split; [congruence|]. eauto.
Qed.

#[export] Instance value_equiv_equivalence : Equivalence value_equiv.
Proof. split; apply _. Qed.

(** Insertion sets the key and leaves the others; the last value of a key
    wins. *)
Lemma assoc_get_insert {V} k (x : V) m k' :
  assoc_get k' (btree_insert k x m) = if bool_decide (k = k') then Some x else assoc_get k' m.
Proof.
  induction m as [|[j y] m IH]; simpl; [done|].
  destruct (bytes_cmp k j) eqn:E; simpl.
  - apply bytes_cmp_eq in E as ->. by case_bool_decide.
  - done.
  - rewrite IH. case_bool_decide as H1; [|done]. case_bool_decide as H2; [|done].
    subst. by rewrite bytes_cmp_refl in E.
Qed.

Lemma assoc_get_app {V} k (a b : list (bytes * V)) :
  assoc_get k (a ++ b) = match assoc_get k a with Some x => Some x | None => assoc_get k b end.
Proof. induction a as [|[j y] a IH]; simpl; [done|]. by case_bool_decide. Qed.

Lemma assoc_get_collect {V} k (l : list (bytes * V)) :
  assoc_get k (btree_collect l) = assoc_get k (reverse l).
Proof.
  unfold btree_collect. transitivity
    (match assoc_get k (reverse l) with Some x => Some x | None => assoc_get k ([] : list (bytes * V)) end);
    [|by destruct (assoc_get k (reverse l))].
  generalize ([] : list (bytes * V)) as acc.
  induction l as [|[j y] l IH]; intros acc; [done|]. cbn [foldl fst snd].
  rewrite IH, reverse_cons, assoc_get_app, assoc_get_insert.
  destruct (assoc_get k (reverse l)); [done|]. simpl. by case_bool_decide.
Qed.

(** ** Looking a string up does not depend on key order *)

Lemma assoc_get_In {V} k (x : V) m :
  NoDup (map fst m) -> assoc_get k m = Some x <-> (k, x) ∈ m.
Proof.
  induction m as [|[j y] m IH]; simpl; intros Hn; [by split; [|intros ?%elem_of_nil]|].
  apply NoDup_cons in Hn as [Hj Hn]. rewrite elem_of_cons. case_bool_decide as Hjk.
  - subst j. split; [intros [= ->]; by left|]. intros [[= ->]|Hin]; [done|].
    destruct Hj. apply list_elem_of_fmap. by exists (k, x).
  - rewrite IH by done. split; [by right|]. intros [[= -> ->]|]; done.
Qed.

Lemma assoc_get_perm {V} k (m m' : list (bytes * V)) :
  NoDup (map fst m) -> m ≡ₚ m' -> assoc_get k m = assoc_get k m'.
Proof.
  intros Hn Hp. apply option_eq. intros x. rewrite !assoc_get_In; [by rewrite Hp|by rewrite <- Hp|done].
Qed.

Lemma as_str_equiv v w : value_equiv v w -> as_str v = as_str w.
Proof. by destruct 1. Qed.

Lemma value_get_str_equiv v w k :
  unique_keys v = true -> value_equiv v w ->
  (value_get v k ≫= as_str) = (value_get w k ≫= as_str).
Proof.
  intros Hu He. destruct He as [| | | | |m m' n Hp Hf]; try done. simpl.
  apply unique_keys_object in Hu as [Hn _]. rewrite (assoc_get_perm k m m') by done.
  clear Hp Hn. induction Hf as [|[j x] [j' y] m' n [Hk Hv] Hf IH]; simpl in *; [done|].
  subst j'. case_bool_decide; [|done]. simpl. by apply as_str_equiv.
Qed.

(** C23: [sorted_value] computes a canonical form.  Two documents (with the distinct
    keys a map guarantees) get the same form exactly when they differ in the
    order of object keys only, at any depth; the form has its keys in
    strictly increasing order at every level, has the same content as the
    document, and is its own form. *)
Theorem sorted_value_canonical v w :
  unique_keys v = true -> unique_keys w = true ->
  (value_equiv v w <-> sorted_value v = sorted_value w)
  /\ keys_sorted (sorted_value v) /\ value_equiv v (sorted_value v)
  /\ sorted_value (sorted_value v) = sorted_value v.
Proof.
  intros Hv Hw. split; [split|split; [|split]].
  - by apply value_equiv_sorted_eq.
  - intros He. rewrite (value_equiv_sorted v Hv), He. symmetry. by apply value_equiv_sorted.
  - apply sorted_value_keys_sorted.
  - by apply value_equiv_sorted.
  - apply sorted_value_fixpoint, sorted_value_keys_sorted.
Qed.

End Values.

Lemma sorted_value_canonical_witness :
  let v := Object [(lit "b", Number 1); (lit "a", Object [(lit "y", Null); (lit "x", Bool true)])] in
  let w := Object [(lit "a", Object [(lit "x", Bool true); (lit "y", Null)]); (lit "b", Number 1)] in
  sorted_value v = sorted_value w /\ sorted_value v = w /\ value_equiv v w.
Proof.
  intros v w. assert (H : sorted_value v = sorted_value w) by (by vm_compute).
  split; [exact H|]. split; [by vm_compute|].
  exact (proj2 (proj1 (sorted_value_canonical v w eq_refl eq_refl)) H).
Defined.
