(* ===== verification/Validator.v ===== *)
(** * Payload validation: [logfence-daemon/src/validator.rs]

    [Validator] with its builders, [validate] and [prepare_for_forwarding],
    over the interfaces to [serde_json] and [jsonschema]. *)

From stdpp Require Import prelude strings list gmap.
From Stdlib Require Import ZArith Lia.
From S2P Require Import Prelude RustStd Syslog SyslogFacts Timestamp StructuredData SyslogRoundtrip.
From S2P Require Import Config Json.

Definition CEE_COOKIE : bytes := lit "@cee:".

Inductive ValidationError (serde_error : Type) : Type :=
| NotJson (e : serde_error)
| NotObject (kind : bytes)
| SchemaRejected
| UnexpectedCeeCookie
| MissingCeeCookie.
Arguments NotJson {serde_error} e.
Arguments NotObject {serde_error} kind.
Arguments SchemaRejected {serde_error}.
Arguments UnexpectedCeeCookie {serde_error}.
Arguments MissingCeeCookie {serde_error}.

(** [std::borrow::Cow]: whether the message was copied. *)
Inductive Cow (A : Type) : Type := Borrowed (a : A) | Owned (a : A).
Arguments Borrowed {A} a.
Arguments Owned {A} a.

Definition into_owned {A} (c : Cow A) : A :=
  match c with Borrowed a => a | Owned a => a end.

Record DiscriminatorMap (schema : Type) : Type := mkDiscriminator {
  disc_field : bytes;
  disc_map : gmap bytes schema
}.
Arguments mkDiscriminator {schema} disc_field disc_map.
Arguments disc_field {schema} d : rename.
Arguments disc_map {schema} d : rename.

Record Validator (schema : Type) : Type := mkValidator {
  v_mode : ValidationMode;
  v_schemas : list schema;
  v_discriminator : option (DiscriminatorMap schema);
  v_input_cee : CeeCookieMode;
  v_output_cee : CeeCookieMode;
  v_canonical_json : bool
}.
Arguments mkValidator {schema}.
Arguments v_mode {schema} v : rename.
Arguments v_schemas {schema} v : rename.
Arguments v_discriminator {schema} v : rename.
Arguments v_input_cee {schema} v : rename.
Arguments v_output_cee {schema} v : rename.
Arguments v_canonical_json {schema} v : rename.

(** [collect::<Result<Vec<_>, _>>()]: the first error wins. *)
Fixpoint collect_results {E A} (l : list (E + A)) : E + list A :=
  match l with
  | [] => inr []
  | inl e :: _ => inl e
  | inr a :: r => match collect_results r with inl e => inl e | inr rest => inr (a :: rest) end
  end.

Section Validator.
  Context {number serde_error schema schema_error : Type}.
  Context `{!SerdeJson number serde_error} `{!JsonSchema number schema schema_error}.

(** [Display] of the error, as [thiserror] derives it. *)
Definition ValidationError_display (e : ValidationError serde_error) : bytes :=
  match e with
  | NotJson e => lit "message is not valid JSON: " ++ serde_error_display e
  | NotObject kind => lit "message must be a JSON object, got " ++ kind
  | SchemaRejected => lit "message does not match any configured schema"
  | UnexpectedCeeCookie =>
      lit "message has CEE cookie but input_cee = " ++ [x22] ++ lit "never" ++ [x22]
  | MissingCeeCookie => lit "message is missing required CEE cookie (@cee:)"
  end.

(** ** Construction *)

Definition Validator_new (mode : ValidationMode) (schemas : list schema) : Validator schema :=
  mkValidator mode schemas None Never Never false.

Definition with_canonical_json (enabled : bool) (v : Validator schema) : Validator schema :=
  mkValidator (v_mode v) (v_schemas v) (v_discriminator v) (v_input_cee v) (v_output_cee v) enabled.

Definition with_input_cee (m : CeeCookieMode) (v : Validator schema) : Validator schema :=
  mkValidator (v_mode v) (v_schemas v) (v_discriminator v) m (v_output_cee v) (v_canonical_json v).

Definition with_output_cee (m : CeeCookieMode) (v : Validator schema) : Validator schema :=
  mkValidator (v_mode v) (v_schemas v) (v_discriminator v) (v_input_cee v) m (v_canonical_json v).

(** The iteration order of the [HashMap] is that of [map_to_list]. *)
Definition with_discriminator_docs (field : bytes) (docs : gmap bytes (Value number))
    (v : Validator schema) : bytes + Validator schema :=
  let compiled := map (fun kd : bytes * Value number =>
    match validator_for (snd kd) with
    | inl e => inl (lit "invalid discriminator schema for '" ++ fst kd ++ lit "': "
                    ++ schema_error_display e)
    | inr s => inr (fst kd, s)
    end) (map_to_list docs) in
  match collect_results compiled with
  | inl e => inl e
  | inr l =>
      inr (mkValidator (v_mode v) (v_schemas v) (Some (mkDiscriminator field (list_to_map l)))
             (v_input_cee v) (v_output_cee v) (v_canonical_json v))
  end.

Definition from_values (mode : ValidationMode) (docs : list (Value number))
    : bytes + Validator schema :=
  match collect_results (map (fun doc =>
          match validator_for doc with
          | inl e => inl (schema_error_display e)
          | inr s => inr s
          end) docs) with
  | inl e => inl e
  | inr schemas => inr (Validator_new mode schemas)
  end.

(** ** Validation *)

Definition schema_matches (v : Validator schema) (value : Value number) : bool :=
  let scan :=
    if bool_decide (length (v_schemas v) = 0%nat) then true
    else existsb (fun s => is_valid s value) (v_schemas v) in
  match v_discriminator v with
  | Some disc =>
      match value_get value (disc_field disc) ≫= as_str with
      | Some disc_val =>
          match disc_map disc !! disc_val with
          | Some s => is_valid s value
          | None => scan
          end
      | None => scan
      end
  | None => scan
  end.

(** [&msg.msg[CEE_COOKIE.len()..]]: the index is a character boundary when
    the string starts with the cookie ([cee_slice] below). *)
Definition after_cookie (s : bytes) : bytes := drop (length CEE_COOKIE) s.

Definition validate (v : Validator schema) (m : SyslogMessage)
    : res (ValidationError serde_error) unit :=
  let has_cookie := starts_with CEE_COOKIE (msg m) in
  let? json_str :=
    match v_input_cee v with
    | Never => if has_cookie then Err UnexpectedCeeCookie else Ok (msg m)
    | Optional => Ok (if has_cookie then after_cookie (msg m) else msg m)
    | Always => if negb has_cookie then Err MissingCeeCookie else Ok (after_cookie (msg m))
    end in
  let? value := match from_str json_str with inl e => Err (NotJson e) | inr value => Ok value end in
  if negb (is_object value) then Err (NotObject (json_kind value))
  else if bool_decide (v_mode v = Off) then Ok tt
  else if schema_matches v value then Ok tt
  else match v_mode v with
       | Strict => Err SchemaRejected
       | Warn => Ok tt
       | Off => Ok tt
       end.

(** ** Forwarding *)

Definition canonicalize_json (json_str : bytes) : option bytes :=
  match from_str json_str with
  | inl _ => None
  | inr value => match to_string (sorted_value value) with inl _ => None | inr s => Some s end
  end.

Definition set_msg (m : SyslogMessage) (s : bytes) : SyslogMessage :=
  mkMessage (priority m) (timestamp m) (hostname m) (app_name m) (proc_id m) (msg_id m)
    (structured_data m) s.

Definition prepare_for_forwarding (v : Validator schema) (m : SyslogMessage) : Cow SyslogMessage :=
  let has_cookie := starts_with CEE_COOKIE (msg m) in
  let bare_json := if has_cookie then after_cookie (msg m) else msg m in
  let canonical : option bytes :=
    if v_canonical_json v then
      match canonicalize_json bare_json with
      | Some s => if bool_decide (s = bare_json) then None else Some s
      | None => None
      end
    else None in
  let effective_json := default bare_json canonical in
  let new_msg : option bytes :=
    match v_output_cee v with
    | Never =>
        if negb has_cookie && bool_decide (canonical = None) then None else Some effective_json
    | Optional => (fun cj => if has_cookie then CEE_COOKIE ++ cj else cj) <$> canonical
    | Always =>
        if has_cookie && bool_decide (canonical = None) then None
        else Some (CEE_COOKIE ++ effective_json)
    end in
  match new_msg with
  | Some msg_field => Owned (set_msg m msg_field)
  | None => Borrowed m
  end.

End Validator.

(** ** What the crates promise *)

(** The documented behaviour of [serde_json] the theorems rely on: maps have
    distinct keys, a JSON text cannot start with [@], compact output is JSON
    text with no
    trailing newline, and a document that was parsed and then re-ordered
    prints to a text that parses back to the same document, up to key order,
    when its numbers survive printing ([exact_number]; without the crate's
    [float_roundtrip] feature some floats do not). *)
Class SerdeJsonLaws (number serde_error : Type) `{!SerdeJson number serde_error} : Type := {
  exact_number : number -> bool;
  from_str_unique s v : from_str s = inr v -> unique_keys v = true;
  from_str_no_at s v : from_str s = inr v -> starts_with (lit "@") s = false;
  to_string_no_at v s : to_string v = inr s -> starts_with (lit "@") s = false;
  to_string_trimmed v s c : to_string v = inr s -> last s = Some c -> trimmed c = false;
  value_display_trimmed v c : last (value_display v) = Some c -> trimmed c = false;
  to_string_from_str s0 v w s :
    from_str s0 = inr v -> unique_keys w = true -> value_equiv v w ->
    value_all (fun u => match u with Number n => exact_number n | _ => true end) v = true ->
    to_string w = inr s -> exists w', from_str s = inr w' /\ value_equiv w w'
}.

(** JSON Schema does not look at the order of keys. *)
Class JsonSchemaLaws (number schema schema_error : Type) `{!JsonSchema number schema schema_error}
    : Prop := {
  is_valid_equiv s (v w : Value number) : value_equiv v w -> is_valid s v = is_valid s w
}.

(** ** Specification *)

(** What the cookie mode lets through: [bare] is the payload of MSG [s]. *)
Definition cookie_policy (mode : CeeCookieMode) (s bare : bytes) : Prop :=
  match mode with
  | Never => starts_with CEE_COOKIE s = false /\ bare = s
  | Optional => s = CEE_COOKIE ++ bare \/ (starts_with CEE_COOKIE s = false /\ bare = s)
  | Always => s = CEE_COOKIE ++ bare
  end.

Lemma after_cookie_app bare : after_cookie (CEE_COOKIE ++ bare) = bare.
Proof. done. Qed.

Lemma starts_with_cookie s : starts_with CEE_COOKIE s = true -> s = CEE_COOKIE ++ after_cookie s.
Proof. by intros [r ->]%starts_with_iff. Qed.

Lemma starts_with_app p s : starts_with p (p ++ s) = true.
Proof. apply starts_with_iff. eauto. Qed.

(** The slice after the cookie never panics. *)
Lemma cee_slice s :
  utf8_valid s = true -> starts_with CEE_COOKIE s = true ->
  str_slice s (length CEE_COOKIE) (length s) = Some (after_cookie s).
Proof.
  intros Hu Hs. apply starts_with_cookie in Hs. revert Hu. rewrite Hs.
  generalize (after_cookie s) as b. intros b Hu. rewrite utf8_valid_app in Hu by done.
  rewrite after_cookie_app. rewrite <- (app_nil_r (CEE_COOKIE ++ b)) at 1. rewrite <- app_assoc.
  rewrite length_app. apply str_slice_mid; [|done].
  rewrite app_nil_r. by apply utf8_valid_head.
Qed.

Section Spec.
  Context {number serde_error schema schema_error : Type}.
  Context `{!SerdeJson number serde_error} `{!JsonSchema number schema schema_error}.

(** The schema the discriminator selects, if it selects one. *)
Definition routed (v : Validator schema) (val : Value number) : option schema :=
  d ← v_discriminator v; x ← value_get val (disc_field d); k ← as_str x; disc_map d !! k.

Definition schema_accepts (v : Validator schema) (val : Value number) : Prop :=
  match routed v val with
  | Some s => is_valid s val = true
  | None => v_schemas v = [] \/ Exists (fun s => is_valid s val = true) (v_schemas v)
  end.

Lemma schema_matches_iff v val : schema_matches v val = true <-> schema_accepts v val.
Proof.
  unfold schema_matches, schema_accepts, routed.
  assert (Hs : (if bool_decide (length (v_schemas v) = 0%nat) then true
    else existsb (fun s => is_valid s val) (v_schemas v)) = true <->
    v_schemas v = [] \/ Exists (fun s => is_valid s val = true) (v_schemas v)).
  { case_bool_decide as Hl.
    - apply nil_length_inv in Hl. split; auto.
    - rewrite existsb_exists, Exists_exists. setoid_rewrite list_elem_of_In.
      split; [by right|]. intros [Hn|?]; [by rewrite Hn in Hl|done]. }
  destruct (v_discriminator v) as [d|]; [|exact Hs]. cbn [mbind option_bind].
  destruct (value_get val (disc_field d)) as [x|]; [|exact Hs]. cbn [mbind option_bind].
  destruct (as_str x) as [k|]; [|exact Hs]. cbn [mbind option_bind].
  by destruct (disc_map d !! k).
Qed.

(** The first step of [validate]. *)
Lemma input_cee_iff (mode : CeeCookieMode) s (bare : bytes) :
  (match mode with
   | Never => if starts_with CEE_COOKIE s then Err UnexpectedCeeCookie else Ok s
   | Optional => Ok (if starts_with CEE_COOKIE s then after_cookie s else s)
   | Always => if negb (starts_with CEE_COOKIE s) then Err MissingCeeCookie else Ok (after_cookie s)
   end = (Ok bare : res (ValidationError serde_error) bytes)) <-> cookie_policy mode s bare.
Proof.
  unfold cookie_policy. destruct (starts_with CEE_COOKIE s) eqn:E; cbn [negb].
  - apply starts_with_cookie in E.
    assert (Ha : s = CEE_COOKIE ++ bare <-> after_cookie s = bare).
    { split; [intros ->; apply after_cookie_app|]. by intros <-. }
    destruct mode.
    + split; [done|]. by intros [? _].
    + rewrite Ha. split; [intros [= ->]; by left|]. by intros [->|[? _]].
    + rewrite Ha. split; [by intros [= ->]|]. by intros ->.
  - assert (Hn : s <> CEE_COOKIE ++ bare) by (intros ->; by rewrite starts_with_app in E).
    destruct mode.
    + split; [by intros [= ->]|]. by intros [_ ->].
    + split; [intros [= ->]; by right|]. by intros [?|[_ ->]].
    + by split.
Qed.

(** The rest of [validate], on the payload. *)
Definition validate_payload (v : Validator schema) (bare : bytes)
    : res (ValidationError serde_error) unit :=
  let? value := match from_str bare with inl e => Err (NotJson e) | inr value => Ok value end in
  if negb (is_object value) then Err (NotObject (json_kind value))
  else if bool_decide (v_mode v = Off) then Ok tt
  else if schema_matches v value then Ok tt
  else match v_mode v with Strict => Err SchemaRejected | _ => Ok tt end.

Lemma cookie_policy_fun mode s a b : cookie_policy mode s a -> cookie_policy mode s b -> a = b.
Proof. rewrite <- !input_cee_iff. congruence. Qed.

(** The three ways through the cookie check. *)
Lemma validate_cases (v : Validator schema) m :
  (exists bare, cookie_policy (v_input_cee v) (msg m) bare /\ validate v m = validate_payload v bare)
  \/ (v_input_cee v = Never /\ starts_with CEE_COOKIE (msg m) = true
      /\ validate v m = Err UnexpectedCeeCookie)
  \/ (v_input_cee v = Always /\ starts_with CEE_COOKIE (msg m) = false
      /\ validate v m = Err MissingCeeCookie).
Proof.
  unfold validate, validate_payload.
  destruct (v_input_cee v) eqn:Ei, (starts_with CEE_COOKIE (msg m)) eqn:Es; cbn [negb]; auto;
    left; eexists; (split; [apply input_cee_iff; rewrite Es; reflexivity|]);
    destruct (from_str _); try done; by destruct (v_mode v).
Qed.

(** [validate_payload] on an object, by mode. *)
Lemma validate_payload_object v bare o :
  from_str bare = inr (Object o) ->
  validate_payload v bare =
  if bool_decide (v_mode v = Strict) && negb (schema_matches v (Object o))
  then Err SchemaRejected else Ok tt.
Proof.
  intros H. unfold validate_payload. rewrite H. cbn [is_object negb].
  by destruct (v_mode v), (schema_matches v (Object o)).
Qed.

Lemma validate_payload_other v bare val :
  from_str bare = inr val -> is_object val = false ->
  validate_payload v bare = Err (NotObject (json_kind val)).
Proof. intros H Ho. unfold validate_payload. by rewrite H, Ho. Qed.

Lemma validate_payload_ok v bare :
  validate_payload v bare = Ok tt <->
  exists o, from_str bare = inr (Object o) /\ (v_mode v = Strict -> schema_accepts v (Object o)).
Proof.
  setoid_rewrite <- schema_matches_iff. destruct (from_str bare) as [e|val] eqn:E.
  { unfold validate_payload. rewrite E. split; [done|]. by intros (? & ? & _). }
  destruct (is_object val) eqn:Eo.
  2:{ rewrite (validate_payload_other v bare val) by done. split; [done|].
      intros (o & [= ->] & _). done. }
  destruct val as [| | | | |o]; try discriminate Eo.
  rewrite (validate_payload_object v bare o) by done. case_bool_decide as Hm; cbn [andb].
  - destruct (schema_matches v (Object o)) eqn:Es; cbn [negb].
    + split; [|done]. intros _. by exists o.
    + split; [done|]. intros (o' & [= <-] & H). by rewrite H in Es.
  - split; [|done]. intros _. by exists o.
Qed.

Lemma validate_payload_err v bare e :
  validate_payload v bare = Err e <->
  match e with
  | NotJson se => from_str bare = inl se
  | NotObject kind =>
      exists val, from_str bare = inr val /\ is_object val = false /\ kind = json_kind val
  | SchemaRejected => exists o, from_str bare = inr (Object o) /\ v_mode v = Strict
                                /\ ~ schema_accepts v (Object o)
  | _ => False
  end.
Proof.
  destruct (from_str bare) as [se|val] eqn:E.
  { unfold validate_payload. rewrite E. destruct e; split; try done; try congruence;
      try (by intros (? & ? & _)). }
  destruct (is_object val) eqn:Eo.
  2:{ rewrite (validate_payload_other v bare val) by done. destruct e; split; try done.
      - intros [= <-]. eauto.
      - intros (? & [= <-] & _ & ->). done.
      - by intros (? & [= ->] & _). }
  destruct val as [| | | | |o]; try discriminate Eo.
  rewrite (validate_payload_object v bare o) by done.
  pose proof (schema_matches_iff v (Object o)) as Hs.
  case_bool_decide as Hm; destruct (schema_matches v (Object o)) eqn:Es; cbn [andb negb];
    destruct e; split; try done; try (by intros (? & ? & ? & ?); simplify_eq);
    try (intros (? & [= <-] & ? & []); by apply Hs).
  intros _. exists o. rewrite <- Hs. done.
Qed.

Lemma validate_ok_iff (v : Validator schema) m :
  validate v m = Ok tt <->
  exists bare o, cookie_policy (v_input_cee v) (msg m) bare /\ from_str bare = inr (Object o)
    /\ (v_mode v = Strict -> schema_accepts v (Object o)).
Proof.
  destruct (validate_cases v m) as [(b & Hb & ->)|[(Hi & Hs & ->)|(Hi & Hs & ->)]].
  - rewrite validate_payload_ok. split; [intros (o & ? & ?); by exists b, o|].
    intros (b' & o & Hb' & ? & ?). exists o. by rewrite (cookie_policy_fun _ _ _ _ Hb Hb').
  - split; [done|]. intros (b & o & Hb & _). rewrite Hi in Hb. destruct Hb. congruence.
  - split; [done|]. intros (b & o & Hb & _). rewrite Hi in Hb. cbn [cookie_policy] in Hb.
    rewrite Hb, starts_with_app in Hs. done.
Qed.

(** C11: what [validate] accepts: a MSG whose cookie is as [input_cee] demands and
    whose payload is a JSON object, which in [Strict] mode also satisfies the
    schema its discriminator selects or, when none is selected, one of the
    listed schemas (any object, when there are none). *)
Theorem validate_accepts_iff (v : Validator schema) m :
  validate v m = Ok tt <->
  exists bare o, cookie_policy (v_input_cee v) (msg m) bare /\ from_str bare = inr (Object o)
    /\ (v_mode v = Strict -> schema_accepts v (Object o)).
Proof. apply validate_ok_iff. Qed.

(** C20: what [validate] rejects and with which error: the cookie is checked first,
    then the JSON syntax, then that it is an object, then (in [Strict] mode
    only) the schemas; there is no other failure, and no panic. *)
Theorem validate_rejects_iff (v : Validator schema) m :
  validate v m <> Panic /\
  forall e, validate v m = Err e <->
  match e with
  | UnexpectedCeeCookie => v_input_cee v = Never /\ starts_with CEE_COOKIE (msg m) = true
  | MissingCeeCookie => v_input_cee v = Always /\ starts_with CEE_COOKIE (msg m) = false
  | NotJson se => exists bare, cookie_policy (v_input_cee v) (msg m) bare /\ from_str bare = inl se
  | NotObject kind => exists bare val, cookie_policy (v_input_cee v) (msg m) bare
      /\ from_str bare = inr val /\ is_object val = false /\ kind = json_kind val
  | SchemaRejected => exists bare o, cookie_policy (v_input_cee v) (msg m) bare
      /\ from_str bare = inr (Object o) /\ v_mode v = Strict /\ ~ schema_accepts v (Object o)
  end.
Proof.
  destruct (validate_cases v m) as [(b & Hb & ->)|[(Hi & Hs & ->)|(Hi & Hs & ->)]].
  - split. { unfold validate_payload. by repeat case_match. }
    intros e. rewrite validate_payload_err. pose proof (cookie_policy_fun (v_input_cee v) (msg m) b) as Hf.
    destruct e; split.
    + eauto.
    + intros (b' & Hb' & ?). by rewrite (Hf b' Hb Hb').
    + intros (val & ?). eauto.
    + intros (b' & val & Hb' & ?). rewrite (Hf b' Hb Hb'). eauto.
    + intros (o & ?). eauto.
    + intros (b' & o & Hb' & ?). rewrite (Hf b' Hb Hb'). eauto.
    + done.
    + intros [Hi Hs]. rewrite Hi in Hb. destruct Hb. congruence.
    + done.
    + intros [Hi Hs]. rewrite Hi in Hb. cbn [cookie_policy] in Hb. rewrite Hb, starts_with_app in Hs. done.
  - split; [done|]. rewrite Hi, Hs.
    assert (Hn : forall b, ~ cookie_policy Never (msg m) b) by (intros b [? _]; congruence).
    intros e. destruct e; split; try done; try (by intros []); try (intros (? & ? & _); by edestruct Hn);
      by intros (? & ? & ? & _); edestruct Hn.
  - split; [done|]. rewrite Hi, Hs.
    assert (Hn : forall b, ~ cookie_policy Always (msg m) b).
    { intros b Hb. cbn [cookie_policy] in Hb. rewrite Hb, starts_with_app in Hs. done. }
    intros e. destruct e; split; try done; try (by intros []); try (intros (? & ? & _); by edestruct Hn);
      by intros (? & ? & ? & _); edestruct Hn.
Qed.

End Spec.

(** ** What is forwarded *)

Section Forwarding.
  Context {number serde_error schema schema_error : Type}.
  Context `{!SerdeJson number serde_error} `{!JsonSchema number schema schema_error}.

(** The payload behind the cookie, if there is one. *)
Definition payload (s : bytes) : bytes :=
  if starts_with CEE_COOKIE s then after_cookie s else s.

Definition add_cookie (mode : CeeCookieMode) (had : bool) (s : bytes) : bytes :=
  match mode with
  | Never => s
  | Optional => if had then CEE_COOKIE ++ s else s
  | Always => CEE_COOKIE ++ s
  end.

Definition forwarded_payload (v : Validator schema) (s : bytes) : bytes :=
  if v_canonical_json v then default (payload s) (canonicalize_json (payload s)) else payload s.

Lemma payload_cookie s : starts_with CEE_COOKIE s = true -> CEE_COOKIE ++ payload s = s.
Proof. intros H. unfold payload. rewrite H. symmetry. by apply starts_with_cookie. Qed.

Lemma set_msg_same m : set_msg m (msg m) = m.
Proof. by destruct m. Qed.

(** The step that avoids an allocation when nothing changes does not change
    the outcome: canonicalize, then set the cookie. *)
Lemma prepare_eq v m :
  into_owned (prepare_for_forwarding v m) =
  set_msg m (add_cookie (v_output_cee v) (starts_with CEE_COOKIE (msg m))
               (forwarded_payload v (msg m))).
Proof.
  unfold prepare_for_forwarding, forwarded_payload, add_cookie. fold (payload (msg m)).
  pose proof (payload_cookie (msg m)) as Hc.
  assert (Hp : starts_with CEE_COOKIE (msg m) = false -> payload (msg m) = msg m)
    by (intros H; unfold payload; by rewrite H).
  destruct (v_canonical_json v); [destruct (canonicalize_json (payload (msg m))) as [s|];
    [destruct (bool_decide_reflect (s = payload (msg m))) as [->|Hs]|]|];
    destruct (v_output_cee v), (starts_with CEE_COOKIE (msg m)); cbn -[CEE_COOKIE app];
    try done; first [rewrite (Hc eq_refl)|rewrite (Hp eq_refl)]; by rewrite set_msg_same.
Qed.

(** ** Under the crates' laws *)

Context `{!SerdeJsonLaws number serde_error} `{!JsonSchemaLaws number schema schema_error}.

(** Numbers that print and parse back unchanged. *)
Definition exact_numbers (v : Value number) : bool :=
  value_all (fun u => match u with Number n => exact_number n | _ => true end) v.

Lemma no_at_no_cookie s : starts_with (lit "@") s = false -> starts_with CEE_COOKIE s = false.
Proof.
  intros H. destruct (starts_with CEE_COOKIE s) eqn:E; [|done].
  apply starts_with_cookie in E. by rewrite E in H.
Qed.

Lemma cookie_policy_payload mode s b : cookie_policy mode s b -> payload s = b.
Proof.
  unfold payload. destruct mode; cbn [cookie_policy].
  - by intros [-> ->].
  - intros [->|[-> ->]]; [by rewrite starts_with_app|done].
  - intros ->. by rewrite starts_with_app.
Qed.

Lemma validate_payload_json v m :
  validate v m = Ok tt ->
  cookie_policy (v_input_cee v) (msg m) (payload (msg m))
  /\ exists o, from_str (payload (msg m)) = inr (Object o)
      /\ (v_mode v = Strict -> schema_accepts v (Object o)).
Proof.
  destruct (validate_cases v m) as [(b & Hb & ->)|[(_ & _ & ->)|(_ & _ & ->)]]; try done.
  rewrite (cookie_policy_payload _ _ _ Hb). intros H. by apply validate_payload_ok in H.
Qed.

Lemma forwarded_payload_no_cookie v m o :
  from_str (payload (msg m)) = inr (Object o) ->
  starts_with CEE_COOKIE (forwarded_payload v (msg m)) = false.
Proof.
  intros Hj. apply no_at_no_cookie. unfold forwarded_payload, canonicalize_json. rewrite Hj.
  destruct (v_canonical_json v); [|by eapply from_str_no_at].
  destruct (to_string _) eqn:E; [by eapply from_str_no_at|by eapply to_string_no_at].
Qed.

Lemma add_cookie_policy mode had s :
  starts_with CEE_COOKIE s = false -> cookie_policy mode (add_cookie mode had s) s.
Proof. destruct mode, had; cbn [cookie_policy add_cookie]; auto. Qed.

(** The forwarded payload denotes the document that was validated. *)
Lemma forwarded_payload_json v m o :
  from_str (payload (msg m)) = inr (Object o) -> exact_numbers (Object o) = true ->
  exists w, from_str (forwarded_payload v (msg m)) = inr w /\ value_equiv (Object o) w.
Proof.
  intros Hj Hx. unfold forwarded_payload, canonicalize_json. rewrite Hj.
  destruct (v_canonical_json v); [|by eexists].
  destruct (to_string _) as [|s] eqn:E; simpl; [by eexists|].
  pose proof (from_str_unique _ _ Hj) as Hu.
  edestruct to_string_from_str as (w & Hw & He); [exact Hj| | |exact Hx|exact E|].
  - apply keys_sorted_unique, sorted_value_keys_sorted.
  - by apply value_equiv_sorted.
  - exists w. split; [done|]. etrans; [|exact He]. by apply value_equiv_sorted.
Qed.

Lemma schema_accepts_equiv v val w :
  unique_keys val = true -> value_equiv val w -> schema_accepts v val -> schema_accepts v w.
Proof.
  intros Hu He. unfold schema_accepts.
  assert (Hr : routed v val = routed v w).
  { unfold routed. destruct (v_discriminator v) as [d|]; [|done]. cbn [mbind option_bind].
    pose proof (value_get_str_equiv val w (disc_field d) Hu He) as Hg.
    destruct (value_get val (disc_field d)) as [x|], (value_get w (disc_field d)) as [y|];
      cbn [mbind option_bind] in *; first [done|by rewrite Hg|by rewrite <- Hg]. }
  rewrite Hr. destruct (routed v w) as [s|]; [by rewrite (is_valid_equiv s val w)|].
  intros [?|Hx]; [by left|right]. eapply Exists_impl; [exact Hx|].
  intros s Hs. by rewrite <- (is_valid_equiv s val w).
Qed.

(** C21: what preparing does to the document.  For an accepted message whose numbers
    survive being printed and read again, [prepare_for_forwarding] changes
    only MSG, makes its cookie what [output_cee] demands, and the forwarded
    payload parses to the validated object up to the order of keys; with
    [canonical_json] it is the printed canonical form. *)
Theorem prepare_preserves_document (v : Validator schema) m o :
  validate v m = Ok tt -> from_str (payload (msg m)) = inr (Object o) ->
  exact_numbers (Object o) = true ->
  let m' := into_owned (prepare_for_forwarding v m) in
  m' = set_msg m (msg m') /\
  exists bare w, cookie_policy (v_output_cee v) (msg m') bare
    /\ from_str bare = inr w /\ value_equiv (Object o) w
    /\ (v_canonical_json v = true -> forall s, to_string (sorted_value (Object o)) = inr s -> bare = s).
Proof.
  intros Hv Hj Hx m'. unfold m'. rewrite prepare_eq. split; [done|].
  destruct (forwarded_payload_json v m o Hj Hx) as (w & Hw & He).
  exists (forwarded_payload v (msg m)), w. split; [|split; [done|split; [done|]]].
  - apply add_cookie_policy. by eapply forwarded_payload_no_cookie.
  - intros Hc s Hs. unfold forwarded_payload, canonicalize_json. by rewrite Hc, Hj, Hs.
Qed.

(** C22: fences compose.  An accepted message whose numbers survive being printed and
    read again is, as forwarded, accepted by the next fence: a validator with
    the same settings except that its [input_cee] is the first one's
    [output_cee].  A second preparation returns it as it is, uncopied. *)
Theorem prepare_revalidates (v : Validator schema) m o :
  validate v m = Ok tt -> from_str (payload (msg m)) = inr (Object o) ->
  exact_numbers (Object o) = true ->
  let m' := into_owned (prepare_for_forwarding v m) in
  validate (with_input_cee (v_output_cee v) v) m' = Ok tt
  /\ prepare_for_forwarding v m' = Borrowed m'.
Proof.
  intros Hv Hj Hx m'. destruct (validate_payload_json v m Hv) as (_ & o' & Hj' & Hs).
  rewrite Hj in Hj'. injection Hj' as <-. pose proof (from_str_unique _ _ Hj) as Hu.
  destruct (forwarded_payload_json v m o Hj Hx) as (w & Hw & He).
  pose proof (forwarded_payload_no_cookie v m o Hj) as Hn.
  pose proof (add_cookie_policy (v_output_cee v) (starts_with CEE_COOKIE (msg m)) _ Hn) as Hp.
  unfold m'. rewrite prepare_eq. split.
  - destruct (validate_cases (with_input_cee (v_output_cee v) v)
      (set_msg m (add_cookie (v_output_cee v) (starts_with CEE_COOKIE (msg m))
        (forwarded_payload v (msg m))))) as [(b & Hb & ->)|[(Hi & Hc & _)|(Hi & Hc & _)]].
    + cbn [v_input_cee with_input_cee msg set_msg] in Hb.
      rewrite <- (cookie_policy_payload _ _ _ Hb), (cookie_policy_payload _ _ _ Hp).
      apply validate_payload_ok.
      inversion He as [| | | | |? ? ol]; subst. exists ol. split; [done|].
      cbn [v_mode with_input_cee]. intros Hm. eapply schema_accepts_equiv; [exact Hu|exact He|].
      by apply Hs.
    + cbn [v_input_cee with_input_cee msg set_msg] in *. rewrite Hi in Hp, Hc. destruct Hp. congruence.
    + cbn [v_input_cee with_input_cee msg set_msg] in *. rewrite Hi in Hp, Hc. cbn [cookie_policy] in Hp.
      rewrite Hp, starts_with_app in Hc. done.
  - set (p := forwarded_payload v (msg m)) in *.
    assert (Hpay : payload (add_cookie (v_output_cee v) (starts_with CEE_COOKIE (msg m)) p) = p)
      by (by eapply cookie_policy_payload).
    assert (Hcan : v_canonical_json v = true ->
      canonicalize_json p = None \/ canonicalize_json p = Some p).
    { intros Hc. unfold canonicalize_json at 1 2. rewrite Hw.
      rewrite <- (value_equiv_sorted_eq (Object o) w Hu He).
      unfold p, forwarded_payload, canonicalize_json. rewrite Hc, Hj.
      destruct (to_string (sorted_value (Object o))); auto. }
    unfold prepare_for_forwarding.
    set (m1 := set_msg m _). cbn [msg set_msg] in m1. fold (payload (msg m1)).
    change (msg m1) with (add_cookie (v_output_cee v) (starts_with CEE_COOKIE (msg m)) p).
    rewrite Hpay.
    assert (Hnone : (if v_canonical_json v then match canonicalize_json p with
      | Some s => if bool_decide (s = p) then None else Some s | None => None end else None) = None).
    { destruct (v_canonical_json v); [|done]. destruct (Hcan eq_refl) as [->| ->]; [done|].
      by rewrite bool_decide_eq_true_2. }
    rewrite Hnone. clear Hnone. destruct (v_output_cee v); cbn [add_cookie]; [by rewrite Hn|done|].
    by rewrite starts_with_app.
Qed.

End Forwarding.
