(* ===== verification/Sample.v ===== *)
(** * Concrete instances of the crate interfaces

    A small JSON printer with a parser for a fixed set of documents, and
    schemas that require a key.  They satisfy the laws, and the
    theorems are tried on them. *)

From stdpp Require Import prelude strings list gmap.
From Stdlib Require Import ZArith Lia.
From S2P Require Import Prelude RustStd Syslog SyslogFacts Timestamp StructuredData SyslogRoundtrip.
From S2P Require Import Config Json Validator.

Abbreviation SValue := (Value nat).

Definition quoted (s : bytes) : bytes := x22 :: s ++ [x22].

Fixpoint commas (l : list bytes) : bytes :=
  match l with
  | [] => []
  | [s] => s
  | s :: r => s ++ lit "," ++ commas r
  end.

Fixpoint print (v : SValue) : bytes :=
  match v with
  | Null => lit "null"
  | Bool b => if b then lit "true" else lit "false"
  | Number n => show_uint (Z.of_nat n)
  | String s => quoted s
  | Array a => lit "[" ++ commas (map print a) ++ lit "]"
  | Object m => lit "{" ++ commas (map (fun kv => quoted (fst kv) ++ lit ":" ++ print (snd kv)) m) ++ lit "}"
  end.

(** The documents the parser knows. *)
Definition doc_empty : SValue := Object [].
Definition doc_ba : SValue := Object [(lit "b", Number 1%nat); (lit "a", Number 2%nat)].
Definition doc_ab : SValue := Object [(lit "a", Number 2%nat); (lit "b", Number 1%nat)].
Definition doc_7 : SValue := Number 7%nat.
Definition doc_str : SValue := String (lit "b").
Definition docs : list SValue := [doc_empty; doc_ba; doc_ab; doc_7; doc_str].

Definition parse_doc (s : bytes) : unit + SValue :=
  match find (fun v => bool_decide (print v = s)) docs with
  | Some v => inr v
  | None => inl tt
  end.

#[export] Instance sample_json : SerdeJson nat unit := {
  from_str := parse_doc;
  to_string v := inr (print v);
  value_display := print;
  serde_error_display _ := lit "syntax error";
  number_of_u64 := Z.to_nat
}.

(** A schema is the key it requires. *)
Definition has_key (k : bytes) (v : SValue) : bool :=
  match v with Object m => existsb (fun kv => bool_decide (fst kv = k)) m | _ => false end.

#[export] Instance sample_schema : JsonSchema nat bytes unit := {
  validator_for doc := match doc with String k => inr k | _ => inl tt end;
  is_valid := has_key;
  schema_error_display _ := lit "not a schema"
}.

Lemma parse_doc_ok s v : parse_doc s = inr v -> v ∈ docs /\ print v = s.
Proof.
  unfold parse_doc. destruct (find _ docs) eqn:E; [|done]. intros [= ->].
  apply find_some in E as [Hin Hs]. apply bool_decide_eq_true in Hs.
  by rewrite list_elem_of_In.
Qed.

(** Invert an equivalence of flat objects down to its numbers. *)
Ltac flat_equiv :=
  repeat match goal with
  | H : Forall2 _ (_ :: _) _ |- _ => inversion H; clear H; subst
  | H : Forall2 _ [] _ |- _ => inversion H; clear H; subst
  | H : _ /\ _ |- _ => destruct H
  | p : (bytes * SValue)%type |- _ => destruct p
  | H : value_equiv (Number _) _ |- _ => inversion H; clear H; subst
  end; simpl in *; subst.

Lemma docs_equiv v w : v ∈ docs -> value_equiv v w -> w ∈ docs.
Proof.
  intros Hv He. unfold docs in Hv. rewrite !elem_of_cons in Hv.
  destruct Hv as [->|[->|[->|[->|[->|H]]]]]; [| | | | |by apply elem_of_nil in H];
    inversion He as [| |?|?| |m m' n Hp Hf]; subst;
    [apply Permutation_nil in Hp as ->
    |apply Permutation_length_2_inv in Hp as [->| ->]
    |apply Permutation_length_2_inv in Hp as [->| ->]| |];
    repeat flat_equiv; unfold docs, doc_empty, doc_ab, doc_ba, doc_7, doc_str; rewrite !elem_of_cons; auto 10.
Qed.

Lemma parse_print v : v ∈ docs -> parse_doc (print v) = inr v.
Proof.
  unfold docs. rewrite !elem_of_cons.
  by intros [->|[->|[->|[->|[->|?%elem_of_nil]]]]]; vm_compute.
Qed.

Lemma print_head v c r : print v = c :: r -> c <> "@"%byte.
Proof.
  destruct v as [|[]|n|s|a|m]; cbn [print]; try (by intros [= <- _]).
  intros H ->. pose proof (show_uint_digits (Z.of_nat n) ltac:(lia)) as Hd.
  rewrite H in Hd. by apply Forall_cons in Hd as [? _].
Qed.

Lemma print_last v c : last (print v) = Some c -> trimmed c = false.
Proof.
  destruct v as [|[]|n|s|a|m]; cbn [print]; try (by intros [= <-]).
  - intros H. assert (Hd : is_ascii_digit c = true).
    { pose proof (show_uint_digits (Z.of_nat n) ltac:(lia)) as Hd. rewrite Forall_forall in Hd.
      apply Hd. by apply last_Some_elem_of. }
    unfold trimmed. byte_cases; done.
  - unfold quoted. change (x22 :: s ++ [x22]) with ([x22] ++ s ++ [x22]).
    rewrite app_assoc, last_snoc. by intros [= <-].
  - rewrite app_assoc. change (lit "]") with ["]"%byte]. rewrite last_snoc. by intros [= <-].
  - rewrite app_assoc. change (lit "}") with ["}"%byte]. rewrite last_snoc. by intros [= <-].
Qed.

#[export] Instance sample_json_laws : SerdeJsonLaws nat unit.
Proof.
  refine {| exact_number := fun _ => true |}.
  - intros s v [Hv _]%parse_doc_ok. unfold docs in Hv. rewrite !elem_of_cons in Hv.
    by destruct Hv as [->|[->|[->|[->|[->|?%elem_of_nil]]]]].
  - intros s v [_ <-]%parse_doc_ok. destruct (print v) as [|c r] eqn:E; [done|].
    apply print_head in E. change (lit "@") with ["@"%byte]. unfold starts_with. simpl.
    by rewrite beq_ne.
  - intros v s [= <-]. destruct (print v) as [|c r] eqn:E; [done|].
    apply print_head in E. change (lit "@") with ["@"%byte]. unfold starts_with. simpl.
    by rewrite beq_ne.
  - intros v s c [= <-]. apply print_last.
  - apply print_last.
  - intros s0 v w s [Hv _]%parse_doc_ok _ He _ [= <-]. exists w. split; [|done].
    apply parse_print. by eapply docs_equiv.
Defined.

#[export] Instance sample_schema_laws : JsonSchemaLaws nat bytes unit.
Proof.
  split. intros k v w He. destruct He as [| | | | |m m' n Hp Hf]; try done. simpl.
  transitivity (existsb (fun kv => bool_decide (fst kv = k)) m').
  - clear Hf. induction Hp; simpl; [done|by f_equal| |by etrans].
    rewrite !orb_assoc. f_equal. apply orb_comm.
  - clear Hp. induction Hf as [|p q m' n [Hk _] Hf IH]; simpl; [done|]. by rewrite Hk, IH.
Qed.

(** ** The theorems on them *)

(** Strict, requires key [b], CEE in and out, canonical output. *)
Definition sample_validator : Validator bytes :=
  mkValidator Strict [lit "b"] None Optional Always true.

Definition sample_msg : SyslogMessage :=
  mkMessage (mkPriority User Info) None (Some (lit "h")) None None None (lit "-") (print doc_ba).

Lemma prepare_preserves_document_witness :
  let m' := into_owned (prepare_for_forwarding sample_validator sample_msg) in
  m' = set_msg sample_msg (msg m') /\ msg m' = CEE_COOKIE ++ print doc_ab /\
  exists bare w, cookie_policy Always (msg m') bare
    /\ from_str bare = inr w /\ value_equiv doc_ba w
    /\ (true = true -> forall s, to_string (sorted_value doc_ba) = inr s -> bare = s).
Proof.
  destruct (prepare_preserves_document sample_validator sample_msg
    [(lit "b", Number 1%nat); (lit "a", Number 2%nat)]) as [H1 H2];
    [by vm_compute|by vm_compute|by vm_compute|].
  split; [exact H1|]. split; [by vm_compute|exact H2].
Defined.

Lemma prepare_revalidates_witness :
  let m' := into_owned (prepare_for_forwarding sample_validator sample_msg) in
  validate (with_input_cee Always sample_validator) m' = Ok tt
  /\ prepare_for_forwarding sample_validator m' = Borrowed m'.
Proof.
  apply (prepare_revalidates sample_validator sample_msg
    [(lit "b", Number 1%nat); (lit "a", Number 2%nat)]); by vm_compute.
Defined.
