(* ===== verification/Metrics.v ===== *)
(** * Message counters: [logfence-daemon/src/metrics.rs]

    The four 64-bit counters and their snapshot. *)

From stdpp Require Import prelude strings list.
From Stdlib Require Import ZArith Lia.
From S2P Require Import Prelude RustStd Json.

Record MetricsStore : Type := mkStore {
  received : Z;
  forwarded : Z;
  dropped : Z;
  errors : Z
}.

Definition MetricsStore_new : MetricsStore := mkStore 0 0 0 0.

(** [fetch_add(1)] on an [AtomicU64] wraps. *)
Definition inc_received (s : MetricsStore) : MetricsStore :=
  mkStore (wrap 64 (received s + 1)) (forwarded s) (dropped s) (errors s).
Definition inc_forwarded (s : MetricsStore) : MetricsStore :=
  mkStore (received s) (wrap 64 (forwarded s + 1)) (dropped s) (errors s).
Definition inc_dropped (s : MetricsStore) : MetricsStore :=
  mkStore (received s) (forwarded s) (wrap 64 (dropped s + 1)) (errors s).
Definition inc_errors (s : MetricsStore) : MetricsStore :=
  mkStore (received s) (forwarded s) (dropped s) (wrap 64 (errors s + 1)).

Record Snapshot : Type := mkSnapshot {
  snap_received : Z;
  snap_forwarded : Z;
  snap_dropped : Z;
  snap_errors : Z
}.

Definition snapshot (s : MetricsStore) : Snapshot :=
  mkSnapshot (received s) (forwarded s) (dropped s) (errors s).

Definition Snapshot_display (s : Snapshot) : bytes :=
  lit "received=" ++ show_uint (snap_received s) ++ lit " forwarded=" ++ show_uint (snap_forwarded s)
  ++ lit " dropped=" ++ show_uint (snap_dropped s) ++ lit " errors=" ++ show_uint (snap_errors s).

(** What [#[derive(Serialize)]] makes of a snapshot. *)
Definition Snapshot_value {number serde_error} `{!SerdeJson number serde_error} (s : Snapshot)
    : Value number :=
  Object [(lit "received", Number (number_of_u64 (snap_received s)));
          (lit "forwarded", Number (number_of_u64 (snap_forwarded s)));
          (lit "dropped", Number (number_of_u64 (snap_dropped s)));
          (lit "errors", Number (number_of_u64 (snap_errors s)))].

(** ** Conservation

    Every message counted as received is counted once more, as forwarded,
    dropped or failed; [pending] messages are still being handled.  The
    counters wrap, so the law is one of [u64] arithmetic. *)
Definition balanced (pending : Z) (s : MetricsStore) : Prop :=
  wrap 64 (received s) = wrap 64 (forwarded s + dropped s + errors s + pending).

(** Counters stay in range. *)
Definition store_ok (s : MetricsStore) : Prop :=
  0 <= received s < 2 ^ 64 /\ 0 <= forwarded s < 2 ^ 64
  /\ 0 <= dropped s < 2 ^ 64 /\ 0 <= errors s < 2 ^ 64.

Lemma wrap_range w z : 0 <= w -> 0 <= wrap w z < 2 ^ w.
Proof. intros Hw. apply Z.mod_pos_bound. by apply Z.pow_pos_nonneg. Qed.

Lemma inc_store_ok s :
  store_ok s -> store_ok (inc_received s) /\ store_ok (inc_forwarded s)
    /\ store_ok (inc_dropped s) /\ store_ok (inc_errors s).
Proof.
  unfold store_ok. intros H.
  repeat split; simpl; try tauto; try apply wrap_range; lia.
Qed.

Lemma wrap_add_l a b : wrap 64 (wrap 64 a + b) = wrap 64 (a + b).
Proof. unfold wrap. by rewrite Z.add_mod_idemp_l by done. Qed.

Lemma balanced_received p s : balanced p s -> balanced (p + 1) (inc_received s).
Proof.
  unfold balanced. cbn [received forwarded dropped errors inc_received]. intros H.
  rewrite <- (Z.add_0_r (wrap 64 (received s + 1))), wrap_add_l, Z.add_0_r.
  rewrite <- wrap_add_l, H, wrap_add_l. f_equal. lia.
Qed.

Lemma balanced_forwarded p s : balanced (p + 1) s -> balanced p (inc_forwarded s).
Proof.
  unfold balanced. cbn [received forwarded dropped errors inc_forwarded]. intros ->.
  rewrite <- !Z.add_assoc, wrap_add_l. f_equal. lia.
Qed.

Lemma balanced_dropped p s : balanced (p + 1) s -> balanced p (inc_dropped s).
Proof.
  unfold balanced. cbn [received forwarded dropped errors inc_dropped]. intros ->.
  replace (forwarded s + wrap 64 (dropped s + 1) + errors s + p)
    with (wrap 64 (dropped s + 1) + (forwarded s + errors s + p)) by lia.
  rewrite wrap_add_l. f_equal. lia.
Qed.

Lemma balanced_errors p s : balanced (p + 1) s -> balanced p (inc_errors s).
Proof.
  unfold balanced. cbn [received forwarded dropped errors inc_errors]. intros ->.
  replace (forwarded s + dropped s + wrap 64 (errors s + 1) + p)
    with (wrap 64 (errors s + 1) + (forwarded s + dropped s + p)) by lia.
  rewrite wrap_add_l. f_equal. lia.
Qed.

#[export] Hint Resolve balanced_received balanced_forwarded balanced_dropped balanced_errors : logfence.
