(* ===== verification/Effects.v ===== *)
(** * The daemon's effects

    A task of the daemon as a state-passing computation over a [World]: the
    operating system's answers to its calls, the calls it made, its stream
    connection, the shutdown token, the counters and the watch channel that
    carries the validator.  A task that has used up the answers is suspended
    at an [await]. *)

From stdpp Require Import prelude strings list.
From Stdlib Require Import ZArith Lia.
From S2P Require Import Prelude RustStd Metrics.

(** The calls a task makes, with their success. *)
Inductive Event : Type :=
| EvSendTo (path data : bytes) (ok : bool)     (** [try_send_to] *)
| EvConnect (path : bytes) (ok : bool)         (** [UnixStream::connect] *)
| EvSetup (ok : bool)                          (** [unbound], [into_std], [shutdown], [from_std] *)
| EvWriteAll (data : bytes) (ok : bool)        (** [write_all] on the connected stream *)
| EvSleep (micros : Z)                         (** [tokio::time::sleep] *)
| EvCancel.                                    (** [CancellationToken::cancel] *)

(** [V] is the type of validators. *)
Record World (V : Type) : Type := mkWorld {
  answers : list (io_error + unit);   (** results of the calls to come *)
  trace : list Event;                 (** the calls made, oldest first *)
  connected : bool;                   (** the stream slot of this task's forwarder *)
  cancelled : bool;                   (** the shutdown token *)
  stats : MetricsStore;
  current : V;                        (** the validator in the watch channel *)
  updates : list (option V)           (** what the sender stores before each [borrow] *)
}.
Arguments mkWorld {V}.
Arguments answers {V} w : rename.
Arguments trace {V} w : rename.
Arguments connected {V} w : rename.
Arguments cancelled {V} w : rename.
Arguments stats {V} w : rename.
Arguments current {V} w : rename.
Arguments updates {V} w : rename.

Inductive outcome (A : Type) : Type :=
| Done (a : A)
| Waiting
| Panicked.
Arguments Done {A} a.
Arguments Waiting {A}.
Arguments Panicked {A}.

Definition IO (V A : Type) : Type := World V -> outcome A * World V.

#[export] Instance IO_ret {V} : MRet (IO V) := fun A a w => (Done a, w).
#[export] Instance IO_bind {V} : MBind (IO V) := fun A B k m w =>
  match m w with
  | (Done a, w') => k a w'
  | (Waiting, w') => (Waiting, w')
  | (Panicked, w') => (Panicked, w')
  end.

Section Primitives.
  Context {V : Type}.
  Implicit Types w : World V.

Definition set_answers w (a : list (io_error + unit)) : World V :=
  mkWorld a (trace w) (connected w) (cancelled w) (stats w) (current w) (updates w).
Definition add_event w (e : Event) : World V :=
  mkWorld (answers w) (trace w ++ [e]) (connected w) (cancelled w) (stats w) (current w) (updates w).
Definition set_connected_w w (b : bool) : World V :=
  mkWorld (answers w) (trace w) b (cancelled w) (stats w) (current w) (updates w).
Definition set_cancelled w : World V :=
  mkWorld (answers w) (trace w) (connected w) true (stats w) (current w) (updates w).
Definition set_stats w (s : MetricsStore) : World V :=
  mkWorld (answers w) (trace w) (connected w) (cancelled w) s (current w) (updates w).
Definition set_watch w (v : V) (u : list (option V)) : World V :=
  mkWorld (answers w) (trace w) (connected w) (cancelled w) (stats w) v u.

(** A call to the operating system: logged with its success. *)
Definition syscall (ev : bool -> Event) : IO V (io_error + unit) := fun w =>
  match answers w with
  | [] => (Waiting, w)
  | inl e :: r => (Done (inl e), add_event (set_answers w r) (ev false))
  | inr tt :: r => (Done (inr tt), add_event (set_answers w r) (ev true))
  end.

Definition sleep (micros : Z) : IO V unit := fun w => (Done tt, add_event w (EvSleep micros)).
Definition cancel : IO V unit := fun w => (Done tt, add_event (set_cancelled w) EvCancel).
Definition is_connected : IO V bool := fun w => (Done (connected w), w).
Definition set_connected (b : bool) : IO V unit := fun w => (Done tt, set_connected_w w b).
Definition update_stats (f : MetricsStore -> MetricsStore) : IO V unit := fun w =>
  (Done tt, set_stats w (f (stats w))).

(** [watch::Receiver::borrow]: the latest value stored. *)
Definition borrow : IO V V := fun w =>
  match updates w with
  | [] => (Done (current w), w)
  | None :: u => (Done (current w), set_watch w (current w) u)
  | Some v :: u => (Done v, set_watch w v u)
  end.

Definition panic {A} : IO V A := fun w => (Panicked, w).

(** Suspended at an [await] that has no answer yet. *)
Definition suspend {A} : IO V A := fun w => (Waiting, w).

(** A [Result]-returning call followed by [?]. *)
Definition try_io {E A B} (m : IO V (E + A)) (k : A -> IO V (E + B)) : IO V (E + B) :=
  r ← m; match r with inl e => mret (inl e) | inr a => k a end.

End Primitives.

(** ** Reasoning

    [spec P m Q R]: from [P], the task ends with [Q], or is suspended (or
    unwinds) in a world where [R] holds. *)
Definition spec {V A} (P : World V -> Prop) (m : IO V A) (Q : A -> World V -> Prop)
    (R : World V -> Prop) : Prop :=
  forall w, P w -> match m w with (Done a, w') => Q a w' | (_, w') => R w' end.

(** [m] keeps the invariant [I], whatever its outcome. *)
Definition keeps {V A} (I : World V -> Prop) (m : IO V A) : Prop := spec I m (fun _ => I) I.

Section Rules.
  Context {V : Type}.

Lemma spec_ret {A} (a : A) (P : World V -> Prop) (Q : A -> World V -> Prop) R :
  (forall w, P w -> Q a w) -> spec P (mret a) Q R.
Proof. intros H w Hw. exact (H w Hw). Qed.

Lemma spec_bind {A B} (m : IO V A) (k : A -> IO V B) P Q Q' R :
  spec P m Q' R -> (forall a, spec (Q' a) (k a) Q R) -> spec P (m ≫= k) Q R.
Proof.
  intros Hm Hk w Hw. specialize (Hm w Hw). unfold mbind, IO_bind.
  destruct (m w) as [[a| |] w']; [|done|done]. exact (Hk a w' Hm).
Qed.

Lemma spec_conseq {A} (m : IO V A) P P' Q Q' R R' :
  spec P m Q R -> (forall w, P' w -> P w) -> (forall a w, Q a w -> Q' a w) ->
  (forall w, R w -> R' w) -> spec P' m Q' R'.
Proof.
  intros Hm HP HQ HR w Hw. specialize (Hm w (HP w Hw)). destruct (m w) as [[a| |] w']; auto.
Qed.

Lemma keeps_ret {A} (a : A) (I : World V -> Prop) : keeps I (mret a).
Proof. by apply spec_ret. Qed.

Lemma keeps_bind {A B} (m : IO V A) (k : A -> IO V B) (I : World V -> Prop) :
  keeps I m -> (forall a, keeps I (k a)) -> keeps I (m ≫= k).
Proof. intros Hm Hk. eapply spec_bind; [exact Hm|exact Hk]. Qed.

Lemma keeps_try {E A B} (m : IO V (E + A)) (k : A -> IO V (E + B)) (I : World V -> Prop) :
  keeps I m -> (forall a, keeps I (k a)) -> keeps I (try_io m k).
Proof. intros Hm Hk. apply keeps_bind; [done|]. intros [e|a]; [apply keeps_ret|done]. Qed.

Lemma keeps_if {A} (b : bool) (m n : IO V A) (I : World V -> Prop) :
  keeps I m -> keeps I n -> keeps I (if b then m else n).
Proof. by destruct b. Qed.

End Rules.

#[export] Hint Resolve keeps_ret keeps_bind keeps_try keeps_if : logfence.
