(* ===== verification/Forwarder.v ===== *)
(** * Forwarding to rsyslog: [logfence-daemon/src/forwarder.rs]

    The datagram retry loop with its back-off, and [Forwarder::forward] on
    both transports. *)

From stdpp Require Import prelude strings list.
From Stdlib Require Import ZArith Lia.
From S2P Require Import Prelude RustStd Syslog SyslogFacts Timestamp StructuredData SyslogRoundtrip.
From S2P Require Import Frame Config Metrics Effects.

(** ** Datagram retry *)

Definition is_buffer_full (e : io_error) : bool :=
  bool_decide (io_kind e = WouldBlock)
  || match raw_os_error e with
     | Some n => (n =? 105) || (n =? 55)
     | None => false
     end.

(** In microseconds, with the [u64] operations of the source. *)
Definition dgram_attempt_delay (attempt : Z) : Z :=
  let max := 1000000 in
  let shift := Z.max 0 (attempt - 2) in
  let micros :=
    if shift <? 64 then Z.min u64_max (100 * wrap 64 (Z.shiftl 1 shift)) else u64_max in
  if max <? micros then max else micros.

Section Retry.
  Context {V : Type}.
  Variables data path : bytes.
  Variable max_attempts : Z.

Definition try_send_to : IO V (io_error + unit) := syscall (EvSendTo path data).

(** The [loop].  Every iteration takes one answer, so the fuel given by
    [send_dgram_with_retry] cannot run out before the answers do
    ([retry_loop_done] below). *)
Fixpoint retry_loop (fuel : nat) (attempt : Z) (last_err : io_error) : IO V (io_error + unit) :=
  match fuel with
  | O => suspend
  | S f =>
      if negb (max_attempts =? 0) && (max_attempts <? attempt) then mret (inl last_err)
      else
        sleep (dgram_attempt_delay attempt);;
        r ← try_send_to;
        match r with
        | inr _ => mret (inr tt)
        | inl e =>
            if negb (is_buffer_full e) then mret (inl e)
            else retry_loop f (Z.min u32_max (attempt + 1)) e
        end
  end.

Definition send_dgram_with_retry : IO V (io_error + unit) := fun w =>
  (r ← try_send_to;
   match r with
   | inr _ => mret (inr tt)
   | inl e =>
       if negb (is_buffer_full e) then mret (inl e)
       else retry_loop (S (length (answers w))) 2 e
   end) w.

End Retry.

(** ** The forwarder *)

Inductive ForwardError : Type := ForwardIo (e : io_error).

Inductive Inner : Type :=
| UnixDgram (path : bytes)
| UnixStream (path : bytes).

(** The stream slot ([Mutex<Option<OwnedWriteHalf>>]) is [connected] of the
    task's world: each task has its own clone, hence its own slot.
    [fw_shutdown] is whether the forwarder was given a token. *)
Record Forwarder : Type := mkForwarder {
  inner : Inner;
  fw_max_attempts : Z;
  fw_exhausted : DgramExhausted;
  fw_shutdown : bool
}.

Section Forward.
  Context {V : Type}.

(** The result of a call whose error of kind [NotConnected] is ignored. *)
Definition ignore_not_connected (r : io_error + unit) : io_error + unit :=
  match r with
  | inl e => if bool_decide (io_kind e = NotConnected) then inr tt else inl e
  | inr _ => inr tt
  end.

Definition from_config (cfg : RsyslogConfig) (shutdown : bool) : IO V (ForwardError + Forwarder) :=
  let make i := mkForwarder i (dgram_max_attempts cfg) (dgram_exhausted cfg) shutdown in
  match transport cfg with
  | ForwardUnixDgram =>
      r ← syscall EvSetup;
      match r with
      | inl e => mret (inl (ForwardIo e))
      | inr _ =>
          r ← syscall EvSetup;
          match ignore_not_connected r with
          | inl e => mret (inl (ForwardIo e))
          | inr _ => mret (inr (make (UnixDgram (rsyslog_socket cfg))))
          end
      end
  | ForwardUnixStream =>
      set_connected false;; mret (inr (make (UnixStream (rsyslog_socket cfg))))
  end.

(** [connect], [into_std], [shutdown(Read)], [from_std], then the slot is
    filled. *)
Definition connect_stream (path : bytes) : IO V (io_error + unit) :=
  try_io (syscall (EvConnect path)) (fun _ =>
  try_io (syscall EvSetup) (fun _ =>
  try_io (syscall EvSetup) (fun _ =>
  try_io (syscall EvSetup) (fun _ =>
  set_connected true;; mret (inr tt))))).

Definition stream_frame (wire : bytes) : bytes := show_uint (len wire) ++ lit " " ++ wire.

Definition forward (f : Forwarder) (m : SyslogMessage) : IO V (ForwardError + unit) :=
  let wire := display m in
  match inner f with
  | UnixDgram path =>
      result ← send_dgram_with_retry wire path (fw_max_attempts f);
      match result with
      | inr _ => mret (inr tt)
      | inl e =>
          (if is_buffer_full e && bool_decide (fw_exhausted f = Terminate)
           then if fw_shutdown f then cancel else mret tt
           else mret tt);;
          mret (inl (ForwardIo e))
      end
  | UnixStream path =>
      let frame := stream_frame wire in
      c ← is_connected;
      r ← (if negb c then connect_stream path else mret (inr tt));
      match r with
      | inl e => mret (inl (ForwardIo e))
      | inr _ =>
          c ← is_connected;
          if negb c then
            mret (inl (ForwardIo (io_other (lit "internal: unix stream not initialised"))))
          else
            r ← syscall (EvWriteAll frame);
            match r with
            | inl e => set_connected false;; mret (inl (ForwardIo e))
            | inr _ => mret (inr tt)
            end
      end
  end.

End Forward.

(** ** Invariants of forwarding *)

(** The calls [forward f m] can make. *)
Definition forward_event (m : SyslogMessage) (e : Event) : Prop :=
  match e with
  | EvSendTo _ data _ => data = display m
  | EvWriteAll data _ => data = stream_frame (display m)
  | _ => True
  end.

(** [I] survives what forwarding does to the world, given that the calls
    satisfy [P]. *)
Record stable {V} (I : World V -> Prop) (P : Event -> Prop) : Prop := {
  stable_answers w a : I w -> I (set_answers w a);
  stable_event w e : P e -> I w -> I (add_event w e);
  stable_connected w b : I w -> I (set_connected_w w b);
  stable_cancelled w : P EvCancel -> I w -> I (set_cancelled w)
}.

Section Keeps.
  Context {V : Type} (I : World V -> Prop) (P : Event -> Prop).
  Hypothesis HI : stable I P.

Lemma keeps_syscall ev : (forall b, P (ev b)) -> keeps I (syscall ev).
Proof.
  intros Hev w Hw. unfold syscall. destruct (answers w) as [|[e|[]] r]; [done| |];
    apply (stable_event _ _ HI); auto; by apply (stable_answers _ _ HI).
Qed.

Lemma keeps_sleep z : P (EvSleep z) -> keeps I (sleep z).
Proof. intros He w Hw. by apply (stable_event _ _ HI). Qed.

Lemma keeps_cancel : P EvCancel -> keeps I cancel.
Proof.
  intros He w Hw. apply (stable_event _ _ HI); [done|]. by apply (stable_cancelled _ _ HI).
Qed.

Lemma keeps_is_connected : keeps I is_connected.
Proof. by intros w Hw. Qed.

Lemma keeps_set_connected b : keeps I (set_connected b).
Proof. intros w Hw. by apply (stable_connected _ _ HI). Qed.

Hint Resolve keeps_syscall keeps_sleep keeps_cancel keeps_is_connected keeps_set_connected : core.

Lemma keeps_retry_loop data path n fuel attempt e :
  (forall b, P (EvSendTo path data b)) -> (forall z, P (EvSleep z)) ->
  keeps I (retry_loop data path n fuel attempt e).
Proof.
  intros Hs Hz. revert attempt e.
  induction fuel as [|fuel IH]; intros attempt e; cbn [retry_loop]; [by intros w Hw|].
  apply keeps_if; [apply keeps_ret|]. apply keeps_bind; [auto|]. intros _.
  apply keeps_bind; [by apply keeps_syscall|].
  intros [e'|_]; [|apply keeps_ret]. apply keeps_if; [apply keeps_ret|apply IH].
Qed.

Lemma keeps_send_dgram data path n :
  (forall b, P (EvSendTo path data b)) -> (forall z, P (EvSleep z)) ->
  keeps I (send_dgram_with_retry data path n).
Proof.
  intros Hs Hz w. unfold send_dgram_with_retry. generalize (S (length (answers w))) as fuel.
  intros fuel. revert w. apply keeps_bind; [by apply keeps_syscall|].
  intros [e|_]; [|apply keeps_ret]. apply keeps_if; [apply keeps_ret|].
  by apply keeps_retry_loop.
Qed.

Lemma keeps_connect_stream path :
  (forall b, P (EvConnect path b)) -> (forall b, P (EvSetup b)) -> keeps I (connect_stream path).
Proof.
  intros Hc Hs. unfold connect_stream.
  repeat (apply keeps_try; [by apply keeps_syscall|intros _]). auto with logfence.
Qed.

(** [forward] makes only the calls [forward_event] describes. *)
Lemma keeps_forward f m :
  (forall e, forward_event m e -> P e) -> keeps I (forward f m).
Proof.
  intros He. unfold forward. destruct (inner f) as [path|path].
  - apply keeps_bind; [apply keeps_send_dgram; intros; by apply He|].
    intros [e|_]; [|apply keeps_ret]. apply keeps_bind; [|intros _; apply keeps_ret].
    apply keeps_if; [|apply keeps_ret]. apply keeps_if; [|apply keeps_ret].
    apply keeps_cancel. by apply He.
  - apply keeps_bind; [auto|]. intros c. apply keeps_bind.
    { apply keeps_if; [|apply keeps_ret]. apply keeps_connect_stream; intros; by apply He. }
    intros [e|_]; [apply keeps_ret|]. apply keeps_bind; [auto|]. intros c'.
    apply keeps_if; [apply keeps_ret|]. apply keeps_bind; [apply keeps_syscall; intros; by apply He|].
    intros [e|_]; [|apply keeps_ret]. apply keeps_bind; [auto|]. intros _. apply keeps_ret.
Qed.

End Keeps.

(** *** Nothing in the forwarder panics *)

Definition no_panic {V A} (m : IO V A) : Prop := forall w, fst (m w) <> Panicked.

Lemma no_panic_ret {V A} (a : A) : no_panic (mret a : IO V A).
Proof. done. Qed.

Lemma no_panic_bind {V A B} (m : IO V A) (k : A -> IO V B) :
  no_panic m -> (forall a, no_panic (k a)) -> no_panic (m ≫= k).
Proof.
  intros Hm Hk w. specialize (Hm w). unfold mbind, IO_bind.
  destruct (m w) as [[a| |] w']; simpl in *; [apply Hk|done|done].
Qed.

Lemma no_panic_syscall {V} ev : no_panic (syscall ev : IO V _).
Proof. intros w. unfold syscall. by destruct (answers w) as [|[e|[]] r]. Qed.

Lemma retry_loop_no_panic {V} data path n fuel attempt e :
  no_panic (retry_loop data path n fuel attempt e : IO V _).
Proof.
  revert attempt e. induction fuel as [|fuel IH]; intros attempt e; cbn [retry_loop]; [done|].
  case_match; [done|]. apply no_panic_bind; [done|]. intros _.
  apply no_panic_bind; [apply no_panic_syscall|]. intros [e'|_]; [|done]. by case_match.
Qed.

Lemma send_dgram_no_panic {V} data path n (w : World V) :
  fst (send_dgram_with_retry data path n w) <> Panicked.
Proof.
  unfold send_dgram_with_retry. generalize (S (length (answers w))). intros fuel. revert w.
  change (no_panic (V := V) (r ← try_send_to data path; match r with
    | inl e => if negb (is_buffer_full e) then mret (inl e) else retry_loop data path n fuel 2 e
    | inr _ => mret (inr tt) end)).
  apply no_panic_bind; [apply no_panic_syscall|]. intros [e|_]; [|done].
  case_match; [done|]. apply retry_loop_no_panic.
Qed.

(** ** The back-off *)

(** The delay before attempt [n] of a datagram is exactly [100 * 2^(n-2)]
    microseconds, doubling from 100 µs at the second attempt, until the cap
    of one second, which is reached at attempt 16 and held from then on: the
    saturating [u64] arithmetic never shows. *)
Theorem dgram_attempt_delay_spec n :
  2 <= n <= u32_max ->
  dgram_attempt_delay n = Z.min 1000000 (100 * 2 ^ (n - 2))
  /\ (dgram_attempt_delay n = 1000000 <-> 16 <= n)
  /\ dgram_attempt_delay n <= dgram_attempt_delay (n + 1).
Proof.
  assert (Hspec : forall k, 2 <= k -> dgram_attempt_delay k = Z.min 1000000 (100 * 2 ^ (k - 2))).
  { intros k Hk. unfold dgram_attempt_delay. rewrite Z.max_r by lia.
    destruct (Z.ltb_spec (k - 2) 64) as [Hlt|Hge].
    - rewrite Z.shiftl_1_l.
      assert (0 < 2 ^ (k - 2)) by (apply Z.pow_pos_nonneg; lia).
      assert (2 ^ (k - 2) < 2 ^ 64) by (apply Z.pow_lt_mono_r; lia).
      rewrite wrap_small by lia. unfold u64_max.
      destruct (Z.ltb_spec 1000000 (Z.min (2 ^ 64 - 1) (100 * 2 ^ (k - 2)))); lia.
    - assert (2 ^ 64 <= 2 ^ (k - 2)) by (apply Z.pow_le_mono_r; lia).
      unfold u64_max. destruct (Z.ltb_spec 1000000 (2 ^ 64 - 1)); lia. }
  intros Hn. rewrite !Hspec by lia.
  assert (2 ^ (n + 1 - 2) = 2 * 2 ^ (n - 2)).
  { replace (n + 1 - 2) with (Z.succ (n - 2)) by lia. apply Z.pow_succ_r. lia. }
  assert (0 < 2 ^ (n - 2)) by (apply Z.pow_pos_nonneg; lia).
  split; [done|]. split; [|lia]. split.
  - intros H1. destruct (Z.le_gt_cases 16 n); [done|].
    assert (2 ^ (n - 2) <= 2 ^ 13) by (apply Z.pow_le_mono_r; lia). lia.
  - intros H1. assert (2 ^ 14 <= 2 ^ (n - 2)) by (apply Z.pow_le_mono_r; lia). lia.
Qed.

Lemma dgram_attempt_delay_spec_witness :
  dgram_attempt_delay 4 = 400 /\ dgram_attempt_delay 4 = Z.min 1000000 (100 * 2 ^ (4 - 2)).
Proof.
  split; [by vm_compute|]. apply (dgram_attempt_delay_spec 4). by vm_compute.
Defined.

(** ** Retrying *)

(** The calls of the attempts from number [attempt] on, given their success:
    a pause before each. *)
Fixpoint later_attempts (path data : bytes) (attempt : Z) (oks : list bool) : list Event :=
  match oks with
  | [] => []
  | ok :: r =>
      EvSleep (dgram_attempt_delay attempt) :: EvSendTo path data ok
      :: later_attempts path data (attempt + 1) r
  end.

(** All the calls of a send: the first attempt is immediate. *)
Definition attempts_trace (path data : bytes) (oks : list bool) : list Event :=
  match oks with
  | [] => []
  | ok :: r => EvSendTo path data ok :: later_attempts path data 2 r
  end.

Definition after {V} (w : World V) (rest : list (io_error + unit)) (evs : list Event) : World V :=
  mkWorld rest (trace w ++ evs) (connected w) (cancelled w) (stats w) (current w) (updates w).

Definition all_full (es : list io_error) : Prop := Forall (fun e => is_buffer_full e = true) es.

Section RetryRun.
  Context {V : Type}.
  Variables data path : bytes.
  Variable max_attempts : Z.
  Implicit Types w : World V.

Lemma after_after w r1 e1 r2 e2 : after (after w r1 e1) r2 e2 = after w r2 (e1 ++ e2).
Proof. unfold after. cbn. by rewrite <- app_assoc. Qed.

(** One failed iteration of the loop. *)
Lemma retry_loop_step fuel attempt last e rest w :
  answers w = inl e :: rest -> is_buffer_full e = true ->
  max_attempts = 0 \/ attempt <= max_attempts -> attempt < u32_max ->
  retry_loop data path max_attempts (S fuel) attempt last w =
  retry_loop data path max_attempts fuel (attempt + 1) e
    (after w rest [EvSleep (dgram_attempt_delay attempt); EvSendTo path data false]).
Proof.
  intros Ha He Hm Hu. cbn [retry_loop].
  replace (negb (max_attempts =? 0) && (max_attempts <? attempt)) with false by lia.
  unfold mbind, IO_bind, sleep, try_send_to, syscall. cbn [answers add_event].
  rewrite Ha. rewrite He. cbn [negb]. rewrite Z.min_r by lia.
  unfold after, add_event, set_answers. cbn. by rewrite <- app_assoc.
Qed.

(** A run of buffer-full answers. *)
Lemma retry_loop_fulls es fuel attempt last rest w :
  all_full es -> answers w = map inl es ++ rest ->
  max_attempts = 0 \/ attempt + Z.of_nat (length es) <= max_attempts + 1 ->
  attempt + Z.of_nat (length es) <= u32_max ->
  retry_loop data path max_attempts (length es + fuel) attempt last w =
  retry_loop data path max_attempts fuel (attempt + Z.of_nat (length es)) (List.last es last)
    (after w rest (later_attempts path data attempt (replicate (length es) false))).
Proof.
  intros Hf. revert attempt last w.
  induction Hf as [|e es He Hf IH]; intros attempt last w Ha Hm Hu; cbn [length Nat.add].
  - rewrite Z.add_0_r. cbn [replicate later_attempts List.last]. f_equal. destruct w. simpl in *.
    unfold after. cbn. by rewrite app_nil_r, Ha.
  - cbn [map app length] in *. rewrite (retry_loop_step _ _ _ e (map inl es ++ rest)) by (done || lia).
    rewrite IH by (cbn [answers after]; done || lia).
    rewrite after_after. cbn [replicate later_attempts app]. f_equal; [lia|].
    clear. destruct es as [|x es]; [done|]. cbn [List.last]. revert x. induction es; [done|]. intros x.
    cbn [List.last]. auto.
Qed.

(** The loop at an attempt that is still allowed, with a final answer. *)
Definition final (a : io_error + unit) : bool :=
  match a with inl e => negb (is_buffer_full e) | inr _ => true end.

Definition answer_ok (a : io_error + unit) : bool :=
  match a with inl _ => false | inr _ => true end.

Lemma retry_loop_final fuel attempt last a rest w :
  answers w = a :: rest -> final a = true -> max_attempts = 0 \/ attempt <= max_attempts ->
  retry_loop data path max_attempts (S fuel) attempt last w =
  (Done a, after w rest [EvSleep (dgram_attempt_delay attempt); EvSendTo path data (answer_ok a)]).
Proof.
  intros Ha Hf Hm. cbn [retry_loop].
  replace (negb (max_attempts =? 0) && (max_attempts <? attempt)) with false by lia.
  unfold mbind, IO_bind, sleep, try_send_to, syscall. cbn [answers add_event]. rewrite Ha.
  destruct a as [e|[]]; cbn [final answer_ok] in *; rewrite ?Hf;
    unfold after, add_event, set_answers, mret, IO_ret; cbn; by rewrite <- app_assoc.
Qed.

Lemma later_attempts_app attempt a b :
  later_attempts path data attempt (a ++ b) =
  later_attempts path data attempt a
  ++ later_attempts path data (attempt + Z.of_nat (length a)) b.
Proof.
  revert attempt. induction a as [|ok a IH]; intros attempt; cbn [app later_attempts length].
  - f_equal. lia.
  - rewrite IH. do 4 f_equal. lia.
Qed.

(** The first attempt. *)
Lemma send_dgram_first_final a rest w :
  answers w = a :: rest -> final a = true ->
  send_dgram_with_retry data path max_attempts w =
  (Done a, after w rest [EvSendTo path data (answer_ok a)]).
Proof.
  intros Ha Hf. unfold send_dgram_with_retry, mbind, IO_bind, try_send_to, syscall. rewrite Ha.
  by destruct a as [e|[]]; cbn [final answer_ok] in *; rewrite ?Hf.
Qed.

Lemma send_dgram_first_full e rest w :
  answers w = inl e :: rest -> is_buffer_full e = true ->
  send_dgram_with_retry data path max_attempts w =
  retry_loop data path max_attempts (S (S (length rest))) 2 e
    (after w rest [EvSendTo path data false]).
Proof.
  intros Ha Hf. unfold send_dgram_with_retry, mbind, IO_bind, try_send_to, syscall. rewrite Ha.
  by rewrite Hf.
Qed.

End RetryRun.

(** C30: a send that meets [k] full buffers and then an answer that ends it (success,
    or an error that is not retried) makes exactly [k + 1] attempts with the
    pauses of the schedule between them, and returns that answer, as long as
    the limit allows [k + 1] attempts. *)
Theorem send_dgram_retries {V} (data path : bytes) max_attempts es a rest (w : World V) :
  all_full es -> final a = true -> answers w = map inl es ++ a :: rest ->
  max_attempts = 0 \/ Z.of_nat (length es) < max_attempts ->
  Z.of_nat (length es) + 1 <= u32_max ->
  send_dgram_with_retry data path max_attempts w =
  (Done a, after w rest (attempts_trace path data (replicate (length es) false ++ [answer_ok a]))).
Proof.
  intros Hes Hf Ha Hm Hu. destruct Hes as [|e es He Hes]; cbn [map app length replicate] in *.
  { by apply send_dgram_first_final. }
  rewrite (send_dgram_first_full _ _ _ _ _ _ Ha He).
  rewrite length_app, length_map. cbn [length].
  replace (S (S (length es + S (length rest)))) with (length es + S (S (S (length rest))))%nat by lia.
  rewrite (retry_loop_fulls _ _ _ es _ 2 e (a :: rest)) by (done || lia).
  rewrite (retry_loop_final _ _ _ _ _ _ a rest) by (done || lia).
  rewrite !after_after. do 2 f_equal. cbn [attempts_trace app].
  rewrite later_attempts_app, length_replicate. by cbn [later_attempts].
Qed.

Definition full_error : io_error := mkIoError OtherKind (Some 105) (lit "No buffer space available").

Definition idle_world {V} (v : V) (a : list (io_error + unit)) : World V :=
  mkWorld a [] false false MetricsStore_new v [].

Lemma send_dgram_retries_witness :
  send_dgram_with_retry (lit "x") (lit "/run/syslog") 4
    (idle_world tt [inl full_error; inl full_error; inr tt])
  = (Done (inr tt), after (idle_world tt [inl full_error; inl full_error; inr tt]) []
      [EvSendTo (lit "/run/syslog") (lit "x") false; EvSleep 100;
       EvSendTo (lit "/run/syslog") (lit "x") false; EvSleep 200;
       EvSendTo (lit "/run/syslog") (lit "x") true]).
Proof.
  refine (send_dgram_retries (lit "x") (lit "/run/syslog") 4 [full_error; full_error] (inr tt) []
            (idle_world tt [inl full_error; inl full_error; inr tt]) _ _ _ _ _);
    [by repeat constructor|done|done|by right|by vm_compute].
Defined.

(** C17: when every attempt finds the buffer full, the send gives up after exactly
    [max_attempts] attempts (at least one, and below [u32::MAX]) with the last
    error. *)
Theorem send_dgram_exhausts {V} (data path : bytes) max_attempts es e rest (w : World V) :
  all_full (es ++ [e]) -> answers w = map inl (es ++ [e]) ++ rest ->
  max_attempts = Z.of_nat (length es) + 1 -> max_attempts < u32_max ->
  send_dgram_with_retry data path max_attempts w =
  (Done (inl e), after w rest (attempts_trace path data (replicate (S (length es)) false))).
Proof.
  intros Hes Ha Hm Hu. destruct es as [|e0 es]; cbn [app map length] in *.
  - apply Forall_cons in Hes as [He _]. rewrite (send_dgram_first_full _ _ _ _ _ _ Ha He).
    cbn [retry_loop]. by replace (negb (max_attempts =? 0) && (max_attempts <? 2)) with true by lia.
  - apply Forall_cons in Hes as [He Hes]. rewrite (send_dgram_first_full _ _ _ _ _ _ Ha He).
    rewrite length_app, length_map, length_app. cbn [length].
    replace (S (S (length es + 1 + length rest))) with (length (es ++ [e]) + S (S (length rest)))%nat
      by (rewrite length_app; simpl; lia).
    rewrite (retry_loop_fulls _ _ _ (es ++ [e]) _ 2 e0 rest);
      [|done|done|rewrite length_app; cbn [length]; lia..].
    rewrite List.last_last, length_app, after_after. cbn [length retry_loop].
    rewrite (proj2 (Z.eqb_neq max_attempts 0)), (proj2 (Z.ltb_lt _ _)) by lia.
    rewrite Nat.add_1_r. done.
Qed.

Lemma send_dgram_exhausts_witness :
  send_dgram_with_retry (lit "x") (lit "p") 2 (idle_world tt [inl full_error; inl full_error; inr tt])
  = (Done (inl full_error), after (idle_world tt [inl full_error; inl full_error; inr tt]) [inr tt]
      [EvSendTo (lit "p") (lit "x") false; EvSleep 100; EvSendTo (lit "p") (lit "x") false]).
Proof.
  refine (send_dgram_exhausts (lit "x") (lit "p") 2 [full_error] full_error [inr tt]
            (idle_world tt [inl full_error; inl full_error; inr tt]) _ _ _ _);
    [by repeat constructor|done|done|by vm_compute].
Defined.

(** The loop without a limit, or with one the saturating counter cannot pass. *)
Lemma retry_loop_unlimited {V} (data path : bytes) max_attempts es fuel attempt last (w : World V) :
  max_attempts = 0 \/ max_attempts = u32_max -> attempt <= u32_max ->
  all_full es -> answers w = map inl es ->
  fst (retry_loop data path max_attempts fuel attempt last w) = Waiting.
Proof.
  intros Hm Hu Hf. revert fuel attempt last w Hu.
  induction Hf as [|e es He Hf IH]; intros [|fuel] attempt last w Hu Ha; try done; cbn [retry_loop];
    replace (negb (max_attempts =? 0) && (max_attempts <? attempt)) with false by lia;
    unfold mbind, IO_bind, sleep, try_send_to, syscall; cbn [answers add_event]; rewrite Ha; [done|].
  cbn [map]. rewrite He. cbn [negb]. apply IH; [lia|done].
Qed.

(** A limit of zero is no limit, and neither is [u32::MAX], which the saturating
    attempt counter never exceeds: however many full buffers it meets, the
    send goes on. *)
Theorem send_dgram_unlimited {V} (data path : bytes) max_attempts es (w : World V) :
  max_attempts = 0 \/ max_attempts = u32_max -> all_full es -> answers w = map inl es ->
  fst (send_dgram_with_retry data path max_attempts w) = Waiting.
Proof.
  intros Hm Hf Ha. destruct Hf as [|e es He Hf]; cbn [map] in Ha.
  - unfold send_dgram_with_retry, mbind, IO_bind, try_send_to, syscall. by rewrite Ha.
  - rewrite (send_dgram_first_full _ _ _ _ _ _ Ha He).
    by apply (retry_loop_unlimited _ _ _ es).
Qed.

Lemma send_dgram_unlimited_witness :
  fst (send_dgram_with_retry (lit "x") (lit "p") u32_max
         (idle_world tt (map inl (replicate 40 full_error)))) = Waiting.
Proof.
  apply (send_dgram_unlimited _ _ _ (replicate 40 full_error)); [by right| |done].
  by apply Forall_replicate.
Defined.

(** ** [forward] *)

Definition no_cancel (e : Event) : Prop := e <> EvCancel.

Lemma stable_no_cancel {V} (c : bool) :
  stable (fun w : World V => cancelled w = c) no_cancel.
Proof. by split. Qed.

(** C31: giving up under [dgram_exhausted = "terminate"] cancels the shutdown token,
    and nothing else does: not success, not an error that was never retried,
    not the "drop" policy, not a forwarder without a token.  The error is
    returned in every case. *)
Theorem forward_dgram_cancels {V} f path m (w : World V) :
  inner f = UnixDgram path ->
  match forward f m w with
  | (Done (inr _), w') => cancelled w' = cancelled w
  | (Done (inl (ForwardIo e)), w') =>
      cancelled w' = cancelled w
        || (is_buffer_full e && bool_decide (fw_exhausted f = Terminate) && fw_shutdown f)
  | (Waiting, w') => cancelled w' = cancelled w
  | (Panicked, _) => False
  end.
Proof.
  intros Hi. unfold forward. rewrite Hi. unfold mbind, IO_bind.
  pose proof (keeps_send_dgram _ _ (stable_no_cancel (cancelled w)) (display m) path
                (fw_max_attempts f) ltac:(done) ltac:(done) w eq_refl) as Hk.
  pose proof (send_dgram_no_panic (display m) path (fw_max_attempts f) w) as Hp.
  destruct (send_dgram_with_retry _ _ _ w) as [[[e|[]]| |] w']; simpl in *; try done.
  destruct (is_buffer_full e) eqn:Eb, (bool_decide (fw_exhausted f = Terminate)), (fw_shutdown f); simpl;
    rewrite ?Eb, ?Hk; destruct (cancelled w); done.
Qed.

Definition dgram_forwarder (e : DgramExhausted) (token : bool) : Forwarder :=
  mkForwarder (UnixDgram (lit "/run/syslog")) 2 e token.

Lemma forward_dgram_cancels_witness :
  let w := idle_world tt [inl full_error; inl full_error] in
  match forward (dgram_forwarder Terminate true) sample w with
  | (Done (inr _), w') => cancelled w' = cancelled w
  | (Done (inl (ForwardIo e)), w') =>
      cancelled w' = cancelled w
        || (is_buffer_full e && bool_decide (Terminate = Terminate) && true)
  | (Waiting, w') => cancelled w' = cancelled w
  | (Panicked, _) => False
  end /\ cancelled (snd (forward (dgram_forwarder Terminate true) sample w)) = true.
Proof.
  split; [|by vm_compute].
  apply (forward_dgram_cancels (dgram_forwarder Terminate true) (lit "/run/syslog") sample). done.
Defined.

(** The frame written to a stream is what the octet-count encoder emits. *)
Lemma stream_frame_encode n m :
  len (display m) <= n ->
  encode (OctetCountCodec_new n) m [] = (Ok tt, stream_frame (display m)).
Proof.
  intros Hn. unfold encode, OctetCount_Encoder, octet_encode.
  cbn [oc_max_size OctetCountCodec_new]. rewrite (proj2 (Z.ltb_ge _ _)) by done.
  unfold stream_frame. by rewrite <- app_assoc.
Qed.

(** C32: one stream send.  On success exactly one octet-count frame of the message was
    written, after connecting first when there was no connection, and the
    connection is kept; on any error there is no connection left, so the next
    send reconnects; the send is suspended only while the operating system
    owes an answer, and never panics. *)
Theorem forward_stream_spec {V} f path m (w : World V) :
  inner f = UnixStream path ->
  match forward f m w with
  | (Done (inr _), w') =>
      connected w' = true /\
      trace w' = trace w
        ++ (if connected w then [] else [EvConnect path true; EvSetup true; EvSetup true; EvSetup true])
        ++ [EvWriteAll (stream_frame (display m)) true]
  | (Done (inl _), w') => connected w' = false
  | (Waiting, w') => answers w' = []
  | (Panicked, _) => False
  end.
Proof.
  intros Hi. unfold forward. rewrite Hi. destruct w as [ans tr [] ca st cu up].
  - unfold mbind, IO_bind, is_connected, mret, IO_ret, syscall. simpl.
    destruct ans as [|[e|[]] ans]; simpl; done.
  - unfold connect_stream, try_io, mbind, IO_bind, is_connected, mret, IO_ret, syscall,
      set_connected, add_event, set_answers, set_connected_w. simpl.
    do 4 (destruct ans as [|[?|[]] ans]; simpl; [done|done|]).
    destruct ans as [|[?|[]] ans]; simpl; [done|done|]. split; [done|].
    by rewrite <- !app_assoc.
Qed.

Lemma forward_stream_spec_witness :
  let f := mkForwarder (UnixStream (lit "/run/s")) 0 Drop false in
  let w := idle_world tt [inr tt; inr tt; inr tt; inr tt; inr tt] in
  match forward f sample w with
  | (Done (inr _), w') =>
      connected w' = true /\
      trace w' = trace w
        ++ [EvConnect (lit "/run/s") true; EvSetup true; EvSetup true; EvSetup true]
        ++ [EvWriteAll (stream_frame (display sample)) true]
  | (Done (inl _), w') => connected w' = false
  | (Waiting, w') => answers w' = []
  | (Panicked, _) => False
  end.
Proof.
  apply (forward_stream_spec (mkForwarder (UnixStream (lit "/run/s")) 0 Drop false) (lit "/run/s") sample).
  done.
Defined.

Lemma retry_loop_done {V} data path n fuel attempt last (w : World V) :
  0 < n < u32_max -> attempt <= n + 1 ->
  n + 1 - attempt <= Z.of_nat (length (answers w)) -> n + 1 - attempt < Z.of_nat fuel ->
  exists r, fst (retry_loop data path n fuel attempt last w) = Done r.
Proof.
  intros Hn. revert attempt last w.
  induction fuel as [|fuel IH]; intros attempt last w Ha Hl Hf; [lia|]. cbn [retry_loop].
  rewrite (proj2 (Z.eqb_neq n 0)) by lia. cbn [negb andb].
  destruct (Z.ltb_spec n attempt) as [Hlt|Hge]; [by eexists|].
  unfold mbind, IO_bind, sleep, try_send_to, syscall. cbn [answers add_event].
  destruct (answers w) as [|[e|[]] rest] eqn:Er; cbn [length] in Hl; [lia| |by eexists].
  destruct (is_buffer_full e); cbn [negb]; [|by eexists].
  rewrite Z.min_r by lia. apply IH; cbn; lia.
Qed.

(** A send with a limit comes to an end: [max_attempts] answers of the operating
    system (any answers) are enough for it to return. *)
Theorem send_dgram_terminates {V} data path n (w : World V) :
  0 < n < u32_max -> n <= Z.of_nat (length (answers w)) ->
  exists r, fst (send_dgram_with_retry data path n w) = Done r.
Proof.
  intros Hn Hl. destruct (answers w) as [|[e|[]] rest] eqn:Ea; cbn [length] in Hl; [lia| |].
  - destruct (is_buffer_full e) eqn:Ef.
    + rewrite (send_dgram_first_full _ _ _ _ _ _ Ea Ef).
      apply retry_loop_done; [done|lia|cbn [answers after]; lia|lia].
    + rewrite (send_dgram_first_final _ _ _ (inl e) rest); [by eexists|done|]. simpl. by rewrite Ef.
  - rewrite (send_dgram_first_final _ _ _ (inr tt) rest); [by eexists|done|done].
Qed.

Lemma send_dgram_terminates_witness :
  exists r, fst (send_dgram_with_retry (lit "x") (lit "p") 3
    (idle_world tt [inl full_error; inl full_error; inl full_error])) = Done r.
Proof. apply send_dgram_terminates; by vm_compute. Defined.
