(* ===== verification/Session.v ===== *)
(** * Sessions: [logfence-daemon/src/session.rs]

    The per-connection task: decoding, validation, rewriting, forwarding and
    rejection reports, over the effects of [Effects]. *)

From stdpp Require Import prelude strings list gmap.
From Stdlib Require Import ZArith Lia.
From S2P Require Import Prelude RustStd Syslog SyslogFacts Timestamp StructuredData SyslogRoundtrip.
From S2P Require Import Frame Config Json Validator Metrics Effects Forwarder.

Record SessionConfig : Type := mkSessionConfig {
  sc_framing : FramingMode;
  sc_max_message_size : Z;
  sc_sender_mode : SenderMode;
  sc_local_hostname : bytes;
  sc_peer : bytes
}.

(** ** Sender rewrite *)

(** The element that keeps the original identity. *)
Definition src_element (m : SyslogMessage) : bytes :=
  let orig_hostname := escape_sd_param (opt_field (hostname m)) in
  let orig_app := escape_sd_param (opt_field (app_name m)) in
  let orig_pid := escape_sd_param (opt_field (proc_id m)) in
  lit "[logfence-src@65944 hostname=" ++ [x22] ++ orig_hostname ++ [x22]
  ++ lit " app=" ++ [x22] ++ orig_app ++ [x22]
  ++ lit " pid=" ++ [x22] ++ orig_pid ++ [x22] ++ lit "]".

(** [process_id] is [std::process::id()]. *)
Definition rewrite_sender (process_id : Z) (m : SyslogMessage) (local_hostname : bytes)
    : SyslogMessage :=
  let new_sd :=
    if bool_decide (structured_data m = lit "-") then src_element m
    else structured_data m ++ lit " " ++ src_element m in
  mkMessage (priority m) (timestamp m) (Some local_hostname) (Some (lit "logfenced"))
    (Some (show_uint process_id)) (msg_id m) new_sd (msg m).

(** ** The session *)

(** [tokio_util::codec::Decoder::decode_eof], which the codecs inherit. *)
Class DecodeEof (C : Type) : Type :=
  decode_eof : C -> bytes -> res FrameError (option SyslogMessage) * bytes.

(** Its documented default: [decode] as long as that gives messages; bytes
    left over at the end of the stream are an error. *)
Class DecodeEofLaws (C : Type) `{!Decoder C} `{!DecodeEof C} : Type := {
  eof_error : io_error;
  decode_eof_default (c : C) buf :
    decode_eof c buf =
    match decode c buf with
    | (Ok None, []) => (Ok None, [])
    | (Ok None, rest) => (Err (FrameIo eof_error), rest)
    | r => r
    end
}.

Section Session.
  Context {number serde_error schema schema_error : Type}.
  Context `{!SerdeJson number serde_error} `{!JsonSchema number schema schema_error}.
  (** [<char as Debug>::fmt] and [std::process::id()]. *)
  Variable debug_char : Z -> bytes.
  Variable process_id : Z.

(** *** Reports *)

Definition rejection_report (local_hostname : bytes) (payload : Value number) : SyslogMessage :=
  mkMessage (mkPriority Syslog Warning) None (Some local_hostname) (Some (lit "logfenced"))
    (Some (show_uint process_id)) None (lit "-") (value_display payload).

Definition report_rejection (f : Forwarder) (local_hostname : bytes) (payload : Value number)
    : IO (Validator schema) unit :=
  _ ← forward f (rejection_report local_hostname payload);
  mret tt.

(** The [json!] payload of a message that failed validation, its entries as
    written; how the map orders them is the serializer's ([value_display]). *)
Definition validation_payload (cfg : SessionConfig) (m : SyslogMessage)
    (e : ValidationError serde_error) : Value number :=
  Object [(lit "event", String (lit "message_dropped"));
          (lit "peer", String (sc_peer cfg));
          (lit "sender_hostname", String (opt_field (hostname m)));
          (lit "sender_app", String (opt_field (app_name m)));
          (lit "sender_pid", String (opt_field (proc_id m)));
          (lit "error", String (ValidationError_display e))].

(** The payload of bytes that never became a message. *)
Definition problem_payload (cfg : SessionConfig) (problem : bytes) : Value number :=
  Object [(lit "event", String (lit "message_dropped"));
          (lit "peer", String (sc_peer cfg));
          (lit "error", String problem)].

(** *** Messages *)

(** What is sent for a validated message. *)
Definition outgoing (cfg : SessionConfig) (v : Validator schema) (m : SyslogMessage) : SyslogMessage :=
  let prepared := prepare_for_forwarding v m in
  match sc_sender_mode cfg with
  | Original => into_owned prepared
  | Logfenced => rewrite_sender process_id (into_owned prepared) (sc_local_hostname cfg)
  end.

Definition handle_message (f : Forwarder) (cfg : SessionConfig) (m : SyslogMessage)
    : IO (Validator schema) unit :=
  update_stats inc_received;;
  v ← borrow;
  match validate v m with
  | Panic => panic
  | Err e =>
      update_stats inc_dropped;;
      report_rejection f (sc_local_hostname cfg) (validation_payload cfg m e)
  | Ok _ =>
      r ← forward f (outgoing cfg v m);
      match r with
      | inl _ => update_stats inc_errors
      | inr _ => update_stats inc_forwarded
      end
  end.

(** The description of a framing error that is reported; [None] for an I/O
    error. *)
Definition frame_problem (e : FrameError) : option bytes :=
  match e with
  | MessageTooLarge max got =>
      Some (lit "oversized message: got " ++ show_uint got ++ lit " bytes, max " ++ show_uint max)
  | InvalidOctetCount => Some (lit "invalid octet count")
  | FrameInvalidUtf8 => Some (lit "invalid UTF-8 encoding")
  | OctetCountPrefixTooLong => Some (lit "octet count prefix too long")
  | Parse inner => Some (lit "syslog parse error: " ++ ParseError_display debug_char inner)
  | FrameIo _ => None
  end.

Definition handle_frame_error (f : Forwarder) (cfg : SessionConfig) (e : FrameError)
    : IO (Validator schema) unit :=
  match frame_problem e with
  | Some problem =>
      report_rejection f (sc_local_hostname cfg) (problem_payload cfg problem)
  | None => mret tt
  end.

(** *** The read loop *)

Section Codec.
  Context {C : Type} `{!Decoder C} `{!DecodeEof C}.
  Variable codec : C.
  Variable f : Forwarder.
  Variable cfg : SessionConfig.

(** The [decode] arms up to the next read, with the buffer they leave.  Each
    message shortens the buffer, so its length bounds the iterations
    ([decode_loop_fuel] of SessionFacts.v). *)
Fixpoint decode_loop (fuel : nat) (buf : bytes) : IO (Validator schema) bytes :=
  match fuel with
  | O => mret buf
  | S n =>
      match decode codec buf with
      | (Ok (Some m), buf') => handle_message f cfg m;; decode_loop n buf'
      | (Ok None, buf') => mret buf'
      | (Err e, _) => handle_frame_error f cfg e;; mret []
      | (Panic, _) => panic
      end
  end.

(** The drain at end of file, with the same bound ([eof_loop_fuel]). *)
Fixpoint eof_loop (fuel : nat) (buf : bytes) : IO (Validator schema) unit :=
  match fuel with
  | O => mret tt
  | S n =>
      match decode_eof codec buf with
      | (Ok (Some m), buf') => handle_message f cfg m;; eof_loop n buf'
      | (Ok None, _) => mret tt
      | (Err e, _) => handle_frame_error f cfg e
      | (Panic, _) => panic
      end
  end.

(** [reads] are the results of [read_buf]: an error, or the bytes read, none
    at end of file. *)
Fixpoint run_with_codec (reads : list (io_error + bytes)) (buf : bytes)
    : IO (Validator schema) unit :=
  buf ← decode_loop (S (length buf)) buf;
  match reads with
  | [] => suspend
  | inl _ :: _ => mret tt
  | inr [] :: _ => eof_loop (S (length buf)) buf
  | inr chunk :: r => run_with_codec r (buf ++ chunk)
  end.

End Codec.

Definition run_session `{!DecodeEof OctetCountCodec} `{!DecodeEof DelimiterCodec}
    (f : Forwarder) (cfg : SessionConfig) (reads : list (io_error + bytes))
    : IO (Validator schema) unit :=
  match sc_framing cfg with
  | OctetCount => run_with_codec (OctetCountCodec_new (sc_max_message_size cfg)) f cfg reads []
  | Newline => run_with_codec (DelimiterCodec_newline (sc_max_message_size cfg)) f cfg reads []
  end.

End Session.
