(* ===== verification/SessionFacts.v ===== *)
(** * What a session lets through

    The fence: whatever a client sends and however the system answers,
    everything the session hands to rsyslog is a validated message or a
    rejection report; the counters balance; messages do not depend on how the
    stream was cut into reads. *)

From stdpp Require Import prelude strings list gmap.
From Stdlib Require Import ZArith Lia.
From S2P Require Import Prelude RustStd Syslog SyslogFacts Timestamp StructuredData SyslogRoundtrip.
From S2P Require Import Frame Config Json Validator Sample Metrics Effects Forwarder Session.

(** ** The fence *)

Section Fence.
  Context {number serde_error schema schema_error : Type}.
  Context `{!SerdeJson number serde_error} `{!JsonSchema number schema schema_error}.
  Variable debug_char : Z -> bytes.
  Variable process_id : Z.

(** *** Where in the input a message or a fault stands *)

Section Scan.
  Variables (frame : bytes -> SyslogMessage -> Prop) (bad : FrameError -> bytes -> Prop).

(** What a session can have behind it: complete frames, and from a fault on
    whatever was read along with it, since the buffer is cleared then. *)
Inductive scanned : bytes -> Prop :=
| scanned_nil : scanned []
| scanned_frame p fr m : scanned p -> frame fr m -> scanned (p ++ fr)
| scanned_fault p e b rest : scanned p -> bad e b -> scanned (p ++ b ++ rest).

(** The input has a frame of [m], or the fault [e], at such a place. *)
Definition spoken (input : bytes) (m : SyslogMessage) : Prop :=
  exists p fr q, input = p ++ fr ++ q /\ scanned p /\ frame fr m.

Definition faulty (input : bytes) (e : FrameError) : Prop :=
  exists p b q, input = p ++ b ++ q /\ scanned p /\ bad e b.

(** With sound frames only, these are all there is. *)
Lemma scanned_frames frs ms : Forall2 frame frs ms -> scanned (concat frs).
Proof.
  intros H. rewrite <- (app_nil_l (concat frs)). generalize scanned_nil. generalize (@nil byte).
  induction H as [|fr m frs ms Hf _ IH]; intros p Hp; cbn [concat]; [by rewrite app_nil_r|].
  rewrite app_assoc. apply IH. by apply (scanned_frame p fr m).
Qed.

End Scan.

(** *** What may be sent *)

(** What a report may say: that a message of [says] failed the validation of
    some validator of [vs], or a fault of [wrong]. *)
Definition report_payload (vs : list (Validator schema)) (cfg : SessionConfig)
    (says : SyslogMessage -> Prop) (wrong : FrameError -> Prop) (payload : Value number) : Prop :=
  (exists v m e, v ∈ vs /\ says m /\ validate v m = Err e /\ payload = validation_payload cfg m e)
  \/ (exists e problem, wrong e /\ frame_problem debug_char e = Some problem
       /\ payload = problem_payload cfg problem).

(** A wire text the fence allows: the outgoing form of a message of [says]
    that some validator of [vs] accepted, or a rejection report. *)
Definition allowed (vs : list (Validator schema)) (cfg : SessionConfig)
    (says : SyslogMessage -> Prop) (wrong : FrameError -> Prop) (wire : bytes) : Prop :=
  (exists v m, v ∈ vs /\ says m /\ validate v m = Ok tt /\ wire = display (outgoing process_id cfg v m))
  \/ (exists payload, report_payload vs cfg says wrong payload
       /\ wire = display (rejection_report process_id (sc_local_hostname cfg) payload)).

(** A call that sends nothing but a text of [ok]. *)
Definition fenced (ok : bytes -> Prop) (e : Event) : Prop :=
  match e with
  | EvSendTo _ data _ => ok data
  | EvWriteAll data _ => exists wire, data = stream_frame wire /\ ok wire
  | _ => True
  end.

(** The invariant: the calls so far are fenced, and the watch channel holds
    and will hold validators of [vs]. *)
Definition fence_inv (vs : list (Validator schema)) (ok : bytes -> Prop)
    (w : World (Validator schema)) : Prop :=
  Forall (fenced ok) (trace w) /\ current w ∈ vs /\ Forall (fun v => v ∈ vs) (omap id (updates w)).

Lemma fence_inv_init ok w :
  trace w = [] -> fence_inv (current w :: omap id (updates w)) ok w.
Proof.
  intros Ht. unfold fence_inv. rewrite Ht. split; [constructor|]. split; [by left|].
  apply Forall_forall. intros v Hv. by right.
Qed.

Lemma fence_trace {A} vs ok (m : IO (Validator schema) A) w :
  keeps (fence_inv vs ok) m -> fence_inv vs ok w -> Forall (fenced ok) (trace (snd (m w))).
Proof. intros Hk Hw. specialize (Hk w Hw). destruct (m w) as [[a| |] w']; apply Hk. Qed.

Section Inv.
  Variables (vs : list (Validator schema)) (cfg : SessionConfig).
  Variables (says : SyslogMessage -> Prop) (wrong : FrameError -> Prop).
  Variable ok : bytes -> Prop.
  Hypothesis allowed_ok : forall wire, allowed vs cfg says wrong wire -> ok wire.

Lemma fence_stable : stable (fence_inv vs ok) (fenced ok).
Proof.
  split; try done. intros w e He (Ht & Hc & Hu). split; [|done].
  apply Forall_app. split; [done|by constructor].
Qed.

Lemma fence_update_stats g : keeps (fence_inv vs ok) (update_stats g).
Proof. by intros w Hw. Qed.

Lemma fence_forward f m :
  allowed vs cfg says wrong (display m) -> keeps (fence_inv vs ok) (forward f m).
Proof.
  intros Ha%allowed_ok. apply (keeps_forward _ _ fence_stable). intros [] He; simpl in *; subst; eauto.
Qed.

Lemma fence_report f payload :
  report_payload vs cfg says wrong payload ->
  keeps (fence_inv vs ok) (report_rejection process_id f (sc_local_hostname cfg) payload).
Proof.
  intros Hp. apply keeps_bind; [|intros; apply keeps_ret]. apply fence_forward. right. eauto.
Qed.

Lemma fence_problem f e problem :
  wrong e -> frame_problem debug_char e = Some problem ->
  keeps (fence_inv vs ok)
    (report_rejection process_id f (sc_local_hostname cfg) (problem_payload cfg problem)).
Proof. intros Hr Hp. apply fence_report. right. eauto. Qed.

(** The validator borrowed is one of [vs]. *)
Lemma fence_borrow :
  spec (fence_inv vs ok) borrow (fun v w => v ∈ vs /\ fence_inv vs ok w) (fence_inv vs ok).
Proof.
  intros w (Ht & Hc & Hu). unfold borrow. destruct (updates w) as [|[v|] u] eqn:Eu; simpl in *.
  - split; [done|]. split; [done|]. by rewrite Eu.
  - apply Forall_cons in Hu as [Hv Hu]. by split.
  - by split.
Qed.

Lemma fence_handle_message f m :
  says m -> keeps (fence_inv vs ok) (handle_message process_id f cfg m).
Proof.
  intros Hm. apply keeps_bind; [apply fence_update_stats|]. intros _.
  eapply spec_bind; [apply fence_borrow|]. intros v.
  apply (spec_conseq _ (fun w => v ∈ vs /\ fence_inv vs ok w) _
           (fun _ => fence_inv vs ok) _ (fence_inv vs ok)); try done.
  intros w [Hv Hw]. revert w Hw. destruct (validate v m) as [[]|e|] eqn:E.
  - apply keeps_bind.
    + apply fence_forward. left. by exists v, m.
    + intros [e|_]; apply fence_update_stats.
  - apply keeps_bind; [apply fence_update_stats|]. intros _. apply fence_report.
    left. by exists v, m, e.
  - by intros w Hw.
Qed.

Lemma fence_handle_frame_error f e :
  (wrong e \/ frame_problem debug_char e = None) ->
  keeps (fence_inv vs ok) (handle_frame_error debug_char process_id f cfg e).
Proof.
  intros Hr. unfold handle_frame_error.
  destruct (frame_problem debug_char e) eqn:E; [|apply keeps_ret].
  destruct Hr as [Hr|]; [by eapply fence_problem|done].
Qed.

Section Codec.
  Context {C : Type} `{!Decoder C} `{!FrameGrammar C} `{!DecodeEof C} `{!DecoderLaws C} `{!DecodeEofLaws C}.
  Variables (codec : C) (f : Forwarder) (input : bytes).

Abbreviation passed := (scanned (frame_of codec) (bad_frame codec)).

Section Loops.
  Hypothesis spoken_says : forall m, spoken (frame_of codec) (bad_frame codec) input m -> says m.
  Hypothesis faulty_wrong : forall e, faulty (frame_of codec) (bad_frame codec) input e -> wrong e.

(** What [decode] finds at a place that was reached. *)
Lemma decode_spoken pre buf m buf' q :
  decode codec buf = (Ok (Some m), buf') -> input = pre ++ buf ++ q -> passed pre ->
  says m /\ exists fr, buf = fr ++ buf' /\ input = (pre ++ fr) ++ buf' ++ q /\ passed (pre ++ fr).
Proof.
  intros (fr & _ & -> & Hf)%decode_some Hi Hs. rewrite <- app_assoc in Hi. split.
  - apply spoken_says. by exists pre, fr, (buf' ++ q).
  - exists fr. split; [done|]. split; [by rewrite <- app_assoc|]. by eapply scanned_frame.
Qed.

Lemma decode_faulty pre buf e buf' q :
  decode codec buf = (Err e, buf') -> input = pre ++ buf ++ q -> passed pre -> wrong e.
Proof.
  intros (b & rest & -> & Hb)%decode_err Hi Hs. apply faulty_wrong. exists pre, b, (rest ++ q).
  split; [|done]. by rewrite <- app_assoc in Hi.
Qed.

Lemma fence_decode_loop fuel pre buf q :
  input = pre ++ buf ++ q -> passed pre ->
  keeps (fence_inv vs ok) (decode_loop debug_char process_id codec f cfg fuel buf).
Proof.
  revert pre buf. induction fuel as [|n IH]; intros pre buf Hi Hs; cbn [decode_loop]; [apply keeps_ret|].
  destruct (decode codec buf) as [[[m|]|e|] buf'] eqn:E.
  - destruct (decode_spoken _ _ _ _ _ E Hi Hs) as (Hm & fr & _ & Hi' & Hs').
    apply keeps_bind; [by apply fence_handle_message|]. intros _. by eapply IH.
  - apply keeps_ret.
  - apply keeps_bind; [|intros _; apply keeps_ret].
    apply fence_handle_frame_error. left. by eapply decode_faulty.
  - by intros w Hw.
Qed.

Lemma fence_eof_loop fuel pre buf q :
  input = pre ++ buf ++ q -> passed pre ->
  keeps (fence_inv vs ok) (eof_loop debug_char process_id codec f cfg fuel buf).
Proof.
  revert pre buf. induction fuel as [|n IH]; intros pre buf Hi Hs; cbn [eof_loop]; [apply keeps_ret|].
  rewrite decode_eof_default.
  destruct (decode codec buf) as [[[m|]|e|] buf'] eqn:E.
  - destruct (decode_spoken _ _ _ _ _ E Hi Hs) as (Hm & fr & _ & Hi' & Hs').
    apply keeps_bind; [by apply fence_handle_message|]. intros _. by eapply IH.
  - destruct buf'; [apply keeps_ret|]. apply fence_handle_frame_error. by right.
  - apply fence_handle_frame_error. left. by eapply decode_faulty.
  - by intros w Hw.
Qed.

End Loops.

(** What the loop has taken off the buffer. *)
Lemma decode_loop_suffix fuel pre buf w :
  match decode_loop debug_char process_id codec f cfg fuel buf w with
  | (Done buf', _) => exists p, buf = p ++ buf' /\ (passed pre -> passed (pre ++ p))
  | _ => True
  end.
Proof.
  revert pre buf w. induction fuel as [|n IH]; intros pre buf w; cbn [decode_loop];
    [exists []; by rewrite app_nil_r|].
  destruct (decode codec buf) as [[[m|]|e|] buf'] eqn:E; [| | |done].
  - unfold mbind, IO_bind. destruct (handle_message _ _ _ _ _) as [[[]| |] w']; try done.
    destruct (decode_some _ _ _ _ E) as (fr & _ & -> & Hf). specialize (IH (pre ++ fr) buf' w').
    destruct (decode_loop _ _ _ _ _ _ _ w') as [[b| |] ?]; try done.
    destruct IH as (p & -> & Hp). exists (fr ++ p). rewrite !app_assoc in *. split; [done|].
    intros Hs. by eapply Hp, scanned_frame.
  - apply decode_none in E as ->. exists []. by rewrite app_nil_r.
  - unfold mbind, IO_bind. destruct (handle_frame_error _ _ _ _ _ _) as [[[]| |] w']; try done.
    destruct (decode_err _ _ _ _ E) as (b & rest & -> & Hb). exists (b ++ rest).
    rewrite app_nil_r. split; [done|]. intros Hs. by eapply scanned_fault.
Qed.

(** The fuel of the loops is enough: every message takes a byte off the
    buffer, so beyond its length more fuel changes nothing. *)
Lemma decode_shortens buf m buf' :
  decode codec buf = (Ok (Some m), buf') -> (length buf' < length buf)%nat.
Proof.
  intros (p & Hp & -> & _)%decode_some. rewrite length_app. destruct p; [done|]. cbn. lia.
Qed.

Lemma decode_loop_fuel n n' buf w :
  (length buf < n)%nat -> (length buf < n')%nat ->
  decode_loop debug_char process_id codec f cfg n buf w
  = decode_loop debug_char process_id codec f cfg n' buf w.
Proof.
  revert n' buf w. induction n as [|n IH]; intros [|n'] buf w Hn Hn'; try lia. cbn [decode_loop].
  destruct (decode codec buf) as [[[m|]|e|] buf'] eqn:E; try done.
  apply decode_shortens in E. unfold mbind, IO_bind.
  destruct (handle_message _ _ _ _ w) as [[[]| |] w']; [apply IH; lia|done|done].
Qed.

Lemma eof_loop_fuel n n' buf w :
  (length buf < n)%nat -> (length buf < n')%nat ->
  eof_loop debug_char process_id codec f cfg n buf w
  = eof_loop debug_char process_id codec f cfg n' buf w.
Proof.
  revert n' buf w. induction n as [|n IH]; intros [|n'] buf w Hn Hn'; try lia. cbn [eof_loop].
  rewrite decode_eof_default. destruct (decode codec buf) as [[[m|]|e|] buf'] eqn:E.
  - apply decode_shortens in E. unfold mbind, IO_bind.
    destruct (handle_message _ _ _ _ w) as [[[]| |] w']; [apply IH; lia|done|done].
  - by destruct buf'.
  - done.
  - done.
Qed.

Lemma fence_run_with_codec reads pre buf :
  (forall m, spoken (frame_of codec) (bad_frame codec) input m -> says m) ->
  (forall e, faulty (frame_of codec) (bad_frame codec) input e -> wrong e) ->
  input = pre ++ buf ++ concat (omap (fun r => match r with inr c => Some c | inl _ => None end) reads) ->
  passed pre ->
  keeps (fence_inv vs ok) (run_with_codec debug_char process_id codec f cfg reads buf).
Proof.
  intros Hsay Hwr. revert pre buf.
  induction reads as [|r reads IH]; intros pre buf Hi Hp w Hw; cbn [run_with_codec];
    unfold mbind, IO_bind;
    pose proof (fence_decode_loop Hsay Hwr (S (length buf)) pre buf _ Hi Hp w Hw) as Hk;
    pose proof (decode_loop_suffix (S (length buf)) pre buf w) as Hs;
    destruct (decode_loop _ _ _ _ _ _ _ w) as [[b| |] w1]; try done.
  destruct Hs as (p & -> & Hpp). specialize (Hpp Hp). rewrite <- app_assoc in Hi.
  destruct r as [e|[|c chunk]]; [done| |].
  - eapply (fence_eof_loop Hsay Hwr _ (pre ++ p)); [|done|done]. rewrite <- app_assoc. exact Hi.
  - apply (IH (pre ++ p)); [|done|done]. rewrite Hi. cbn. by simplify_list_eq.
Qed.

End Codec.
End Inv.

(** The bytes the reads delivered. *)
Definition input_of (reads : list (io_error + bytes)) : bytes :=
  concat (omap (fun r => match r with inr c => Some c | inl _ => None end) reads).

(** The frames and the faults of the configured framing. *)
Definition session_frame_of (cfg : SessionConfig) : bytes -> SyslogMessage -> Prop :=
  match sc_framing cfg with
  | OctetCount => frame_of (OctetCountCodec_new (sc_max_message_size cfg))
  | Newline => frame_of (DelimiterCodec_newline (sc_max_message_size cfg))
  end.

Definition session_bad_frame (cfg : SessionConfig) : FrameError -> bytes -> Prop :=
  match sc_framing cfg with
  | OctetCount => bad_frame (OctetCountCodec_new (sc_max_message_size cfg))
  | Newline => bad_frame (DelimiterCodec_newline (sc_max_message_size cfg))
  end.

(** What a session may send for an input. *)
Definition session_allowed (vs : list (Validator schema)) (cfg : SessionConfig) (input : bytes) : bytes -> Prop :=
  allowed vs cfg (spoken (session_frame_of cfg) (session_bad_frame cfg) input)
    (faulty (session_frame_of cfg) (session_bad_frame cfg) input).

Lemma session_fenced `{!DecodeEof OctetCountCodec} `{!DecodeEof DelimiterCodec}
    `{!DecodeEofLaws OctetCountCodec} `{!DecodeEofLaws DelimiterCodec}
    f cfg reads (w : World (Validator schema)) :
  trace w = [] ->
  Forall (fenced (session_allowed (current w :: omap id (updates w)) cfg (input_of reads)))
    (trace (snd (run_session debug_char process_id f cfg reads w))).
Proof.
  intros Ht. apply (fence_trace (current w :: omap id (updates w))); [|by apply fence_inv_init].
  unfold session_allowed, session_frame_of, session_bad_frame, run_session.
  destruct (sc_framing cfg);
    apply (fence_run_with_codec _ cfg (spoken _ _ _) (faulty _ _ _) _ (fun _ H => H) _ f (input_of reads) reads [] []);
    first [done|constructor].
Qed.

(** C1: the fence.  Whatever bytes a client sends, in whatever pieces, whatever the
    operating system answers and whenever the validator is reloaded: every
    datagram sent and every frame written to rsyslog, at any moment of the
    session, is the outgoing form of a message that stands in the client's
    bytes as a complete frame and that one of the configured validators
    accepted, or a report of the daemon itself: on such a message that one of
    them rejected, or on bytes that are a fault of the framing, with the
    reason they show (a length prefix that is too long, is no number or is
    over the limit, a line over the limit, a body that is no UTF-8 or that
    the parser refuses).  Frames and faults count only where the decoder has
    a right to be: after complete frames, or after a fault, with which the
    rest of the buffer is discarded. *)
Theorem session_fence `{!DecodeEof OctetCountCodec} `{!DecodeEof DelimiterCodec}
    `{!DecodeEofLaws OctetCountCodec} `{!DecodeEofLaws DelimiterCodec}
    f cfg reads (w : World (Validator schema)) :
  trace w = [] ->
  Forall (fenced (session_allowed (current w :: omap id (updates w)) cfg (input_of reads)))
    (trace (snd (run_session debug_char process_id f cfg reads w))).
Proof. apply session_fenced. Qed.

End Fence.

(** ** Counters *)

Definition settled {V} (w : World V) : Prop := balanced 0 (stats w).
Definition in_flight {V} (w : World V) : Prop := balanced 0 (stats w) \/ balanced 1 (stats w).

Lemma settled_in_flight {V} (w : World V) : settled w -> in_flight w.
Proof. by left. Qed.

Lemma stable_balanced {V} p : stable (fun w : World V => balanced p (stats w)) (fun _ => True).
Proof. by split. Qed.

Lemma forward_balanced {V} p f m : keeps (fun w : World V => balanced p (stats w)) (forward f m).
Proof. by apply (keeps_forward _ _ (stable_balanced p)). Qed.

Section Counters.
  Context {number serde_error schema schema_error : Type}.
  Context `{!SerdeJson number serde_error} `{!JsonSchema number schema schema_error}.
  Variable debug_char : Z -> bytes.
  Variable process_id : Z.
  Variables (f : Forwarder) (cfg : SessionConfig).

Lemma validate_no_panic (v : Validator schema) m : validate v m <> Panic.
Proof.
  destruct (validate_cases v m) as [(b & _ & ->)|[(_ & _ & ->)|(_ & _ & ->)]]; try done.
  unfold validate_payload. by repeat case_match.
Qed.

Definition accounted {A} (m : IO (Validator schema) A) : Prop :=
  spec settled m (fun _ => settled) in_flight.

Lemma accounted_ret {A} (a : A) : accounted (mret a).
Proof. by apply spec_ret. Qed.

Lemma accounted_bind {A B} (m : IO (Validator schema) A) (k : A -> IO (Validator schema) B) :
  accounted m -> (forall a, accounted (k a)) -> accounted (m ≫= k).
Proof. intros Hm Hk. by eapply spec_bind. Qed.

Lemma report_balanced p h payload :
  keeps (fun w : World (Validator schema) => balanced p (stats w))
    (report_rejection process_id f h payload).
Proof. apply keeps_bind; [apply forward_balanced|]. intros _. apply keeps_ret. Qed.

Lemma accounted_report h payload : accounted (report_rejection process_id f h payload).
Proof.
  eapply spec_conseq; [apply (report_balanced 0)|done|done|]. intros w Hw. by left.
Qed.

Lemma accounted_handle_message m : accounted (handle_message process_id f cfg m).
Proof.
  intros w Hw. set (w1 := set_stats w (inc_received (stats w))).
  assert (Hw1 : balanced 1 (stats w1)) by (by apply (balanced_received 0)).
  unfold handle_message. unfold mbind at 1, IO_bind at 1, update_stats at 1. fold w1.
  clearbody w1. clear w Hw.
  assert (Hb : exists v w2, borrow w1 = (Done v, w2) /\ stats w2 = stats w1).
  { unfold borrow. destruct (updates w1) as [|[v|] u]; eauto. }
  destruct Hb as (v & w2 & Hb & Hs). unfold mbind at 1, IO_bind at 1. rewrite Hb.
  rewrite <- Hs in Hw1. clear Hb Hs w1. destruct (validate v m) as [[]|e|] eqn:E.
  - unfold mbind, IO_bind. pose proof (forward_balanced 1 f (outgoing process_id cfg v m) w2 Hw1) as Hf.
    destruct (forward f _ w2) as [[[e|[]]| |] w3]; [| |by right|by right].
    + by apply (balanced_errors 0).
    + by apply (balanced_forwarded 0).
  - unfold mbind at 1, IO_bind at 1, update_stats. apply (balanced_dropped 0) in Hw1.
    by apply accounted_report.
  - by right.
Qed.

Lemma accounted_frame_error e : accounted (handle_frame_error debug_char process_id f cfg e).
Proof.
  unfold handle_frame_error. destruct (frame_problem debug_char e);
    [apply accounted_report|apply accounted_ret].
Qed.

Lemma accounted_stop {A} (m : IO (Validator schema) A) :
  (forall w, m w = (Waiting, w) \/ m w = (Panicked, w)) -> accounted m.
Proof. intros H w Hw. destruct (H w) as [-> | ->]; by left. Qed.

Section Codec.
  Context {C : Type} `{!Decoder C} `{!DecodeEof C}.
  Variable codec : C.

Lemma accounted_decode_loop fuel buf :
  accounted (decode_loop debug_char process_id codec f cfg fuel buf).
Proof.
  revert buf. induction fuel as [|n IH]; intros buf; cbn [decode_loop]; [apply accounted_ret|].
  destruct (decode codec buf) as [[[m|]|e|] buf'].
  - apply accounted_bind; [apply accounted_handle_message|]. intros _. apply IH.
  - apply accounted_ret.
  - apply accounted_bind; [apply accounted_frame_error|]. intros _. apply accounted_ret.
  - apply accounted_stop. by right.
Qed.

Lemma accounted_eof_loop fuel buf :
  accounted (eof_loop debug_char process_id codec f cfg fuel buf).
Proof.
  revert buf. induction fuel as [|n IH]; intros buf; cbn [eof_loop]; [apply accounted_ret|].
  destruct (decode_eof codec buf) as [[[m|]|e|] buf'].
  - apply accounted_bind; [apply accounted_handle_message|]. intros _. apply IH.
  - apply accounted_ret.
  - apply accounted_frame_error.
  - apply accounted_stop. by right.
Qed.

Lemma accounted_run_with_codec reads buf :
  accounted (run_with_codec debug_char process_id codec f cfg reads buf).
Proof.
  revert buf. induction reads as [|r reads IH]; intros buf; cbn [run_with_codec];
    (apply accounted_bind; [apply accounted_decode_loop|]); intros b.
  - apply accounted_stop. by left.
  - destruct r as [e|[|c chunk]]; [apply accounted_ret|apply accounted_eof_loop|apply IH].
Qed.

End Codec.

(** The counters balance.  In every state a session can reach from balanced
    counters, [received = forwarded + dropped + errors] in [u64] arithmetic,
    except while one message is in the middle of being forwarded, which is
    then the difference; at the end of a session they balance exactly. *)
Theorem session_metrics `{!DecodeEof OctetCountCodec} `{!DecodeEof DelimiterCodec}
    reads (w : World (Validator schema)) :
  balanced 0 (stats w) ->
  match run_session debug_char process_id f cfg reads w with
  | (Done _, w') => balanced 0 (stats w')
  | (_, w') => balanced 0 (stats w') \/ balanced 1 (stats w')
  end.
Proof.
  intros Hw. assert (Ha : accounted (run_session debug_char process_id f cfg reads)).
  { unfold run_session. destruct (sc_framing cfg); apply accounted_run_with_codec. }
  exact (Ha w Hw).
Qed.

End Counters.

(** ** Reads *)

Section Chunks.
  Context {number serde_error schema schema_error : Type}.
  Context `{!SerdeJson number serde_error} `{!JsonSchema number schema schema_error}.
  Variable debug_char : Z -> bytes.
  Variable process_id : Z.
  Variables (f : Forwarder) (cfg : SessionConfig).

(** The messages one after the other. *)
Fixpoint handle_all (ms : list SyslogMessage) : IO (Validator schema) unit :=
  match ms with
  | [] => mret tt
  | m :: r => handle_message process_id f cfg m;; handle_all r
  end.

Lemma handle_all_app a b w : handle_all (a ++ b) w = (handle_all a;; handle_all b) w.
Proof.
  revert w. induction a as [|m a IH]; intros w; [done|]. cbn [app handle_all].
  unfold mbind, IO_bind in *.
  destruct (handle_message process_id f cfg m w) as [[[]| |] w']; [apply IH|done|done].
Qed.

Section Codec.
  Context {C : Type} `{!Decoder C} `{!DecodeEof C} `{!DecodeEofLaws C}.
  Variable codec : C.

(** [fr] is a complete frame of [m]: recognised whatever follows it (up to
    [bound] bytes), and no proper prefix of it is taken for anything. *)
Definition framed (bound : Z) (fr : bytes) (m : SyslogMessage) : Prop :=
  fr <> []
  /\ (forall rest, len (fr ++ rest) <= bound -> decode codec (fr ++ rest) = (Ok (Some m), rest))
  /\ (forall p q, fr = p ++ q -> q <> [] -> decode codec p = (Ok None, p)).

(** A prefix of a sequence of frames: some whole ones and a part of the next. *)
Lemma frames_prefix (frs : list bytes) buf rest :
  Forall (fun fr => fr <> []) frs -> buf ++ rest = concat frs ->
  exists whole p todo, frs = whole ++ todo /\ buf = concat whole ++ p /\ p ++ rest = concat todo
    /\ (p = [] /\ todo = [] \/ exists fr t q, todo = fr :: t /\ fr = p ++ q /\ q <> []).
Proof.
  intros Hne. revert buf. induction Hne as [|fr frs Hfr Hne IH]; intros buf Hb; cbn [concat] in Hb.
  - apply app_eq_nil in Hb as [-> ->]. exists [], [], []. split_and!; auto.
  - destruct (decide (length fr <= length buf)%nat) as [Hle|Hgt].
    + assert (Hcut : buf = fr ++ drop (length fr) buf).
      { assert (Ht : take (length fr) (buf ++ rest) = fr) by (rewrite Hb; apply take_app_length).
        rewrite take_app_le in Ht by done. rewrite <- Ht at 1. symmetry. apply take_drop. }
      revert Hb. rewrite Hcut. generalize (drop (length fr) buf) as buf'. intros buf' Hb.
      rewrite <- app_assoc in Hb. apply app_inv_head in Hb.
      destruct (IH _ Hb) as (whole & p & todo & -> & -> & Hp & Hc).
      exists (fr :: whole), p, todo. cbn [concat app]. by rewrite <- app_assoc.
    + exists [], buf, (fr :: frs). split; [done|]. split; [done|]. split; [done|]. right.
      exists fr, frs, (drop (length buf) fr). split; [done|]. split.
      * assert (Ht : take (length buf) (buf ++ rest) = buf) by apply take_app_length.
        rewrite Hb, take_app_le in Ht by lia. rewrite <- Ht at 1. symmetry. apply take_drop.
      * intros Hd. apply (f_equal length) in Hd. rewrite length_drop in Hd. simpl in Hd. lia.
Qed.

(** The decode arms on whole frames and an incomplete rest. *)
Lemma decode_loop_frames bound frs ms p fuel w :
  Forall2 (framed bound) frs ms -> decode codec p = (Ok None, p) ->
  len (concat frs ++ p) <= bound -> (length frs < fuel)%nat ->
  decode_loop debug_char process_id codec f cfg fuel (concat frs ++ p) w
  = (handle_all ms;; mret p) w.
Proof.
  intros Hf Hp. revert fuel w.
  induction Hf as [|fr m frs ms (Hne & Hd & _) Hf IH]; intros fuel w Hl Hfu;
    (destruct fuel as [|fuel]; [simpl in *; lia|]); cbn [decode_loop concat app].
  - by rewrite Hp.
  - rewrite <- app_assoc. rewrite Hd by (by rewrite app_assoc).
    cbn [handle_all]. unfold mbind, IO_bind.
    destruct (handle_message process_id f cfg m w) as [[[]| |] w']; [|done|done].
    rewrite IH; [done| |simpl in *; lia]. cbn [concat] in Hl. rewrite <- app_assoc, len_app in Hl.
    pose proof (len_nonneg fr). lia.
Qed.

Lemma frames_length (frs : list bytes) :
  Forall (fun fr => fr <> []) frs -> (length frs <= length (concat frs))%nat.
Proof.
  induction 1 as [|fr frs Hfr Hne IH]; simpl; [lia|]. rewrite length_app.
  destruct fr; [done|]. simpl. lia.
Qed.

Lemma framed_nonempty bound frs ms :
  Forall2 (framed bound) frs ms -> Forall (fun fr => fr <> []) frs.
Proof. induction 1 as [|fr m frs ms [H _]]; by constructor. Qed.

(** The decode arms on any prefix of a sequence of frames: the whole frames
    in it are handled, and what is kept is the front of the frames to come. *)
Lemma decode_loop_prefix bound frs ms buf rest :
  decode codec [] = (Ok None, []) -> Forall2 (framed bound) frs ms ->
  buf ++ rest = concat frs -> len (concat frs) <= bound ->
  exists ms1 ms2 p whole todo, ms = ms1 ++ ms2 /\ frs = whole ++ todo /\ Forall2 (framed bound) todo ms2
    /\ p ++ rest = concat todo /\ len (concat todo) <= bound
    /\ (p = [] /\ todo = [] \/ exists fr t q, todo = fr :: t /\ fr = p ++ q /\ q <> [])
    /\ forall w, decode_loop debug_char process_id codec f cfg (S (length buf)) buf w
                 = (handle_all ms1;; mret p) w.
Proof.
  intros Hnil Hf Hb Hl. pose proof (framed_nonempty _ _ _ Hf) as Hne.
  destruct (frames_prefix frs buf _ Hne Hb) as (whole & p & todo & -> & -> & Hp & Hcase).
  apply Forall2_app_inv_l in Hf as (ms1 & ms2 & Hf1 & Hf2 & ->).
  rewrite concat_app, len_app in Hl. apply Forall_app in Hne as [Hne _].
  pose proof (len_nonneg (concat whole)). pose proof (len_nonneg rest).
  exists ms1, ms2, p, whole, todo. split_and!; try done; [lia|].
  intros w. apply (decode_loop_frames bound).
  - done.
  - destruct Hcase as [[-> _]|(fr & t & q & -> & -> & Hq)]; [exact Hnil|].
    inversion Hf2 as [|? ? ? ? (_ & _ & Hpre)]; subst. by eapply Hpre.
  - apply (f_equal len) in Hp. rewrite len_app in Hp. rewrite len_app. lia.
  - pose proof (frames_length whole Hne). rewrite length_app. lia.
Qed.

(** The last read of a connection: end of file or an error. *)
Definition ends_stream (r : io_error + bytes) : Prop := match r with inl _ => True | inr b => b = [] end.

(** An incomplete frame at the end of the connection has no effect. *)
Lemma eof_incomplete fuel p w :
  decode codec p = (Ok None, p) -> eof_loop debug_char process_id codec f cfg (S fuel) p w = (Done tt, w).
Proof. intros Hp. cbn [eof_loop]. rewrite decode_eof_default, Hp. by destruct p. Qed.

Lemma snoc_split {A} (a b l : list A) x :
  a ++ b = l ++ [x] -> b <> [] -> exists b', b = b' ++ [x] /\ l = a ++ b'.
Proof.
  intros H Hb. destruct (exists_last Hb) as (b' & y & ->). rewrite app_assoc in H.
  apply app_inj_tail in H as [<- <-]. by exists b'.
Qed.

(** The decode arms on a prefix of a stream that was cut in its last frame. *)
Lemma decode_loop_cut bound frs ms fr m buf rest p q :
  decode codec [] = (Ok None, []) -> Forall2 (framed bound) (frs ++ [fr]) (ms ++ [m]) ->
  buf ++ rest = concat frs ++ p -> fr = p ++ q -> q <> [] -> len (concat (frs ++ [fr])) <= bound ->
  exists ms1 ms2 p' todo, ms = ms1 ++ ms2 /\ Forall2 (framed bound) (todo ++ [fr]) (ms2 ++ [m])
    /\ p' ++ rest = concat todo ++ p /\ len (concat (todo ++ [fr])) <= bound
    /\ (rest = [] -> ms2 = [] /\ decode codec p' = (Ok None, p'))
    /\ forall w, decode_loop debug_char process_id codec f cfg (S (length buf)) buf w
                 = (handle_all ms1;; mret p') w.
Proof.
  intros Hnil Hf Hb Hfr Hq Hl.
  assert (Hb' : buf ++ (rest ++ q) = concat (frs ++ [fr])).
  { rewrite concat_app. cbn [concat]. by rewrite app_nil_r, app_assoc, Hb, Hfr, app_assoc. }
  destruct (decode_loop_prefix _ _ _ _ _ Hnil Hf Hb' Hl)
    as (ms1 & ms2 & p' & whole & todo & Hms & Hw & Hf2 & Hp & Hl2 & Hcase & Hrun).
  destruct Hcase as [[_ ->]|(fr0 & t & q0 & -> & Hfr0 & Hq0)].
  { by apply app_eq_nil in Hp as [_ [_ ->]%app_eq_nil]. }
  assert (Hne : ms2 <> []) by (intros ->; inversion Hf2).
  apply eq_sym, snoc_split in Hw as (todo & Ht & ->); [|done].
  apply eq_sym, snoc_split in Hms as (ms2' & -> & ->); [|done].
  rewrite Ht in Hp, Hf2, Hl2.
  assert (Hp' : p' ++ rest = concat todo ++ p).
  { rewrite concat_app in Hp. cbn [concat] in Hp. rewrite app_nil_r, Hfr, !app_assoc in Hp. by apply app_inv_tail in Hp. }
  exists ms1, ms2', p', todo. split_and!; try done. intros ->. rewrite app_nil_r in Hp'.
  destruct todo as [|fr1 todo]; cbn [app] in Ht; injection Ht as -> ->.
  - apply Forall2_length in Hf2 as Hlen. destruct ms2' as [|? [|? ?]]; try done. split; [done|].
    inversion Hf2 as [|? ? ? ? (_ & _ & Hpre)]; subst. by eapply Hpre.
  - exfalso. rewrite Hfr0 in Hp'. cbn [concat] in Hp'. apply (f_equal length) in Hp'.
    rewrite !length_app in Hp'. destruct q0; [done|]. cbn in Hp'. lia.
Qed.

(** The frames of [ms] and, as the stream was cut in the frame of one more
    message, the front [p] of that frame. *)
Lemma run_with_codec_cut bound chunks frs ms fr m buf p q ending w :
  decode codec [] = (Ok None, []) -> Forall2 (framed bound) (frs ++ [fr]) (ms ++ [m]) ->
  Forall (fun c => c <> []) chunks -> buf ++ concat chunks = concat frs ++ p -> fr = p ++ q -> q <> [] ->
  len (concat (frs ++ [fr])) <= bound -> ends_stream ending ->
  run_with_codec debug_char process_id codec f cfg (map inr chunks ++ [ending]) buf w
  = handle_all ms w.
Proof.
  intros Hnil Hf Hc Hb Hfr Hq Hl He. revert frs ms buf w Hf Hb Hl.
  induction Hc as [|c chunks Hc Hcs IH]; intros frs ms buf w Hf Hb Hl;
    destruct (decode_loop_cut _ _ _ _ _ _ _ _ _ Hnil Hf Hb Hfr Hq Hl)
      as (ms1 & ms2 & p' & todo & -> & Hf2 & Hp & Hl2 & Hend & Hrun);
    cbn [map app run_with_codec]; rewrite handle_all_app;
    unfold mbind at 1, IO_bind at 1; rewrite Hrun; unfold mbind, IO_bind, mret, IO_ret;
    destruct (handle_all ms1 w) as [[[]| |] w1]; try done.
  - destruct (Hend eq_refl) as [-> Hd]. destruct ending as [e|b]; [done|]. cbn in He. subst b.
    by apply eof_incomplete.
  - destruct c as [|c0 c]; [done|]. apply (IH todo); [done| |done].
    rewrite <- app_assoc. exact Hp.
Qed.

Lemma run_with_codec_frames bound chunks frs ms buf ending w :
  decode codec [] = (Ok None, []) -> Forall2 (framed bound) frs ms ->
  Forall (fun c => c <> []) chunks -> buf ++ concat chunks = concat frs ->
  len (concat frs) <= bound -> ends_stream ending ->
  run_with_codec debug_char process_id codec f cfg (map inr chunks ++ [ending]) buf w
  = handle_all ms w.
Proof.
  intros Hnil Hf Hc Hb Hl He. revert frs ms buf w Hf Hb Hl.
  induction Hc as [|c chunks Hc Hcs IH]; intros frs ms buf w Hf Hb Hl;
    destruct (decode_loop_prefix _ _ _ _ _ Hnil Hf Hb Hl)
      as (ms1 & ms2 & p & whole & todo & -> & _ & Hf2 & Hp & Hl2 & Hcase & Hrun);
    cbn [map app run_with_codec]; rewrite handle_all_app;
    unfold mbind at 1, IO_bind at 1; rewrite Hrun; unfold mbind, IO_bind, mret, IO_ret;
    destruct (handle_all ms1 w) as [[[]| |] w1]; try done.
  - destruct Hcase as [[-> ->]|(fr & t & q & -> & -> & Hq)].
    + inversion Hf2; subst. destruct ending as [e|b]; [done|]. cbn in He. subst b. by apply eof_incomplete.
    + cbn [concat] in Hp. rewrite app_nil_r in Hp. apply (f_equal length) in Hp. rewrite !length_app in Hp.
      destruct q; [done|]. cbn in Hp. lia.
  - destruct c as [|c0 c]; [done|]. apply (IH todo); [done| |done].
    rewrite <- app_assoc. exact Hp.
Qed.

End Codec.

Definition stream_ok (max : Z) (m : SyslogMessage) : Prop :=
  wf_message m /\ utf8_message m /\ len (display m) <= max.

Lemma octet_framed n bound m :
  stream_ok n m -> n + 21 <= isize_max -> bound + 21 <= usize_max ->
  framed (OctetCountCodec_new n) bound (octet_frame m) m.
Proof.
  intros (Hw & Hu & Hl) Hn Hb. split; [|split].
  - unfold octet_frame. intros H. by apply app_eq_nil in H as [_ ?].
  - intros rest Hr. apply octet_frame_decodes; [done|done|done|].
    unfold octet_frame in Hr. rewrite !len_app in Hr.
    change (len (" "%byte :: display m)) with (Z.of_nat (S (length (display m)))) in Hr.
    unfold len in *. lia.
  - intros p q Heq Hq. apply (octet_frame_waits (OctetCountCodec_new n) m p q); try done. lia.
Qed.

Lemma newline_framed n bound m :
  stream_ok n m -> (x0a ∉ display m) ->
  framed (DelimiterCodec_newline n) bound (display m ++ [x0a]) m.
Proof.
  intros (Hw & Hu & Hl) Hn. split; [by destruct (display m)|]. split.
  - intros rest _. by apply (delimiter_frame_decodes (DelimiterCodec_newline n)).
  - by apply (delimiter_frame_decodes (DelimiterCodec_newline n) m []).
Qed.

(** The frame of a message in the session's framing, and what can be framed. *)
Definition session_frame (m : SyslogMessage) : bytes :=
  match sc_framing cfg with
  | OctetCount => octet_frame m
  | Newline => display m ++ [x0a]
  end.

Definition session_ok (m : SyslogMessage) : Prop :=
  stream_ok (sc_max_message_size cfg) m /\ (sc_framing cfg = Newline -> x0a ∉ display m).

Lemma octet_frames_framed bound ms :
  sc_framing cfg = OctetCount -> sc_max_message_size cfg + 21 <= isize_max -> bound + 21 <= usize_max ->
  Forall session_ok ms ->
  Forall2 (framed (OctetCountCodec_new (sc_max_message_size cfg)) bound) (map session_frame ms) ms.
Proof.
  unfold session_frame. intros -> Hn Hb Hms. induction Hms as [|m ms [Hm _]]; cbn [map]; constructor; [|done].
  by apply octet_framed.
Qed.

Lemma newline_frames_framed bound ms :
  sc_framing cfg = Newline -> Forall session_ok ms ->
  Forall2 (framed (DelimiterCodec_newline (sc_max_message_size cfg)) bound) (map session_frame ms) ms.
Proof.
  unfold session_frame. intros Hf Hms. induction Hms as [|m ms [Hm Hx]]; rewrite Hf; cbn [map]; constructor.
  - apply newline_framed; [done|by apply Hx].
  - by rewrite Hf in *.
Qed.

Lemma newline_empty n : 0 <= n -> decode (DelimiterCodec_newline n) [] = (Ok None, []).
Proof. intros Hn. unfold decode, Delimiter_Decoder, delimiter_decode. cbn. by rewrite (proj2 (Z.ltb_ge _ _)) by apply Hn. Qed.

(** The session on a stream of frames, however it is cut into reads. *)
Lemma run_session_frames `{!DecodeEof OctetCountCodec} `{!DecodeEof DelimiterCodec}
    `{!DecodeEofLaws OctetCountCodec} `{!DecodeEofLaws DelimiterCodec}
    chunks ms ending (w : World (Validator schema)) :
  0 <= sc_max_message_size cfg <= isize_max - 21 -> Forall session_ok ms ->
  Forall (fun c => c <> []) chunks -> concat chunks = concat (map session_frame ms) ->
  len (concat chunks) + 21 <= usize_max -> ends_stream ending ->
  run_session debug_char process_id f cfg (map inr chunks ++ [ending]) w = handle_all ms w.
Proof.
  intros Hn Hms Hc Heq Hl He. unfold run_session.
  assert (Hb : len (concat (map session_frame ms)) <= len (concat chunks)) by (by rewrite Heq).
  destruct (sc_framing cfg) eqn:Hf.
  - apply (run_with_codec_frames _ (len (concat chunks)) _ (map session_frame ms)); try done.
    apply octet_frames_framed; try done. lia.
  - apply (run_with_codec_frames _ (len (concat chunks)) _ (map session_frame ms)); try done.
    + by apply newline_empty, Hn.
    + by apply newline_frames_framed.
Qed.

Lemma session_frame_length m :
  sc_max_message_size cfg <= usize_max -> session_ok m ->
  len (session_frame m) <= sc_max_message_size cfg + 21.
Proof.
  intros Hn [(_ & _ & Hl) _]. unfold session_frame, octet_frame. pose proof (len_nonneg (display m)).
  pose proof (show_usize_length (len (display m)) ltac:(lia)) as Hd. unfold MAX_DIGITS in Hd.
  destruct (sc_framing cfg).
  - rewrite len_app. change (" "%byte :: display m) with ([" "%byte] ++ display m). rewrite len_app.
    change (len [" "%byte]) with 1. lia.
  - rewrite len_app. change (len [x0a]) with 1. lia.
Qed.

(** The same when the connection ends inside the frame of one more message. *)
Lemma run_session_cut `{!DecodeEof OctetCountCodec} `{!DecodeEof DelimiterCodec}
    `{!DecodeEofLaws OctetCountCodec} `{!DecodeEofLaws DelimiterCodec}
    chunks ms m p q ending (w : World (Validator schema)) :
  0 <= sc_max_message_size cfg <= isize_max - 21 -> Forall session_ok ms -> session_ok m ->
  Forall (fun c => c <> []) chunks -> concat chunks = concat (map session_frame ms) ++ p ->
  session_frame m = p ++ q -> q <> [] ->
  len (concat chunks) + sc_max_message_size cfg + 42 <= usize_max -> ends_stream ending ->
  run_session debug_char process_id f cfg (map inr chunks ++ [ending]) w = handle_all ms w.
Proof.
  intros Hn Hms Hm Hc Heq Hfr Hq Hl He. unfold run_session.
  assert (Hb : len (concat (map session_frame ms ++ [session_frame m]))
               <= len (concat chunks) + sc_max_message_size cfg + 21).
  { rewrite concat_app, len_app, Heq, len_app. cbn [concat]. rewrite app_nil_r.
    pose proof (session_frame_length m ltac:(unfold isize_max, usize_max, u64_max in *; lia) Hm). pose proof (len_nonneg p). lia. }
  assert (Hms' : Forall session_ok (ms ++ [m])) by (apply Forall_app; split; [done|by constructor]).
  assert (Hmap : map session_frame ms ++ [session_frame m] = map session_frame (ms ++ [m])) by (by rewrite map_app).
  destruct (sc_framing cfg) eqn:Hf.
  - eapply (run_with_codec_cut _ _ _ (map session_frame ms) ms (session_frame m) m); try done.
    rewrite Hmap. apply octet_frames_framed; try done; lia.
  - eapply (run_with_codec_cut _ _ _ (map session_frame ms) ms (session_frame m) m); try done.
    + by apply newline_empty, Hn.
    + rewrite Hmap. by apply newline_frames_framed.
Qed.

(** C14: the session does not depend on how the stream is cut into reads.  In either
    framing, the frames of a list of messages, delivered in any non-empty
    pieces and followed by end of file, have exactly the effect of handling
    those messages one after the other: none is lost, repeated or reordered. *)
Theorem session_chunking `{!DecodeEof OctetCountCodec} `{!DecodeEof DelimiterCodec}
    `{!DecodeEofLaws OctetCountCodec} `{!DecodeEofLaws DelimiterCodec}
    chunks ms (w : World (Validator schema)) :
  0 <= sc_max_message_size cfg <= isize_max - 21 -> Forall session_ok ms ->
  Forall (fun c => c <> []) chunks -> concat chunks = concat (map session_frame ms) ->
  len (concat chunks) + 21 <= usize_max ->
  run_session debug_char process_id f cfg (map inr chunks ++ [inr []]) w = handle_all ms w.
Proof. intros. by apply run_session_frames. Qed.

End Chunks.

(** ** Concrete sessions *)

(** The documented default of [decode_eof], as an instance. *)
Definition default_decode_eof {C} `{!Decoder C} (c : C) (buf : bytes)
    : res FrameError (option SyslogMessage) * bytes :=
  match decode c buf with
  | (Ok None, []) => (Ok None, [])
  | (Ok None, rest) => (Err (FrameIo (io_other (lit "bytes remaining on stream"))), rest)
  | r => r
  end.

#[export] Instance octet_eof : DecodeEof OctetCountCodec := default_decode_eof.
#[export] Instance newline_eof : DecodeEof DelimiterCodec := default_decode_eof.
#[export] Instance octet_eof_laws : DecodeEofLaws OctetCountCodec.
Proof. by exists (io_other (lit "bytes remaining on stream")). Defined.
#[export] Instance newline_eof_laws : DecodeEofLaws DelimiterCodec.
Proof. by exists (io_other (lit "bytes remaining on stream")). Defined.

Definition sample_cfg : SessionConfig :=
  mkSessionConfig OctetCount 1024 Original (lit "fence") (lit "<anonymous>").

Definition sample_forwarder : Forwarder :=
  mkForwarder (UnixDgram (lit "/run/syslog")) 4 Drop false.

(** A world with a good socket. *)
Definition good_world (v : Validator bytes) : World (Validator bytes) :=
  idle_world v (replicate 20 (inr tt)).

Definition run_sample (reads : list (io_error + bytes)) (v : Validator bytes) :=
  run_session (fun _ => []) 7 sample_forwarder sample_cfg reads (good_world v).

(** Requires key [b]; anything else is dropped. *)
Definition strict_b : Validator bytes := Validator_new Strict [lit "b"].

Definition bad_msg : SyslogMessage := set_msg sample_msg (print doc_empty).

Lemma sample_msg_ok : stream_ok 1024 sample_msg.
Proof.
  assert (Hp : parse (display sample_msg) = Ok sample_msg) by (by vm_compute).
  split; [refine (parse_wf _ _ _ Hp); by vm_compute|]. by split; [split|]; vm_compute.
Defined.

Lemma session_fence_witness :
  let w' := snd (run_sample [inr (octet_frame bad_msg ++ octet_frame sample_msg); inr []] strict_b) in
  length (trace w') = 2%nat
  /\ Forall (fenced (session_allowed (number := nat) (fun _ => []) 7 [strict_b] sample_cfg
       (input_of [inr (octet_frame bad_msg ++ octet_frame sample_msg); inr []]))) (trace w').
Proof.
  split; [by vm_compute|].
  exact (session_fence (fun _ => []) 7 sample_forwarder sample_cfg
    [inr (octet_frame bad_msg ++ octet_frame sample_msg); inr []] (good_world strict_b) eq_refl).
Defined.

Lemma session_metrics_witness :
  match run_sample [inr (octet_frame bad_msg ++ octet_frame sample_msg); inr []] strict_b with
  | (Done _, w') => balanced 0 (stats w')
  | (_, w') => balanced 0 (stats w') \/ balanced 1 (stats w')
  end
  /\ stats (snd (run_sample [inr (octet_frame bad_msg ++ octet_frame sample_msg); inr []] strict_b))
     = mkStore 2 1 1 0.
Proof.
  split; [|by vm_compute].
  apply (session_metrics (fun _ => []) 7 sample_forwarder sample_cfg). done.
Defined.

(** Two frames, cut in the middle of the second length prefix. *)
Definition cut_chunks : list bytes :=
  [octet_frame sample_msg ++ take 1 (octet_frame sample_msg); drop 1 (octet_frame sample_msg)].

Lemma session_chunking_witness :
  run_session (fun _ => []) 7 sample_forwarder sample_cfg (map inr cut_chunks ++ [inr []])
    (good_world strict_b)
  = handle_all 7 sample_forwarder sample_cfg [sample_msg; sample_msg] (good_world strict_b).
Proof.
  apply (session_chunking (fun _ => []) 7 sample_forwarder sample_cfg); [by vm_compute| | |by vm_compute|by vm_compute].
  - repeat (apply Forall_cons; split; [split; [exact sample_msg_ok|done]|]). constructor.
  - repeat (apply Forall_cons; split; [by vm_compute|]). constructor.
Defined.

(** After a framing error the rest of the buffer is discarded, with the complete
    frames in it.  A malformed frame and a good message in one read: the good
    message is neither forwarded nor counted nor reported.  The same bytes in
    two reads: it is forwarded. *)
Theorem session_discards_after_error :
  let bad := lit "3 foo" in
  let good := octet_frame sample_msg in
  forwarded (stats (snd (run_sample [inr (bad ++ good); inr []] strict_b))) = 0
  /\ received (stats (snd (run_sample [inr (bad ++ good); inr []] strict_b))) = 0
  /\ forwarded (stats (snd (run_sample [inr bad; inr good; inr []] strict_b))) = 1
  /\ decode (OctetCountCodec_new 1024) good = (Ok (Some sample_msg), []).
Proof. by vm_compute. Qed.
