(* ===== verification/SessionBuffer.v ===== *)
(** * The buffer of a session

    What [run_with_codec] of [logfence-daemon/src/session.rs] holds in its
    buffer while it waits for the next read, in either framing. *)

From stdpp Require Import prelude strings list.
From Stdlib Require Import ZArith Lia.
From S2P Require Import Prelude RustStd Syslog SyslogFacts Timestamp StructuredData SyslogRoundtrip.
From S2P Require Import Frame Config Json Validator Sample Metrics Effects Forwarder Session SessionFacts.

Section Buffer.
  Context {number serde_error schema schema_error : Type}.
  Context `{!SerdeJson number serde_error} `{!JsonSchema number schema schema_error}.
  Variable debug_char : Z -> bytes.
  Variable process_id : Z.
  Variable f : Forwarder.
  Variable cfg : SessionConfig.

(** ** The loop up to a read *)

Section Codec.
  Context {C : Type} `{!Decoder C} `{!FrameGrammar C} `{!DecoderLaws C} `{!DecodeEof C}.
  Variable codec : C.

(** The session through the reads of [chunks], with the buffer it then waits
    with. *)
Fixpoint read_loop (chunks : list bytes) (buf : bytes) : IO (Validator schema) bytes :=
  buf ← decode_loop debug_char process_id codec f cfg (S (length buf)) buf;
  match chunks with
  | [] => mret buf
  | chunk :: r => read_loop r (buf ++ chunk)
  end.

(** It is the session, cut after these reads. *)
Lemma run_with_codec_reads chunks more buf w :
  Forall (fun c => c <> []) chunks ->
  run_with_codec debug_char process_id codec f cfg (map inr chunks ++ more) buf w
  = (b ← read_loop chunks buf;
     match more with
     | [] => suspend
     | inl _ :: _ => mret tt
     | inr [] :: _ => eof_loop debug_char process_id codec f cfg (S (length b)) b
     | inr chunk :: r => run_with_codec debug_char process_id codec f cfg r (b ++ chunk)
     end) w.
Proof.
  intros Hc. revert buf w. induction Hc as [|c chunks Hne _ IH]; intros buf w.
  - cbn [map app read_loop]. unfold mbind, IO_bind, mret, IO_ret. destruct more as [|r more]; cbn [run_with_codec];
      unfold mbind, IO_bind; by destruct (decode_loop _ _ _ _ _ _ _ w) as [[b| |] w1].
  - destruct c as [|x c]; [done|]. cbn [map app run_with_codec read_loop]. unfold mbind, IO_bind.
    destruct (decode_loop _ _ _ _ _ _ _ w) as [[b| |] w1]; [|done|done]. rewrite IH. done.
Qed.

(** Where the [decode] arms end: at once, or after a message, or with the
    buffer cleared. *)
Lemma decode_loop_waits fuel buf w :
  (length buf < fuel)%nat ->
  match decode_loop debug_char process_id codec f cfg fuel buf w with
  | (Done b, _) =>
      b = [] \/ decode codec b = (Ok None, b)
      /\ (b = buf \/ exists m rest p, decode codec buf = (Ok (Some m), rest) /\ rest = p ++ b)
  | _ => True
  end.
Proof.
  revert buf w. induction fuel as [|n IH]; intros buf w Hn; [lia|]. cbn [decode_loop].
  destruct (decode codec buf) as [[[m|]|e|] buf'] eqn:E; [| | |done].
  - unfold mbind, IO_bind. destruct (handle_message _ _ _ _ _) as [[[]| |] w']; try done.
    pose proof (decode_shortens codec _ _ _ E) as Hs. specialize (IH buf' w' ltac:(lia)).
    destruct (decode_loop _ _ _ _ _ _ _ w') as [[b| |] ?]; try done.
    destruct IH as [->|[Hb Hr]]; [by left|right]. split; [done|]. right.
    destruct Hr as [->|(m' & rest & p & E' & ->)]; [by exists m, buf', []|].
    destruct (decode_some _ _ _ _ E') as (fr & _ & -> & _). exists m, (fr ++ p ++ b), (fr ++ p).
    by rewrite <- app_assoc.
  - apply decode_none in E as Hb. subst buf'. right. split; [done|by left].
  - unfold mbind, IO_bind. destruct (handle_frame_error _ _ _ _ _ _) as [[[]| |] w']; try done. by left.
Qed.

Section Good.
  (** A condition on what is held while waiting, and the size of the reads. *)
  Variables (good : bytes -> Prop) (r : Z).
  Hypothesis good_nil : good [].
  Hypothesis good_longer : forall buf chunk, good buf -> len chunk <= r ->
    decode codec (buf ++ chunk) = (Ok None, buf ++ chunk) -> good (buf ++ chunk).
  Hypothesis good_after : forall buf chunk m p b, good buf -> len chunk <= r ->
    decode codec (buf ++ chunk) = (Ok (Some m), p ++ b) -> decode codec b = (Ok None, b) -> good b.

Lemma read_loop_good chunks buf chunk w :
  Forall (fun c => len c <= r) chunks -> good buf -> len chunk <= r ->
  match read_loop chunks (buf ++ chunk) w with (Done b, _) => good b | _ => True end.
Proof.
  intros Hc. revert buf chunk w.
  induction chunks as [|c chunks IH]; intros buf chunk w Hb Hr; cbn [read_loop]; unfold mbind, IO_bind;
    pose proof (decode_loop_waits (S (length (buf ++ chunk))) (buf ++ chunk) w ltac:(lia)) as Hw;
    destruct (decode_loop _ _ _ _ _ _ _ w) as [[b| |] w1]; try done;
    (assert (Hg : good b);
     [destruct Hw as [->|[Hn [->|(m & rest & p & E & ->)]]];
        [done|by apply good_longer|by eapply good_after]|]).
  - done.
  - apply Forall_cons in Hc as [Hc1 Hc2]. by apply IH.
Qed.

End Good.
End Codec.

(** ** Octet counting *)

(** A message completed by a chunk is completed inside it. *)
Lemma octet_completed c buf chunk m rest :
  len (buf ++ chunk) <= usize_max -> octet_decode c buf = (Ok None, buf) ->
  octet_decode c (buf ++ chunk) = (Ok (Some m), rest) -> len rest <= len chunk.
Proof.
  intros Hl Hn (pre & body & Heq & Hs & Hu & Hp & Hm & Hd)%octet_decode_some_inv.
  destruct (Z.le_gt_cases (len rest) (len chunk)) as [|Hgt]; [done|]. exfalso.
  assert (Hb : exists x, buf = pre ++ " "%byte :: body ++ x).
  { exists (take (length rest - length chunk) rest).
    assert (Hlen : (length buf + length chunk = length (pre ++ " "%byte :: body) + length rest)%nat).
    { apply (f_equal length) in Heq. rewrite !length_app in *. cbn [length] in *. rewrite !length_app in Heq. lia. }
    rewrite <- (take_app_length buf chunk), Heq.
    change (pre ++ " "%byte :: body ++ rest) with (pre ++ (" "%byte :: body) ++ rest).
    change (pre ++ " "%byte :: body ++ ?x) with (pre ++ (" "%byte :: body) ++ x).
    rewrite !app_assoc, take_app, take_ge by (unfold len in *; lia). f_equal. f_equal. lia. }
  destruct Hb as [x ->]. rewrite octet_decode_frame in Hn; try done.
  - rewrite Hd in Hn. done.
  - rewrite len_app in Hl. pose proof (len_nonneg chunk). lia.
Qed.

(** Waiting, with a prefix that came with at most one read after the first
    twenty bytes. *)
Definition octet_held (c : OctetCountCodec) (r : Z) (b : bytes) : Prop :=
  octet_decode c b = (Ok None, b)
  /\ forall pre body, b = pre ++ " "%byte :: body -> (" "%byte ∉ pre) -> len pre <= MAX_DIGITS + r.

Lemma octet_held_bound c r b :
  0 <= r -> 0 <= oc_max_size c -> len b + oc_max_size c <= usize_max -> octet_held c r b ->
  len b <= r + oc_max_size c + MAX_DIGITS.
Proof.
  intros Hr H0 Hl [Hn Hp].
  destruct (octet_decode_none_bound c b H0 Hl Hn) as [[_ Hs]|(pre & body & -> & Hs & Hb)]; [lia|].
  specialize (Hp pre body eq_refl Hs). rewrite len_app in *. unfold len in *. cbn [length] in *. lia.
Qed.

(** Two cuts at the first space. *)
Lemma first_space (pre body pre' body' : bytes) :
  pre ++ " "%byte :: body = pre' ++ " "%byte :: body' -> (" "%byte ∉ pre) -> (" "%byte ∉ pre') -> pre = pre'.
Proof.
  intros Heq H1 H2. assert (Hpos : position " " (pre ++ " "%byte :: body) = Some (length pre)) by (by apply position_app).
  rewrite Heq, position_app in Hpos by done. injection Hpos as Hlen.
  apply app_inj_1 in Heq; [|lia]. tauto.
Qed.

Lemma octet_held_longer c r buf chunk :
  0 <= r -> octet_held c r buf -> len chunk <= r -> 0 <= oc_max_size c -> len buf + oc_max_size c <= usize_max ->
  octet_decode c (buf ++ chunk) = (Ok None, buf ++ chunk) -> octet_held c r (buf ++ chunk).
Proof.
  intros Hr [Hn Hp] Hc H0 Hl Hn'. split; [done|]. intros pre body Heq Hs.
  destruct (octet_decode_none_bound c buf H0 Hl Hn) as [[_ Hb]|(pre0 & body0 & Hbuf & Hs0 & _)].
  - apply (f_equal len) in Heq. rewrite !len_app in Heq. unfold len in *. cbn [length] in Heq. lia.
  - rewrite Hbuf, <- app_assoc in Heq. cbn [app] in Heq.
    rewrite <- (first_space _ _ _ _ Heq) by done. by apply (Hp _ body0).
Qed.

(** ** The bound *)

Context `{!DecodeEof OctetCountCodec} `{!DecodeEof DelimiterCodec}.

Definition session_waits (chunks : list bytes) : IO (Validator schema) bytes :=
  match sc_framing cfg with
  | OctetCount => read_loop (OctetCountCodec_new (sc_max_message_size cfg)) chunks []
  | Newline => read_loop (DelimiterCodec_newline (sc_max_message_size cfg)) chunks []
  end.

Definition held_bound (r : Z) : Z :=
  match sc_framing cfg with
  | OctetCount => r + sc_max_message_size cfg + MAX_DIGITS
  | Newline => sc_max_message_size cfg
  end.

Lemma octet_read_loop_bound max chunks r w :
  0 <= r -> 0 <= max -> 2 * r + 2 * max + MAX_DIGITS <= usize_max -> Forall (fun c => len c <= r) chunks ->
  match read_loop (OctetCountCodec_new max) chunks [] w with
  | (Done b, _) => len b <= r + max + MAX_DIGITS
  | _ => True
  end.
Proof.
  intros Hr H0 Hmax Hc. set (c := OctetCountCodec_new max).
  assert (Hlen : forall b, octet_held c r b /\ len b <= r + max + MAX_DIGITS -> len b + max <= usize_max) by (intros b; lia).
  pose proof (read_loop_good c (fun b => octet_held c r b /\ len b <= r + max + MAX_DIGITS) r) as Hg.
  assert (Hnil : octet_held c r [] /\ len [] <= r + max + MAX_DIGITS).
  { split; [|unfold MAX_DIGITS; change (len []) with 0; lia]. split; [done|].
    intros pre body Heq. symmetry in Heq. by apply app_eq_nil in Heq as [_ ?]. }
  specialize (Hg Hnil). specialize (fun H1 H2 => Hg H1 H2 chunks [] [] w Hc Hnil Hr).
  cbn [app] in Hg.
  enough (match read_loop c chunks [] w with
          | (Done b, _) => octet_held c r b /\ len b <= r + max + MAX_DIGITS | _ => True end)
    by (destruct (read_loop c chunks [] w) as [[]]; tauto).
  apply Hg.
  - intros buf chunk [Hh Hb] Hch Hn.
    assert (Hh' : octet_held c r (buf ++ chunk)) by (apply octet_held_longer; try done; cbn; lia).
    split; [done|]. apply (octet_held_bound c); try done. cbn [oc_max_size c OctetCountCodec_new].
    rewrite len_app. lia.
  - intros buf chunk m p b [[Hn _] Hb] Hch Hs Hw.
    pose proof (octet_completed c buf chunk m (p ++ b)) as Hrest. specialize (Hrest ltac:(rewrite len_app; lia) Hn Hs).
    rewrite len_app in Hrest. pose proof (len_nonneg p). split; [|unfold MAX_DIGITS; lia]. split; [done|].
    intros pre body -> _. rewrite len_app in Hrest. pose proof (len_nonneg (" "%byte :: body)). unfold MAX_DIGITS. lia.
Qed.

Lemma newline_read_loop_bound max chunks r w :
  0 <= max -> 0 <= r -> Forall (fun c => len c <= r) chunks ->
  match read_loop (DelimiterCodec_newline max) chunks [] w with (Done b, _) => len b <= max | _ => True end.
Proof.
  intros H0 Hr Hc. set (c := DelimiterCodec_newline max).
  pose proof (read_loop_good c (fun b => len b <= max) r H0) as Hg.
  refine (Hg _ _ chunks [] [] w Hc H0 Hr).
  - intros buf chunk _ _ Hn. by apply delimiter_decode_none_inv in Hn as [_ ?].
  - intros buf chunk m p b _ _ _ Hn. by apply delimiter_decode_none_inv in Hn as [_ ?].
Qed.

(** C35: a session holds a bounded buffer.  However the client cuts what it writes, if
    no read returns more than [r] bytes: whenever the session waits for the
    next read, its buffer holds at most [max_message_size] bytes with newline
    framing, and at most [r + max_message_size + 20] with octet counting,
    where a length prefix may exceed its 20 digits by what comes in one read.
    [session_waits] is the session itself, stopped where it waits. *)
Theorem session_buffer_bounded chunks r w :
  0 <= r -> 0 <= sc_max_message_size cfg -> 2 * r + 2 * sc_max_message_size cfg + MAX_DIGITS <= usize_max ->
  Forall (fun c => c <> [] /\ len c <= r) chunks ->
  match session_waits chunks w with
  | (Done b, w') =>
      len b <= held_bound r /\ run_session debug_char process_id f cfg (map inr chunks) w = (Waiting, w')
  | (Waiting, w') => run_session debug_char process_id f cfg (map inr chunks) w = (Waiting, w')
  | (Panicked, w') => run_session debug_char process_id f cfg (map inr chunks) w = (Panicked, w')
  end.
Proof.
  intros Hr H0 Hmax Hc. assert (Hne : Forall (fun c : bytes => c <> []) chunks)
    by (eapply Forall_impl; [exact Hc|]; by intros c [? _]).
  assert (Hle : Forall (fun c => len c <= r) chunks) by (eapply Forall_impl; [exact Hc|]; by intros c [_ ?]).
  unfold session_waits, held_bound, run_session. rewrite <- (app_nil_r (map inr chunks)).
  destruct (sc_framing cfg).
  - rewrite run_with_codec_reads by done. unfold mbind, IO_bind.
    pose proof (octet_read_loop_bound _ chunks r w Hr H0 Hmax Hle) as Hb.
    by destruct (read_loop _ chunks [] w) as [[b| |] w'].
  - rewrite run_with_codec_reads by done. unfold mbind, IO_bind.
    pose proof (newline_read_loop_bound _ chunks r w H0 Hr Hle) as Hb.
    by destruct (read_loop _ chunks [] w) as [[b| |] w'].
Qed.

End Buffer.

(** A client that writes thirty zeros, and never the rest. *)
Lemma session_buffer_bounded_witness :
  let chunks := [replicate 20 "0"%byte; replicate 10 "0"%byte ++ lit "50 <13>1 "] in
  match session_waits (number := nat) (fun _ => []) 7 sample_forwarder sample_cfg chunks (good_world strict_b) with
  | (Done b, _) => len b = 39
  | _ => False
  end
  /\ match session_waits (number := nat) (fun _ => []) 7 sample_forwarder sample_cfg chunks (good_world strict_b) with
  | (Done b, w') =>
      len b <= held_bound sample_cfg 20
      /\ run_session (fun _ => []) 7 sample_forwarder sample_cfg (map inr chunks) (good_world strict_b) = (Waiting, w')
  | (Waiting, w') =>
      run_session (fun _ => []) 7 sample_forwarder sample_cfg (map inr chunks) (good_world strict_b) = (Waiting, w')
  | (Panicked, w') =>
      run_session (fun _ => []) 7 sample_forwarder sample_cfg (map inr chunks) (good_world strict_b) = (Panicked, w')
  end.
Proof.
  intros chunks. split; [by vm_compute|].
  apply (session_buffer_bounded (fun _ => []) 7 sample_forwarder sample_cfg chunks 20); try by vm_compute.
  by repeat constructor; vm_compute.
Defined.
