(* ===== verification/Filter.v ===== *)
(** * The daemon as a filter: an abstract specification

    What a session promises, without sockets, frames, retries or buffers: a
    function from the messages of the client to the messages for rsyslog and
    the counters.  The session of [session.rs] implements it: exactly, when
    the receiver takes everything; and up to lost messages, never repeated or
    out of order, whatever the system answers. *)

From stdpp Require Import prelude strings list.
From Stdlib Require Import ZArith Lia.
From S2P Require Import Prelude RustStd Syslog SyslogFacts Timestamp StructuredData SyslogRoundtrip.
From S2P Require Import Frame Config Json Validator Sample Metrics Effects Forwarder Session.
From S2P Require Import SessionFacts.

(** ** What reached the receiver *)

(** The texts of the sends and writes that succeeded. *)
Definition delivered (tr : list Event) : list bytes :=
  omap (fun e => match e with
                 | EvSendTo _ data true | EvWriteAll data true => Some data
                 | _ => None
                 end) tr.

(** A message as the forwarder's transport puts it on the wire. *)
Definition wire_form (f : Forwarder) (m : SyslogMessage) : bytes :=
  match inner f with
  | UnixDgram _ => display m
  | UnixStream _ => stream_frame (display m)
  end.

Lemma delivered_app a b : delivered (a ++ b) = delivered a ++ delivered b.
Proof. unfold delivered. apply omap_app. Qed.

(** ** Forwarding delivers at most once *)

(** The parts of a world that forwarding leaves alone. *)
Definition same_books {V} (w w' : World V) : Prop :=
  stats w' = stats w /\ current w' = current w /\ updates w' = updates w.

(** Success means one delivery of [data]; anything else, none. *)
Definition delivers {V E} (data : bytes) (m : IO V (E + unit)) : Prop := forall w,
  match m w with
  | (Done (inr _), w') => delivered (trace w') = delivered (trace w) ++ [data] /\ same_books w w'
  | (_, w') => delivered (trace w') = delivered (trace w) /\ same_books w w'
  end.

(** A step that delivers nothing. *)
Definition silent {V A} (m : IO V A) : Prop := forall w,
  delivered (trace (snd (m w))) = delivered (trace w) /\ same_books w (snd (m w)).

Section Delivery.
  Context {V : Type}.

Lemma silent_ret {A} (a : A) : silent (mret a : IO V A).
Proof. done. Qed.

Lemma silent_suspend {A} : silent (suspend : IO V A).
Proof. done. Qed.

Lemma silent_sleep z : silent (sleep z : IO V unit).
Proof. intros w. cbn. by rewrite delivered_app, app_nil_r. Qed.

Lemma silent_cancel : silent (cancel : IO V unit).
Proof. intros w. cbn. by rewrite delivered_app, app_nil_r. Qed.

Lemma silent_is_connected : silent (is_connected : IO V bool).
Proof. done. Qed.

Lemma silent_set_connected b : silent (set_connected b : IO V unit).
Proof. done. Qed.

Lemma silent_syscall ev : (forall b, delivered [ev b] = []) -> silent (syscall ev : IO V _).
Proof.
  intros He w. unfold syscall. destruct (answers w) as [|[e|[]] r]; [done| |]; cbn;
    by rewrite delivered_app, He, app_nil_r.
Qed.

Lemma same_books_trans (w1 w2 w3 : World V) : same_books w1 w2 -> same_books w2 w3 -> same_books w1 w3.
Proof. unfold same_books. intros (-> & -> & ->) (-> & -> & ->). done. Qed.

Lemma silent_bind {A B} (m : IO V A) (k : A -> IO V B) :
  silent m -> (forall a, silent (k a)) -> silent (m ≫= k).
Proof.
  intros Hm Hk w. unfold mbind, IO_bind. specialize (Hm w). destruct (m w) as [[a| |] w1]; [|done|done].
  specialize (Hk a w1). destruct Hm as [H1 S1], Hk as [H2 S2]. cbn in *.
  split; [congruence|]. by eapply same_books_trans.
Qed.

(** A silent step before a delivery. *)
Lemma delivers_after {E A} (m : IO V A) (k : A -> IO V (E + unit)) data :
  silent m -> (forall a, delivers data (k a)) -> delivers data (m ≫= k).
Proof.
  intros Hm Hk w. unfold mbind, IO_bind. specialize (Hm w). destruct (m w) as [[a| |] w1]; [|done|done].
  specialize (Hk a w1). destruct Hm as [H1 S1]. cbn in *. rewrite <- H1.
  destruct (k a w1) as [[[e|[]]| |] w2]; destruct Hk as [H2 S2]; (split; [done|by eapply same_books_trans]).
Qed.

(** What happens after a delivery: success is returned, an error is handled
    silently and stays an error. *)
Lemma delivers_then {E F} (m : IO V (E + unit)) (k : E + unit -> IO V (F + unit)) data :
  delivers data m -> k (inr tt) = mret (inr tt) ->
  (forall e w, match k (inl e) w with (Done (inr _), _) => False | _ => True end) ->
  (forall e, silent (k (inl e))) -> delivers data (m ≫= k).
Proof.
  intros Hm Hok Herr Hs w. unfold mbind, IO_bind. specialize (Hm w).
  destruct (m w) as [[[e|[]]| |] w1]; [|by rewrite Hok|done|done].
  specialize (Herr e w1). specialize (Hs e w1). destruct Hm as [H1 S1].
  destruct (k (inl e) w1) as [[[e'|[]]| |] w2]; [|done| |]; destruct Hs as [H2 S2]; cbn in *;
    (split; [congruence|by eapply same_books_trans]).
Qed.

Lemma delivers_fail {E} (e : E) data : delivers data (mret (inl e) : IO V (E + unit)).
Proof. done. Qed.

Lemma delivers_if {E} (b : bool) (m1 m2 : IO V (E + unit)) data :
  delivers data m1 -> delivers data m2 -> delivers data (if b then m1 else m2).
Proof. by destruct b. Qed.

Lemma delivers_syscall ev data :
  delivered [ev true] = [data] -> delivered [ev false] = [] -> delivers data (syscall ev : IO V _).
Proof.
  intros Ht Hf w. unfold syscall. destruct (answers w) as [|[e|[]] r]; [done| |]; cbn;
    rewrite delivered_app, ?Ht, ?Hf, ?app_nil_r; done.
Qed.

Lemma delivers_retry_loop data path n fuel attempt last :
  delivers data (retry_loop data path n fuel attempt last : IO V _).
Proof.
  revert attempt last. induction fuel as [|fuel IH]; intros attempt last; cbn [retry_loop]; [done|].
  apply delivers_if; [apply delivers_fail|]. apply delivers_after; [apply silent_sleep|]. intros _.
  intros w. unfold mbind, IO_bind. pose proof (delivers_syscall (EvSendTo path data) data eq_refl eq_refl w) as Hs.
  unfold try_send_to. destruct (syscall (EvSendTo path data) w) as [[[e|[]]| |] w1]; [|done|done|done].
  destruct Hs as [H1 S1]. destruct (negb (is_buffer_full e)); [done|].
  specialize (IH (Z.min u32_max (attempt + 1)) e w1). rewrite <- H1.
  destruct (retry_loop _ _ _ _ _ _ w1) as [[[e'|[]]| |] w2]; destruct IH as [H2 S2];
    (split; [done|by eapply same_books_trans]).
Qed.

Lemma delivers_send_dgram data path n : delivers data (send_dgram_with_retry data path n : IO V _).
Proof.
  intros w. unfold send_dgram_with_retry. generalize (S (length (answers w))) as fuel. intros fuel.
  unfold mbind, IO_bind. pose proof (delivers_syscall (EvSendTo path data) data eq_refl eq_refl w) as Hs.
  unfold try_send_to. destruct (syscall (EvSendTo path data) w) as [[[e|[]]| |] w1]; [|done|done|done].
  destruct Hs as [H1 S1]. destruct (negb (is_buffer_full e)); [done|].
  pose proof (delivers_retry_loop data path n fuel 2 e w1) as IH. rewrite <- H1.
  destruct (retry_loop _ _ _ _ _ _ w1) as [[[e'|[]]| |] w2]; destruct IH as [H2 S2];
    (split; [done|by eapply same_books_trans]).
Qed.

Lemma silent_connect path : silent (connect_stream path : IO V _).
Proof.
  unfold connect_stream, try_io. do 4 (apply silent_bind; [by apply silent_syscall|]; intros [e|_];
    [apply silent_ret|]). apply silent_bind; [apply silent_set_connected|]. intros _. apply silent_ret.
Qed.

Lemma forward_delivers f m : delivers (wire_form f m) (forward f m : IO V _).
Proof.
  unfold forward, wire_form. destruct (inner f) as [path|path].
  - apply delivers_then; [apply delivers_send_dgram|done| |].
    + intros e w. by repeat case_match.
    + intros e. apply silent_bind; [|intros; apply silent_ret].
      repeat case_match; first [apply silent_cancel|apply silent_ret].
  - apply delivers_after; [apply silent_is_connected|]. intros c.
    apply delivers_after; [destruct c; [apply silent_ret|apply silent_connect]|].
    intros [e|_]; [apply delivers_fail|]. apply delivers_after; [apply silent_is_connected|].
    intros c'. apply delivers_if; [apply delivers_fail|].
    apply delivers_then; [by apply delivers_syscall|done|done|].
    intros e. apply silent_bind; [apply silent_set_connected|]. intros _. apply silent_ret.
Qed.

End Delivery.

(** ** The specification *)

Section Filter.
  Context {number serde_error schema schema_error : Type}.
  Context `{!SerdeJson number serde_error} `{!JsonSchema number schema schema_error}.
  Variable debug_char : Z -> bytes.
  Variable process_id : Z.
  Variables (f : Forwarder) (cfg : SessionConfig).
  Implicit Types (cur v : Validator schema) (ups : list (option (Validator schema))).

(** The validators in force for the next [n] messages, when [ups] is what the
    reloads store before each of them. *)
Fixpoint in_force cur ups (n : nat) : list (Validator schema) :=
  match n with
  | O => []
  | S k => let v := default cur (mjoin (head ups)) in v :: in_force v (tail ups) k
  end.

Definition accepts v (m : SyslogMessage) : bool :=
  match validate v m with Ok _ => true | _ => false end.

(** What rsyslog is to get for one message. *)
Definition verdict v (m : SyslogMessage) : SyslogMessage :=
  match validate v m with
  | Err e => rejection_report process_id (sc_local_hostname cfg) (validation_payload cfg m e)
  | _ => outgoing process_id cfg v m
  end.

Definition filter_output (vs : list (Validator schema)) (ms : list SyslogMessage) : list SyslogMessage :=
  zip_with verdict vs ms.

(** The counters after a batch of which [k] messages are accepted. *)
Definition filter_stats (s : MetricsStore) (vs : list (Validator schema)) (ms : list SyslogMessage)
    : MetricsStore :=
  let k := Z.of_nat (length (List.filter id (zip_with accepts vs ms))) in
  let n := Z.of_nat (length ms) in
  mkStore (wrap 64 (received s + n)) (wrap 64 (forwarded s + k)) (wrap 64 (dropped s + (n - k)))
    (errors s).

(** ** Any answers: at most once, in order *)

(** Where a message leaves the watch channel. *)
Definition advanced (w w' : World (Validator schema)) : Prop :=
  current w' = default (current w) (mjoin (head (updates w))) /\ updates w' = tail (updates w).

Lemma borrow_latest (w : World (Validator schema)) :
  exists w', borrow w = (Done (default (current w) (mjoin (head (updates w)))), w')
    /\ advanced w w' /\ trace w' = trace w /\ stats w' = stats w /\ answers w' = answers w
    /\ connected w' = connected w.
Proof.
  unfold borrow, advanced. destruct (updates w) as [|[v|] u] eqn:E; eexists; split_and!; done.
Qed.

(** Handling a message is forwarding its verdict, and counting. *)
Lemma handle_message_forwards m w :
  let v := default (current w) (mjoin (head (updates w))) in
  exists w2, advanced w w2 /\ trace w2 = trace w /\ answers w2 = answers w
    /\ connected w2 = connected w
    /\ stats w2 = (if accepts v m then inc_received (stats w) else inc_dropped (inc_received (stats w)))
    /\ handle_message process_id f cfg m w =
       match forward f (verdict v m) w2 with
       | (Done r, w3) =>
           (Done tt, if accepts v m
                     then set_stats w3 ((match r with inl _ => inc_errors | inr _ => inc_forwarded end) (stats w3))
                     else w3)
       | (Waiting, w3) => (Waiting, w3)
       | (Panicked, w3) => (Panicked, w3)
       end.
Proof.
  intros v. unfold handle_message, update_stats. unfold mbind at 1, IO_bind at 1.
  set (w1 := set_stats w (inc_received (stats w))).
  destruct (borrow_latest w1) as (w2 & Hb & Ha & Ht & Hs & Han & Hc).
  unfold mbind at 1, IO_bind at 1. rewrite Hb. change (default _ _) with v.
  unfold accepts, verdict. destruct (validate v m) as [[]|e|] eqn:E.
  - exists w2. split_and!; try done. unfold mbind, IO_bind.
    by destruct (forward f _ w2) as [[[e|[]]| |] w3].
  - exists (set_stats w2 (inc_dropped (stats w2))). split_and!; try done.
    cbn. by rewrite Hs.
  - by apply validate_no_panic in E.
Qed.

(** One message delivers its verdict or nothing. *)
Lemma handle_message_delivers m w :
  let v := default (current w) (mjoin (head (updates w))) in
  match handle_message process_id f cfg m w with
  | (_, w') => exists l, delivered (trace w') = delivered (trace w) ++ l
      /\ l `sublist_of` [wire_form f (verdict v m)] /\ advanced w w'
  end.
Proof.
  intros v. destruct (handle_message_forwards m w) as (w2 & [Hc Hu] & Ht & _ & _ & _ & ->).
  fold v. pose proof (forward_delivers f (verdict v m) w2) as Hf. rewrite Ht in Hf.
  unfold same_books, advanced in *. rewrite Hc, Hu in Hf.
  destruct (forward f _ w2) as [[[e|[]]| |] w3]; destruct Hf as (Hd & _ & Hw);
    try (exists []; rewrite app_nil_r; split; [|split]; [|apply sublist_nil_l|]; by destruct (accepts v m)).
  exists [wire_form f (verdict v m)]. split; [|split]; [|done|]; by destruct (accepts v m).
Qed.

Lemma handle_all_sublist ms w :
  delivered (trace (snd (handle_all process_id f cfg ms w)))
    `sublist_of` delivered (trace w) ++
      map (wire_form f) (filter_output (in_force (current w) (updates w) (length ms)) ms).
Proof.
  revert w. induction ms as [|m ms IH]; intros w; cbn [handle_all length in_force]; cbv zeta.
  { cbn. by rewrite app_nil_r. }
  pose proof (handle_message_delivers m w) as Hm. unfold mbind, IO_bind.
  destruct (handle_message process_id f cfg m w) as [o w1].
  destruct Hm as (l & Hd & Hl & Hc & Hu). cbn [filter_output zip_with map].
  assert (Hsub : forall r, delivered (trace w) ++ l ++ r `sublist_of` delivered (trace w) ++
            wire_form f (verdict (default (current w) (mjoin (head (updates w)))) m) :: r).
  { intros r. apply sublist_app; [done|]. by apply (sublist_app _ [_]). }
  destruct o as [[]| |]; cbn [snd].
  - etrans; [apply IH|]. rewrite Hd, Hc, Hu, <- app_assoc. apply Hsub.
  - rewrite Hd. etrans; [|apply Hsub]. apply sublist_app; [done|]. by apply sublist_inserts_r.
  - rewrite Hd. etrans; [|apply Hsub]. apply sublist_app; [done|]. by apply sublist_inserts_r.
Qed.

(** ** A receiver that takes everything *)

(** Answers enough for [n] messages: one each, and four to connect. *)
Definition ready (n : nat) (w : World (Validator schema)) : Prop :=
  exists k, answers w = replicate (n + k) (inr tt)
    /\ match inner f with UnixStream _ => if connected w then True else (4 <= k)%nat | _ => True end.

Lemma answers_ready n w :
  Forall (eq (inr tt)) (answers w) -> (n + 4 <= length (answers w))%nat -> ready n w.
Proof.
  intros Hans Hlen. exists (length (answers w) - n)%nat. split; [|repeat case_match; [done|done|lia]].
  replace (n + _)%nat with (length (answers w)) by lia. symmetry. by apply replicate_as_Forall_2.
Qed.

Lemma forward_ready n m w :
  ready (S n) w -> exists w', forward f m w = (Done (inr tt), w') /\ ready n w'.
Proof.
  unfold ready, forward. destruct (inner f) as [path|path]; intros (k & Ha & Hk).
  - unfold send_dgram_with_retry, try_send_to, syscall, mbind, IO_bind. rewrite Ha. cbn.
    eexists. split; [done|]. by exists k.
  - unfold connect_stream, try_io, mbind, IO_bind, is_connected, mret, IO_ret, syscall,
      set_connected, add_event, set_answers, set_connected_w.
    destruct w as [ans tr [] ca st cu up]; cbn [answers connected] in *; subst ans.
    + cbn. eexists. split; [done|]. by exists k.
    + destruct (Nat.le_exists_sub 4 k Hk) as (k' & -> & _).
      replace (S n + (k' + 4))%nat with (4 + (S (n + k')))%nat by lia.
      cbn. eexists. split; [done|]. by exists k'.
Qed.

Lemma handle_message_ready n m w :
  let v := default (current w) (mjoin (head (updates w))) in
  ready (S n) w -> exists w', handle_message process_id f cfg m w = (Done tt, w') /\ ready n w'
    /\ advanced w w'
    /\ delivered (trace w') = delivered (trace w) ++ [wire_form f (verdict v m)]
    /\ stats w' = (if accepts v m then inc_forwarded else inc_dropped) (inc_received (stats w)).
Proof.
  intros v Hr. destruct (handle_message_forwards m w) as (w2 & [Hc Hu] & Ht & Ha & Hco & Hs & ->).
  fold v in Hs |- *. assert (Hr2 : ready (S n) w2) by (unfold ready in *; by rewrite Ha, Hco).
  destruct (forward_ready n (verdict v m) w2 Hr2) as (w3 & Hf & Hr3).
  pose proof (forward_delivers f (verdict v m) w2) as Hd. rewrite Hf in Hd |- *.
  destruct Hd as (Hd & Hs3 & Hc3 & Hu3). rewrite Ht in Hd. rewrite Hs in Hs3.
  unfold advanced. rewrite <- Hc, <- Hu.
  eexists. split; [done|]. destruct (accepts v m); cbn; rewrite ?Hs3; split_and!; done.
Qed.

(** Counters, message by message. *)
Lemma filter_stats_cons s v vs m ms :
  filter_stats ((if accepts v m then inc_forwarded else inc_dropped) (inc_received s)) vs ms
  = filter_stats s (v :: vs) (m :: ms).
Proof.
  unfold filter_stats. cbn [zip_with List.filter length].
  destruct (accepts v m); cbn [id inc_received inc_forwarded inc_dropped received forwarded dropped errors length];
    rewrite !wrap_add_l; f_equal; f_equal; lia.
Qed.

Lemma handle_all_ready ms w :
  ready (length ms) w -> store_ok (stats w) ->
  let vs := in_force (current w) (updates w) (length ms) in
  exists w', handle_all process_id f cfg ms w = (Done tt, w')
    /\ delivered (trace w') = delivered (trace w) ++ map (wire_form f) (filter_output vs ms)
    /\ stats w' = filter_stats (stats w) vs ms.
Proof.
  revert w. induction ms as [|m ms IH]; intros w Hr Hok; cbn [handle_all length in_force]; cbv zeta.
  - exists w. cbn. rewrite app_nil_r. split; [done|]. split; [done|].
    destruct Hok as (H1 & H2 & H3 & H4). destruct (stats w). unfold filter_stats, wrap. cbn in *.
    by rewrite !Z.add_0_r, !Z.mod_small by lia.
  - destruct (handle_message_ready (length ms) m w Hr) as (w1 & Hm & Hr1 & [Hc Hu] & Hd & Hs).
    assert (Hok1 : store_ok (stats w1)).
    { rewrite Hs. apply inc_store_ok in Hok as (Hok & _). apply inc_store_ok in Hok as (_ & ? & ? & _).
      by destruct (accepts _ m). }
    destruct (IH w1 Hr1 Hok1) as (w' & Hall & Hd' & Hs'). exists w'.
    unfold mbind, IO_bind. rewrite Hm, Hd', Hd, Hs', Hs, Hc, Hu, <- app_assoc.
    split; [done|]. split; [done|]. apply filter_stats_cons.
Qed.

(** ** The session implements the filter *)

Section Implements.
  Context `{!DecodeEof OctetCountCodec} `{!DecodeEof DelimiterCodec}.
  Context `{!DecodeEofLaws OctetCountCodec} `{!DecodeEofLaws DelimiterCodec}.
  (** The frames of [ms], however the reads cut them. *)
  Variables (ms : list SyslogMessage) (chunks : list bytes).
  Hypothesis size_ok : 0 <= sc_max_message_size cfg <= isize_max - 21.
  Hypothesis messages_ok : Forall (session_ok cfg) ms.
  Hypothesis chunks_ok : Forall (fun c => c <> []) chunks.
  Hypothesis chunks_frames : concat chunks = concat (map (session_frame cfg) ms).
  Hypothesis stream_size : len (concat chunks) + 21 <= usize_max.

(** C3: the session refines the filter.  With a receiver that takes what it is sent,
    and whatever validators are stored between messages: the session ends, and
    rsyslog got exactly one text per message, in the order of the client, the
    outgoing form where the validator in force accepted it and the rejection
    report where it did not; the counters went up by exactly the numbers of
    messages received, forwarded and dropped. *)
Theorem session_refines_filter (w : World (Validator schema)) :
  trace w = [] -> store_ok (stats w) -> Forall (eq (inr tt)) (answers w) ->
  (length ms + 4 <= length (answers w))%nat ->
  let vs := in_force (current w) (updates w) (length ms) in
  exists w', run_session debug_char process_id f cfg (map inr chunks ++ [inr []]) w = (Done tt, w')
    /\ delivered (trace w') = map (wire_form f) (filter_output vs ms)
    /\ stats w' = filter_stats (stats w) vs ms.
Proof.
  intros Ht Hok Hans Hlen. rewrite (run_session_frames _ _ _ _ chunks ms) by done.
  assert (Hr : ready (length ms) w) by (by apply answers_ready).
  destruct (handle_all_ready ms w Hr Hok) as (w' & Hrun & Hd & Hs). exists w'.
  by rewrite Ht in Hd.
Qed.

(** C8: at most once, in order.  Whatever the operating system answers, through
    retries, reconnects, failures and a session that is cut off at any call:
    the texts that reached rsyslog are a subsequence of the specification's
    output; no message is delivered twice, none overtakes another, and a
    rejected one never appears as itself. *)
Theorem session_at_most_once (w : World (Validator schema)) :
  trace w = [] ->
  delivered (trace (snd (run_session debug_char process_id f cfg (map inr chunks ++ [inr []]) w)))
    `sublist_of`
  map (wire_form f) (filter_output (in_force (current w) (updates w) (length ms)) ms).
Proof.
  intros Ht. rewrite (run_session_frames _ _ _ _ chunks ms) by done.
  pose proof (handle_all_sublist ms w) as H. by rewrite Ht in H.
Qed.

End Implements.
End Filter.

(** ** On the sample instances *)

(** Two good messages around a bad one, read in odd pieces; the rules are
    loosened by a reload before the third. *)
Definition sample_ms : list SyslogMessage := [sample_msg; bad_msg; sample_msg].

Definition sample_stream : bytes := concat (map (session_frame sample_cfg) sample_ms).

Definition sample_cuts : list bytes := [take 1 sample_stream; take 50 (drop 1 sample_stream); drop 51 sample_stream].

Definition reloaded_world (a : list (io_error + unit)) : World (Validator bytes) :=
  mkWorld a [] false false MetricsStore_new strict_b [None; None; Some (Validator_new Warn [])].

Definition stream_forwarder : Forwarder :=
  mkForwarder (UnixStream (lit "/run/syslog")) 4 Drop false.

Lemma sample_ms_ok : Forall (session_ok sample_cfg) sample_ms.
Proof.
  assert (Hp : parse (display bad_msg) = Ok bad_msg) by (by vm_compute).
  assert (Hb : stream_ok 1024 bad_msg).
  { split; [refine (parse_wf _ _ _ Hp); by vm_compute|]. by split; [split|]; vm_compute. }
  repeat (apply Forall_cons; split; [split; [first [exact sample_msg_ok|exact Hb]|done]|]). constructor.
Defined.

Lemma sample_cuts_ok : Forall (fun c => c <> []) sample_cuts.
Proof. unfold sample_cuts. repeat (apply Forall_cons; split; [by vm_compute|]). constructor. Defined.

Lemma session_refines_filter_witness :
  let w := reloaded_world (replicate 7 (inr tt)) in
  exists w', run_session (fun _ => []) 7 stream_forwarder sample_cfg (map inr sample_cuts ++ [inr []]) w = (Done tt, w')
    /\ delivered (trace w') = map (wire_form stream_forwarder)
         (filter_output 7 sample_cfg [strict_b; strict_b; Validator_new Warn []] sample_ms)
    /\ stats w' = mkStore 3 2 1 0.
Proof.
  intros w.
  destruct (session_refines_filter (fun _ => []) 7 stream_forwarder sample_cfg sample_ms sample_cuts)
    with (w := w) as (w' & Hrun & Hd & Hs).
  all: try first [exact sample_ms_ok|exact sample_cuts_ok].
  all: try (by vm_compute).
  - by apply Forall_replicate.
  - exists w'. split; [exact Hrun|]. split; [exact Hd|]. rewrite Hs. by vm_compute.
Defined.

(** The connection breaks at the second write. *)
Lemma session_at_most_once_witness :
  let w := reloaded_world (replicate 5 (inr tt) ++ [inl (io_other [])]) in
  let tr := trace (snd (run_session (fun _ => []) 7 stream_forwarder sample_cfg (map inr sample_cuts ++ [inr []]) w)) in
  length (delivered tr) = 1%nat
  /\ delivered tr `sublist_of` map (wire_form stream_forwarder)
       (filter_output 7 sample_cfg [strict_b; strict_b; Validator_new Warn []] sample_ms).
Proof.
  split; [by vm_compute|].
  refine (session_at_most_once (fun _ => []) 7 stream_forwarder sample_cfg sample_ms sample_cuts
            _ _ _ _ _ _ _).
  all: try first [exact sample_ms_ok|exact sample_cuts_ok].
  all: by vm_compute.
Defined.
