(* ===== verification/SenderRewrite.v ===== *)
(** * The sender rewrite on the wire

    What a receiver reads from a message whose sender identity
    [rewrite_sender] of [session.rs] replaced. *)

From stdpp Require Import prelude strings list.
From Stdlib Require Import ZArith Lia.
From S2P Require Import Prelude RustStd Syslog SyslogFacts Timestamp StructuredData SyslogRoundtrip.
From S2P Require Import Frame Config Session.

(** The identity element as an element of the grammar. *)
Definition src_sd (m : SyslogMessage) : SdElement :=
  mkSdElement (lit "logfence-src@65944")
    [(lit "hostname", opt_field (hostname m)); (lit "app", opt_field (app_name m));
     (lit "pid", opt_field (proc_id m))].

Lemma src_element_render m : src_element m = render_sd [src_sd m].
Proof.
  unfold src_element, render_sd, render_element, render_params, render_param, src_sd.
  cbn [map concat sd_id sd_params fst snd]. rewrite !app_nil_r. cbn [app lit]. by simplify_list_eq.
Qed.

Lemma src_sd_ok m : element_ok (src_sd m).
Proof.
  split; [|done]. split; [by apply (bool_decide_unpack _); vm_compute|].
  repeat (apply Forall_cons; split; [by apply (bool_decide_unpack _); vm_compute|]). constructor.
Qed.

Lemma pid_field_ok pid : 0 <= pid <= u32_max -> field_ok 128 (Some (show_uint pid)).
Proof.
  intros Hp. pose proof (show_uint_digits pid ltac:(lia)) as Hd.
  pose proof (show_uint_length pid 10 ltac:(unfold u32_max in Hp; lia) ltac:(lia)) as Hl.
  split; [apply show_uint_not_nil|]. split; [|split].
  - intros Heq. rewrite Heq in Hd. by apply Forall_cons in Hd as [? _].
  - unfold len. lia.
  - eapply Forall_impl; [exact Hd|]. unfold is_ascii_digit, printusascii. intros c. lia.
Qed.

Lemma logfenced_field_ok : field_ok 48 (Some (lit "logfenced")).
Proof. by apply (bool_decide_unpack _); vm_compute. Qed.

(** What a parser makes of a host name: [-] is the nil value. *)
Definition read_host (host : bytes) : option bytes := if bool_decide (host = lit "-") then None else Some host.

Definition as_read (m : SyslogMessage) : SyslogMessage :=
  mkMessage (priority m) (timestamp m) (hostname m ≫= read_host) (app_name m) (proc_id m) (msg_id m)
    (structured_data m) (msg m).

Lemma as_read_display m : display (as_read m) = display m.
Proof.
  unfold display, as_read. cbn [priority timestamp hostname app_name proc_id msg_id structured_data msg].
  destruct (hostname m) as [h|]; cbn [mbind option_bind]; [|done]. unfold read_host. by case_bool_decide; subst.
Qed.

Lemma read_host_field host : field_ok 255 (Some host) -> read_host host = Some host.
Proof. intros (_ & Hn & _). unfold read_host. rewrite bool_decide_eq_false_2; [done|]. by intros ->. Qed.

(** The daemon's own identity in the header. *)
Lemma own_header_wf p ts host pid mid sd s :
  wf_timestamp ts -> field_ok 255 (read_host host) -> 0 <= pid <= u32_max -> field_ok 32 mid ->
  wf_sd sd -> wf_msg s ->
  wf_message (as_read (mkMessage p ts (Some host) (Some (lit "logfenced")) (Some (show_uint pid)) mid sd s)).
Proof. intros. split_and!; try done; [apply logfenced_field_ok|by apply pid_field_ok]. Qed.

Lemma src_element_wf m : wf_sd (src_element m).
Proof. rewrite src_element_render. apply wf_sd_render; [done|]. constructor; [apply src_sd_ok|constructor]. Qed.

Lemma rewrite_sender_read pid m host :
  wf_message m -> structured_data m = lit "-" -> field_ok 255 (read_host host) -> 0 <= pid <= u32_max ->
  parse (display (rewrite_sender pid m host)) = Ok (as_read (rewrite_sender pid m host)).
Proof.
  intros (Ht & _ & _ & _ & Hi & _ & Hm) Hsd Hh Hp. rewrite <- as_read_display. apply parse_display_wf.
  unfold rewrite_sender. rewrite bool_decide_eq_true_2 by done. apply own_header_wf; try done.
  apply src_element_wf.
Qed.

(** What the receiver reads when there was STRUCTURED-DATA already. *)
Definition misread (pid : Z) (m : SyslogMessage) (host : bytes) : SyslogMessage :=
  mkMessage (priority m) (timestamp m) (Some host) (Some (lit "logfenced")) (Some (show_uint pid))
    (msg_id m) (structured_data m)
    (src_element m ++ (if bool_decide (msg m = []) then [] else lit " " ++ msg m)).

Lemma rewrite_sender_misread pid m host :
  wf_message m -> structured_data m <> lit "-" -> field_ok 255 (read_host host) -> 0 <= pid <= u32_max ->
  parse (display (rewrite_sender pid m host)) = Ok (as_read (misread pid m host)).
Proof.
  intros (Ht & _ & _ & _ & Hi & Hs & Hm) Hsd Hh Hp.
  assert (Heq : display (rewrite_sender pid m host) = display (misread pid m host)).
  { unfold display, rewrite_sender, misread. rewrite (bool_decide_eq_false_2 (structured_data m = _)) by done.
    cbn [priority timestamp hostname app_name proc_id msg_id structured_data msg].
    rewrite (bool_decide_eq_false_2 (src_element m ++ _ = [])) by (by intros [? _]%app_eq_nil).
    by rewrite <- !app_assoc. }
  rewrite Heq, <- as_read_display. apply parse_display_wf. apply own_header_wf; try done.
  intros c. case_bool_decide as Hn.
  - rewrite app_nil_r. destruct (wf_sd_last (src_element m) (src_element_wf m)) as (d & -> & Hd).
    by intros [= <-].
  - rewrite app_assoc, last_app_ne by done. apply Hm.
Qed.

(** C33: a message without STRUCTURED-DATA whose sender is rewritten is read back by
    the receiver exactly as rewritten: logfenced's identity in the header and
    one [logfence-src@65944] element whose values are the original hostname,
    application and process id, whatever characters these contain. *)
Theorem rewrite_sender_roundtrip pid m host :
  wf_message m -> structured_data m = lit "-" ->
  field_ok 255 (Some host) -> 0 <= pid <= u32_max ->
  let m' := rewrite_sender pid m host in
  parse (display m') = Ok m' /\ structured_data m' = render_sd [src_sd m] /\ msg m' = msg m.
Proof.
  intros Hw Hsd Hh Hp m'. pose proof (read_host_field host Hh) as Hr.
  assert (Hs : structured_data m' = render_sd [src_sd m]).
  { unfold m', rewrite_sender. rewrite bool_decide_eq_true_2 by done. apply src_element_render. }
  split; [|done]. unfold m'. rewrite rewrite_sender_read by (done || by rewrite Hr).
  unfold as_read, rewrite_sender. cbn -[lit]. by rewrite Hr.
Qed.

(** C34: for a message that has STRUCTURED-DATA, the space [rewrite_sender] puts
    between it and its own element ends the field: the receiver sees the
    original STRUCTURED-DATA, and a MSG that starts with the
    [logfence-src@65944] element instead of the JSON payload. *)
Theorem rewrite_sender_corrupts_msg pid m host :
  wf_message m -> structured_data m <> lit "-" ->
  field_ok 255 (Some host) -> 0 <= pid <= u32_max ->
  parse (display (rewrite_sender pid m host)) = Ok (misread pid m host)
  /\ starts_with (lit "[logfence-src@65944 ") (msg (misread pid m host)) = true.
Proof.
  intros Hw Hsd Hh Hp. pose proof (read_host_field host Hh) as Hr. split; [|done].
  rewrite rewrite_sender_misread by (done || by rewrite Hr).
  unfold as_read, misread. cbn -[lit]. by rewrite Hr.
Qed.

Definition plain_msg : SyslogMessage :=
  mkMessage (mkPriority User Info) None (Some (lit "web]1")) None (Some (lit "42")) None (lit "-")
    (lit "{}").

Definition sd_msg : SyslogMessage :=
  mkMessage (mkPriority User Info) None (Some (lit "web1")) None (Some (lit "42")) None (lit "[a@1]")
    (lit "{}").

Lemma wf_by_parsing m :
  utf8_valid (display m) = true -> parse (display m) = Ok m -> wf_message m.
Proof. apply parse_wf. Qed.

Lemma rewrite_sender_roundtrip_witness :
  let m' := rewrite_sender 7 plain_msg (lit "fence") in
  parse (display m') = Ok m' /\ structured_data m' = render_sd [src_sd plain_msg]
  /\ msg m' = msg plain_msg.
Proof.
  apply rewrite_sender_roundtrip; [apply wf_by_parsing; by vm_compute|done|by apply (bool_decide_unpack _); vm_compute|by vm_compute].
Defined.

Lemma rewrite_sender_corrupts_msg_witness :
  parse (display (rewrite_sender 7 sd_msg (lit "fence"))) = Ok (misread 7 sd_msg (lit "fence"))
  /\ starts_with (lit "[logfence-src@65944 ") (msg (misread 7 sd_msg (lit "fence"))) = true.
Proof.
  apply rewrite_sender_corrupts_msg; [apply wf_by_parsing; by vm_compute|done|by apply (bool_decide_unpack _); vm_compute|by vm_compute].
Defined.
