(* ===== verification/Received.v ===== *)
(** * What rsyslog reads

    The fence composed with the parser: for every text a session sends, what
    a receiver that parses it gets. *)

From stdpp Require Import prelude strings list gmap.
From Stdlib Require Import ZArith Lia.
From S2P Require Import Prelude RustStd Syslog SyslogFacts Timestamp StructuredData SyslogRoundtrip.
From S2P Require Import Frame Config Json Validator Sample Metrics Effects Forwarder Session SessionFacts.
From S2P Require Import SenderRewrite.

Section Received.
  Context {number serde_error schema schema_error : Type}.
  Context `{!SerdeJson number serde_error} `{!JsonSchema number schema schema_error}.
  Context `{!SerdeJsonLaws number serde_error}.
  Variable debug_char : Z -> bytes.
  Variable process_id : Z.
  Variable cfg : SessionConfig.

(** An accepted message as the receiver reads it: as it was prepared; under
    the daemon's identity when the sender is rewritten, and then with the
    identity element in MSG if there was STRUCTURED-DATA before. *)
Definition received (v : Validator schema) (m : SyslogMessage) : SyslogMessage :=
  let p := into_owned (prepare_for_forwarding v m) in
  match sc_sender_mode cfg with
  | Original => p
  | Logfenced =>
      as_read (if bool_decide (structured_data p = lit "-")
               then rewrite_sender process_id p (sc_local_hostname cfg)
               else misread process_id p (sc_local_hostname cfg))
  end.

(** A text from which the receiver reads an accepted message of the input, or
    a report, in full. *)
Definition arrives (vs : list (Validator schema)) (input wire : bytes) : Prop :=
  let says := spoken (session_frame_of cfg) (session_bad_frame cfg) input in
  let wrong := faulty (session_frame_of cfg) (session_bad_frame cfg) input in
  (exists v m, v ∈ vs /\ says m /\ validate v m = Ok tt /\ parse wire = Ok (received v m))
  \/ (exists payload, report_payload debug_char vs cfg says wrong payload
       /\ parse wire = Ok (as_read (rejection_report process_id (sc_local_hostname cfg) payload))).

(** ** Preparing keeps a message well formed *)

Lemma wf_msg_suffix p s : wf_msg (p ++ s) -> wf_msg s.
Proof.
  intros Hw c Hc. apply Hw. destruct s as [|d s]; [done|]. by rewrite last_app_ne.
Qed.

Lemma wf_msg_prefix p s : (forall c, last p = Some c -> trimmed c = false) -> wf_msg s -> wf_msg (p ++ s).
Proof.
  intros Hp Hs c. destruct s as [|d s]; [rewrite app_nil_r; apply Hp|].
  rewrite last_app_ne by done. apply Hs.
Qed.

Lemma forwarded_payload_wf (v : Validator schema) s : wf_msg s -> wf_msg (forwarded_payload v s).
Proof.
  intros Hs. assert (Hp : wf_msg (payload s)).
  { unfold payload. destruct (starts_with CEE_COOKIE s) eqn:E; [|done].
    apply starts_with_cookie in E. rewrite E in Hs. by apply wf_msg_suffix in Hs. }
  unfold forwarded_payload, canonicalize_json. destruct (v_canonical_json v); [|done].
  destruct (from_str _) as [|val]; [done|]. destruct (to_string _) as [|t] eqn:E; [done|].
  intros c. by eapply to_string_trimmed.
Qed.

Lemma prepare_wf (v : Validator schema) m :
  wf_message m -> wf_message (into_owned (prepare_for_forwarding v m)).
Proof.
  intros (Ht & Hh & Ha & Hp & Hi & Hs & Hm). rewrite prepare_eq. split_and!; try done.
  cbn [msg set_msg]. apply (forwarded_payload_wf v) in Hm. unfold add_cookie.
  repeat case_match; try done; apply wf_msg_prefix; try done; by intros c [= <-].
Qed.

(** ** Every frame carries a well-formed message *)

Lemma session_frame_wf fr m : session_frame_of cfg fr m -> wf_message m.
Proof.
  unfold session_frame_of. destruct (sc_framing cfg); intros (body & _ & Hu & Hp); by eapply parse_wf.
Qed.

Section Sent.
  Hypothesis hostname_ok : field_ok 255 (read_host (sc_local_hostname cfg)).
  Hypothesis pid_u32 : 0 <= process_id <= u32_max.

Lemma outgoing_received v m :
  wf_message m -> parse (display (outgoing process_id cfg v m)) = Ok (received v m).
Proof.
  intros Hw. apply (prepare_wf v) in Hw. unfold outgoing, received.
  destruct (sc_sender_mode cfg); [by apply parse_display_wf|].
  case_bool_decide; [by apply rewrite_sender_read|by apply rewrite_sender_misread].
Qed.

Lemma report_received payload :
  parse (display (rejection_report process_id (sc_local_hostname cfg) payload))
  = Ok (as_read (rejection_report process_id (sc_local_hostname cfg) payload)).
Proof.
  rewrite <- as_read_display. apply parse_display_wf. unfold rejection_report.
  apply own_header_wf; try done; [by left|]. intros c. apply value_display_trimmed.
Qed.

(** C16: what rsyslog reads.  On a host whose name is a valid HOSTNAME or is not
    known, whatever a client sends and whatever the system answers, every text
    of the session parses as an RFC 5424 message, and the receiver reads from
    it exactly an accepted message of the client as it was prepared (and
    rewritten), or exactly a report of the daemon, every field of it; the one
    place where it reads something else than was composed is the sender
    rewrite of a message with STRUCTURED-DATA, whose identity element is read
    as the start of MSG. *)
Theorem session_sends_messages `{!DecodeEof OctetCountCodec} `{!DecodeEof DelimiterCodec}
    `{!DecodeEofLaws OctetCountCodec} `{!DecodeEofLaws DelimiterCodec}
    f reads (w : World (Validator schema)) :
  trace w = [] ->
  Forall (fenced (arrives (current w :: omap id (updates w)) (input_of reads)))
    (trace (snd (run_session debug_char process_id f cfg reads w))).
Proof.
  intros Ht. eapply Forall_impl; [by apply session_fenced|].
  assert (Ha : forall wire, session_allowed debug_char process_id (current w :: omap id (updates w)) cfg
                 (input_of reads) wire -> arrives (current w :: omap id (updates w)) (input_of reads) wire).
  { intros wire [(v & m & Hv & Hm & Ho & ->)|(payload & Hp & ->)]; [left|right].
    - exists v, m. split_and!; try done. apply outgoing_received.
      destruct Hm as (p & fr & q & _ & _ & Hf). by eapply session_frame_wf.
    - exists payload. split; [done|apply report_received]. }
  intros [] He; cbn [fenced] in *; try done; [by apply Ha|].
  destruct He as (wire & -> & Hw). exists wire. split; [done|by apply Ha].
Qed.

End Sent.
End Received.

(** A rejected and an accepted message, and bytes that are no message, under
    the daemon's identity. *)
Lemma session_sends_messages_witness :
  let cfg := mkSessionConfig OctetCount 1024 Logfenced (lit "fence") (lit "<anonymous>") in
  let reads := [inr (octet_frame bad_msg ++ octet_frame sample_msg); inr (lit "3 foo"); inr []] in
  let w' := snd (run_session (fun _ => []) 7 sample_forwarder cfg reads (good_world strict_b)) in
  length (trace w') = 3%nat
  /\ Forall (fenced (arrives (fun _ => []) 7 cfg [strict_b] (input_of reads))) (trace w').
Proof.
  intros cfg reads w'. split; [by vm_compute|].
  refine (session_sends_messages (fun _ => []) 7 cfg _ _ sample_forwarder reads (good_world strict_b) eq_refl).
  - by apply (bool_decide_unpack _); vm_compute.
  - by vm_compute.
Defined.
