(* ===== verification/DatagramListener.v ===== *)
(** * Datagram listener: [logfence-daemon/src/datagram_listener.rs]

    Per-datagram processing as a task over [Effects]; the receive loop and
    its pool of workers as a transition system, so that every interleaving of
    the loop and the workers is covered. *)

From stdpp Require Import prelude strings list gmap.
From Stdlib Require Import ZArith Lia.
From S2P Require Import Prelude RustStd Syslog SyslogFacts Timestamp StructuredData SyslogRoundtrip.
From S2P Require Import Frame Config Json Validator Sample Metrics Effects Forwarder Session.
From S2P Require Import SessionFacts.

Definition WORKER_CHANNEL_CAP : nat := 256.
Definition RECV_BUFFER_SIZE : Z := 1024 * 1024.
Definition SHUTDOWN_DRAIN_TIMEOUT_SECS : Z := 30.

(** ** One datagram *)

Section Process.
  Context {number serde_error schema schema_error : Type}.
  Context `{!SerdeJson number serde_error} `{!JsonSchema number schema schema_error}.
  Variable debug_char : Z -> bytes.
  Variable process_id : Z.

Definition process_datagram (f : Forwarder) (cfg : SessionConfig) (msg_bytes : bytes)
    : IO (Validator schema) unit :=
  match from_utf8 msg_bytes with
  | None =>
      report_rejection process_id f (sc_local_hostname cfg)
        (problem_payload cfg (lit "invalid UTF-8 encoding"))
  | Some raw =>
      match parse raw with
      | Ok m => handle_message process_id f cfg m
      | Err e =>
          report_rejection process_id f (sc_local_hostname cfg)
            (problem_payload cfg (lit "syslog parse error: " ++ ParseError_display debug_char e))
      | Panic => panic
      end
  end.

(** [SessionConfig { peer, ..base_cfg.clone() }] *)
Definition with_peer (cfg : SessionConfig) (peer : bytes) : SessionConfig :=
  mkSessionConfig (sc_framing cfg) (sc_max_message_size cfg) (sc_sender_mode cfg)
    (sc_local_hostname cfg) peer.

(** The worker on the datagrams that reach its channel before it is closed. *)
Fixpoint run_worker (f : Forwarder) (base_cfg : SessionConfig) (rx : list (bytes * bytes))
    : IO (Validator schema) unit :=
  match rx with
  | [] => mret tt
  | (msg_bytes, peer) :: r =>
      process_datagram f (with_peer base_cfg peer) msg_bytes;; run_worker f base_cfg r
  end.

End Process.

(** The [SessionConfig] template of [run]. *)
Definition base_config (cfg : DaemonConfig) (local_hostname : bytes) : SessionConfig :=
  mkSessionConfig (framing cfg) (max_message_size cfg) (sender cfg) local_hostname
    (lit "<anonymous>").

(** ** Receiving *)

(** A datagram with its peer. *)
Abbreviation item := (bytes * bytes)%type.

(** Phase 1: the results of [try_recv_from] (the datagram as it was sent and
    the sender's path name, if it has one) up to the first error; any error
    ends the drain.  Of a datagram that is longer than the receive buffer the
    kernel copies what fits and discards the rest. *)
Fixpoint drain (buf_len : Z) (results : list (io_error + bytes * option bytes)) : list item :=
  match results with
  | inr (d, addr) :: r =>
      (take (Z.to_nat buf_len) d, default (lit "<anonymous>") addr) :: drain buf_len r
  | inl _ :: _ => []
  | [] => []
  end.

(** Whether processing the datagram unwinds the worker: exactly when the
    parser does ([process_datagram_panics] below). *)
Definition datagram_panics (it : item) : bool :=
  match from_utf8 (fst it) with
  | Some raw => match parse raw with Panic => true | _ => false end
  | None => false
  end.

(** A worker task and its channel; [in_hand] is the datagram it is processing,
    [processed] the history of those it is done with. *)
Record Worker : Type := mkWorker {
  alive : bool;
  queue : list item;
  in_hand : option item;
  processed : list item
}.

(** The items a worker has taken off its channel. *)
Definition taken (w : Worker) : list item := processed w ++ option_list (in_hand w).

(** Where the receive loop is. *)
Inductive Phase : Type :=
| Idle                             (** at the [select!] *)
| Dispatch (batch : list item)     (** phase 2, with the items left *)
| Stopped.                         (** after [break 'recv] or [break] *)

(** [dispatched] is history: the items handed to channels so far. *)
Record LState : Type := mkLState {
  workers : list Worker;
  worker_idx : nat;
  phase : Phase;
  shutdown_requested : bool;
  received_items : list item;
  dispatched : list item
}.

Definition new_worker : Worker := mkWorker true [] None [].

Definition init_state (num_workers : nat) : LState :=
  mkLState (replicate num_workers new_worker) 0 Idle false [] [].

Definition push (w : Worker) (it : item) : Worker :=
  mkWorker (alive w) (queue w ++ [it]) (in_hand w) (processed w).

(** One step of the listener or of a worker.  [max_message_size] is the length
    of the receive buffer.  A worker takes a datagram in one step and is done
    with it in another: in between it waits for the forwarder, for as long as
    that takes. *)
Inductive step (max_message_size : Z) : LState -> LState -> Prop :=
| step_shutdown_request s :
    step max_message_size s (mkLState (workers s) (worker_idx s) (phase s) true (received_items s) (dispatched s))
| step_shutdown s :
    phase s = Idle -> shutdown_requested s = true ->
    step max_message_size s (mkLState (workers s) (worker_idx s) Stopped true (received_items s) (dispatched s))
| step_receive s results :
    phase s = Idle -> shutdown_requested s = false ->
    step max_message_size s (mkLState (workers s) (worker_idx s) (Dispatch (drain max_message_size results)) false
              (received_items s ++ drain max_message_size results) (dispatched s))
| step_dispatch s it batch w :
    phase s = Dispatch (it :: batch) -> workers s !! worker_idx s = Some w -> alive w = true ->
    (length (queue w) < WORKER_CHANNEL_CAP)%nat ->
    step max_message_size s (mkLState (<[worker_idx s := push w it]> (workers s))
              ((worker_idx s + 1) mod length (workers s)) (Dispatch batch)
              (shutdown_requested s) (received_items s) (dispatched s ++ [it]))
| step_closed s it batch w :
    phase s = Dispatch (it :: batch) -> workers s !! worker_idx s = Some w -> alive w = false ->
    step max_message_size s (mkLState (workers s) (worker_idx s) Stopped (shutdown_requested s)
              (received_items s) (dispatched s))
| step_batch_done s :
    phase s = Dispatch [] ->
    step max_message_size s (mkLState (workers s) (worker_idx s) Idle (shutdown_requested s)
              (received_items s) (dispatched s))
| step_take s i w it q :
    workers s !! i = Some w -> alive w = true -> in_hand w = None -> queue w = it :: q ->
    step max_message_size s (mkLState (<[i := mkWorker true q (Some it) (processed w)]> (workers s))
              (worker_idx s) (phase s) (shutdown_requested s) (received_items s) (dispatched s))
| step_finish s i w it :
    workers s !! i = Some w -> alive w = true -> in_hand w = Some it ->
    step max_message_size s
      (mkLState (<[i := mkWorker (negb (datagram_panics it)) (queue w) None (processed w ++ [it])]> (workers s))
              (worker_idx s) (phase s) (shutdown_requested s) (received_items s) (dispatched s)).

Definition reachable (max_message_size : Z) (n : nat) (s : LState) : Prop :=
  rtc (step max_message_size) (init_state n) s.

(** ** Processing keeps the fence and the counters *)

Section ProcessFacts.
  Context {number serde_error schema schema_error : Type}.
  Context `{!SerdeJson number serde_error} `{!JsonSchema number schema schema_error}.
  Variable debug_char : Z -> bytes.
  Variable process_id : Z.

(** [handle_message] and the reports do not unwind. *)
Lemma forward_no_panic f m : no_panic (forward f m : IO (Validator schema) _).
Proof.
  unfold forward. destruct (inner f) as [path|path].
  - apply no_panic_bind; [intros w; apply send_dgram_no_panic|]. intros [e|_]; [|done].
    apply no_panic_bind; [|done]. by repeat case_match.
  - intros w. unfold connect_stream, try_io, mbind, IO_bind, is_connected, mret, IO_ret, syscall,
      set_connected, add_event, set_answers, set_connected_w.
    destruct w as [ans tr [] ca st cu up]; simpl; [by repeat case_match|].
    do 5 (destruct ans as [|[?|[]] ans]; simpl; [done|done|]). done.
Qed.

Lemma report_no_panic f h payload :
  no_panic (report_rejection process_id f h payload : IO (Validator schema) _).
Proof. apply no_panic_bind; [apply forward_no_panic|done]. Qed.

Lemma handle_message_no_panic f cfg m :
  no_panic (handle_message process_id f cfg m : IO (Validator schema) _).
Proof.
  apply no_panic_bind; [done|]. intros _. apply no_panic_bind.
  { intros w. unfold borrow. by repeat case_match. }
  intros v. destruct (validate v m) eqn:E.
  - apply no_panic_bind; [apply forward_no_panic|]. by intros [].
  - apply no_panic_bind; [done|]. intros _. apply report_no_panic.
  - by apply validate_no_panic in E.
Qed.

(** A worker unwinds on a datagram exactly when the parser does. *)
Lemma process_datagram_panics f cfg b peer (w : World (Validator schema)) :
  fst (process_datagram debug_char process_id f cfg b w) = Panicked
  <-> datagram_panics (b, peer) = true.
Proof.
  unfold process_datagram, datagram_panics. cbn [fst].
  destruct (from_utf8 b) as [raw|]; [destruct (parse raw) as [m|e|]|].
  - split; [|done]. intros H. by apply handle_message_no_panic in H.
  - split; [|done]. intros H. by apply report_no_panic in H.
  - done.
  - split; [|done]. intros H. by apply report_no_panic in H.
Qed.

(** What a datagram is: a message, or one of two faults. *)
Definition datagram_says (b : bytes) (m : SyslogMessage) : Prop := utf8_valid b = true /\ parse b = Ok m.

Definition datagram_wrong (b : bytes) (e : FrameError) : Prop :=
  match e with
  | FrameInvalidUtf8 => utf8_valid b = false
  | Parse pe => utf8_valid b = true /\ parse b = Err pe
  | _ => False
  end.

Lemma fence_process_datagram vs cfg f b ok :
  (forall wire, allowed debug_char process_id vs cfg (datagram_says b) (datagram_wrong b) wire -> ok wire) ->
  keeps (fence_inv vs ok) (process_datagram debug_char process_id f cfg b).
Proof.
  intros Hok. unfold process_datagram, from_utf8.
  destruct (utf8_valid b) eqn:Eu; [|by apply (fence_problem _ _ _ _ _ _ _ Hok _ FrameInvalidUtf8)].
  destruct (parse b) as [m|e|] eqn:Em; [| |by intros w Hw].
  2:{ by apply (fence_problem _ _ _ _ _ _ _ Hok _ (Parse e)). }
  by eapply fence_handle_message.
Qed.

(** C24: the fence holds for datagrams too.  Whatever datagrams reach a worker, from
    whichever peers, and whatever the system answers: at any moment, what the worker
    has sent is the outgoing form of a message that one of those datagrams is
    and that a configured validator accepted, or a report, under the peer's
    name, on such a message that was rejected or on a datagram that is no
    UTF-8 or no message. *)
Theorem datagram_fence f base_cfg rx (w : World (Validator schema)) :
  trace w = [] ->
  Forall (fenced (fun wire => exists b peer, (b, peer) ∈ rx
            /\ allowed debug_char process_id (current w :: omap id (updates w)) (with_peer base_cfg peer)
                 (datagram_says b) (datagram_wrong b) wire))
    (trace (snd (run_worker debug_char process_id f base_cfg rx w))).
Proof.
  intros Ht. apply (fence_trace (current w :: omap id (updates w))); [|by apply fence_inv_init].
  generalize (current w :: omap id (updates w)) as vs. intros vs.
  match goal with |- keeps ?I _ => cut (forall items, (forall it, it ∈ items -> it ∈ rx) ->
    keeps I (run_worker debug_char process_id f base_cfg items)); [by eauto|] end.
  induction items as [|[b peer] items IH]; intros Hin; cbn [run_worker]; [apply keeps_ret|].
  apply keeps_bind.
  - apply fence_process_datagram. intros wire Ha. exists b, peer. split; [|done]. apply Hin. by left.
  - intros _. apply IH. intros it Hit. apply Hin. by right.
Qed.

(** A worker keeps the books like a session does. *)
Lemma accounted_run_worker f base_cfg rx :
  accounted (run_worker debug_char process_id f base_cfg rx : IO (Validator schema) unit).
Proof.
  induction rx as [|[b peer] rx IH]; cbn [run_worker]; [apply accounted_ret|].
  apply accounted_bind; [|intros _; exact IH]. unfold process_datagram.
  destruct (from_utf8 b) as [raw|]; [|apply accounted_report].
  destruct (parse raw) as [m|e|]; [apply accounted_handle_message|apply accounted_report|].
  apply accounted_stop. by right.
Qed.

End ProcessFacts.

Lemma datagram_fence_witness :
  let rx := [(display bad_msg, lit "/run/a"); (display sample_msg, lit "/run/b")] in
  let w' := snd (run_worker (fun _ => []) 7 sample_forwarder sample_cfg rx (good_world strict_b)) in
  length (trace w') = 2%nat
  /\ Forall (fenced (fun wire => exists b peer, (b, peer) ∈ rx
            /\ allowed (number := nat) (fun _ => []) 7 [strict_b] (with_peer sample_cfg peer)
                 (datagram_says b) (datagram_wrong b) wire)) (trace w').
Proof.
  split; [by vm_compute|].
  exact (datagram_fence (fun _ => []) 7 sample_forwarder sample_cfg
           [(display bad_msg, lit "/run/a"); (display sample_msg, lit "/run/b")]
           (good_world strict_b) eq_refl).
Defined.

(** ** The pool *)

(** The items of [l] at positions equal to [j] modulo [n]. *)
Fixpoint share_from {A} (n j k : nat) (l : list A) : list A :=
  match l with
  | [] => []
  | x :: r => (if bool_decide (k mod n = j)%nat then [x] else []) ++ share_from n j (S k) r
  end.

Definition share {A} (n j : nat) (l : list A) : list A := share_from n j 0 l.

Lemma share_from_snoc {A} n j k (l : list A) x :
  share_from n j k (l ++ [x]) =
  share_from n j k l ++ (if bool_decide ((k + length l) mod n = j)%nat then [x] else []).
Proof.
  revert k. induction l as [|y l IH]; intros k; cbn [app share_from length].
  - rewrite Nat.add_0_r. apply app_nil_r.
  - rewrite IH, <- app_assoc. do 2 f_equal. by rewrite Nat.add_succ_r.
Qed.

Lemma share_snoc {A} n j (l : list A) x :
  share n j (l ++ [x]) = share n j l ++ (if bool_decide (length l mod n = j)%nat then [x] else []).
Proof. exact (share_from_snoc n j 0 l x). Qed.

Lemma share_sublist {A} n j k (l : list A) : share_from n j k l `sublist_of` l.
Proof.
  revert k. induction l as [|x l IH]; intros k; cbn [share_from]; [done|].
  case_bool_decide; cbn [app]; by constructor.
Qed.

Section PoolInv.
  Variable buf_len : Z.

(** The items still to dispatch. *)
Definition pending (s : LState) : list item :=
  match phase s with Dispatch batch => batch | _ => [] end.

(** Round robin: worker [j] was handed the items at positions [j], [j + n],
    ... of what was dispatched; the next one is next in turn; nothing is lost
    before it is dispatched unless the loop stopped; no channel overflows. *)
Record pool_inv (n : nat) (s : LState) : Prop := {
  pool_size : length (workers s) = n;
  pool_next : worker_idx s = (length (dispatched s) mod n)%nat;
  pool_share j w : workers s !! j = Some w -> taken w ++ queue w = share n j (dispatched s);
  pool_order : phase s <> Stopped -> received_items s = dispatched s ++ pending s;
  pool_cap j w : workers s !! j = Some w -> (length (queue w) <= WORKER_CHANNEL_CAP)%nat;
  pool_stopped : phase s = Stopped ->
    shutdown_requested s = true \/ exists j w, workers s !! j = Some w /\ alive w = false
}.

Lemma pool_init n : pool_inv n (init_state n).
Proof.
  split; cbn.
  - apply length_replicate.
  - by rewrite Nat.Div0.mod_0_l.
  - intros j w [-> _]%lookup_replicate. done.
  - done.
  - intros j w [-> _]%lookup_replicate. cbn. lia.
  - done.
Qed.

(** A step of worker [i] that keeps its items. *)
Lemma pool_worker_step n s i w w' :
  pool_inv n s -> workers s !! i = Some w -> alive w = true ->
  taken w' ++ queue w' = share n i (dispatched s) /\ (length (queue w') <= WORKER_CHANNEL_CAP)%nat ->
  pool_inv n (mkLState (<[i := w']> (workers s)) (worker_idx s) (phase s) (shutdown_requested s)
                (received_items s) (dispatched s)).
Proof.
  intros [Hsz Hnx Hsh Hor Hcap Hst] Hw Ha [Hs' Hc']. pose proof (lookup_lt_Some _ _ _ Hw) as Hlt.
  split; cbn [workers worker_idx phase shutdown_requested received_items dispatched]; try done.
  - by rewrite length_insert.
  - intros j wj. destruct (decide (j = i)) as [->|Hne].
    + rewrite list_lookup_insert_eq by done. by intros [= <-].
    + rewrite list_lookup_insert_ne by done. apply Hsh.
  - intros j wj. destruct (decide (j = i)) as [->|Hne].
    + rewrite list_lookup_insert_eq by done. by intros [= <-].
    + rewrite list_lookup_insert_ne by done. apply Hcap.
  - intros Hx. destruct (Hst Hx) as [|(j & wj & Hj & Hd)]; [by left|right].
    destruct (decide (j = i)) as [->|Hne]; [congruence|].
    exists j, wj. by rewrite list_lookup_insert_ne.
Qed.

Lemma pool_step n s s' : pool_inv n s -> step buf_len s s' -> pool_inv n s'.
Proof.
  intros Hi Hs. pose proof Hi as [Hsz Hnx Hsh Hor Hcap Hst].
  destruct Hs as [s|s Hp Hr|s results Hp Hr|s it batch w Hp Hw Ha Hq|s it batch w Hp Hw Ha|s Hp
                 |s i w it q Hw Ha Hh Hq|s i w it Hw Ha Hh].
  - split; try done. intros Hx. destruct (Hst Hx); [by left|by right].
  - split; try done. by left.
  - split; try done. intros _. cbn. rewrite (Hor ltac:(congruence)). unfold pending.
    by rewrite Hp, app_nil_r.
  - assert (Hn : (0 < n)%nat) by (apply lookup_lt_Some in Hw; lia).
    split; cbn [workers worker_idx phase shutdown_requested received_items dispatched].
    + by rewrite length_insert.
    + rewrite length_app, Hsz, Hnx. cbn [length]. by rewrite Nat.Div0.add_mod_idemp_l.
    + intros j w'. rewrite share_snoc, <- Hnx. destruct (decide (j = worker_idx s)) as [->|Hne].
      * rewrite list_lookup_insert_eq by (by eapply lookup_lt_Some). intros [= <-]. cbn.
        rewrite bool_decide_eq_true_2 by done. unfold taken in *. cbn. rewrite app_assoc. by rewrite (Hsh _ _ Hw).
      * rewrite list_lookup_insert_ne by done. intros Hj.
        rewrite bool_decide_eq_false_2 by done. rewrite app_nil_r. by apply Hsh.
    + intros _. rewrite (Hor ltac:(congruence)). unfold pending. rewrite Hp. cbn.
      by rewrite <- app_assoc.
    + intros j w'. destruct (decide (j = worker_idx s)) as [->|Hne].
      * rewrite list_lookup_insert_eq by (by eapply lookup_lt_Some). intros [= <-]. cbn.
        rewrite length_app. cbn [length]. lia.
      * rewrite list_lookup_insert_ne by done. apply Hcap.
    + done.
  - split; try done. intros _. right. eauto.
  - split; try done. intros _. cbn. rewrite (Hor ltac:(congruence)). unfold pending. by rewrite Hp.
  - apply pool_worker_step with w; try done. cbn. rewrite <- (Hsh _ _ Hw). unfold taken. rewrite Hh, Hq. cbn.
    rewrite app_nil_r, <- app_assoc. split; [done|]. specialize (Hcap _ _ Hw). rewrite Hq in Hcap. cbn in Hcap. lia.
  - apply pool_worker_step with w; try done. cbn. rewrite <- (Hsh _ _ Hw). unfold taken. rewrite Hh. cbn.
    rewrite app_nil_r. split; [done|]. by apply (Hcap i).
Qed.

Lemma pool_reachable n s : reachable buf_len n s -> pool_inv n s.
Proof.
  unfold reachable. intros H. apply rtc_ind_r with (P := pool_inv n) in H; [done|apply pool_init|].
  intros s1 s2 _ Hs Hi. by eapply pool_step.
Qed.

(** C25: dispatch.  In every reachable state, under any interleaving of the loop and
    the workers, worker [j] has been handed, in order, exactly the datagrams
    at positions [j], [j + n], ... of those dispatched (the ones it has
    processed, the one in hand, and those in its channel), each channel holds
    at most its capacity, and while the loop runs the datagrams received are
    those dispatched followed by the rest of the batch: none is lost,
    duplicated or reordered on the way. *)
Theorem datagram_dispatch n s :
  reachable buf_len n s ->
  (forall j w, workers s !! j = Some w ->
     processed w ++ option_list (in_hand w) ++ queue w = share n j (dispatched s)
     /\ (length (queue w) <= WORKER_CHANNEL_CAP)%nat)
  /\ (phase s <> Stopped -> received_items s = dispatched s ++ pending s).
Proof.
  intros Hr. apply pool_reachable in Hr as [_ _ Hsh Hor Hcap _]. split; [|done]. intros j w Hw.
  rewrite app_assoc. eauto.
Qed.

(** The receive loop ends only when shutdown was requested or some worker has
    unwound. *)
Theorem datagram_stops_because n s :
  reachable buf_len n s -> phase s = Stopped ->
  shutdown_requested s = true
  \/ exists j w, workers s !! j = Some w /\ alive w = false.
Proof. intros Hr. apply pool_reachable in Hr as [_ _ _ _ _ Hst]. exact Hst. Qed.

(** *** A worker that unwound *)

(** Worker [j] is gone, and the loop has not passed position [b], which is
    [j]'s turn. *)
Definition blocked_at (n j b : nat) (s : LState) : Prop :=
  pool_inv n s /\ (b mod n = j)%nat /\ (length (dispatched s) <= b)%nat
  /\ exists w, workers s !! j = Some w /\ alive w = false.

Lemma blocked_step n j b s s' : blocked_at n j b s -> step buf_len s s' -> blocked_at n j b s'.
Proof.
  intros (Hi & Hb & Hl & w0 & Hw0 & Hd) Hs. split; [by eapply pool_step|]. split; [done|].
  destruct Hs as [s|s Hp Hr|s results Hp Hr|s it batch w Hp Hw Ha Hq|s it batch w Hp Hw Ha|s Hp
                 |s i w it q Hw Ha Hh Hq|s i w it Hw Ha Hh]; try (split; [done|by eauto]);
    cbn [workers worker_idx phase shutdown_requested received_items dispatched].
  - assert (Hne : worker_idx s <> j) by (intros E; rewrite E in Hw; congruence). split.
    + rewrite length_app. cbn [length].
      assert (length (dispatched s) <> b); [|lia].
      intros E. apply Hne. by rewrite (pool_next _ _ Hi), E.
    + exists w0. by rewrite list_lookup_insert_ne.
  - split; [done|]. exists w0. rewrite list_lookup_insert_ne; [done|]. intros ->. congruence.
  - split; [done|]. exists w0. rewrite list_lookup_insert_ne; [done|]. intros ->. congruence.
Qed.

Lemma next_turn n j d :
  (j < n)%nat -> exists b, (b mod n = j)%nat /\ (d <= b)%nat /\ (b < d + n)%nat.
Proof.
  intros Hj. assert (Hn : (n <> 0)%nat) by lia.
  pose proof (Nat.mod_upper_bound d n Hn). pose proof (Nat.div_mod_eq d n) as Hd.
  destruct (Nat.le_gt_cases (d mod n) j).
  - exists (n * (d / n) + j)%nat. rewrite Nat.add_comm, Nat.mul_comm, Nat.Div0.mod_add, Nat.mod_small by done.
    split; [done|]. lia.
  - exists (n * (d / n + 1) + j)%nat.
    rewrite Nat.add_comm, Nat.mul_comm, Nat.Div0.mod_add, Nat.mod_small by done. split; [done|]. lia.
Qed.

(** C26: one unwound worker ends reception.  Once some worker is gone, fewer than
    [n] further datagrams are ever dispatched, whatever arrives: the worker
    is not replaced and the loop stops at its turn. *)
Theorem dead_worker_ends_reception n s s' j w :
  reachable buf_len n s -> workers s !! j = Some w -> alive w = false -> rtc (step buf_len) s s' ->
  (length (dispatched s') < length (dispatched s) + n)%nat.
Proof.
  intros Hr Hw Hd Hs. apply pool_reachable in Hr as Hi.
  pose proof (lookup_lt_Some _ _ _ Hw) as Hj. rewrite (pool_size _ _ Hi) in Hj.
  destruct (next_turn n j (length (dispatched s)) Hj) as (b & Hb & Hle & Hlt).
  assert (Hbl : blocked_at n j b s) by (split; [done|]; split; [done|]; split; [done|]; eauto).
  apply rtc_ind_r with (P := blocked_at n j b) in Hs; [|exact Hbl|].
  - destruct Hs as (_ & _ & Hle' & _). lia.
  - intros s1 s2 _ Hst Hb1. by eapply blocked_step.
Qed.

End PoolInv.

(** A concrete run: one worker, one datagram the parser panics on. *)
Definition poison : item := (panic_raw, lit "<anonymous>").
Definition harmless : item := (display sample_msg, lit "<anonymous>").

Definition dead_state : LState :=
  mkLState [mkWorker false [] None [poison]] 0 Idle false [poison] [poison].

Definition stopped_state : LState :=
  mkLState [mkWorker false [] None [poison]] 0 Stopped false [poison; harmless] [poison].

Lemma dead_reachable : reachable 1024 1 dead_state.
Proof.
  set (at_ w ph := mkLState [w] 0 ph false [poison]).
  apply (rtc_l _ _ (at_ new_worker (Dispatch [poison]) [])).
  { by apply (step_receive 1024 (init_state 1) [inr (panic_raw, None)]). }
  apply (rtc_l _ _ (at_ (push new_worker poison) (Dispatch []) [poison])).
  { by apply (step_dispatch 1024 (at_ new_worker (Dispatch [poison]) []) poison [] new_worker); vm_compute; auto; lia. }
  apply (rtc_l _ _ (at_ (push new_worker poison) Idle [poison])).
  { by apply (step_batch_done 1024 (at_ (push new_worker poison) (Dispatch []) [poison])). }
  apply (rtc_l _ _ (at_ (mkWorker true [] (Some poison) []) Idle [poison])).
  { by apply (step_take 1024 (at_ (push new_worker poison) Idle [poison]) 0 (push new_worker poison) poison []). }
  apply (rtc_l _ _ dead_state); [|apply rtc_refl].
  pose proof (step_finish 1024 (at_ (mkWorker true [] (Some poison) []) Idle [poison]) 0
    (mkWorker true [] (Some poison) []) poison eq_refl eq_refl eq_refl) as H.
  by replace (negb (datagram_panics poison)) with false in H by (by vm_compute).
Qed.

Lemma dead_to_stopped : rtc (step 1024) dead_state stopped_state.
Proof.
  eapply rtc_l; [apply (step_receive 1024 _ [inr (display sample_msg, None)]); done|].
  eapply rtc_l; [by apply (step_closed 1024 _ harmless [] (mkWorker false [] None [poison]))|].
  apply rtc_refl.
Qed.

Lemma stopped_reachable : reachable 1024 1 stopped_state.
Proof. unfold reachable. etrans; [apply dead_reachable|apply dead_to_stopped]. Qed.

(** A client can end the daemon's reception with one datagram.  From the initial
    state with one worker, a valid UTF-8 datagram on which the parser panics
    leads to a state where the loop has stopped although nobody requested a
    shutdown, and the next client's well-formed datagram is never handed to a
    worker. *)
Theorem poison_datagram_stops_listener :
  utf8_valid (fst poison) = true
  /\ reachable 1024 1 stopped_state
  /\ phase stopped_state = Stopped /\ shutdown_requested stopped_state = false
  /\ harmless ∈ received_items stopped_state /\ (harmless ∉ dispatched stopped_state).
Proof.
  split; [by vm_compute|]. split; [apply stopped_reachable|].
  split; [done|]. split; [done|].
  split; [apply (bool_decide_unpack _)|apply (bool_decide_unpack _)]; by vm_compute.
Qed.

Lemma datagram_dispatch_witness :
  (forall j w, workers dead_state !! j = Some w ->
     processed w ++ option_list (in_hand w) ++ queue w = share 1 j (dispatched dead_state)
     /\ (length (queue w) <= WORKER_CHANNEL_CAP)%nat)
  /\ (phase dead_state <> Stopped ->
      received_items dead_state = dispatched dead_state ++ pending dead_state).
Proof. apply (datagram_dispatch 1024). exact dead_reachable. Defined.

Lemma datagram_stops_because_witness :
  shutdown_requested stopped_state = true
  \/ exists j w, workers stopped_state !! j = Some w /\ alive w = false.
Proof.
  apply (datagram_stops_because 1024 1); [exact stopped_reachable|done].
Defined.

Lemma dead_worker_ends_reception_witness :
  (length (dispatched stopped_state) < length (dispatched dead_state) + 1)%nat.
Proof.
  apply (dead_worker_ends_reception 1024 1 dead_state stopped_state 0 (mkWorker false [] None [poison]));
    [exact dead_reachable|done|done|exact dead_to_stopped].
Defined.
