(* ===== verification/DatagramFilter.v ===== *)
(** * The datagram pool as a filter

    What a worker sends for each datagram it is handed ([datagram_text]), and
    what the whole pool sends: the texts of the datagrams dispatched, each at
    most once, and each exactly once when rsyslog takes everything.  Each
    worker runs in a world of its own, with the answers to its own calls. *)

From stdpp Require Import prelude strings list gmap.
From Stdlib Require Import ZArith Lia.
From S2P Require Import Prelude RustStd Syslog SyslogFacts Timestamp StructuredData SyslogRoundtrip.
From S2P Require Import Config Json Validator Metrics Effects Forwarder Session SessionFacts Filter.
From S2P Require Import DatagramListener.

(** ** Round-robin shares *)

Lemma share_fmap {A B} (g : A -> B) n j (l : list A) : share n j (map g l) = map g (share n j l).
Proof.
  unfold share. generalize 0%nat as k. induction l as [|x l IH]; intros k; [done|].
  cbn [map share_from]. rewrite map_app, IH. by case_bool_decide.
Qed.

Lemma concat_map_app {A B} (g h : A -> list B) js :
  concat (map (fun j => g j ++ h j) js) ≡ₚ concat (map g js) ++ concat (map h js).
Proof. induction js as [|j js IH]; [done|]. cbn [map concat]. rewrite IH. solve_Permutation. Qed.

Lemma concat_single {A} (x : A) i a n :
  (a <= i < a + n)%nat -> concat (map (fun j => if bool_decide (i = j) then [x] else []) (seq a n)) = [x].
Proof.
  revert a. induction n as [|n IH]; intros a Hi; [lia|]. cbn [seq map concat].
  case_bool_decide as E; [|apply IH; lia]. subst i. clear. cbn [app]. f_equal.
  assert (Hlt : (a < S a)%nat) by lia. revert Hlt. generalize (S a) as b.
  induction n as [|n IH]; intros b Hb; [done|]. cbn [seq map concat].
  rewrite bool_decide_eq_false_2 by lia. apply IH. lia.
Qed.

(** The shares are the whole list. *)
Lemma shares_permutation {A} n (l : list A) :
  (0 < n)%nat -> concat (map (fun j => share n j l) (seq 0 n)) ≡ₚ l.
Proof.
  intros Hn. unfold share.
  cut (forall k, concat (map (fun j => share_from n j k l) (seq 0 n)) ≡ₚ l); [done|].
  induction l as [|x l IH]; intros k; cbn [share_from].
  - clear. generalize 0%nat as a. by induction n as [|n IH]; intros a; [|apply IH].
  - rewrite concat_map_app, concat_single, IH; [done|]. pose proof (Nat.mod_upper_bound k n). lia.
Qed.

(** ** One datagram *)

(** What the bytes of a datagram are. *)
Inductive Reading : Type :=
| IsMessage (m : SyslogMessage)
| IsProblem (problem : bytes)
| Unwinds.

Section Worker.
  Context {number serde_error schema schema_error : Type}.
  Context `{!SerdeJson number serde_error} `{!JsonSchema number schema schema_error}.
  Variable debug_char : Z -> bytes.
  Variable process_id : Z.
  Variables (f : Forwarder) (base : SessionConfig).

Definition read_datagram (b : bytes) : Reading :=
  if utf8_valid b
  then match parse b with
       | Ok m => IsMessage m
       | Err e => IsProblem (lit "syslog parse error: " ++ ParseError_display debug_char e)
       | Panic => Unwinds
       end
  else IsProblem (lit "invalid UTF-8 encoding").

Lemma read_datagram_unwinds it : read_datagram (fst it) = Unwinds <-> datagram_panics it = true.
Proof.
  unfold read_datagram, datagram_panics, from_utf8.
  destruct (utf8_valid (fst it)); [destruct (parse (fst it))|]; done.
Qed.

(** The text for rsyslog, under the validator in force when the datagram is
    judged. *)
Definition datagram_text (x : item * Validator schema) : option SyslogMessage :=
  let '((b, peer), v) := x in
  let cfg := with_peer base peer in
  match read_datagram b with
  | IsMessage m => Some (verdict process_id cfg v m)
  | IsProblem p => Some (rejection_report process_id (sc_local_hostname cfg) (problem_payload cfg p))
  | Unwinds => None
  end.

(** Only messages look at the validator. *)
Definition is_message (it : item) : bool :=
  match read_datagram (fst it) with IsMessage _ => true | _ => false end.

(** What the watch channel holds at each [borrow] of a worker that is handed
    [l]. *)
Definition looks (l : list (item * Validator schema)) : list (option (Validator schema)) :=
  map (fun x => Some (snd x)) (List.filter (fun x => is_message (fst x)) l).

Lemma looks_app a b : looks (a ++ b) = looks a ++ looks b.
Proof. unfold looks. by rewrite List.filter_app, map_app. Qed.

(** The texts of a list of datagrams as they go on the wire. *)
Definition texts (l : list (item * Validator schema)) : list bytes :=
  map (wire_form f) (omap datagram_text l).

Lemma texts_app a b : texts (a ++ b) = texts a ++ texts b.
Proof. unfold texts. by rewrite omap_app, map_app. Qed.

(** A report delivers its text or nothing. *)
Lemma report_delivers h p (w : World (Validator schema)) :
  let w' := snd (report_rejection process_id f h p w) in
  updates w' = updates w /\ exists d, delivered (trace w') = delivered (trace w) ++ d
    /\ d `sublist_of` [wire_form f (rejection_report process_id h p)].
Proof.
  unfold report_rejection, mbind, IO_bind.
  pose proof (forward_delivers f (rejection_report process_id h p) w) as Hf.
  destruct (forward f _ w) as [[[e|[]]| |] w1]; destruct Hf as (Hd & _ & _ & Hu); cbn; (split; [done|]);
    try (exists []; rewrite app_nil_r; split; [done|apply sublist_nil_l]).
  by eexists.
Qed.

Lemma process_datagram_delivers b peer v rest (w : World (Validator schema)) :
  updates w = looks [((b, peer), v)] ++ rest ->
  let w' := snd (process_datagram debug_char process_id f (with_peer base peer) b w) in
  updates w' = rest /\ exists d, delivered (trace w') = delivered (trace w) ++ d
    /\ d `sublist_of` texts [((b, peer), v)].
Proof.
  unfold texts, looks, is_message, process_datagram, from_utf8, datagram_text, read_datagram. cbn [List.filter fst omap list_omap].
  destruct (utf8_valid b) eqn:Eu; [destruct (parse b) as [m|e|] eqn:Ep|]; cbn [map app]; intros Hu.
  - pose proof (handle_message_delivers process_id f (with_peer base peer) m w) as Hm. rewrite Hu in Hm.
    destruct (handle_message _ _ _ m w) as [o w1]. destruct Hm as (d & Hd & Hs & _ & Hu'). cbn [snd].
    rewrite Hu in Hu'. eauto.
  - rewrite <- Hu. apply report_delivers.
  - split; [done|]. exists []. by rewrite app_nil_r.
  - rewrite <- Hu. apply report_delivers.
Qed.

Lemma process_datagram_ready n b peer v rest (w : World (Validator schema)) :
  updates w = looks [((b, peer), v)] ++ rest -> ready f (S n) w -> datagram_panics (b, peer) = false ->
  exists w', process_datagram debug_char process_id f (with_peer base peer) b w = (Done tt, w')
    /\ ready f n w' /\ updates w' = rest
    /\ delivered (trace w') = delivered (trace w) ++ texts [((b, peer), v)].
Proof.
  assert (Hrep : forall h p, ready f (S n) w -> exists w',
    report_rejection process_id f h p w = (Done tt, w') /\ ready f n w' /\ updates w' = updates w
    /\ delivered (trace w') = delivered (trace w) ++ [wire_form f (rejection_report process_id h p)]).
  { intros h p Hr. destruct (forward_ready f n (rejection_report process_id h p) w Hr) as (w1 & Hf & Hr1).
    pose proof (forward_delivers f (rejection_report process_id h p) w) as Hd. rewrite Hf in Hd.
    destruct Hd as (Hd & _ & _ & Hu). exists w1. unfold report_rejection, mbind, IO_bind. by rewrite Hf. }
  unfold texts, looks, is_message, process_datagram, from_utf8, datagram_text, read_datagram, datagram_panics, from_utf8.
  cbn [List.filter fst omap list_omap].
  destruct (utf8_valid b) eqn:Eu; [destruct (parse b) as [m|e|] eqn:Ep|]; cbn [map app]; intros Hu Hr Hp.
  - destruct (handle_message_ready process_id f (with_peer base peer) n m w Hr) as (w1 & Hm & Hr1 & [_ Hu1] & Hd & _).
    rewrite Hu in Hu1, Hd. exists w1. done.
  - rewrite <- Hu. by apply Hrep.
  - done.
  - rewrite <- Hu. by apply Hrep.
Qed.

(** ** A worker *)

(** The items a worker takes, whatever the system answers. *)
Lemma run_worker_delivers l rest (w : World (Validator schema)) :
  updates w = looks l ++ rest ->
  delivered (trace (snd (run_worker debug_char process_id f base (map fst l) w)))
    `sublist_of` delivered (trace w) ++ texts l.
Proof.
  revert w. induction l as [|[[b peer] v] l IH]; intros w Hu; cbn [map run_worker fst].
  { cbn. by rewrite app_nil_r. }
  change ((b, peer, v) :: l) with ([(b, peer, v)] ++ l) in Hu |- *. rewrite looks_app, <- app_assoc in Hu.
  destruct (process_datagram_delivers b peer v _ w Hu) as (Hu' & d & Hd & Hs).
  unfold mbind, IO_bind. rewrite texts_app, app_assoc.
  assert (Hfirst : delivered (trace w) ++ d `sublist_of` delivered (trace w) ++ texts [((b, peer), v)])
    by (by apply sublist_app).
  destruct (process_datagram _ _ _ _ _ w) as [[[]| |] w1]; cbn [snd] in *; rewrite <- Hd in Hfirst.
  - etrans; [by apply IH|]. by apply sublist_app.
  - by apply sublist_inserts_r.
  - by apply sublist_inserts_r.
Qed.

Lemma run_worker_ready l rest (w : World (Validator schema)) :
  updates w = looks l ++ rest -> ready f (length l) w ->
  Forall (fun x => datagram_panics (fst x) = false) l ->
  exists w', run_worker debug_char process_id f base (map fst l) w = (Done tt, w')
    /\ delivered (trace w') = delivered (trace w) ++ texts l.
Proof.
  revert w. induction l as [|[[b peer] v] l IH]; intros w Hu Hr Hp; cbn [map run_worker fst].
  { exists w. cbn. by rewrite app_nil_r. }
  apply Forall_cons in Hp as [Hp Hl]. cbn [fst] in Hp.
  change ((b, peer, v) :: l) with ([(b, peer, v)] ++ l) in Hu |- *. rewrite looks_app, <- app_assoc in Hu.
  destruct (process_datagram_ready (length l) b peer v _ w Hu Hr Hp) as (w1 & H1 & Hr1 & Hu1 & Hd1).
  destruct (IH w1 Hu1 Hr1 Hl) as (w' & H' & Hd'). exists w'.
  unfold mbind, IO_bind. rewrite H1. split; [done|].
  by rewrite Hd', Hd1, texts_app, app_assoc.
Qed.

(** ** The pool *)

(** All that the workers of [s], each in its world, have delivered of the
    items they took. *)
Definition pool_delivered (s : LState) (ws : list (World (Validator schema))) : list bytes :=
  concat (zip_with (fun wk w =>
    delivered (trace (snd (run_worker debug_char process_id f base (taken wk) w)))) (workers s) ws).

(** The worlds of the pool: nothing sent yet, and at each look at the watch
    channel the validator that is in force for the datagram. *)
Definition pool_worlds (n : nat) (timed : list (item * Validator schema))
    (ws : list (World (Validator schema))) : Prop :=
  length ws = n /\ forall j w, ws !! j = Some w -> trace w = [] /\ updates w = looks (share n j timed).

Lemma texts_concat (ls : list (list (item * Validator schema))) : texts (concat ls) = concat (map texts ls).
Proof. induction ls as [|l ls IH]; [done|]. cbn [concat map]. by rewrite texts_app, IH. Qed.

Lemma concat_submseteq {A} (a b : list (list A)) : Forall2 submseteq a b -> concat a ⊆+ concat b.
Proof. induction 1; [done|]. cbn [concat]. by apply submseteq_app. Qed.

Lemma concat_permutation {A} (a b : list (list A)) : Forall2 Permutation a b -> concat a ≡ₚ concat b.
Proof. induction 1; [done|]. cbn [concat]. by apply Permutation_app. Qed.

Section Pool.
  Variables (buf_len : Z) (n : nat) (s : LState) (timed : list (item * Validator schema)).
  Variable ws : list (World (Validator schema)).
  Hypothesis some_workers : (0 < n)%nat.
  Hypothesis reached : reachable buf_len n s.
  Hypothesis timed_items : map fst timed = dispatched s.
  Hypothesis worlds : pool_worlds n timed ws.

Lemma texts_shares : texts timed ≡ₚ concat (map (fun j => texts (share n j timed)) (seq 0 n)).
Proof.
  rewrite <- (map_map (fun j => share n j timed) texts), <- texts_concat.
  unfold texts. by rewrite (shares_permutation n timed some_workers).
Qed.

(** What worker [j] took and what it has still to take. *)
Lemma worker_share j wk : workers s !! j = Some wk ->
  exists l1 l2, share n j timed = l1 ++ l2 /\ taken wk = map fst l1 /\ queue wk = map fst l2.
Proof.
  intros Hj. apply pool_reachable in reached as Hi. pose proof (pool_share _ _ Hi _ _ Hj) as Hsh.
  rewrite <- timed_items, share_fmap in Hsh. symmetry in Hsh.
  apply map_eq_app in Hsh as (l1 & l2 & Hl & <- & <-). eauto.
Qed.

(** Worker by worker. *)
Lemma pool_forall2 (R : relation (list bytes)) :
  (forall j wk w, workers s !! j = Some wk -> ws !! j = Some w ->
     R (delivered (trace (snd (run_worker debug_char process_id f base (taken wk) w))))
       (texts (share n j timed))) ->
  Forall2 R (zip_with (fun wk w => delivered (trace (snd (run_worker debug_char process_id f base (taken wk) w))))
               (workers s) ws)
    (map (fun j => texts (share n j timed)) (seq 0 n)).
Proof.
  intros HR. apply pool_reachable in reached as Hi. pose proof (pool_size _ _ Hi) as Hn. destruct worlds as [Hw _].
  apply Forall2_same_length_lookup_2.
  { rewrite length_zip_with, length_map, length_seq. lia. }
  intros j x y Hx Hy. rewrite lookup_zip_with in Hx. apply bind_Some in Hx as (wk & Hwk & Hx).
  apply bind_Some in Hx as (w & Hww & [= <-]).
  rewrite list_lookup_fmap in Hy. apply fmap_Some in Hy as (i & Hi' & ->). apply lookup_seq in Hi' as [-> _].
  by apply HR.
Qed.

Lemma pool_at_most_once : pool_delivered s ws ⊆+ texts timed.
Proof.
  rewrite texts_shares. apply concat_submseteq, pool_forall2. intros j wk w Hj Hw.
  destruct (worker_share j wk Hj) as (l1 & l2 & Hl & -> & _). destruct worlds as [_ Hws].
  destruct (Hws j w Hw) as [Ht Hu]. rewrite Hl in Hu |- *. rewrite looks_app in Hu.
  pose proof (run_worker_delivers l1 _ w Hu) as Hd. rewrite Ht in Hd. cbn [delivered omap list_omap app] in Hd.
  apply sublist_submseteq. etrans; [exact Hd|]. rewrite texts_app. by apply sublist_inserts_r.
Qed.

Lemma pool_exactly_once :
  Forall (fun wk => queue wk = []) (workers s) -> Forall (fun it => datagram_panics it = false) (dispatched s) ->
  Forall (fun w => Forall (eq (inr tt)) (answers w) /\ (length (dispatched s) + 4 <= length (answers w))%nat) ws ->
  pool_delivered s ws ≡ₚ texts timed.
Proof.
  intros Hq Hp Ha. rewrite texts_shares. apply concat_permutation, pool_forall2. intros j wk w Hj Hw.
  destruct (worker_share j wk Hj) as (l1 & l2 & Hl & -> & Hq2). destruct worlds as [_ Hws].
  destruct (Hws j w Hw) as [Ht Hu]. rewrite Forall_lookup in Hq. rewrite (Hq j wk Hj) in Hq2.
  symmetry in Hq2. apply map_eq_nil in Hq2 as ->. rewrite app_nil_r in Hl. rewrite Hl in *.
  assert (Hsub : l1 `sublist_of` timed) by (rewrite <- Hl; apply share_sublist).
  pose proof (sublist_length _ _ Hsub) as Hlen. rewrite <- timed_items, length_map in Ha.
  rewrite Forall_lookup in Ha. destruct (Ha j w Hw) as [Hok Hans].
  destruct (run_worker_ready l1 [] w) as (w' & -> & Hd); [by rewrite app_nil_r|apply answers_ready; [done|lia]| |].
  - rewrite <- timed_items, Forall_map in Hp. rewrite Forall_forall in Hp |- *. intros x Hx. apply Hp.
    by eapply elem_of_submseteq, sublist_submseteq.
  - cbn [snd]. by rewrite Hd, Ht.
Qed.

End Pool.
End Worker.
