(* ===== verification/Accounting.v ===== *)
(** * The counters are shared

    Sessions and datagram workers run at the same time and count on one
    [MetricsStore].  No task looks at the counters and increments commute, so
    what a task adds does not depend on what the others have counted, and the
    shared store is the sum of what all have added: the law of Metrics.v holds
    of it up to one message in flight per running task. *)

From stdpp Require Import prelude strings list gmap.
From Stdlib Require Import ZArith Lia.
From S2P Require Import Prelude RustStd Syslog SyslogFacts Timestamp StructuredData SyslogRoundtrip.
From S2P Require Import Frame Config Json Validator Sample Metrics Effects Forwarder Session.
From S2P Require Import SessionFacts DatagramListener.

(** ** Adding up counters *)

Definition add_store (a b : MetricsStore) : MetricsStore :=
  mkStore (wrap 64 (received a + received b)) (wrap 64 (forwarded a + forwarded b))
    (wrap 64 (dropped a + dropped b)) (wrap 64 (errors a + errors b)).

Lemma wrap_add_r a b : wrap 64 (a + wrap 64 b) = wrap 64 (a + b).
Proof. unfold wrap. by rewrite Z.add_mod_idemp_r by done. Qed.

(** Equality modulo [2^64], as a linear statement. *)
Lemma wrap_ex z : exists k, wrap 64 z = z + k * 2 ^ 64.
Proof. exists (- (z / 2 ^ 64)). unfold wrap. pose proof (Z.div_mod z (2 ^ 64)). lia. Qed.

Lemma wrap_eq a b : wrap 64 a = wrap 64 b <-> exists k, a = b + k * 2 ^ 64.
Proof.
  split.
  - destruct (wrap_ex a) as [k ->], (wrap_ex b) as [k' ->]. intros H. exists (k' - k). lia.
  - intros [k ->]. unfold wrap. by rewrite Z_mod_plus_full.
Qed.

(** An increment that commutes with what others have counted. *)
Definition additive (g : MetricsStore -> MetricsStore) : Prop :=
  forall d s, g (add_store d s) = add_store d (g s).

Lemma inc_additive :
  additive inc_received /\ additive inc_forwarded /\ additive inc_dropped /\ additive inc_errors.
Proof.
  split_and!; intros d s; unfold add_store, inc_received, inc_forwarded, inc_dropped, inc_errors;
    cbn [received forwarded dropped errors]; f_equal;
    by rewrite wrap_add_l, wrap_add_r, Z.add_assoc.
Qed.

Lemma balanced_add p q a b : balanced p a -> balanced q b -> balanced (p + q) (add_store a b).
Proof.
  unfold balanced, add_store. cbn [received forwarded dropped errors].
  destruct (wrap_ex (received a + received b)) as [k1 ->], (wrap_ex (forwarded a + forwarded b)) as [k2 ->],
    (wrap_ex (dropped a + dropped b)) as [k3 ->], (wrap_ex (errors a + errors b)) as [k4 ->].
  rewrite !wrap_eq. intros [k5 H5] [k6 H6]. exists (k1 - k2 - k3 - k4 + k5 + k6). lia.
Qed.

(** ** Tasks that only count *)

(** The same world after others have counted [d]. *)
Definition boost {V} (d : MetricsStore) (w : World V) : World V := set_stats w (add_store d (stats w)).

(** The task does the same, whatever others have counted. *)
Definition oblivious {V A} (m : IO V A) : Prop :=
  forall d w, m (boost d w) = (fst (m w), boost d (snd (m w))).

Create HintDb oblivious.

Section Oblivious.
  Context {V : Type}.

Lemma oblivious_ret {A} (a : A) : oblivious (mret a : IO V A).
Proof. done. Qed.

Lemma oblivious_bind {A B} (m : IO V A) (k : A -> IO V B) :
  oblivious m -> (forall a, oblivious (k a)) -> oblivious (m ≫= k).
Proof.
  intros Hm Hk d w. unfold mbind, IO_bind. rewrite (Hm d w).
  destruct (m w) as [[a| |] w1]; [apply Hk|done|done].
Qed.

Lemma oblivious_syscall ev : oblivious (syscall ev : IO V _).
Proof. intros d w. unfold syscall. cbn. by destruct (answers w) as [|[e|[]] r]. Qed.

Lemma oblivious_borrow : oblivious (borrow : IO V V).
Proof. intros d w. unfold borrow. cbn. by destruct (updates w) as [|[v|] u]. Qed.

Lemma oblivious_update g : additive g -> oblivious (update_stats g : IO V unit).
Proof. intros Hg d w. unfold update_stats, boost. cbn. by rewrite Hg. Qed.

Lemma oblivious_if {A} (b : bool) (m n : IO V A) : oblivious m -> oblivious n -> oblivious (if b then m else n).
Proof. by destruct b. Qed.

End Oblivious.

#[export] Hint Resolve oblivious_ret oblivious_bind oblivious_syscall oblivious_borrow oblivious_update
  oblivious_if : oblivious.
#[export] Hint Extern 1 (additive _) => apply inc_additive : oblivious.
#[export] Hint Extern 4 (oblivious _) => (progress unfold try_io) : oblivious.
#[export] Hint Extern 3 (oblivious (match ?x with _ => _ end)) => destruct x : oblivious.
(** [sleep], [cancel], the connection slot, [panic], [suspend]. *)
#[export] Hint Extern 5 (oblivious _) => (by intros ? ?) : oblivious.

Section Tasks.
  Context {V : Type}.

Lemma oblivious_retry_loop data path n fuel attempt e :
  oblivious (retry_loop data path n fuel attempt e : IO V _).
Proof.
  revert attempt e. induction fuel as [|fuel IH]; intros attempt e; cbn [retry_loop];
    unfold try_send_to; auto 9 with oblivious.
Qed.

Lemma oblivious_send_dgram data path n : oblivious (send_dgram_with_retry data path n : IO V _).
Proof.
  intros d w. unfold send_dgram_with_retry. change (answers (boost d w)) with (answers w).
  match goal with |- ?m (boost d w) = _ => enough (H : oblivious m) by apply H end.
  unfold try_send_to. auto 9 using oblivious_retry_loop with oblivious.
Qed.

Lemma oblivious_forward f m : oblivious (forward f m : IO V _).
Proof.
  unfold forward. destruct (inner f); unfold connect_stream; auto 15 using oblivious_send_dgram with oblivious.
Qed.

End Tasks.

Section Daemon.
  Context {number serde_error schema schema_error : Type}.
  Context `{!SerdeJson number serde_error} `{!JsonSchema number schema schema_error}.
  Variable debug_char : Z -> bytes.
  Variable process_id : Z.

Lemma oblivious_report f h payload :
  oblivious (report_rejection process_id f h payload : IO (Validator schema) unit).
Proof. unfold report_rejection. auto using oblivious_forward with oblivious. Qed.

Lemma oblivious_handle_message f cfg m :
  oblivious (handle_message process_id f cfg m : IO (Validator schema) unit).
Proof. unfold handle_message. auto 12 using oblivious_forward, oblivious_report with oblivious. Qed.

Lemma oblivious_frame_error f cfg e :
  oblivious (handle_frame_error debug_char process_id f cfg e : IO (Validator schema) unit).
Proof. unfold handle_frame_error. auto using oblivious_report with oblivious. Qed.

Section Codec.
  Context {C : Type} `{!Decoder C} `{!DecodeEof C}.
  Variables (codec : C) (f : Forwarder) (cfg : SessionConfig).

Lemma oblivious_decode_loop fuel buf :
  oblivious (decode_loop debug_char process_id codec f cfg fuel buf : IO (Validator schema) _).
Proof.
  revert buf. induction fuel as [|n IH]; intros buf; cbn [decode_loop]; [auto with oblivious|].
  destruct (decode codec buf) as [[[m|]|e|] buf'];
    auto using oblivious_handle_message, oblivious_frame_error with oblivious.
Qed.

Lemma oblivious_eof_loop fuel buf :
  oblivious (eof_loop debug_char process_id codec f cfg fuel buf : IO (Validator schema) _).
Proof.
  revert buf. induction fuel as [|n IH]; intros buf; cbn [eof_loop]; [auto with oblivious|].
  destruct (decode_eof codec buf) as [[[m|]|e|] buf'];
    auto using oblivious_handle_message, oblivious_frame_error with oblivious.
Qed.

Lemma oblivious_run_with_codec reads buf :
  oblivious (run_with_codec debug_char process_id codec f cfg reads buf : IO (Validator schema) _).
Proof.
  revert buf. induction reads as [|r reads IH]; intros buf; cbn [run_with_codec];
    (apply oblivious_bind; [apply oblivious_decode_loop|]; intros b); [auto with oblivious|].
  destruct r as [e|[|c chunk]]; auto using oblivious_eof_loop with oblivious.
Qed.

End Codec.

(** ** The tasks of the daemon *)

Context `{!DecodeEof OctetCountCodec} `{!DecodeEof DelimiterCodec}.

(** What counts: sessions and datagram workers. *)
Inductive daemon_task : IO (Validator schema) unit -> Prop :=
| task_session f cfg reads : daemon_task (run_session debug_char process_id f cfg reads)
| task_worker f cfg rx : daemon_task (run_worker debug_char process_id f cfg rx).

Lemma daemon_task_oblivious m : daemon_task m -> oblivious m.
Proof.
  destruct 1 as [f cfg reads|f cfg rx].
  - unfold run_session. destruct (sc_framing cfg); apply oblivious_run_with_codec.
  - induction rx as [|[b peer] rx IH]; cbn [run_worker]; [auto with oblivious|].
    apply oblivious_bind; [|done]. unfold process_datagram.
    destruct (from_utf8 b) as [raw|]; [destruct (parse raw)|];
      auto using oblivious_report, oblivious_handle_message with oblivious.
Qed.

Lemma daemon_task_accounted m : daemon_task m -> accounted m.
Proof.
  destruct 1 as [f cfg reads|f cfg rx]; [|apply accounted_run_worker].
  unfold run_session. destruct (sc_framing cfg); apply accounted_run_with_codec.
Qed.

(** A task and the world it runs in; what it has added to the counters. *)
Definition contribution (t : IO (Validator schema) unit * World (Validator schema)) : MetricsStore :=
  stats (snd (fst t (set_stats (snd t) MetricsStore_new))).

Definition finished (t : IO (Validator schema) unit * World (Validator schema)) : bool :=
  match fst (fst t (set_stats (snd t) MetricsStore_new)) with Done _ => true | _ => false end.

(** The shared store when each has added its part. *)
Definition shared_store (s0 : MetricsStore) (ts : list (IO (Validator schema) unit * World (Validator schema)))
    : MetricsStore := foldr (fun t s => add_store s (contribution t)) s0 ts.

Lemma add_store_zero s : store_ok s -> add_store s MetricsStore_new = s.
Proof.
  intros (H1 & H2 & H3 & H4). destruct s. unfold add_store, wrap. cbn in *.
  by rewrite !Z.add_0_r, !Z.mod_small by lia.
Qed.

Lemma add_store_swap s a b : add_store (add_store s a) b = add_store (add_store s b) a.
Proof.
  unfold add_store. cbn [received forwarded dropped errors]. rewrite !wrap_add_l.
  f_equal; f_equal; lia.
Qed.

(** What a task adds is in balance, up to the message it is handling. *)
Lemma contribution_balanced t :
  daemon_task (fst t) ->
  balanced 0 (contribution t) \/ (finished t = false /\ balanced 1 (contribution t)).
Proof.
  intros Ht. apply daemon_task_accounted in Ht. unfold contribution, finished.
  specialize (Ht (set_stats (snd t) MetricsStore_new) eq_refl).
  destruct (fst t _) as [[[]| |] w']; cbn [fst snd]; [by left| |]; (destruct Ht; [by left|by right]).
Qed.

(** C9: accounting across tasks.  Any sessions and datagram workers on one set of
    counters, each stopped at any of its calls: what a task does and what it
    adds to the counters is the same whatever the others have counted; the
    total does not depend on their order; and it satisfies
    [received = forwarded + dropped + errors] in [u64] arithmetic up to the
    messages being handled, at most one for each task that is still running. *)
Theorem shared_counters ts s0 :
  Forall (fun t => daemon_task (fst t)) ts -> balanced 0 s0 ->
  (forall t s, t ∈ ts -> store_ok s ->
     let w0 := set_stats (snd t) MetricsStore_new in
     fst t (set_stats (snd t) s)
     = (fst (fst t w0), set_stats (snd (fst t w0)) (add_store s (contribution t))))
  /\ (forall ts', ts ≡ₚ ts' -> shared_store s0 ts = shared_store s0 ts')
  /\ exists k, 0 <= k <= Z.of_nat (length (List.filter (fun t => negb (finished t)) ts))
       /\ balanced k (shared_store s0 ts).
Proof.
  intros Hts Hs0. split; [|split].
  - intros t s Ht Hs w0. rewrite Forall_forall in Hts. specialize (Hts t Ht).
    apply daemon_task_oblivious in Hts. specialize (Hts s w0). unfold boost in Hts. cbn in Hts.
    by rewrite add_store_zero in Hts.
  - intros ts' Hp. unfold shared_store. apply (foldr_permutation eq); [apply _| |done].
    intros. apply add_store_swap.
  - induction Hts as [|t ts Ht Hts (k & Hk & IH)]; [by exists 0|]. cbn [shared_store foldr List.filter].
    fold (shared_store s0 ts).
    destruct (contribution_balanced t Ht) as [Hc|[Hf Hc]].
    + exists k. split; [destruct (finished t); cbn [negb length]; lia|].
      rewrite <- (Z.add_0_r k). by apply balanced_add.
    + exists (k + 1). rewrite Hf. cbn [negb length]. split; [lia|]. by apply balanced_add.
Qed.

End Daemon.

(** A session that is in the middle of its second message, and a worker that
    has dropped one. *)
Definition sample_tasks : list (IO (Validator bytes) unit * World (Validator bytes)) :=
  [(run_session (fun _ => []) 7 sample_forwarder sample_cfg
      [inr (octet_frame sample_msg ++ octet_frame sample_msg); inr []], idle_world strict_b [inr tt]);
   (run_worker (fun _ => []) 7 sample_forwarder sample_cfg [(display bad_msg, lit "/run/b")], good_world strict_b)].

Lemma shared_counters_witness :
  shared_store MetricsStore_new sample_tasks = mkStore 3 1 1 0
  /\ exists k, 0 <= k <= Z.of_nat (length (List.filter (fun t => negb (finished t)) sample_tasks))
       /\ balanced k (shared_store MetricsStore_new sample_tasks).
Proof.
  split; [by vm_compute|].
  refine (proj2 (proj2 (shared_counters (number := nat) (fun _ => []) 7 sample_tasks MetricsStore_new _ eq_refl))).
  repeat (apply Forall_cons; split; [constructor|]). constructor.
Defined.
