(* ===== verification/Listener.v ===== *)
(** * Stream listener: [logfence-daemon/src/listener.rs]

    Binding, the accept loop with its connection limit as a transition
    system, host name detection and socket permissions; also the [bind] of
    [datagram_listener.rs], which shares the helpers. *)

From stdpp Require Import prelude strings list.
From Stdlib Require Import ZArith Lia.
From S2P Require Import Prelude RustStd Config Metrics Effects Forwarder Session.

(** ** Helpers *)

(** The characters [str::trim] removes (Unicode [White_Space]), in UTF-8. *)
Definition white_space : list bytes :=
  [[x09]; [x0a]; [x0b]; [x0c]; [x0d]; [x20]; [xc2; x85]; [xc2; xa0]; [xe1; x9a; x80];
   [xe2; x80; x80]; [xe2; x80; x81]; [xe2; x80; x82]; [xe2; x80; x83]; [xe2; x80; x84];
   [xe2; x80; x85]; [xe2; x80; x86]; [xe2; x80; x87]; [xe2; x80; x88]; [xe2; x80; x89];
   [xe2; x80; x8a]; [xe2; x80; xa8]; [xe2; x80; xa9]; [xe2; x80; xaf]; [xe2; x81; x9f];
   [xe3; x80; x80]].

(** One of [ps] off the front. *)
Fixpoint strip_one (ps : list bytes) (s : bytes) : option bytes :=
  match ps with
  | [] => None
  | p :: r => match strip_prefix p s with Some t => Some t | None => strip_one r s end
  end.

(** All of them; each takes a byte, so the length of [s] is fuel enough. *)
Fixpoint strip_all (fuel : nat) (ps : list bytes) (s : bytes) : bytes :=
  match fuel with
  | O => s
  | S f => match strip_one ps s with Some t => strip_all f ps t | None => s end
  end.

(** [str::trim]; from the right on the reversed string. *)
Definition trim (s : bytes) : bytes :=
  let s := strip_all (length s) white_space s in
  reverse (strip_all (length s) (map reverse white_space) (reverse s)).

(** [file] is the result of reading [/etc/hostname]. *)
Definition detect_hostname (file : io_error + bytes) : bytes :=
  match file with
  | inl _ => lit "-"
  | inr s => let s := trim s in if bool_decide (s = []) then lit "-" else s
  end.

(** The mode the socket file gets; 0o660 when the string is not octal. *)
Definition socket_permissions (mode_str : bytes) : Z := default 432 (octal_mode mode_str).

(** ** Binding *)

(** [Semaphore::MAX_PERMITS]: tokio documents that [Semaphore::new] panics
    beyond it. *)
Definition MAX_PERMITS : Z := Z.shiftr usize_max 3.

(** What the calls of [bind] set up. *)
Record Bound : Type := mkBound {
  bound_mode : Z;
  bound_hostname : bytes
}.

Section Bind.
  Context {V : Type}.

(** [exists_] is [path.exists()], [file] the content of [/etc/hostname]. *)
Definition Listener_bind (cfg : DaemonConfig) (exists_ : bool) (file : io_error + bytes)
    : IO V (io_error + Bound) :=
  try_io (if exists_ then syscall EvSetup else mret (inr tt)) (fun _ =>
  try_io (syscall EvSetup) (fun _ =>
  try_io (syscall EvSetup) (fun _ =>
  if MAX_PERMITS <? max_connections cfg then panic
  else mret (inr (mkBound (socket_permissions (socket_mode cfg)) (detect_hostname file)))))).

Definition DatagramListener_bind (cfg : DaemonConfig) (exists_ : bool) (file : io_error + bytes)
    : IO V (io_error + Bound) :=
  try_io (if exists_ then syscall EvSetup else mret (inr tt)) (fun _ =>
  try_io (syscall EvSetup) (fun _ =>
  try_io (syscall EvSetup) (fun _ =>
  try_io (syscall EvSetup) (fun _ =>
  try_io (r ← syscall EvSetup; mret (ignore_not_connected r)) (fun _ =>
  mret (inr (mkBound (socket_permissions (socket_mode cfg)) (detect_hostname file)))))))).

End Bind.

(** [socket_group] is not looked at: the file keeps the group it is created
    with. *)
Lemma bind_ignores_group {V} cfg g ex file (w : World V) :
  let cfg' := mkDaemonConfig (listen_socket cfg) (socket_mode cfg) g (max_connections cfg)
                (max_message_size cfg) (listen_transport cfg) (framing cfg) (sender cfg) in
  Listener_bind cfg' ex file w = Listener_bind cfg ex file w
  /\ DatagramListener_bind cfg' ex file w = DatagramListener_bind cfg ex file w.
Proof. done. Qed.

(** The session configuration [run] derives for an accepted connection. *)
Definition session_config (cfg : DaemonConfig) (local_hostname : bytes) (addr : option bytes)
    : SessionConfig :=
  mkSessionConfig (framing cfg) (max_message_size cfg) (sender cfg) local_hostname
    (default (lit "<anonymous>") addr).

(** ** The accept loop *)

Inductive AcceptPhase : Type :=
| Acquiring                (** at the first [select!] *)
| Accepting                (** at the second, holding a permit *)
| Draining                 (** waiting for all permits *)
| Finished (clean : bool). (** returned; [clean] unless the wait timed out *)

Record AcceptState : Type := mkAccept {
  available : Z;           (** permits in the semaphore *)
  active : Z;              (** sessions running, each holding a permit *)
  accept_phase : AcceptPhase;
  shutdown_token : bool
}.

Definition accept_init (max_connections : Z) : AcceptState :=
  mkAccept max_connections 0 Acquiring false.

(** [u32::try_from(cfg.max_connections).unwrap_or(u32::MAX)] *)
Definition drain_total (max_connections : Z) : Z :=
  if max_connections <=? u32_max then max_connections else u32_max.

(** One step of the loop (its [select!]s are biased towards the token), of a
    session, or of whoever holds the token. *)
Inductive accept_step (max_connections : Z) : AcceptState -> AcceptState -> Prop :=
| as_cancel s :
    accept_step max_connections s (mkAccept (available s) (active s) (accept_phase s) true)
| as_acquire s :
    accept_phase s = Acquiring -> shutdown_token s = false -> 0 < available s ->
    accept_step max_connections s (mkAccept (available s - 1) (active s) Accepting false)
| as_stop_acquiring s :
    accept_phase s = Acquiring -> shutdown_token s = true ->
    accept_step max_connections s (mkAccept (available s) (active s) Draining true)
| as_accept s :
    accept_phase s = Accepting -> shutdown_token s = false ->
    accept_step max_connections s (mkAccept (available s) (active s + 1) Acquiring false)
| as_accept_error s :
    accept_phase s = Accepting -> shutdown_token s = false ->
    accept_step max_connections s (mkAccept (available s + 1) (active s) Acquiring false)
| as_stop_accepting s :
    accept_phase s = Accepting -> shutdown_token s = true ->
    accept_step max_connections s (mkAccept (available s + 1) (active s) Draining true)
| as_session_end s :
    0 < active s ->
    accept_step max_connections s
      (mkAccept (available s + 1) (active s - 1) (accept_phase s) (shutdown_token s))
| as_drained s :
    accept_phase s = Draining -> drain_total max_connections <= available s ->
    accept_step max_connections s
      (mkAccept (available s - drain_total max_connections) (active s) (Finished true) (shutdown_token s))
| as_timeout s :
    accept_phase s = Draining ->
    accept_step max_connections s (mkAccept (available s) (active s) (Finished false) (shutdown_token s)).

(** The permit the loop itself holds, and those taken by the drain. *)
Definition loop_permits (max_connections : Z) (s : AcceptState) : Z :=
  match accept_phase s with
  | Accepting => 1
  | Finished true => drain_total max_connections
  | _ => 0
  end.

(** Permits are conserved. *)
Definition accept_inv (max_connections : Z) (s : AcceptState) : Prop :=
  0 <= available s /\ 0 <= active s
  /\ available s + active s + loop_permits max_connections s = max_connections
  /\ (accept_phase s = Draining -> shutdown_token s = true)
  /\ (forall c, accept_phase s = Finished c -> shutdown_token s = true).

Lemma accept_inv_step n s s' : 0 <= n -> accept_inv n s -> accept_step n s s' -> accept_inv n s'.
Proof.
  intros Hn (Ha & Hc & Hp & Hd & Hf) Hs.
  assert (Ht : 0 <= drain_total n <= n).
  { unfold drain_total. destruct (Z.leb_spec n u32_max); unfold u32_max in *; lia. }
  unfold accept_inv, loop_permits in *. destruct Hs;
    repeat match goal with H : accept_phase _ = _ |- _ => rewrite H in * end;
    cbn [available active accept_phase shutdown_token] in *; (split_and!; [lia|lia| | |]); try done;
    try lia; by intros; auto.
Qed.

Lemma accept_inv_reachable n s :
  0 <= n -> rtc (accept_step n) (accept_init n) s -> accept_inv n s.
Proof.
  intros Hn H. apply rtc_ind_r with (P := accept_inv n) in H; [done| |].
  - unfold accept_inv, loop_permits, accept_init. cbn. split_and!; try lia; done.
  - intros s1 s2 _ Hs Hi. by eapply accept_inv_step.
Qed.

(** C27: the connection limit.  For every [max_connections], in every reachable
    state at most that many sessions run, and the loop returns only after a
    shutdown request.  It returns without a timeout only when it holds as many
    permits as it asks for, [max_connections] or [u32::MAX], whichever is
    less: with a limit up to [u32::MAX] no session runs any more then, and
    with a larger one at most the excess. *)
Theorem accept_limit n s :
  0 <= n -> rtc (accept_step n) (accept_init n) s ->
  0 <= active s <= n
  /\ (forall c, accept_phase s = Finished c -> shutdown_token s = true)
  /\ (accept_phase s = Finished true ->
      active s <= n - Z.min n u32_max /\ (n <= u32_max -> active s = 0)).
Proof.
  intros Hn H. apply accept_inv_reachable in H as (Ha & Hc & Hp & _ & Hf); [|lia].
  assert (Ht : drain_total n = Z.min n u32_max).
  { unfold drain_total. destruct (Z.leb_spec n u32_max); lia. }
  assert (Hl : 0 <= loop_permits n s).
  { unfold loop_permits; destruct (accept_phase s) as [| | |[]]; unfold u32_max in *; lia. }
  split; [lia|]. split; [done|]. intros Hx. unfold loop_permits in *. rewrite Hx in *. lia.
Qed.

(** With one connection more than [u32::MAX] in the configuration, which
    [validate] and the semaphore accept, the drain is over while a session
    runs. *)
Lemma clean_return_leaves_session :
  let n := 2 ^ 32 in
  n <= MAX_PERMITS /\ rtc (accept_step n) (accept_init n) (mkAccept 0 1 (Finished true) true).
Proof.
  split; [by vm_compute|].
  eapply rtc_l; [by apply as_acquire|]. eapply rtc_l; [by apply as_accept|].
  eapply rtc_l; [by apply as_cancel|]. eapply rtc_l; [by apply as_stop_acquiring|].
  eapply rtc_l; [by apply as_drained|]. apply rtc_refl.
Qed.

(** Once the token is cancelled no session starts. *)
Lemma no_session_after_shutdown n s s' :
  shutdown_token s = true -> rtc (accept_step n) s s' -> active s' <= active s.
Proof.
  intros Ht H.
  apply (rtc_ind_r (fun x => shutdown_token x = true /\ active x <= active s)) in H as [_ ?]; [done|done|].
  intros s1 s2 _ Hs [Ht1 Hle]. destruct Hs; cbn in *; split; try done; try lia; congruence.
Qed.

Lemma accept_limit_witness :
  let s := mkAccept 0 1 (Finished true) true in
  rtc (accept_step (2 ^ 32)) (accept_init (2 ^ 32)) s
  /\ 0 <= active s <= 2 ^ 32
  /\ (forall c, accept_phase s = Finished c -> shutdown_token s = true)
  /\ (accept_phase s = Finished true ->
      active s <= 2 ^ 32 - Z.min (2 ^ 32) u32_max /\ (2 ^ 32 <= u32_max -> active s = 0)).
Proof.
  split; [apply clean_return_leaves_session|].
  apply (accept_limit (2 ^ 32) _ ltac:(by vm_compute)). apply clean_return_leaves_session.
Defined.

(** A configuration that passes [validate] with more connections than a
    semaphore can hold makes [bind] panic. *)
Lemma bind_panics_on_accepted_config :
  let d := mkDaemonConfig (lit "/s") (lit "0660") None (2 ^ 62) 65536 ListenUnixStream OctetCount Original in
  let cfg := mkConfig d RsyslogConfig_default ValidationConfig_default LoggingConfig_default
               MetricsConfig_default in
  validate_config (toml_error := unit) cfg = Ok tt
  /\ fst (Listener_bind d false (inr (lit "h")) (idle_world tt [inr tt; inr tt])) = Panicked.
Proof. by vm_compute. Qed.
