(* ===== verification/Shutdown.v ===== *)
(** * Shutdown

    What happens after the shutdown token is cancelled, for both listeners:
    from any reachable state, however the tasks are scheduled, only finitely
    many steps are left; where they lead, with and without the help of the
    sessions and the forwarder, and where the datagram listener can be held
    up.  The interface [ListenerTask] is what the entry point relies on. *)

From stdpp Require Import prelude strings list relations.
From Stdlib Require Import ZArith Lia.
From S2P Require Import Prelude RustStd Syslog Sample SessionFacts Listener DatagramListener.

(** ** Runs that settle

    [R] is what can happen, [due] the part of it that happens by itself, so
    that a run may stop only where nothing is due. *)
Definition settles {S} (R due : relation S) (P : S -> Prop) (s : S) : Prop :=
  sn R s /\ forall s', rtc R s s' -> nf due s' -> P s'.

(** By a measure, and by what is due in every state that is not yet good. *)
Lemma settles_measure {S} (R due : relation S) (I P : S -> Prop) (mu : S -> nat) s :
  (forall s1 s2, I s1 -> R s1 s2 -> I s2 /\ (mu s2 < mu s1)%nat) ->
  (forall s1, I s1 -> P s1 \/ red due s1) -> I s -> settles R due P s.
Proof.
  intros Hstep Hdue Hs. split.
  - remember (mu s) as n eqn:En. revert s Hs En. induction n as [n IH] using lt_wf_ind.
    intros s Hs ->. constructor. intros s' Hr. destruct (Hstep s s' Hs Hr) as [Hi Hlt].
    by apply (IH _ Hlt).
  - intros s' Hr Hnf. assert (Hi : I s').
    { clear Hnf. induction Hr as [|s1 s2 s3 H12 _ IH]; [done|]. apply IH. by apply (Hstep s1). }
    by destruct (Hdue s' Hi) as [|?%Hnf].
Qed.

(** ** The interface of a listener task

    [task_cancel]: the token is cancelled.  [task_step]: a step of the task,
    or of what it spawned, that changes something.  [task_due]: those that
    depend neither on a client nor on a call to rsyslog.  [task_blocked]:
    where the task waits for such a call without a time limit. *)
Class ListenerTask (S : Type) : Type := {
  task_step : relation S;
  task_due : relation S;
  task_cancel : S -> S;
  task_cancelled : S -> bool;
  task_finished : S -> bool;
  task_blocked : S -> Prop;
  task_inv : S -> Prop;
  task_measure : S -> nat
}.

Class ListenerTaskLaws (S : Type) `{!ListenerTask S} : Prop := {
  task_inv_step s s' : task_inv s -> task_step s s' -> task_inv s';
  task_inv_cancel s : task_inv s -> task_inv (task_cancel s);
  task_cancel_cancels s : task_cancelled (task_cancel s) = true;
  task_cancel_again s : task_cancelled s = true -> task_cancel s = s;
  task_cancelled_step s s' : task_step s s' -> task_cancelled s' = task_cancelled s;
  task_due_step s s' : task_due s s' -> task_step s s';
  task_decreases s s' :
    task_inv s -> task_cancelled s = true -> task_step s s' -> (task_measure s' < task_measure s)%nat;
  task_live s :
    task_inv s -> task_cancelled s = true -> task_finished s = true \/ red task_due s \/ task_blocked s;
  task_blocked_step s : task_inv s -> task_blocked s -> red task_step s;
  task_finished_step s s' : task_finished s = true -> task_step s s' -> task_finished s' = true
}.

(** ** The accept loop *)

Section Accept.
  Variable n : Z.

Definition accept_rank (p : AcceptPhase) : nat :=
  match p with Acquiring | Accepting => 2 | Draining => 1 | Finished _ => 0 end.

Definition accept_measure (s : AcceptState) : nat := accept_rank (accept_phase s) + Z.to_nat (active s).

(** A step of the loop or of a session. *)
Definition accept_progress (s s' : AcceptState) : Prop :=
  accept_step n s s' /\ s <> s' /\ shutdown_token s' = shutdown_token s.

(** A step of the loop: no session ends in it. *)
Definition accept_due (s s' : AcceptState) : Prop :=
  accept_progress s s' /\ accept_phase s' <> accept_phase s.

Definition accept_done (s : AcceptState) : bool :=
  match accept_phase s with Finished _ => true | _ => false end.

Definition accept_cancel (s : AcceptState) : AcceptState :=
  mkAccept (available s) (active s) (accept_phase s) true.

#[export] Instance accept_task : ListenerTask AcceptState := {
  task_step := accept_progress;
  task_due := accept_due;
  task_cancel := accept_cancel;
  task_cancelled := shutdown_token;
  task_finished := accept_done;
  task_blocked _ := False;
  task_inv := accept_inv n;
  task_measure := accept_measure
}.

Lemma accept_decreases s s' :
  shutdown_token s = true -> accept_progress s s' -> (accept_measure s' < accept_measure s)%nat.
Proof.
  intros Ht [Hs [Hne Ht']]. unfold accept_measure. destruct Hs;
    repeat match goal with H : accept_phase _ = _ |- _ => rewrite H in * end;
    cbn [accept_rank accept_phase active] in *; try congruence; try lia.
  destruct Hne. destruct s; cbn in *. by subst.
Qed.

Lemma accept_due_intro s s' :
  accept_step n s s' -> shutdown_token s' = shutdown_token s -> accept_phase s' <> accept_phase s ->
  red accept_due s.
Proof. intros Hs Ht Hp. exists s'. split; [|done]. split; [done|]. split; [congruence|done]. Qed.

Lemma accept_live s :
  shutdown_token s = true -> accept_done s = true \/ red accept_due s.
Proof.
  intros Ht. unfold accept_done. destruct (accept_phase s) eqn:E; [right|right|right|by left].
  - eapply accept_due_intro; [by apply as_stop_acquiring|done|by rewrite E].
  - eapply accept_due_intro; [by apply as_stop_accepting|done|by rewrite E].
  - eapply accept_due_intro; [by apply as_timeout|done|by rewrite E].
Qed.

Lemma accept_done_step s s' : accept_done s = true -> accept_progress s s' -> accept_done s' = true.
Proof.
  unfold accept_done. intros Hd [Hs _].
  destruct Hs; repeat match goal with H : accept_phase _ = _ |- _ => rewrite H in * end; done.
Qed.

Lemma accept_task_laws : 0 <= n -> ListenerTaskLaws AcceptState.
Proof.
  intros Hn. split; cbn.
  - intros s s' Hi [Hs _]. by eapply accept_inv_step.
  - intros s Hi. by eapply (accept_inv_step n s); [| |apply as_cancel].
  - done.
  - intros [] Ht. cbn in *. by subst.
  - by intros s s' (_ & _ & Ht).
  - by intros s s' [Hs _].
  - intros s s' _. apply accept_decreases.
  - intros s _ Ht. destruct (accept_live s Ht); auto.
  - done.
  - apply accept_done_step.
Qed.

(** Without the timeout, the loop waits for the sessions. *)
Definition accept_patient (s s' : AcceptState) : Prop :=
  accept_progress s s' /\ accept_phase s' <> Finished false.

Lemma accept_patient_live s :
  0 <= n -> accept_inv n s -> shutdown_token s = true -> accept_phase s <> Finished false ->
  (accept_phase s = Finished true) \/ red accept_patient s.
Proof.
  intros Hn Hi Ht Hp. assert (Hstep : forall s', accept_step n s s' -> shutdown_token s' = true ->
    accept_phase s' <> Finished false -> s <> s' -> red accept_patient s).
  { intros s' Hs Ht' Hp' Hne. exists s'. split; [|done]. split; [done|]. split; [done|congruence]. }
  destruct (accept_phase s) as [| | |[]] eqn:E; [right|right|right|by left|done].
  - eapply Hstep; [by apply as_stop_acquiring|done|done|]. intros Heq. by rewrite Heq in E.
  - eapply Hstep; [by apply as_stop_accepting|done|done|]. intros Heq. by rewrite Heq in E.
  - destruct Hi as (Ha & Hc & Hsum & _). unfold loop_permits in Hsum. rewrite E in Hsum.
    destruct (decide (0 < active s)) as [Hact|Hact].
    + eapply Hstep; [by apply as_session_end|done|cbn; congruence|].
      intros Heq. apply (f_equal active) in Heq. cbn in Heq. lia.
    + eapply Hstep; [apply as_drained; [done|]|done|done|].
      * unfold drain_total, u32_max in *. destruct (Z.leb_spec n (2 ^ 32 - 1)); lia.
      * intros Heq. by rewrite Heq in E.
Qed.

End Accept.

(** C18: the accept loop comes to its end.  For every [max_connections], from every
    reachable state in which the token is cancelled, however the loop and the
    sessions are scheduled and even if no session ever ends, only finitely
    many steps are left and they lead to the return of [run].  If the timeout
    does not fire and sessions do end, it returns with no session running,
    as long as [max_connections] is at most [u32::MAX]; with a larger limit at
    most as many are left as the limit exceeds it. *)
Theorem accept_loop_drains n s :
  0 <= n -> rtc (accept_step n) (accept_init n) s -> shutdown_token s = true ->
  settles (accept_progress n) (accept_due n) (fun s' => accept_done s' = true) s
  /\ (accept_phase s <> Finished false ->
      settles (accept_patient n) (accept_patient n)
        (fun s' => accept_phase s' = Finished true /\ 0 <= active s' <= n - Z.min n u32_max) s).
Proof.
  intros Hn Hr Ht. apply accept_inv_reachable in Hr as Hi; [|lia]. split.
  - apply (settles_measure _ _ (fun x => shutdown_token x = true) _ accept_measure); [| |done].
    + intros s1 s2 Ht1 Hs. split; [|by eapply accept_decreases]. destruct Hs as (_ & _ & Hs). congruence.
    + apply accept_live.
  - intros Hp. apply (settles_measure _ _ (fun x => accept_inv n x /\ shutdown_token x = true
      /\ accept_phase x <> Finished false) _ accept_measure); [| |done].
    + intros s1 s2 (Hi1 & Ht1 & _) [Hs Hp2]. split; [|by eapply accept_decreases].
      destruct Hs as (Hs & _ & Ht2). split; [eapply accept_inv_step; [lia|done|done]|].
      split; [congruence|done].
    + intros s1 (Hi1 & Ht1 & Hp1). destruct (accept_patient_live n s1) as [Hf|Hf]; try done; [|by right].
      left. split; [done|]. destruct Hi1 as (Ha & Hc & Hsum & _). unfold loop_permits in Hsum.
      rewrite Hf in Hsum. unfold drain_total in Hsum. destruct (Z.leb_spec n u32_max); lia.
Qed.

(** Two sessions running, and the loop waiting for a permit. *)
Lemma accept_loop_drains_witness :
  let s := mkAccept 0 2 Acquiring true in
  settles (accept_progress 2) (accept_due 2) (fun s' => accept_done s' = true) s
  /\ (accept_phase s <> Finished false ->
      settles (accept_patient 2) (accept_patient 2)
        (fun s' => accept_phase s' = Finished true /\ 0 <= active s' <= 2 - Z.min 2 u32_max) s).
Proof.
  apply accept_loop_drains; [by vm_compute| |done].
  eapply rtc_l; [by apply as_acquire|]. eapply rtc_l; [by apply as_accept|].
  eapply rtc_l; [by apply as_acquire|]. eapply rtc_l; [by apply as_accept|].
  eapply rtc_l; [by apply as_cancel|]. apply rtc_refl.
Defined.

(** ** The datagram pool *)

Lemma sum_list_insert {A} (g : A -> nat) (l : list A) i x y :
  l !! i = Some x -> (sum_list_with g (<[i := y]> l) + g x = sum_list_with g l + g y)%nat.
Proof.
  revert i. induction l as [|z l IH]; intros [|i] H; simplify_eq/=; [lia|].
  specialize (IH i H). lia.
Qed.

(** What is left of the items in the channels and in hand. *)
Definition backlog (w : Worker) : nat := 2 * length (queue w) + length (option_list (in_hand w)).

Definition queued (s : LState) : nat := sum_list_with backlog (workers s).

Definition phase_rank (p : Phase) : nat :=
  match p with Idle => 1 | Dispatch batch => 2 + 3 * length batch | Stopped => 0 end.

Definition pool_measure (s : LState) : nat := phase_rank (phase s) + queued s.

Section Pool.
  Variable buf_len : Z.

(** A step of the loop or of a worker. *)
Definition pool_progress (s s' : LState) : Prop :=
  step buf_len s s' /\ s <> s' /\ shutdown_requested s' = shutdown_requested s.

(** Nothing is left to do: the loop has ended and no worker has work. *)
Definition pool_quiet (s : LState) : Prop :=
  phase s = Stopped /\ forall j w, workers s !! j = Some w -> alive w = true -> queue w = [] /\ in_hand w = None.

Lemma pool_decreases s s' :
  shutdown_requested s = true -> pool_progress s s' -> (pool_measure s' < pool_measure s)%nat.
Proof.
  intros Ht [Hs [Hne _]]. unfold pool_measure, queued.
  destruct Hs as [s|s Hp Hr|s results Hp Hr|s it batch w Hp Hw Ha Hq|s it batch w Hp Hw Ha|s Hp
                 |s i w it q Hw Ha Hh Hq|s i w it Hw Ha Hh]; cbn [workers phase]; try rewrite Hp; cbn [phase_rank length];
    try lia.
  - destruct Hne. destruct s; cbn in *. by subst.
  - congruence.
  - pose proof (sum_list_insert backlog _ _ _ (push w it) Hw) as Hsum.
    unfold backlog in Hsum at 2 4. cbn [queue in_hand push] in Hsum. rewrite length_app in Hsum. cbn [length] in Hsum. lia.
  - pose proof (sum_list_insert backlog _ _ _ (mkWorker true q (Some it) (processed w)) Hw) as Hsum.
    unfold backlog in Hsum at 2 4. rewrite Hh, Hq in Hsum. cbn in Hsum. lia.
  - pose proof (sum_list_insert backlog _ _ _
                  (mkWorker (negb (datagram_panics it)) (queue w) None (processed w ++ [it])) Hw) as Hsum.
    unfold backlog in Hsum at 2 4. rewrite Hh in Hsum. cbn in Hsum. lia.
Qed.

(** *** Harmless datagrams *)

Definition all_harmless (l : list item) : Prop := Forall (fun it => datagram_panics it = false) l.

(** As long as no datagram makes the parser unwind, no worker is lost, and the
    loop ends with everything dispatched. *)
Definition unharmed (s : LState) : Prop :=
  all_harmless (received_items s) ->
  (forall j w, workers s !! j = Some w -> alive w = true)
  /\ (phase s = Stopped -> received_items s = dispatched s).

#[export] Instance phase_eq_dec : EqDecision Phase.
Proof. solve_decision. Defined.

Lemma taken_harmless n s j w it :
  pool_inv n s -> unharmed s -> all_harmless (received_items s) ->
  workers s !! j = Some w -> in_hand w = Some it -> datagram_panics it = false.
Proof.
  intros Hi Hu Ha Hw Hin. assert (Hd : it ∈ dispatched s).
  { eapply elem_of_submseteq; [|apply sublist_submseteq, (share_sublist n j 0)]. fold (share n j (dispatched s)).
    rewrite <- (pool_share _ _ Hi _ _ Hw). unfold taken. rewrite Hin. cbn. set_solver. }
  unfold all_harmless in Ha. rewrite Forall_forall in Ha. apply Ha.
  destruct (decide (phase s = Stopped)) as [Hp|Hp].
  - destruct (Hu ltac:(by apply Forall_forall)) as [_ Heq]. by rewrite (Heq Hp).
  - rewrite (pool_order _ _ Hi Hp). apply elem_of_app. by left.
Qed.

(** Replacing a worker by a live one. *)
Lemma alive_insert (l : list Worker) i w' :
  (forall j w, l !! j = Some w -> alive w = true) -> alive w' = true ->
  forall j w, <[i := w']> l !! j = Some w -> alive w = true.
Proof.
  intros Hl Hw j w. destruct (decide (j = i)) as [->|Hne].
  - destruct (decide (i < length l)%nat).
    + rewrite list_lookup_insert_eq by done. by intros [= <-].
    + rewrite list_insert_ge by lia. apply Hl.
  - rewrite list_lookup_insert_ne by done. apply Hl.
Qed.

Lemma unharmed_step n s s' : pool_inv n s -> unharmed s -> step buf_len s s' -> unharmed s'.
Proof.
  intros Hi Hu Hs.
  destruct Hs as [s|s Hp Hr|s results Hp Hr|s it batch w Hp Hw Ha Hq|s it batch w Hp Hw Ha|s Hp
                 |s i w it q Hw Ha Hh Hq|s i w it Hw Ha Hh]; unfold unharmed; cbn; intros Hall.
  - by apply Hu.
  - destruct (Hu Hall) as [Hal _]. split; [done|]. intros _.
    rewrite (pool_order _ _ Hi) by congruence. unfold pending. by rewrite Hp, app_nil_r.
  - apply Forall_app in Hall as [Hall _]. destruct (Hu Hall) as [Hal _]. by split.
  - destruct (Hu Hall) as [Hal _]. split; [|done]. by apply alive_insert.
  - destruct (Hu Hall) as [Hal _]. by rewrite (Hal _ _ Hw) in Ha.
  - destruct (Hu Hall) as [Hal _]. by split.
  - destruct (Hu Hall) as [Hal Hst]. split; [|done]. by apply alive_insert.
  - destruct (Hu Hall) as [Hal Hst]. split; [|done]. apply alive_insert; [done|]. cbn.
    by rewrite (taken_harmless n s i w it).
Qed.

Lemma unharmed_reachable n s : reachable buf_len n s -> unharmed s.
Proof.
  intros Hr. enough (H : pool_inv n s /\ unharmed s) by apply H.
  apply rtc_ind_r with (P := fun s => pool_inv n s /\ unharmed s) in Hr; [done| |].
  - split; [apply pool_init|]. intros _. split; [|done]. by intros j w [-> _]%lookup_replicate.
  - intros s1 s2 _ Hs [Hi Hu]. split; [by eapply pool_step|by eapply unharmed_step].
Qed.

(** *** The end of [run]: joining the workers *)

(** The whole task of [DatagramListener::run]: the loop and its workers, and,
    once the loop has ended, the wait for the workers under the timeout.
    [Some true]: all joined; [Some false]: timed out. *)
Record PoolTask : Type := mkPoolTask {
  pool : LState;
  joined : option bool
}.

(** When [run] returns, its [JoinSet] is dropped: workers that still run are
    aborted where they are. *)
Definition abort (w : Worker) : Worker := mkWorker false (queue w) (in_hand w) (processed w).

Definition abort_all (s : LState) : LState :=
  mkLState (map abort (workers s)) (worker_idx s) (phase s) (shutdown_requested s)
    (received_items s) (dispatched s).

Inductive pool_task_step : PoolTask -> PoolTask -> Prop :=
| pts_pool p p' :
    step buf_len p p' -> pool_task_step (mkPoolTask p None) (mkPoolTask p' None)
| pts_joined p :
    pool_quiet p -> pool_task_step (mkPoolTask p None) (mkPoolTask p (Some true))
| pts_timeout p :
    phase p = Stopped -> pool_task_step (mkPoolTask p None) (mkPoolTask (abort_all p) (Some false)).

Definition pool_task_progress (t t' : PoolTask) : Prop :=
  pool_task_step t t' /\ t <> t' /\ shutdown_requested (pool t') = shutdown_requested (pool t).

(** The steps that do not wait for the forwarder: none in which a worker is
    done with a datagram. *)
Definition pool_due (t t' : PoolTask) : Prop :=
  pool_task_progress t t' /\ map processed (workers (pool t')) = map processed (workers (pool t)).

(** The loop is in [send().await] on a full channel, and the worker behind it
    is in the middle of a datagram. *)
Definition send_blocked (t : PoolTask) : Prop :=
  joined t = None /\ exists it batch w cur,
    phase (pool t) = Dispatch (it :: batch) /\ workers (pool t) !! worker_idx (pool t) = Some w
    /\ alive w = true /\ (WORKER_CHANNEL_CAP <= length (queue w))%nat /\ in_hand w = Some cur.

Lemma pool_inv_abort n s : pool_inv n s -> pool_inv n (abort_all s).
Proof.
  intros [Hsz Hnx Hsh Hor Hcap Hst]. split; cbn; try done.
  - by rewrite length_map.
  - intros j w. rewrite list_lookup_fmap. intros (w' & Hw & ->)%fmap_Some. exact (Hsh j w' Hw).
  - intros j w. rewrite list_lookup_fmap. intros (w' & Hw & ->)%fmap_Some. exact (Hcap j w' Hw).
  - intros Hp. destruct (Hst Hp) as [|(j & w & Hj & Hd)]; [by left|right].
    exists j, (abort w). split; [|done]. change (map abort (workers s)) with (abort <$> workers s).
    by rewrite list_lookup_fmap, Hj.
Qed.

Lemma pool_due_intro p p' :
  step buf_len p p' -> shutdown_requested p' = shutdown_requested p -> phase p' <> phase p \/ workers p' <> workers p ->
  map processed (workers p') = map processed (workers p) -> red pool_due (mkPoolTask p None).
Proof.
  intros Hs Ht Hne Hp. exists (mkPoolTask p' None). split; [|done].
  split; [by constructor|]. split; [|done]. intros [= ->]. by destruct Hne.
Qed.

Lemma processed_insert (l : list Worker) i w w' :
  l !! i = Some w -> processed w' = processed w -> map processed (<[i := w']> l) = map processed l.
Proof.
  intros Hi Hp. rewrite list_fmap_insert, Hp. apply list_insert_id. by rewrite list_lookup_fmap, Hi.
Qed.

(** Putting another worker in the place of [w] is a change. *)
Lemma worker_changes p i w w' ph tok rx d k :
  workers p !! i = Some w -> w' <> w -> p <> mkLState (<[i := w']> (workers p)) k ph tok rx d.
Proof.
  intros Hw Hne Heq. apply (f_equal (fun s => workers s !! i)) in Heq. cbn in Heq.
  rewrite Hw, list_lookup_insert_eq in Heq by (by eapply lookup_lt_Some). by injection Heq.
Qed.

Lemma take_due p i w it q :
  workers p !! i = Some w -> alive w = true -> in_hand w = None -> queue w = it :: q ->
  red pool_due (mkPoolTask p None).
Proof.
  intros Hw Ha Hh Hq. eapply pool_due_intro; [by apply (step_take buf_len p i w it q)|done| |by eapply processed_insert].
  right. cbn. intros Heq. apply (f_equal (fun l => l !! i)) in Heq.
  rewrite Hw, list_lookup_insert_eq in Heq by (by eapply lookup_lt_Some). injection Heq as Heq.
  by rewrite <- Heq in Hh.
Qed.

(** Where nothing is due any more the task has ended or is held up. *)
Lemma pool_live n p :
  (0 < n)%nat -> pool_inv n p -> shutdown_requested p = true ->
  red pool_due (mkPoolTask p None) \/ send_blocked (mkPoolTask p None).
Proof.
  intros Hn Hi Ht. destruct (phase p) as [|[|it batch]|] eqn:Ep.
  - left. eapply pool_due_intro; [by apply step_shutdown|done|left; cbn; congruence|done].
  - left. eapply pool_due_intro; [by apply step_batch_done|done|left; cbn; congruence|done].
  - destruct (workers p !! worker_idx p) as [w|] eqn:Ew.
    2:{ apply lookup_ge_None in Ew. rewrite (pool_size _ _ Hi), (pool_next _ _ Hi) in Ew.
        pose proof (Nat.mod_upper_bound (length (dispatched p)) n). lia. }
    destruct (alive w) eqn:Ea.
    2:{ left. eapply pool_due_intro; [by eapply step_closed|done|left; cbn; congruence|done]. }
    destruct (decide (length (queue w) < WORKER_CHANNEL_CAP)%nat) as [Hc|Hc].
    { left. eapply pool_due_intro; [by eapply step_dispatch|done|left; cbn; rewrite Ep|by eapply processed_insert].
      intros [= E]. apply (f_equal length) in E. cbn in E. lia. }
    destruct (in_hand w) as [cur|] eqn:Eh.
    + right. split; [done|]. exists it, batch, w, cur. split_and!; try done. cbn. lia.
    + left. destruct (queue w) as [|x q] eqn:Eq; [unfold WORKER_CHANNEL_CAP in Hc; cbn in Hc; lia|].
      by eapply take_due.
  - left. exists (mkPoolTask (abort_all p) (Some false)). split; [|cbn; by rewrite map_map].
    split; [by constructor|]. by split.
Qed.

(** A step of the forwarder helps. *)
Lemma in_hand_step p i w it :
  workers p !! i = Some w -> alive w = true -> in_hand w = Some it ->
  exists p', step buf_len p p' /\ p <> p' /\ shutdown_requested p' = shutdown_requested p.
Proof.
  intros Hw Ha Hh. eexists. split; [by apply (step_finish buf_len p i w it)|]. split; [|done].
  apply (worker_changes p i w); [done|]. intros Heq. by rewrite <- Heq in Hh.
Qed.

Definition task_backlog (t : PoolTask) : nat :=
  pool_measure (pool t) + match joined t with Some _ => 0 | None => 1 end.

Lemma abort_backlog s : pool_measure (abort_all s) = pool_measure s.
Proof.
  unfold pool_measure, queued, abort_all. cbn [phase workers]. f_equal.
  induction (workers s) as [|w l IH]; [done|]. cbn. by rewrite IH.
Qed.

Lemma pool_task_decreases t t' :
  shutdown_requested (pool t) = true -> pool_task_progress t t' -> (task_backlog t' < task_backlog t)%nat.
Proof.
  intros Ht (Hs & Hne & Ht'). unfold task_backlog. destruct Hs as [p p' Hs|p|p]; cbn in *.
  - enough (pool_measure p' < pool_measure p)%nat by lia. apply pool_decreases; [done|].
    split; [done|]. split; [by intros ->|done].
  - lia.
  - rewrite abort_backlog. lia.
Qed.

(** What holds on the way down, from [rx] received. *)
Record pool_down (n : nat) (rx : list item) (t : PoolTask) : Prop := {
  down_inv : pool_inv n (pool t);
  down_token : shutdown_requested (pool t) = true;
  down_rx : received_items (pool t) = rx;
  down_unharmed : joined t <> Some false -> unharmed (pool t);
  down_joined : joined t = Some true -> pool_quiet (pool t);
  down_aborted : joined t = Some false ->
    phase (pool t) = Stopped /\ forall j w, workers (pool t) !! j = Some w -> alive w = false
}.

Lemma pool_down_step n rx t t' : pool_down n rx t -> pool_task_progress t t' -> pool_down n rx t'.
Proof.
  intros [Hi Ht Hx Hu _ _] (Hs & _ & Ht'). destruct Hs as [p p' Hs|p Hq|p Hp]; cbn in *; split; cbn; try done.
  - by eapply pool_step.
  - congruence.
  - destruct Hs; cbn in *; congruence.
  - intros _. eapply unharmed_step; [done|by apply Hu|done].
  - intros _. by apply Hu.
  - by apply pool_inv_abort.
  - intros _. split; [done|]. intros j w. rewrite list_lookup_fmap. by intros (w' & _ & ->)%fmap_Some.
Qed.

(** Without the timeout, [run] waits for the workers. *)
Definition pool_patient (t t' : PoolTask) : Prop := pool_task_progress t t' /\ joined t' <> Some false.

Lemma pool_patient_live n t :
  (0 < n)%nat -> pool_inv n (pool t) -> shutdown_requested (pool t) = true -> joined t <> Some false ->
  joined t = Some true \/ red pool_patient t.
Proof.
  intros Hn Hi Ht Hj. destruct t as [p [[]|]]; cbn in *; [by left|done|right].
  assert (Hpool : forall p', step buf_len p p' -> p <> p' -> shutdown_requested p' = shutdown_requested p ->
    red pool_patient (mkPoolTask p None)).
  { intros p' Hs Hne Heq. exists (mkPoolTask p' None). split; [|done]. split; [by constructor|].
    split; [by intros [= ->]|done]. }
  destruct (decide (Exists (fun w => alive w = true /\ is_Some (in_hand w)) (workers p))) as [He|He].
  { apply Exists_exists in He as (w & Hin & Ha & [it Hh]). apply list_elem_of_lookup in Hin as [j Hw].
    destruct (in_hand_step p j w it Hw Ha Hh) as (p' & Hs & Hne & Heq). by eapply Hpool. }
  assert (Hidle : forall j w, workers p !! j = Some w -> alive w = true -> in_hand w = None).
  { intros j w Hw Ha. destruct (in_hand w) eqn:Eh; [|done]. destruct He. apply Exists_exists.
    exists w. split; [by eapply list_elem_of_lookup_2|]. split; [done|by eexists]. }
  destruct (decide (Exists (fun w => alive w = true /\ queue w <> []) (workers p))) as [Hb|Hb].
  { apply Exists_exists in Hb as (w & Hin & Ha & Hq). apply list_elem_of_lookup in Hin as [j Hw].
    destruct (queue w) as [|it q] eqn:Eq; [done|].
    eapply Hpool; [apply (step_take buf_len p j w it q); eauto| |done].
    apply (worker_changes p j w); [done|]. intros Heq. pose proof (Hidle j w Hw Ha) as Hh.
    by rewrite <- Heq in Hh. }
  destruct (pool_live n p Hn Hi Ht) as [(t' & [Hp _])|(_ & it & batch & w & cur & _ & Hw & Ha & _ & Hh)].
  2:{ by rewrite (Hidle _ _ Hw Ha) in Hh. }
  destruct Hp as (Hs & Hne & Heq). inversion Hs as [p1 p' Hst| |p1 Hst]; subst.
  - exists (mkPoolTask p' None). split; [|done]. by split; [constructor|].
  - exists (mkPoolTask p (Some true)). split; [|done]. by split; [constructor|].
  - exists (mkPoolTask p (Some true)). split; [|done]. split; [constructor|by split].
    split; [done|]. intros j w Hw Ha. split; [|by eapply Hidle].
    destruct (decide (queue w = [])) as [|Hq]; [done|]. destruct Hb. apply Exists_exists.
    exists w. split; [by eapply list_elem_of_lookup_2|done].
Qed.

Lemma pool_down_reachable n s :
  reachable buf_len n s -> shutdown_requested s = true -> pool_down n (received_items s) (mkPoolTask s None).
Proof.
  intros Hr Ht. split; cbn; try done; [by eapply pool_reachable|].
  intros _. by eapply unharmed_reachable.
Qed.

(** All joined, nothing was lost. *)
Lemma pool_down_complete n rx t :
  pool_down n rx t -> joined t = Some true -> all_harmless rx ->
  forall j w, workers (pool t) !! j = Some w ->
    alive w = true /\ queue w = [] /\ in_hand w = None /\ processed w = share n j rx.
Proof.
  intros [Hi _ Hx Hu Hq _] Hj Hall j w Hw. rewrite Hj in Hu. rewrite <- Hx in Hall |- *.
  destruct (Hu ltac:(done) Hall) as [Hal Heq]. destruct (Hq Hj) as [Hp Hidle].
  destruct (Hidle j w Hw (Hal j w Hw)) as [Hqe Hh]. split_and!; [by eapply Hal|done|done|].
  pose proof (pool_share _ _ Hi _ _ Hw) as Hsh. unfold taken in Hsh.
  rewrite Hqe, Hh in Hsh. cbn in Hsh. by rewrite !app_nil_r, <- (Heq Hp) in Hsh.
Qed.

(** C7: how the datagram listener shuts down.  From every reachable state in which
    shutdown is requested, however the loop and the workers are scheduled,
    only finitely many steps are left.  If the forwarder never answers again,
    a run ends in one of three ways: all workers joined and idle; the 30 s
    timeout hit and the workers aborted; or the loop held up in [send] on the
    full channel of a worker that is in the middle of a datagram, before the
    timeout applies.  If the forwarder does answer and the timeout does not
    fire, [run] joins all workers; and if no datagram received makes the
    parser unwind, every datagram received has then been processed, by worker
    [j] exactly the ones of its turns and in their order. *)
Theorem datagram_pool_drains n s :
  (0 < n)%nat -> reachable buf_len n s -> shutdown_requested s = true ->
  settles pool_task_progress pool_due
    (fun t => (joined t = Some true /\ pool_quiet (pool t))
              \/ (joined t = Some false /\ phase (pool t) = Stopped
                  /\ forall j w, workers (pool t) !! j = Some w -> alive w = false)
              \/ send_blocked t) (mkPoolTask s None)
  /\ settles pool_patient pool_patient
       (fun t => joined t = Some true /\ pool_quiet (pool t)
          /\ (all_harmless (received_items s) -> forall j w, workers (pool t) !! j = Some w ->
               alive w = true /\ queue w = [] /\ in_hand w = None
               /\ processed w = share n j (received_items s))) (mkPoolTask s None).
Proof.
  intros Hn Hr Ht. pose proof (pool_down_reachable n s Hr Ht) as Hd. split.
  - apply (settles_measure _ _ (pool_down n (received_items s)) _ task_backlog); [| |done].
    + intros t1 t2 Hd1 Hs. split; [by eapply pool_down_step|]. eapply pool_task_decreases; [apply Hd1|done].
    + intros [p [[]|]] [Hi1 Ht1 _ _ Hq1 Ha1]; cbn in *; [by left; left; auto|by left; right; left; auto|].
      destruct (pool_live n p Hn Hi1 Ht1); auto.
  - apply (settles_measure _ _ (fun t => pool_down n (received_items s) t /\ joined t <> Some false)
      _ task_backlog); [| |done].
    + intros t1 t2 [Hd1 _] [Hs Hj]. split; [|eapply pool_task_decreases; [apply Hd1|done]].
      split; [by eapply pool_down_step|done].
    + intros t1 [Hd1 Hj1]. destruct (pool_patient_live n t1 Hn) as [Hj|Hj]; try apply Hd1; [done| |by right].
      left. split; [done|]. split; [by apply Hd1|]. by apply pool_down_complete.
Qed.

Definition request_shutdown (s : LState) : LState :=
  mkLState (workers s) (worker_idx s) (phase s) true (received_items s) (dispatched s).

#[export] Instance pool_task (n : nat) : ListenerTask PoolTask := {
  task_step := pool_task_progress;
  task_due := pool_due;
  task_cancel t := mkPoolTask (request_shutdown (pool t)) (joined t);
  task_cancelled t := shutdown_requested (pool t);
  task_finished t := match joined t with Some _ => true | None => false end;
  task_blocked := send_blocked;
  task_inv t := pool_inv n (pool t);
  task_measure := task_backlog
}.

Lemma pool_task_laws n : (0 < n)%nat -> @ListenerTaskLaws PoolTask (pool_task n).
Proof.
  intros Hn. split; cbn.
  - intros t t' Hi [Hs _]. destruct Hs; [by eapply pool_step|done|by apply pool_inv_abort].
  - intros t Hi. eapply (pool_step buf_len); [done|]. apply step_shutdown_request.
  - done.
  - intros [[] j] Ht. cbn in *. by subst.
  - by intros t t' (_ & _ & Ht).
  - by intros t t' [Hs _].
  - intros t t' _. apply pool_task_decreases.
  - intros [p [c|]] Hi Ht; cbn in *; [by left|right]. by apply (pool_live n).
  - intros [p j] Hi (Hj & it & batch & w & cur & _ & Hw & Ha & _ & Hh). cbn in *. subst j.
    destruct (in_hand_step p _ w cur Hw Ha Hh) as (p' & Hs & Hne & Ht). exists (mkPoolTask p' None).
    split; [by constructor|]. split; [by intros [= ->]|done].
  - intros t t' Hf (Hs & _). by destruct Hs.
Qed.

End Pool.

(** Two workers, three datagrams: one in hand, one in a channel, one still in
    the batch when shutdown is requested. *)
Definition busy_state : LState :=
  mkLState [mkWorker true [] (Some harmless) []; mkWorker true [harmless] None []] 0 (Dispatch [harmless]) true
    [harmless; harmless; harmless] [harmless; harmless].

Lemma busy_reachable : reachable 1024 2 busy_state.
Proof.
  eapply rtc_l; [apply (step_receive _ _ (replicate 3 (inr (display sample_msg, None)))); done|].
  eapply rtc_l; [by apply (step_dispatch _ _ harmless [harmless; harmless] new_worker); vm_compute; auto; lia|].
  eapply rtc_l; [by apply (step_dispatch _ _ harmless [harmless] new_worker); vm_compute; auto; lia|].
  eapply rtc_l; [by apply (step_take _ _ 0 (push new_worker harmless) harmless [])|].
  eapply rtc_l; [apply step_shutdown_request|]. apply rtc_refl.
Qed.

Lemma datagram_pool_drains_witness :
  settles (pool_task_progress 1024) (pool_due 1024)
    (fun t => (joined t = Some true /\ pool_quiet (pool t))
              \/ (joined t = Some false /\ phase (pool t) = Stopped
                  /\ forall j w, workers (pool t) !! j = Some w -> alive w = false)
              \/ send_blocked t) (mkPoolTask busy_state None)
  /\ settles (pool_patient 1024) (pool_patient 1024)
       (fun t => joined t = Some true /\ pool_quiet (pool t)
          /\ (all_harmless [harmless; harmless; harmless] -> forall j w, workers (pool t) !! j = Some w ->
               alive w = true /\ queue w = [] /\ in_hand w = None
               /\ processed w = share 2 j [harmless; harmless; harmless])) (mkPoolTask busy_state None).
Proof. apply (datagram_pool_drains 1024 2 busy_state); [lia|exact busy_reachable|done]. Defined.

(** *** Either listener *)

Section Either.
  Context {A B : Type} `{!ListenerTask A} `{!ListenerTask B}.

(** The same happens on the same side. *)
Definition either (R1 : relation A) (R2 : relation B) (s s' : A + B) : Prop :=
  match s, s' with
  | inl a, inl a' => R1 a a'
  | inr b, inr b' => R2 b b'
  | _, _ => False
  end.

#[export] Instance either_task : ListenerTask (A + B) := {
  task_step := either task_step task_step;
  task_due := either task_due task_due;
  task_cancel s := match s with inl a => inl (task_cancel a) | inr b => inr (task_cancel b) end;
  task_cancelled s := match s with inl a => task_cancelled a | inr b => task_cancelled b end;
  task_finished s := match s with inl a => task_finished a | inr b => task_finished b end;
  task_blocked s := match s with inl a => task_blocked a | inr b => task_blocked b end;
  task_inv s := match s with inl a => task_inv a | inr b => task_inv b end;
  task_measure s := match s with inl a => task_measure a | inr b => task_measure b end
}.

#[export] Instance either_task_laws :
  ListenerTaskLaws A -> ListenerTaskLaws B -> ListenerTaskLaws (A + B).
Proof.
  intros LA LB. split.
  - intros [a|b] [a'|b']; cbn; try done; apply task_inv_step.
  - intros [a|b]; cbn; apply task_inv_cancel.
  - intros [a|b]; cbn; apply task_cancel_cancels.
  - intros [a|b] H; cbn in *; f_equal; by apply task_cancel_again.
  - intros [a|b] [a'|b']; cbn; try done; apply task_cancelled_step.
  - intros [a|b] [a'|b']; cbn; try done; apply task_due_step.
  - intros [a|b] [a'|b']; cbn; try done; apply task_decreases.
  - intros [a|b] Hi Hc; cbn in *; (destruct (task_live _ Hi Hc) as [Hf|[[s' Hs]|Hb]]; [by left|right; left|by right; right]);
      [by exists (inl s')|by exists (inr s')].
  - intros [a|b] Hi Hb; cbn in *; destruct (task_blocked_step _ Hi Hb) as [s' Hs];
      [by exists (inl s')|by exists (inr s')].
  - intros [a|b] [a'|b']; cbn; try done; apply task_finished_step.
Qed.

End Either.

(** A stuck worker holds up the shutdown.  With a full channel in front of it
    the loop waits in [send], where it neither sees the token nor runs under
    the timeout: whatever happens next, it happens in a worker, and the loop
    is still there. *)
Lemma full_channel_blocks_shutdown buf_len s it batch w t' :
  phase s = Dispatch (it :: batch) -> workers s !! worker_idx s = Some w -> alive w = true ->
  length (queue w) = WORKER_CHANNEL_CAP ->
  pool_task_progress buf_len (mkPoolTask s None) t' ->
  joined t' = None /\ phase (pool t') = phase s
  /\ exists i wi, workers s !! i = Some wi /\ alive wi = true
     /\ exists x, (in_hand wi = Some x \/ in_hand wi = None /\ head (queue wi) = Some x).
Proof.
  intros Hp Hw Ha Hc (Hs & Hne & Ht). inversion Hs as [p p' Hst| |]; subst.
  2:{ match goal with H : pool_quiet _ |- _ => destruct H as [H _]; congruence end. }
  2:{ congruence. }
  inversion Hst; subst; cbn in *; try congruence.
  - destruct Hne. destruct s; cbn in *. by subst.
  - simplify_eq. lia.
  - split; [done|]. split; [done|]. eexists _, _. split; [done|]. split; [done|]. eexists. right.
    split; [done|]. by match goal with H : queue _ = _ |- _ => rewrite H end.
  - split; [done|]. split; [done|]. eexists _, _. split; [done|]. split; [done|]. eexists. by left.
Qed.
