(* ===== verification/ConfigFacts.v ===== *)
(** * Which configurations are accepted: [load] of [logfence-daemon/src/config.rs]

    The octal strings [validate] lets through, the acceptance condition of
    [load], and what an accepted mode gives the socket
    ([apply_socket_permissions] of [listener.rs]). *)

From stdpp Require Import prelude strings list gmap.
From Stdlib Require Import ZArith Lia.
From S2P Require Import Prelude RustStd Config Metrics Effects Forwarder Session Listener.

(** ** Octal strings *)

Definition octal_digit (c : byte) : Prop := 48 <= bz c <= 55.

#[export] Instance octal_digit_dec c : Decision (octal_digit c).
Proof. unfold octal_digit. apply _. Defined.

(** The value of a digit string read after [acc]. *)
Definition octal_from (acc : Z) (s : bytes) : Z := foldl (fun a c => a * 8 + (bz c - 48)) acc s.

(** Digits, possibly none; or zeros, a plus sign and at least one digit. *)
Definition octal_string (s : bytes) (v : Z) : Prop :=
  (Forall octal_digit s /\ octal_from 0 s = v)
  \/ exists k ds, s = replicate k "0"%byte ++ "+"%byte :: ds /\ ds <> []
       /\ Forall octal_digit ds /\ octal_from 0 ds = v.

Lemma to_digit_octal c d : to_digit 8 c = Some d <-> octal_digit c /\ d = bz c - 48.
Proof.
  unfold to_digit, octal_digit. destruct (_ && _) eqn:E.
  - apply andb_true_iff in E as [E1%Z.leb_le E2%Z.ltb_lt]. split; [intros [= <-]; lia|by intros [_ ->]].
  - split; [done|]. intros [H ->]. apply andb_false_iff in E as [E%Z.leb_gt|E%Z.ltb_ge]; lia.
Qed.

Lemma octal_from_ge acc s : 0 <= acc -> Forall octal_digit s -> acc <= octal_from acc s.
Proof.
  intros Ha Hs. revert acc Ha. induction Hs as [|c s Hc Hs IH]; intros acc Ha; cbn; [lia|].
  unfold octal_digit in Hc. specialize (IH (acc * 8 + (bz c - 48)) ltac:(lia)).
  unfold octal_from in IH. lia.
Qed.

(** The checks after each digit amount to one check at the end. *)
Lemma digits_value_octal max acc s v :
  0 <= acc <= max ->
  digits_value 8 max acc s = Some v <-> Forall octal_digit s /\ octal_from acc s = v /\ v <= max.
Proof.
  revert acc. induction s as [|c s IH]; intros acc Ha; cbn [digits_value].
  { cbn. split; [intros [= <-]; split_and!; [constructor|done|lia]|by intros (_ & -> & _)]. }
  destruct (to_digit 8 c) as [d|] eqn:E.
  - apply to_digit_octal in E as [Hc ->]. pose proof Hc as Hr. unfold octal_digit in Hr.
    destruct (Z.leb_spec (acc * 8 + (bz c - 48)) max) as [Hle|Hgt].
    + rewrite IH by lia. rewrite Forall_cons. cbn. tauto.
    + split; [done|]. intros ([_ Hs]%Forall_cons & Hv & Hm).
      pose proof (octal_from_ge (acc * 8 + (bz c - 48)) s ltac:(lia) Hs).
      cbn in Hv. unfold octal_from in *. lia.
  - split; [done|]. intros ([Hc _]%Forall_cons & _).
    by rewrite (proj2 (to_digit_octal c (bz c - 48)) (conj Hc eq_refl)) in E.
Qed.

Lemma trim_zeros s :
  exists k t, s = replicate k "0"%byte ++ t
    /\ trim_start_matches (fun c => Byte.eqb c "0") s = t /\ head t <> Some "0"%byte.
Proof.
  induction s as [|c s (k & t & -> & Ht & Hh)]; [by exists 0%nat, []|].
  cbn [trim_start_matches]. destruct (beq_spec c "0") as [->|Hne].
  - by exists (S k), t.
  - exists 0%nat. eexists. split; [reflexivity|]. split; [done|]. by intros [= ->].
Qed.

Lemma octal_from_zeros k s : octal_from 0 (replicate k "0"%byte ++ s) = octal_from 0 s.
Proof. induction k; [done|]. exact IHk. Qed.

Lemma plus_not_octal : ~ octal_digit "+".
Proof. unfold octal_digit. vm_compute. intros [? ?]. done. Qed.

Lemma replicate_cut k k' t ds :
  head t <> Some "0"%byte ->
  replicate k "0"%byte ++ t = replicate k' "0"%byte ++ "+"%byte :: ds -> t = "+"%byte :: ds.
Proof.
  revert k'. induction k as [|k IH]; intros [|k'] Hh; cbn; intros H; try done.
  - by rewrite H in Hh.
  - injection H as H. by eapply IH.
Qed.

Lemma octal_mode_spec s v : octal_mode s = Some v <-> octal_string s v /\ v <= u32_max.
Proof.
  unfold octal_mode, octal_string. destruct (trim_zeros s) as (k & t & -> & -> & Hh). cbv zeta.
  assert (Hz : Forall octal_digit (replicate k "0"%byte)) by (by apply Forall_replicate).
  assert (Hu : 0 <= u32_max) by done.
  destruct t as [|c t].
  { rewrite app_nil_r. cbn -[u32_max octal_from]. split.
    - intros [= <-]. split; [left; split; [done|]|done]. rewrite <- (app_nil_r (replicate k _)).
      by rewrite octal_from_zeros.
    - intros [[[_ Hv]|(k' & ds & H & _)] _].
      + rewrite <- (app_nil_r (replicate k _)), octal_from_zeros in Hv. by subst v.
      + rewrite <- (app_nil_r (replicate k _)) in H. by apply replicate_cut in H. }
  rewrite bool_decide_eq_false_2 by done. cbn [from_str_radix].
  destruct (beq_spec c "+") as [->|Hne].
  - assert (Hp : (match t with [] => None | _ => digits_value 8 u32_max 0 t end) = Some v
                 <-> t <> [] /\ Forall octal_digit t /\ octal_from 0 t = v /\ v <= u32_max).
    { destruct t; [split; [done|by intros [? _]]|]. rewrite digits_value_octal by lia. split; [intros H; by split|by intros [_ H]]. }
    rewrite Hp. split.
    + intros (Hne & Hd & Hv & Hm). split; [right; by exists k, t|done].
    + intros [[[Hd _]|(k' & ds & H & Hds)] Hm].
      * apply Forall_app in Hd as [_ [Hc _]%Forall_cons]. by apply plus_not_octal in Hc.
      * apply replicate_cut in H as [= ->]; [|done]. tauto.
  - rewrite digits_value_octal by lia. rewrite Forall_app, octal_from_zeros. split.
    + tauto.
    + intros [[[[_ Hd] Hv]|(k' & ds & H & _)] Hm]; [tauto|].
      apply replicate_cut in H as [= -> _]; done.
Qed.

(** ** Loading *)

Section LoadFacts.
  Context {toml_error : Type}.
  Variable read_to_string : bytes -> io_error + bytes.
  Variable toml_from_str : bytes -> toml_error + Config.

(** The condition [validate] checks. *)
Definition config_ok (cfg : Config) : Prop :=
  (exists v, octal_string (socket_mode (daemon cfg)) v /\ v <= u32_max
     /\ socket_permissions (socket_mode (daemon cfg)) = v)
  /\ max_connections (daemon cfg) <> 0 /\ max_message_size (daemon cfg) <> 0
  /\ (schema_map (validation cfg) <> ∅ -> discriminator (validation cfg) <> None).

Lemma mode_ok s :
  (exists v, octal_string s v /\ v <= u32_max /\ socket_permissions s = v)
  <-> is_Some (octal_mode s).
Proof.
  unfold socket_permissions. split.
  - intros (v & Hs & Hv & _). exists v. by apply octal_mode_spec.
  - intros [v Hv]. exists v. rewrite Hv. by apply octal_mode_spec in Hv as [? ?].
Qed.

Lemma validate_config_ok cfg :
  validate_config (toml_error := toml_error) cfg = Ok tt <-> config_ok cfg.
Proof.
  unfold config_ok. rewrite mode_ok. unfold validate_config.
  destruct (octal_mode _) as [v|]; cbn; [|by split; [|intros [[? ?] _]]].
  destruct (Z.eqb_spec (max_connections (daemon cfg)) 0); [by split; [|intros (_ & ? & _)]|].
  destruct (Z.eqb_spec (max_message_size (daemon cfg)) 0); [by split; [|intros (_ & _ & ? & _)]|].
  case_bool_decide as Hm; cbn; [by split; [intros _; split_and!|]|].
  case_bool_decide as Hd; cbn; [|by split; [intros _; split_and!|]].
  split; [done|]. intros (_ & _ & _ & H). by destruct (H Hm).
Qed.

Lemma load_ok path cfg :
  load read_to_string toml_from_str path = Ok cfg <->
  (exists text, read_to_string path = inr text /\ toml_from_str text = inr cfg) /\ config_ok cfg.
Proof.
  rewrite <- validate_config_ok. unfold load.
  destruct (read_to_string path) as [|text]; cbn; [by split; [|intros [(? & ? & _) _]]|].
  destruct (toml_from_str text) as [|c] eqn:Et; cbn.
  { split; [done|]. intros [(text' & [= <-] & Ht) _]. by rewrite Et in Ht. }
  split.
  - destruct (validate_config c) as [[]| |] eqn:E; cbn; [|done|done]. intros [= <-]. eauto.
  - intros [(text' & [= <-] & Ht) Hc]. rewrite Et in Ht. injection Ht as ->. by rewrite Hc.
Qed.

(** Which configurations the daemon starts with.  [load] returns a configuration
    exactly when the file can be read, its text is that configuration in TOML,
    the socket mode is an octal string (digits, or zeros, a plus sign and
    digits; the empty string included) whose value fits 32 bits, both limits are non-zero,
    and a [schema_map] comes with a discriminator; and then the socket file
    gets exactly that mode, never the 0660 fallback. *)
Theorem load_accepts_iff path cfg :
  load read_to_string toml_from_str path = Ok cfg <->
  (exists text, read_to_string path = inr text /\ toml_from_str text = inr cfg)
  /\ (exists v, octal_string (socket_mode (daemon cfg)) v /\ v <= u32_max
       /\ socket_permissions (socket_mode (daemon cfg)) = v)
  /\ max_connections (daemon cfg) <> 0 /\ max_message_size (daemon cfg) <> 0
  /\ (schema_map (validation cfg) <> ∅ -> discriminator (validation cfg) <> None).
Proof. apply load_ok. Qed.

End LoadFacts.
