(* ===== verification/ConfigDe.v ===== *)
(** * From TOML tables to the configuration

    What the [serde] attributes of [logfence-daemon/src/config.rs] declare:
    names of fields and variants, defaults, required sections.  The text
    parser of the [toml] crate and the way it presents unusual values to the
    derived code are an interface ([TomlDe]); a table, a string, a number are
    presented as what they are. *)

From stdpp Require Import prelude strings list gmap.
From Stdlib Require Import ZArith Lia.
From S2P Require Import Prelude RustStd Config Metrics Effects Forwarder Session Listener ConfigFacts.

(** The [?] operator on a plain [Result]. *)
Notation "'let+' x := m 'in' k" :=
  (match m with inl e => inl e | inr x => k end)
  (at level 10, x strict pattern, m at level 100, k at level 200) : res_scope.

(** ** TOML values *)

#[local] Set Warnings "-register-all".

(** A table is the list of its entries; floats and dates keep their text. *)
Inductive toml : Type :=
| TString (s : bytes)
| TInteger (n : Z)
| TFloat (repr : bytes)
| TBoolean (b : bool)
| TDatetime (repr : bytes)
| TArray (a : list toml)
| TTable (t : list (bytes * toml)).

Abbreviation table := (list (bytes * toml)).

Fixpoint tget (k : bytes) (t : table) : option toml :=
  match t with
  | [] => None
  | (k', v) :: r => if bool_decide (k' = k) then Some v else tget k r
  end.

(** The errors [serde::de::Error] distinguishes. *)
Inductive de_error : Type :=
| InvalidType (expected : bytes)
| InvalidValue (n : Z)
| UnknownVariant (v : bytes)
| MissingField (field : bytes)
| Custom (text : bytes).

(** How the deserializer presents a value to the derived code: the variant an
    enumeration value names, the fields of a struct (whose names are given in
    order), the entries of a map, and the conversion of its errors.  Only the
    plain forms are fixed. *)
Class TomlDe (toml_error : Type) : Type := {
  toml_table : bytes -> toml_error + table;
  de_variant : toml -> de_error + bytes;
  de_fields : list bytes -> toml -> de_error + table;
  de_entries : toml -> de_error + table;
  de_error_at : de_error -> toml_error
}.

Class TomlDeLaws (toml_error : Type) `{!TomlDe toml_error} : Prop := {
  de_variant_string s : de_variant (TString s) = inr s;
  de_fields_table names t : de_fields names (TTable t) = inr t;
  de_entries_table t : de_entries (TTable t) = inr t
}.

(** ** Names: [#[serde(rename_all = ...)]] *)

Definition is_upper (c : byte) : bool := (65 <=? bz c) && (bz c <=? 90).

Definition to_ascii_lowercase (c : byte) : byte :=
  if is_upper c then default c (Byte.of_N (Z.to_N (bz c + 32))) else c.

(** [rename_all = "lowercase"] *)
Definition lowercase (s : bytes) : bytes := map to_ascii_lowercase s.

(** [rename_all = "snake_case"] of a variant name: an underscore before every
    capital but the first. *)
Definition snake_case (s : bytes) : bytes :=
  match s with
  | [] => []
  | c :: r =>
      to_ascii_lowercase c
      :: flat_map (fun c => if is_upper c then ["_"%byte; to_ascii_lowercase c] else [c]) r
  end.

(** An enumeration without payloads: its variants under their names. *)
Class Variants (A : Type) : Type := variants : list (bytes * A).

#[export] Instance ListenTransport_variants : Variants ListenTransport :=
  [(snake_case (lit "UnixStream"), ListenUnixStream); (snake_case (lit "UnixDgram"), ListenUnixDgram)].
#[export] Instance FramingMode_variants : Variants FramingMode :=
  [(snake_case (lit "OctetCount"), OctetCount); (snake_case (lit "Newline"), Newline)].
#[export] Instance SenderMode_variants : Variants SenderMode :=
  [(snake_case (lit "Original"), Original); (snake_case (lit "Logfenced"), Logfenced)].
#[export] Instance ForwardTransport_variants : Variants ForwardTransport :=
  [(snake_case (lit "UnixDgram"), ForwardUnixDgram); (snake_case (lit "UnixStream"), ForwardUnixStream)].
#[export] Instance DgramExhausted_variants : Variants DgramExhausted :=
  [(snake_case (lit "Drop"), Drop); (snake_case (lit "Terminate"), Terminate)].
#[export] Instance CeeCookieMode_variants : Variants CeeCookieMode :=
  [(lowercase (lit "Never"), Never); (lowercase (lit "Optional"), Optional);
   (lowercase (lit "Always"), Always)].
#[export] Instance ValidationMode_variants : Variants ValidationMode :=
  [(snake_case (lit "Strict"), Strict); (snake_case (lit "Warn"), Warn); (snake_case (lit "Off"), Off)].

(** ** Deserializing *)

(** [A::deserialize] *)
Class De (A : Type) : Type := de : toml -> de_error + A.

(** The elements of a sequence in order; the first error wins. *)
Fixpoint map_res {A B E} (f : A -> E + B) (l : list A) : E + list B :=
  match l with
  | [] => inr []
  | a :: r => let+ b := f a in let+ bs := map_res f r in inr (b :: bs)
  end.

#[export] Instance bytes_de : De bytes := fun v =>
  match v with TString s => inr s | _ => inl (InvalidType (lit "a string")) end.

#[export] Instance bool_de : De bool := fun v =>
  match v with TBoolean b => inr b | _ => inl (InvalidType (lit "a boolean")) end.

(** An unsigned field of the given maximum. *)
Definition de_uint (max : Z) : De Z := fun v =>
  match v with
  | TInteger n => if (0 <=? n) && (n <=? max) then inr n else inl (InvalidValue n)
  | _ => inl (InvalidType (lit "an integer"))
  end.

Definition de_usize : De Z := de_uint usize_max.
Definition de_u32 : De Z := de_uint u32_max.

#[export] Instance option_de `{De A} : De (option A) := fun v => let+ a := de v in inr (Some a).

#[export] Instance list_de `{De A} : De (list A) := fun v =>
  match v with TArray a => map_res de a | _ => inl (InvalidType (lit "a sequence")) end.

Section De.
  Context {toml_error : Type} `{!TomlDe toml_error}.

#[local] Instance variants_de `{Variants A} : De A := fun v =>
  let+ name := de_variant v in
  match find (fun p => bool_decide (fst p = name)) variants with
  | Some p => inr (snd p)
  | None => inl (UnknownVariant name)
  end.

(** [HashMap<String, String>]: a later entry replaces an earlier one. *)
#[local] Instance map_de : De (gmap bytes bytes) := fun v =>
  let+ entries := de_entries v in
  let+ kvs := map_res (fun kv : bytes * toml => let+ s := de (A := bytes) (snd kv) in inr (fst kv, s)) entries in
  inr (foldl (fun m kv => <[fst kv := snd kv]> m) ∅ kvs).

(** A field without default, and one with. *)
Definition required {A} (d : De A) (name : bytes) (t : table) : de_error + A :=
  match tget name t with Some v => d v | None => inl (MissingField name) end.

Definition or_default {A} (d : De A) (dflt : A) (name : bytes) (t : table) : de_error + A :=
  match tget name t with Some v => d v | None => inr dflt end.

Definition daemon_fields : list bytes :=
  [lit "listen_socket"; lit "socket_mode"; lit "socket_group"; lit "max_connections";
   lit "max_message_size"; lit "listen_transport"; lit "framing"; lit "sender"].

Definition DaemonConfig_de : De DaemonConfig := fun v =>
  let+ t := de_fields daemon_fields v in
  let+ listen_socket := or_default de default_listen_socket (lit "listen_socket") t in
  let+ socket_mode := or_default de default_socket_mode (lit "socket_mode") t in
  let+ socket_group := or_default de None (lit "socket_group") t in
  let+ max_connections := or_default de_usize default_max_connections (lit "max_connections") t in
  let+ max_message_size := or_default de_usize default_max_message_size (lit "max_message_size") t in
  let+ listen_transport := or_default de ListenTransport_default (lit "listen_transport") t in
  let+ framing := or_default de FramingMode_default (lit "framing") t in
  let+ sender := or_default de SenderMode_default (lit "sender") t in
  inr (mkDaemonConfig listen_socket socket_mode socket_group max_connections max_message_size
        listen_transport framing sender).

Definition rsyslog_fields : list bytes :=
  [lit "transport"; lit "socket"; lit "dgram_max_attempts"; lit "dgram_exhausted"].

Definition RsyslogConfig_de : De RsyslogConfig := fun v =>
  let+ t := de_fields rsyslog_fields v in
  let+ transport := or_default de ForwardTransport_default (lit "transport") t in
  let+ socket := or_default de (lit "/run/syslog") (lit "socket") t in
  let+ dgram_max_attempts := or_default de_u32 4 (lit "dgram_max_attempts") t in
  let+ dgram_exhausted := or_default de DgramExhausted_default (lit "dgram_exhausted") t in
  inr (mkRsyslogConfig transport socket dgram_max_attempts dgram_exhausted).

Definition validation_fields : list bytes :=
  [lit "mode"; lit "schemas"; lit "discriminator"; lit "schema_map"; lit "input_cee";
   lit "output_cee"; lit "canonical_json"].

Definition ValidationConfig_de : De ValidationConfig := fun v =>
  let+ t := de_fields validation_fields v in
  let+ mode := or_default de ValidationMode_default (lit "mode") t in
  let+ schemas := or_default de [] (lit "schemas") t in
  let+ discriminator := or_default de None (lit "discriminator") t in
  let+ schema_map := or_default de ∅ (lit "schema_map") t in
  let+ input_cee := or_default de CeeCookieMode_default (lit "input_cee") t in
  let+ output_cee := or_default de CeeCookieMode_default (lit "output_cee") t in
  let+ canonical_json := or_default de false (lit "canonical_json") t in
  inr (mkValidationConfig mode schemas discriminator schema_map input_cee output_cee canonical_json).

Definition metrics_fields : list bytes := [lit "enabled"; lit "socket"].

Definition MetricsConfig_de : De MetricsConfig := fun v =>
  let+ t := de_fields metrics_fields v in
  let+ enabled := or_default de false (lit "enabled") t in
  let+ socket := or_default de (lit "/run/logfenced/logfenced.stats.sock") (lit "socket") t in
  inr (mkMetricsConfig enabled socket).

Definition logging_fields : list bytes := [lit "level"; lit "output"].

Definition LoggingConfig_de : De LoggingConfig := fun v =>
  let+ t := de_fields logging_fields v in
  let+ level := or_default de (lit "info") (lit "level") t in
  let+ output := or_default de (lit "stderr") (lit "output") t in
  inr (mkLoggingConfig level output).

(** The document is a table; unknown sections and keys are ignored. *)
Definition Config_de (t : table) : de_error + Config :=
  let+ daemon := required DaemonConfig_de (lit "daemon") t in
  let+ rsyslog := required RsyslogConfig_de (lit "rsyslog") t in
  let+ validation := or_default ValidationConfig_de ValidationConfig_default (lit "validation") t in
  let+ logging := or_default LoggingConfig_de LoggingConfig_default (lit "logging") t in
  let+ metrics := or_default MetricsConfig_de MetricsConfig_default (lit "metrics") t in
  inr (mkConfig daemon rsyslog validation logging metrics).

(** [toml::from_str::<Config>] *)
Definition toml_from_str (text : bytes) : toml_error + Config :=
  match toml_table text with
  | inl e => inl e
  | inr t =>
      match Config_de t with
      | inr cfg => inr cfg
      | inl e => inl (de_error_at e)
      end
  end.

End De.

(** ** What is accepted *)

(** The types of the fields, as a user of the file sees them. *)
Inductive ftype : Type :=
| FString
| FUint (max : Z)
| FBool
| FStrings
| FStringMap
| FOneOf (names : list bytes).

(** The keys of each section with their types. *)
Definition daemon_schema : list (bytes * ftype) :=
  [(lit "listen_socket", FString); (lit "socket_mode", FString); (lit "socket_group", FString);
   (lit "max_connections", FUint usize_max); (lit "max_message_size", FUint usize_max);
   (lit "listen_transport", FOneOf [lit "unix_stream"; lit "unix_dgram"]);
   (lit "framing", FOneOf [lit "octet_count"; lit "newline"]);
   (lit "sender", FOneOf [lit "original"; lit "logfenced"])].

Definition rsyslog_schema : list (bytes * ftype) :=
  [(lit "transport", FOneOf [lit "unix_dgram"; lit "unix_stream"]); (lit "socket", FString);
   (lit "dgram_max_attempts", FUint u32_max);
   (lit "dgram_exhausted", FOneOf [lit "drop"; lit "terminate"])].

Definition validation_schema : list (bytes * ftype) :=
  [(lit "mode", FOneOf [lit "strict"; lit "warn"; lit "off"]); (lit "schemas", FStrings);
   (lit "discriminator", FString); (lit "schema_map", FStringMap);
   (lit "input_cee", FOneOf [lit "never"; lit "optional"; lit "always"]);
   (lit "output_cee", FOneOf [lit "never"; lit "optional"; lit "always"]);
   (lit "canonical_json", FBool)].

Definition logging_schema : list (bytes * ftype) := [(lit "level", FString); (lit "output", FString)].
Definition metrics_schema : list (bytes * ftype) := [(lit "enabled", FBool); (lit "socket", FString)].

Section Schema.
  Context {toml_error : Type} `{!TomlDe toml_error}.

Definition is_string (v : toml) : Prop := match v with TString _ => True | _ => False end.

Definition has_type (ty : ftype) (v : toml) : Prop :=
  match ty with
  | FString => is_string v
  | FUint max => exists n, v = TInteger n /\ 0 <= n <= max
  | FBool => exists b, v = TBoolean b
  | FStrings => exists a, v = TArray a /\ Forall is_string a
  | FStringMap => exists t, de_entries v = inr t /\ Forall (fun kv => is_string (snd kv)) t
  | FOneOf names => exists n, de_variant v = inr n /\ n ∈ names
  end.

Definition key_ok (t : table) (kt : bytes * ftype) : Prop :=
  forall v, tget (fst kt) t = Some v -> has_type (snd kt) v.

(** The known keys of a struct's value have values of their types. *)
Definition struct_ok (fs : list (bytes * ftype)) (v : toml) : Prop :=
  exists ft, de_fields (map fst fs) v = inr ft /\ Forall (key_ok ft) fs.

Definition section_ok (t : table) (name : bytes) (needed : bool) (fs : list (bytes * ftype)) : Prop :=
  match tget name t with None => needed = false | Some v => struct_ok fs v end.

(** A document that has the required sections, and no known key with a value
    of the wrong type. *)
Definition conforms (t : table) : Prop :=
  section_ok t (lit "daemon") true daemon_schema
  /\ section_ok t (lit "rsyslog") true rsyslog_schema
  /\ section_ok t (lit "validation") false validation_schema
  /\ section_ok t (lit "logging") false logging_schema
  /\ section_ok t (lit "metrics") false metrics_schema.

Definition succeeds {E A} (m : E + A) : Prop := exists a, m = inr a.

Lemma succeeds_bind {E A B} (m : E + A) (k : A -> E + B) :
  succeeds (let+ x := m in k x) <-> exists x, m = inr x /\ succeeds (k x).
Proof.
  destruct m as [e|x]; split.
  - by intros [? ?].
  - by intros (? & ? & _).
  - intros H. by exists x.
  - by intros (y & [= <-] & H).
Qed.

(** A step whose result does not matter to the success of the rest. *)
Lemma succeeds_step {E A B} (m : E + A) (k : A -> E + B) (P Q : Prop) :
  (succeeds m <-> P) -> (forall x, succeeds (k x) <-> Q) -> succeeds (let+ x := m in k x) <-> P /\ Q.
Proof.
  intros Hm Hk. rewrite succeeds_bind, <- Hm. split.
  - intros (x & -> & H). split; [by exists x|by apply (Hk x)].
  - intros [[x ->] H]. exists x. split; [done|by apply Hk].
Qed.

Lemma succeeds_inr {E A} (a : A) : succeeds (E := E) (inr a) <-> True.
Proof. split; [done|]. intros _. by exists a. Qed.

Lemma or_default_succeeds {A} (d : De A) dflt k ty t :
  (forall v, succeeds (d v) <-> has_type ty v) ->
  succeeds (or_default d dflt k t) <-> key_ok t (k, ty).
Proof.
  intros Hd. unfold or_default, key_ok. cbn [fst snd]. destruct (tget k t) as [v|].
  - rewrite Hd. split; [by intros H v' [= <-]|by intros H; apply H].
  - split; [done|]. intros _. by exists dflt.
Qed.

Lemma bytes_succeeds v : succeeds (de (A := bytes) v) <-> is_string v.
Proof. destruct v; cbn; split; try done; try (by intros [? ?]). intros _. by eexists. Qed.

Lemma bool_succeeds v : succeeds (de (A := bool) v) <-> exists b, v = TBoolean b.
Proof. destruct v; cbn; split; try (by intros [? ?]); intros _; by eexists. Qed.

Lemma uint_succeeds max v : succeeds (de_uint max v) <-> exists n, v = TInteger n /\ 0 <= n <= max.
Proof.
  destruct v as [|n| | | | |]; cbn; try (by split; [intros [? ?]|intros (? & ? & _)]).
  destruct (_ && _) eqn:E.
  - apply andb_true_iff in E as [?%Z.leb_le ?%Z.leb_le]. split; [|intros _; by exists n].
    intros _. by exists n.
  - split; [by intros [? ?]|]. intros (? & [= <-] & H). apply andb_false_iff in E as [E%Z.leb_gt|E%Z.leb_gt]; lia.
Qed.

Lemma option_succeeds `{De A} v : succeeds (de (A := option A) v) <-> succeeds (de (A := A) v).
Proof.
  unfold de at 1, option_de. rewrite succeeds_bind. split; [intros (a & Ha & _); by exists a|].
  intros [a Ha]. exists a. split; [done|]. by exists (Some a).
Qed.

Lemma map_res_succeeds {A B E} (f : A -> E + B) (P : A -> Prop) l :
  (forall a, succeeds (f a) <-> P a) -> succeeds (map_res f l) <-> Forall P l.
Proof.
  intros Hf. induction l as [|a l IH]; cbn [map_res]; [by rewrite succeeds_inr|].
  rewrite Forall_cons. apply succeeds_step; [done|]. intros b. rewrite succeeds_bind, <- IH. split.
  - intros (bs & Hb & _). by exists bs.
  - intros [bs Hb]. exists bs. split; [done|]. by eexists.
Qed.

Lemma strings_succeeds v :
  succeeds (de (A := list bytes) v) <-> exists a, v = TArray a /\ Forall is_string a.
Proof.
  destruct v as [| | | | |a|]; cbn; try (by split; [intros [? ?]|intros (? & ? & _)]).
  rewrite (map_res_succeeds _ is_string) by apply bytes_succeeds. split; [by exists a|by intros (? & [= <-] & H)].
Qed.

Lemma map_succeeds v :
  succeeds (map_de v) <-> exists t, de_entries v = inr t /\ Forall (fun kv => is_string (snd kv)) t.
Proof.
  unfold map_de. rewrite succeeds_bind. apply base.exist_proper. intros t. apply and_iff_compat_l.
  rewrite succeeds_bind, <- (map_res_succeeds (fun kv : bytes * toml => let+ s := de (A := bytes) (snd kv) in inr (fst kv, s))).
  - split; [intros (l & Hl & _); by exists l|]. intros [l Hl]. exists l. split; [done|]. by eexists.
  - intros kv. rewrite succeeds_bind, <- bytes_succeeds. split.
    + intros (s & Hs & _). by exists s.
    + intros [s Hs]. exists s. split; [done|]. by eexists.
Qed.

Lemma variants_succeeds `{Variants A} names v :
  map fst (variants (A := A)) = names ->
  succeeds (variants_de (A := A) v) <-> exists n, de_variant v = inr n /\ n ∈ names.
Proof.
  intros <-. unfold variants_de. rewrite succeeds_bind. apply base.exist_proper. intros n. apply and_iff_compat_l.
  destruct (find _ variants) as [p|] eqn:E.
  - rewrite succeeds_inr. split; [|done]. intros _. apply find_some in E as [Hin Hp].
    apply bool_decide_eq_true in Hp as <-. apply list_elem_of_fmap. exists p. by rewrite list_elem_of_In.
  - split; [by intros [? ?]|]. intros ([k a] & -> & Hin)%list_elem_of_fmap.
    apply list_elem_of_In in Hin. eapply find_none in E; [|done]. by apply bool_decide_eq_false in E.
Qed.

(** One field after the other; the struct is then built without failing. *)
Ltac fields_succeed :=
  repeat (first
    [ apply succeeds_step;
      [apply or_default_succeeds; intros v';
       first [apply bytes_succeeds | apply bool_succeeds | apply uint_succeeds | apply strings_succeeds
             | apply map_succeeds | by apply variants_succeeds
             | rewrite option_succeeds; apply bytes_succeeds]
      |intros ?]
    | apply succeeds_inr ]).

Lemma struct_succeeds {A} names fs v (k : table -> de_error + A) :
  map fst fs = names -> (forall ft, succeeds (k ft) <-> Forall (key_ok ft) fs) ->
  succeeds (let+ t := de_fields names v in k t) <-> struct_ok fs v.
Proof.
  intros <- Hk. rewrite succeeds_bind. unfold struct_ok. apply base.exist_proper. intros ft.
  apply and_iff_compat_l, Hk.
Qed.

Lemma daemon_succeeds v : succeeds (DaemonConfig_de v) <-> struct_ok daemon_schema v.
Proof.
  apply struct_succeeds; [done|]. intros t. unfold daemon_schema. rewrite !Forall_cons, Forall_nil.
  fields_succeed.
Qed.

Lemma rsyslog_succeeds v : succeeds (RsyslogConfig_de v) <-> struct_ok rsyslog_schema v.
Proof.
  apply struct_succeeds; [done|]. intros t. unfold rsyslog_schema. rewrite !Forall_cons, Forall_nil.
  fields_succeed.
Qed.

Lemma validation_succeeds v : succeeds (ValidationConfig_de v) <-> struct_ok validation_schema v.
Proof.
  apply struct_succeeds; [done|]. intros t. unfold validation_schema. rewrite !Forall_cons, Forall_nil.
  fields_succeed.
Qed.

Lemma logging_succeeds v : succeeds (LoggingConfig_de v) <-> struct_ok logging_schema v.
Proof.
  apply struct_succeeds; [done|]. intros t. unfold logging_schema. rewrite !Forall_cons, Forall_nil.
  fields_succeed.
Qed.

Lemma metrics_succeeds v : succeeds (MetricsConfig_de v) <-> struct_ok metrics_schema v.
Proof.
  apply struct_succeeds; [done|]. intros t. unfold metrics_schema. rewrite !Forall_cons, Forall_nil.
  fields_succeed.
Qed.

Lemma required_succeeds {A} (d : De A) name fs t :
  (forall v, succeeds (d v) <-> struct_ok fs v) ->
  succeeds (required d name t) <-> section_ok t name true fs.
Proof. intros Hd. unfold required, section_ok. destruct (tget name t); [apply Hd|]. by split; [intros [? ?]|]. Qed.

Lemma section_succeeds {A} (d : De A) dflt name fs t :
  (forall v, succeeds (d v) <-> struct_ok fs v) ->
  succeeds (or_default d dflt name t) <-> section_ok t name false fs.
Proof. intros Hd. unfold or_default, section_ok. destruct (tget name t); [apply Hd|]. by rewrite succeeds_inr. Qed.

Lemma Config_de_succeeds t : succeeds (Config_de t) <-> conforms t.
Proof.
  unfold Config_de, conforms.
  apply succeeds_step; [apply required_succeeds, daemon_succeeds|intros ?].
  apply succeeds_step; [apply required_succeeds, rsyslog_succeeds|intros ?].
  apply succeeds_step; [apply section_succeeds, validation_succeeds|intros ?].
  apply succeeds_step; [apply section_succeeds, logging_succeeds|intros ?].
  rewrite succeeds_bind, <- (section_succeeds MetricsConfig_de MetricsConfig_default) by apply metrics_succeeds.
  split; [intros (m & Hm & _); by exists m|]. intros [m Hm]. exists m. split; [done|]. by eexists.
Qed.

End Schema.

(** ** Loading, from the file to the record *)

Section LoadText.
  Context {toml_error : Type} `{!TomlDe toml_error}.
  Variable read_to_string : bytes -> io_error + bytes.

Lemma config_ok_error cfg (e : ConfigError toml_error) : validate_config cfg = Err e -> ~ config_ok cfg.
Proof. intros H Hc. apply (validate_config_ok (toml_error := toml_error)) in Hc. by rewrite H in Hc. Qed.

Lemma validate_config_total cfg :
  match validate_config (toml_error := toml_error) cfg with
  | Ok _ => True | Err (ConfigInvalid _) => True | _ => False
  end.
Proof.
  unfold validate_config. destruct (octal_mode _); cbn; [|done].
  destruct (_ =? 0); [done|]. destruct (_ =? 0); [done|]. by destruct (_ && _).
Qed.

(** C36: how loading a configuration ends.  The file cannot be read; or its
    text is no TOML, lacks [[daemon]] or [[rsyslog]], or has a known key with
    a value that is not of its type (a variant that does not exist, an
    integer out of range included); or the record it gives breaks one of the
    rules of [validate]; or it is accepted, and then the record is the one
    the tables describe, unknown sections and keys apart.  Each outcome has
    its own error, and there is no panic. *)
Theorem load_outcome path :
  match load read_to_string toml_from_str path with
  | Ok cfg => exists text t, read_to_string path = inr text /\ toml_table text = inr t
                /\ conforms t /\ Config_de t = inr cfg /\ config_ok cfg
  | Err (ConfigIo p e) => p = path /\ read_to_string path = inl e
  | Err (ConfigParse p _) => p = path /\ exists text, read_to_string path = inr text
                /\ ((exists e, toml_table text = inl e) \/ exists t, toml_table text = inr t /\ ~ conforms t)
  | Err (ConfigInvalid _) => exists text t cfg, read_to_string path = inr text
                /\ toml_table text = inr t /\ conforms t /\ Config_de t = inr cfg /\ ~ config_ok cfg
  | Panic => False
  end.
Proof.
  unfold load. destruct (read_to_string path) as [e|text] eqn:Er; [done|]. cbn beta iota.
  unfold toml_from_str. destruct (toml_table text) as [e|t] eqn:Et; [by split; [|exists text; eauto]|].
  destruct (Config_de t) as [e|cfg] eqn:Ec.
  { split; [done|]. exists text. split; [done|]. right. exists t. split; [done|].
    rewrite <- Config_de_succeeds, Ec. by intros [? ?]. }
  assert (Hf : conforms t) by (apply Config_de_succeeds; by exists cfg).
  pose proof (validate_config_total cfg) as Hv.
  destruct (validate_config cfg) as [[]|[| |reason]|] eqn:E; try done.
  - exists text, t. split_and!; try done. by apply (validate_config_ok (toml_error := toml_error)).
  - exists text, t, cfg. split_and!; try done. by eapply config_ok_error.
Qed.

End LoadText.
