(* ===== verification/Stats.v ===== *)
(** * The stats socket: [serve_stats_socket] of [logfence-daemon/src/metrics.rs]

    The task as a computation over [Effects], on the results of [accept]
    until the token is cancelled; it only observes the counters. *)

From stdpp Require Import prelude strings list.
From Stdlib Require Import ZArith Lia.
From S2P Require Import Prelude RustStd Json Metrics Effects Forwarder.

Section Stats.
  Context {number serde_error V : Type} `{!SerdeJson number serde_error}.

Definition metrics_write_half : IO V (io_error + unit) :=
  try_io (syscall EvSetup) (fun _ =>
  try_io (syscall EvSetup) (fun _ =>
  try_io (syscall EvSetup) (fun _ => mret (inr tt)))).

Definition read_store : IO V MetricsStore := fun w => (Done (stats w), w).

(** One accepted client. *)
Definition serve_client : IO V unit :=
  r ← metrics_write_half;
  match r with
  | inl _ => mret tt
  | inr _ =>
      st ← read_store;
      match to_string (Snapshot_value (snapshot st)) with
      | inl _ => mret tt
      | inr s => _ ← syscall (EvWriteAll (s ++ [x0a])); mret tt
      end
  end.

(** [accepts] are the results of [accept] until the token is cancelled. *)
Fixpoint serve_loop (accepts : list (io_error + unit)) : IO V unit :=
  match accepts with
  | [] => mret tt
  | inl _ :: r => serve_loop r
  | inr _ :: r => serve_client;; serve_loop r
  end.

(** The results of [remove_file] are ignored; a failing [bind] ends the task. *)
Definition serve_stats_socket (accepts : list (io_error + unit)) : IO V unit :=
  _ ← syscall EvSetup;
  r ← syscall EvSetup;
  match r with
  | inl _ => mret tt
  | inr _ => serve_loop accepts;; _ ← syscall EvSetup; mret tt
  end.

(** The socket is an observer: it leaves the counters alone, and every line
    it writes is the snapshot of them. *)
Definition snapshot_event (st : MetricsStore) (e : Event) : Prop :=
  match e with
  | EvWriteAll data _ =>
      exists s, to_string (Snapshot_value (snapshot st)) = inr s /\ data = s ++ [x0a]
  | EvSetup _ => True
  | _ => False
  end.

Definition observed (st : MetricsStore) (w : World V) : Prop :=
  stats w = st /\ Forall (snapshot_event st) (trace w).

Lemma observed_syscall st ev : (forall b, snapshot_event st (ev b)) -> keeps (observed st) (syscall ev).
Proof.
  intros He w [Hs Ht]. unfold syscall. destruct (answers w) as [|[e|[]] r]; [done| |];
    (split; [done|]); cbn; apply Forall_app; split; [done|by constructor|done|by constructor].
Qed.

Lemma observed_setup st : keeps (observed st) (syscall EvSetup).
Proof. by apply observed_syscall. Qed.

Lemma observed_serve_client st : keeps (observed st) serve_client.
Proof.
  apply keeps_bind.
  { repeat (apply keeps_try; [apply observed_setup|intros _]). apply keeps_ret. }
  intros [e|_]; [apply keeps_ret|].
  eapply (spec_bind _ _ _ _ (fun s w => s = st /\ observed st w)).
  { intros w Hw. split; [apply Hw|done]. }
  intros s w [-> Hw]. revert w Hw. destruct (to_string _) as [|t] eqn:E; [apply keeps_ret|].
  apply keeps_bind; [|intros _; apply keeps_ret]. apply observed_syscall. intros b. by exists t.
Qed.

Lemma serve_stats_socket_observes accepts (w : World V) :
  trace w = [] ->
  let w' := snd (serve_stats_socket accepts w) in
  stats w' = stats w /\ Forall (snapshot_event (stats w)) (trace w').
Proof.
  intros Ht. assert (Hk : keeps (observed (stats w)) (serve_stats_socket accepts)).
  { apply keeps_bind; [apply observed_setup|]. intros _. apply keeps_bind; [apply observed_setup|].
    intros [e|_]; [apply keeps_ret|]. apply keeps_bind.
    - induction accepts as [|[e|[]] r IH]; cbn [serve_loop]; [apply keeps_ret|exact IH|].
      apply keeps_bind; [apply observed_serve_client|]. intros _. exact IH.
    - intros _. apply keeps_bind; [apply observed_setup|]. intros _. apply keeps_ret. }
  assert (Hw : observed (stats w) w) by (split; [done|]; by rewrite Ht).
  specialize (Hk w Hw). by destruct (serve_stats_socket accepts w) as [[[]| |] w'].
Qed.

End Stats.
