(* ===== verification/Daemon.v ===== *)
(** * The daemon's entry point: [logfence-daemon/src/main.rs]

    The command line, logging, building the validator from the configuration,
    start-up and the signal loop with reloads.  The process as a whole, from
    start-up to exit, is in System.v. *)

From stdpp Require Import prelude strings list gmap.
From Stdlib Require Import ZArith Lia.
From S2P Require Import Prelude RustStd Config Json Validator Sample Metrics Effects Forwarder.
From S2P Require Import Listener.

Inductive ExitCode : Type := ExitSuccess | ExitFailure.

(** The signals the handler waits for.  A [SIGHUP] carries the file system it
    finds: reading files is a function of it. *)
Inductive Signal : Type :=
| SIGTERM
| SIGHUP (read_to_string : bytes -> io_error + bytes)
| SIGUSR1.

(** ** The command line and logging *)

(** What [clap] fills from the command line. *)
Record Args : Type := mkArgs { arg_config : bytes }.

Definition Args_parse (config : option bytes) : Args :=
  mkArgs (default (lit "/etc/logfenced/logfenced.toml") config).

Inductive LogSink : Type := LogStderr | LogFile (path : bytes).

(** A subscriber with its filter, an [EnvFilter]. *)
Record Subscriber (filter : Type) : Type := mkSubscriber {
  log_filter : filter;
  log_sink : LogSink
}.
Arguments mkSubscriber {filter} _ _.
Arguments log_filter {filter} _.
Arguments log_sink {filter} _.

Section Logging.
  Context {filter filter_error : Type}.
  (** [EnvFilter::try_new], [EnvFilter::new] and opening a file to append. *)
  Variable try_new : bytes -> filter_error + filter.
  Variable filter_new : bytes -> filter.
  Variable open : bytes -> io_error + unit.

(** [try_init]: the first subscriber stays; the error of a later one is
    ignored. *)
Definition try_init (installed : option (Subscriber filter)) (s : Subscriber filter)
    : option (Subscriber filter) :=
  match installed with Some old => Some old | None => Some s end.

(** The subscriber in force afterwards, and the files warned about. *)
Definition init_logging (level output : bytes) (installed : option (Subscriber filter))
    : option (Subscriber filter) * list bytes :=
  let flt := match try_new level with inr flt => flt | inl _ => filter_new (lit "info") end in
  if bool_decide (output = lit "stderr") then (try_init installed (mkSubscriber flt LogStderr), [])
  else
    match open output with
    | inr _ => (try_init installed (mkSubscriber flt (LogFile output)), [])
    | inl _ => (try_init installed (mkSubscriber flt LogStderr), [output])
    end.

(** What [main] initialises logging with. *)
Definition logging_settings {E} (cfg_result : res E Config) : bytes * bytes :=
  match cfg_result with
  | Ok c => (level (logging c), output (logging c))
  | _ => (lit "info", lit "stderr")
  end.

End Logging.

Section Daemon.
  Context {number serde_error schema schema_error toml_error : Type}.
  Context `{!SerdeJson number serde_error} `{!JsonSchema number schema schema_error}.
  (** [toml::from_str::<Config>], and the [Display] of its error, of a
      [ConfigError] and of an [io::Error]. *)
  Variable toml_from_str : bytes -> toml_error + Config.
  Variable config_error_display : ConfigError toml_error -> bytes.
  Variable io_error_display : io_error -> bytes.

Section Files.
  Variable read_to_string : bytes -> io_error + bytes.

Fixpoint load_schema_files (paths : list bytes) : bytes + list (Value number) :=
  match paths with
  | [] => inr []
  | path :: r =>
      match read_to_string path with
      | inl e => inl (lit "cannot read schema '" ++ path ++ lit "': " ++ io_error_display e)
      | inr text =>
          match from_str text with
          | inl e => inl (lit "cannot parse schema '" ++ path ++ lit "': " ++ serde_error_display e)
          | inr doc =>
              match load_schema_files r with
              | inl e => inl e
              | inr docs => inr (doc :: docs)
              end
          end
      end
  end.

(** The entries in the iteration order of the [HashMap]. *)
Fixpoint load_schema_entries (l : list (bytes * bytes)) : bytes + gmap bytes (Value number) :=
  match l with
  | [] => inr ∅
  | (key, path) :: r =>
      match read_to_string path with
      | inl e => inl (lit "cannot read discriminator schema '" ++ path ++ lit "': " ++ io_error_display e)
      | inr text =>
          match from_str text with
          | inl e => inl (lit "cannot parse discriminator schema '" ++ path ++ lit "': " ++ serde_error_display e)
          | inr doc =>
              match load_schema_entries r with
              | inl e => inl e
              | inr docs => inr (<[key := doc]> docs)
              end
          end
      end
  end.

Definition load_schema_files_map (schema_map : gmap bytes bytes) : bytes + gmap bytes (Value number) :=
  load_schema_entries (map_to_list schema_map).

Definition build_validator (cfg : ValidationConfig) : bytes + Validator schema :=
  match load_schema_files (schemas cfg) with
  | inl e => inl e
  | inr docs =>
      match from_values (mode cfg) docs with
      | inl e => inl (lit "invalid JSON schema: " ++ e)
      | inr v =>
          let v := with_canonical_json (canonical_json cfg)
                     (with_output_cee (output_cee cfg) (with_input_cee (input_cee cfg) v)) in
          match discriminator cfg with
          | Some field =>
              match load_schema_files_map (schema_map cfg) with
              | inl e => inl e
              | inr disc_docs =>
                  match with_discriminator_docs field disc_docs v with
                  | inl e => inl (lit "invalid discriminator schema: " ++ e)
                  | inr v => inr v
                  end
              end
          | None => inr v
          end
      end
  end.

Definition reload_validator (config_path : bytes) : bytes + (ValidationConfig * Validator schema) :=
  match load read_to_string toml_from_str config_path with
  | Ok cfg =>
      match build_validator (validation cfg) with
      | inl e => inl e
      | inr v => inr (validation cfg, v)
      end
  | Err e => inl (config_error_display e)
  | Panic => inl []
  end.

End Files.

(** *** Signals *)

(** The daemon as the signal handler sees it: the value in the watch channel,
    the shutdown token, the counters, and the snapshots it logged.  (A send
    on a watch channel without receivers leaves the old value; then there is
    no task left that could read either.) *)
Record DaemonState : Type := mkDaemon {
  ds_validator : Validator schema;
  ds_shutdown : bool;
  ds_store : MetricsStore;
  ds_logged : list Snapshot
}.

(** One turn of the [select!] loop; [true] is the [break]. *)
Definition handle_signal (config_path : bytes) (st : DaemonState) (sig : Signal)
    : bool * DaemonState :=
  match sig with
  | SIGTERM => (true, mkDaemon (ds_validator st) true (ds_store st) (ds_logged st))
  | SIGHUP fs =>
      match reload_validator fs config_path with
      | inr (_, v) => (false, mkDaemon v (ds_shutdown st) (ds_store st) (ds_logged st))
      | inl _ => (false, st)
      end
  | SIGUSR1 =>
      (false, mkDaemon (ds_validator st) (ds_shutdown st) (ds_store st)
                (ds_logged st ++ [snapshot (ds_store st)]))
  end.

(** The loop on the signals that arrive; [false]: still waiting. *)
Fixpoint signal_loop (config_path : bytes) (st : DaemonState) (sigs : list Signal)
    : bool * DaemonState :=
  match sigs with
  | [] => (false, st)
  | sig :: r =>
      match handle_signal config_path st sig with
      | (true, st') => (true, st')
      | (false, st') => signal_loop config_path st' r
      end
  end.

(** [registered]: the results of the three [signal()] calls; the handler
    returns at the first failure. *)
Definition all_registered (registered : list (io_error + unit)) : bool :=
  forallb (fun r => match r with inl _ => false | inr _ => true end) registered.

Definition handle_signals (registered : list (io_error + unit)) (config_path : bytes)
    (st : DaemonState) (sigs : list Signal) : bool * DaemonState :=
  if all_registered registered
  then signal_loop config_path st sigs
  else (true, st).

(** The handler where there are no Unix signals: it waits for Ctrl-C ([None]:
    still waiting) and requests shutdown even if that fails. *)
Definition handle_signals_other (ctrl_c : option (io_error + unit)) (st : DaemonState)
    : bool * DaemonState :=
  match ctrl_c with
  | None => (false, st)
  | Some _ => (true, mkDaemon (ds_validator st) true (ds_store st) (ds_logged st))
  end.

(** *** Start-up *)

(** What [main] prepares before it waits for signals; [st_stats]: the socket
    of the stats task, if one is spawned. *)
Record Started : Type := mkStarted {
  st_config : Config;
  st_validator : Validator schema;
  st_forwarder : Forwarder;
  st_stats : option bytes;
  st_bound : Bound
}.

Definition start (read_to_string : bytes -> io_error + bytes) (config_path : bytes)
    (exists_ : bool) (hostname_file : io_error + bytes) : IO (option (Validator schema)) (ExitCode + Started) :=
  match load read_to_string toml_from_str config_path with
  | Ok cfg =>
      match build_validator read_to_string (validation cfg) with
      | inl _ => mret (inl ExitFailure)
      | inr v =>
          f ← from_config (rsyslog cfg) true;
          match f with
          | inl _ => mret (inl ExitFailure)
          | inr fwd =>
              b ← match listen_transport (daemon cfg) with
                  | ListenUnixStream => Listener_bind (daemon cfg) exists_ hostname_file
                  | ListenUnixDgram => DatagramListener_bind (daemon cfg) exists_ hostname_file
                  end;
              match b with
              | inl _ => mret (inl ExitFailure)
              | inr bound =>
                  let stats := if metrics_enabled (metrics cfg)
                               then Some (metrics_socket (metrics cfg)) else None in
                  mret (inr (mkStarted cfg v fwd stats bound))
              end
          end
      end
  | _ => mret (inl ExitFailure)
  end.

(** The daemon's shared state when the tasks start. *)
Definition daemon_init (st : Started) : DaemonState :=
  mkDaemon (st_validator st) false MetricsStore_new [].

(** ** Facts *)

Definition is_term (sig : Signal) : bool := match sig with SIGTERM => true | _ => false end.

(** The signals handled before the first SIGTERM. *)
Fixpoint before_term (sigs : list Signal) : list Signal :=
  match sigs with
  | [] => []
  | sig :: r => if is_term sig then [] else sig :: before_term r
  end.

(** The validator a signal installs, if it does. *)
Definition installs (config_path : bytes) (sig : Signal) : option (Validator schema) :=
  match sig with
  | SIGHUP fs =>
      match reload_validator fs config_path with inr (_, v) => Some v | inl _ => None end
  | _ => None
  end.

Lemma last_cons_default {A} (x d : A) l : default d (last (x :: l)) = default x (last l).
Proof. destruct l; [done|]. rewrite last_cons_cons. by destruct (last (a :: l)) eqn:E; [|apply last_None in E]. Qed.

Lemma signal_loop_spec config_path st sigs :
  let '(returned, st') := signal_loop config_path st sigs in
  returned = existsb is_term sigs
  /\ ds_validator st'
     = default (ds_validator st) (last (omap (installs config_path) (before_term sigs)))
  /\ ds_shutdown st' = (ds_shutdown st || returned) /\ ds_store st' = ds_store st.
Proof.
  revert st. induction sigs as [|sig sigs IH]; intros st; cbn [signal_loop before_term existsb].
  { cbn. by rewrite orb_false_r. }
  destruct sig as [|fs|]; cbn [handle_signal is_term orb].
  - cbn. by rewrite orb_true_r.
  - cbn [omap list_omap]. unfold installs at 1.
    destruct (reload_validator fs config_path) as [e|[c v]]; [exact (IH st)|].
    specialize (IH (mkDaemon v (ds_shutdown st) (ds_store st) (ds_logged st))).
    destruct (signal_loop _ _ sigs) as [ret st']. cbn [ds_validator ds_shutdown ds_store] in IH.
    by rewrite last_cons_default.
  - exact (IH _).
Qed.


(** Start-up succeeds only with a configuration that [validate] accepts. *)
Lemma start_config fs config_path ex hf w st w' :
  start fs config_path ex hf w = (Done (inr st), w') ->
  load fs toml_from_str config_path = Ok (st_config st).
Proof.
  unfold start. destruct (load fs toml_from_str config_path) as [cfg|e|]; [|done|done].
  destruct (build_validator fs (validation cfg)) as [|v]; [done|].
  unfold mbind, IO_bind. destruct (from_config _ _ w) as [[[e|fwd]| |] w1]; try done.
  match goal with |- match ?m w1 with _ => _ end = _ -> _ => destruct (m w1) as [[[e|b]| |] w2] end; try done.
  by intros [= <- _].
Qed.

(** ** Building the validator *)

Section BuildFacts.
  Variable read_to_string : bytes -> io_error + bytes.

(** The document in a file. *)
Definition reads_doc (path : bytes) (doc : Value number) : Prop :=
  exists text, read_to_string path = inr text /\ from_str text = inr doc.

Lemma load_schema_files_ok paths docs :
  load_schema_files read_to_string paths = inr docs -> Forall2 reads_doc paths docs.
Proof.
  revert docs. induction paths as [|p paths IH]; intros docs; cbn [load_schema_files].
  { intros [= <-]. constructor. }
  destruct (read_to_string p) as [|text] eqn:E1; [done|].
  destruct (from_str text) as [|doc] eqn:E2; [done|].
  destruct (load_schema_files _ paths) as [|docs'] eqn:E3; [done|]. intros [= <-].
  constructor; [by exists text|by apply IH].
Qed.

Lemma load_schema_entries_ok l docs :
  NoDup (map fst l) -> load_schema_entries read_to_string l = inr docs ->
  forall k doc, docs !! k = Some doc <-> exists path, (k, path) ∈ l /\ reads_doc path doc.
Proof.
  revert docs. induction l as [|[k0 p] l IH]; intros docs Hn; cbn [load_schema_entries].
  { intros [= <-] k doc. rewrite lookup_empty. split; [done|]. by intros (? & ?%elem_of_nil & _). }
  cbn [map fst] in Hn. apply NoDup_cons in Hn as [Hk Hn].
  destruct (read_to_string p) as [|text] eqn:E1; [done|].
  destruct (from_str text) as [|doc0] eqn:E2; [done|].
  destruct (load_schema_entries _ l) as [|docs'] eqn:E3; [done|]. intros [= <-] k doc.
  specialize (IH docs' Hn eq_refl k doc). destruct (decide (k = k0)) as [->|Hne].
  - rewrite lookup_insert_eq. split.
    + intros [= <-]. exists p. split; [by left|by exists text].
    + intros (path & Hin & text' & Hr & Hf). apply elem_of_cons in Hin as [[= ->]|Hin].
      * congruence.
      * destruct Hk. apply list_elem_of_fmap. by exists (k0, path).
  - rewrite lookup_insert_ne by done. rewrite IH. split; intros (path & Hin & Hd); exists path.
    + split; [by right|done].
    + apply elem_of_cons in Hin as [[= -> _]|Hin]; [done|by split].
Qed.

Lemma load_schema_entries_all l docs :
  load_schema_entries read_to_string l = inr docs -> Forall (fun kp => exists doc, reads_doc (snd kp) doc) l.
Proof.
  revert docs. induction l as [|[k0 p] l IH]; intros docs; cbn [load_schema_entries]; [constructor|].
  destruct (read_to_string p) as [|text] eqn:E1; [done|].
  destruct (from_str text) as [|doc0] eqn:E2; [done|].
  destruct (load_schema_entries _ l) as [|docs'] eqn:E3; [done|]. intros _.
  constructor; [by exists doc0, text|by eapply IH].
Qed.

Lemma collect_results_ok {E A} (l : list (E + A)) r : collect_results l = inr r -> l = map inr r.
Proof.
  revert r. induction l as [|[e|a] l IH]; intros r; cbn [collect_results]; [by intros [= <-]|done|].
  destruct (collect_results l) as [|r'] eqn:Hc; [done|]. intros [= <-]. cbn [map]. by rewrite (IH r').
Qed.

Lemma from_values_ok m docs (v : Validator schema) :
  from_values m docs = inr v ->
  Forall2 (fun doc s => validator_for doc = inr s) docs (v_schemas v)
  /\ v = Validator_new m (v_schemas v).
Proof.
  unfold from_values. destruct (collect_results _) as [|ss] eqn:E; [done|]. intros [= <-].
  split; [|done]. cbn. apply collect_results_ok in E. revert ss E.
  induction docs as [|d docs IH]; intros [|s ss] E; try done.
  cbn [map] in E. injection E as E1 E2. constructor; [|by apply IH].
  destruct (validator_for d); [done|congruence].
Qed.

Lemma with_discriminator_docs_ok field docs v (v' : Validator schema) :
  with_discriminator_docs field docs v = inr v' ->
  exists dm, v' = mkValidator (v_mode v) (v_schemas v) (Some (mkDiscriminator field dm))
                    (v_input_cee v) (v_output_cee v) (v_canonical_json v)
    /\ (forall k s, dm !! k = Some s <-> exists doc, docs !! k = Some doc /\ validator_for doc = inr s)
    /\ forall k doc, docs !! k = Some doc -> exists s, validator_for doc = inr s.
Proof.
  unfold with_discriminator_docs. destruct (collect_results _) as [|l] eqn:E; [done|].
  intros [= <-]. exists (list_to_map l). split; [done|].
  apply collect_results_ok in E.
  assert (Hl : Forall2 (fun kd ks => fst kd = fst ks /\ validator_for (snd kd) = inr (snd ks))
                 (map_to_list docs) l).
  { revert l E. induction (map_to_list docs) as [|[k d] r IH]; intros [|[k' s'] l] E; try done.
    cbn [map fst snd] in E. injection E as E1 E2. constructor; [|by apply IH].
    destruct (validator_for d) eqn:Ev; [done|]. by simplify_eq. }
  assert (Hk : map fst l = map fst (map_to_list docs)).
  { clear E. induction Hl as [|p q r l [Hpq _] Hl IH]; [done|]. cbn [map]. by rewrite Hpq, IH. }
  assert (Hn : NoDup (map fst l)) by (rewrite Hk; apply NoDup_fst_map_to_list).
  split.
  2:{ intros k doc Hd. apply elem_of_map_to_list, list_elem_of_lookup in Hd as [i Hi].
      destruct (Forall2_lookup_l _ _ _ _ _ Hl Hi) as ([k0 s0] & _ & _ & Hv). eauto. }
  intros k s. rewrite <- (elem_of_list_to_map l k s Hn). split.
  - intros Hin. apply list_elem_of_lookup in Hin as [i Hi].
    destruct (Forall2_lookup_r _ _ _ _ _ Hl Hi) as ([k0 d] & Hd & Hk0 & Hv). cbn in *. subst k0.
    exists d. split; [|done]. apply elem_of_map_to_list. by eapply list_elem_of_lookup_2.
  - intros (d & Hd & Hv). apply elem_of_map_to_list in Hd.
    apply list_elem_of_lookup in Hd as [i Hi].
    destruct (Forall2_lookup_l _ _ _ _ _ Hl Hi) as ([k0 s0] & Hs & Hk0 & Hv0). cbn in *. subst k0.
    rewrite Hv in Hv0. injection Hv0 as <-. by eapply list_elem_of_lookup_2.
Qed.

(** The validator is the configuration.  When [build_validator] succeeds, modes and
    flags are those of the configuration, the schemas are the compiled
    documents of the listed files in their order, and the discriminator (if
    and only if one is configured) maps exactly the keys of [schema_map] to
    the compiled documents of their files. *)
Theorem build_validator_spec cfg (v : Validator schema) :
  build_validator read_to_string cfg = inr v ->
  v_mode v = mode cfg /\ v_input_cee v = input_cee cfg /\ v_output_cee v = output_cee cfg
  /\ v_canonical_json v = canonical_json cfg
  /\ Forall2 (fun path s => exists doc, reads_doc path doc /\ validator_for doc = inr s)
       (schemas cfg) (v_schemas v)
  /\ match discriminator cfg, v_discriminator v with
     | None, None => True
     | Some field, Some d =>
         disc_field d = field
         /\ (forall k s, disc_map d !! k = Some s <->
              exists path doc, schema_map cfg !! k = Some path /\ reads_doc path doc
                /\ validator_for doc = inr s)
         /\ forall k, is_Some (schema_map cfg !! k) -> is_Some (disc_map d !! k)
     | _, _ => False
     end.
Proof.
  unfold build_validator. destruct (load_schema_files _ (schemas cfg)) as [|docs] eqn:E1; [done|].
  destruct (from_values (mode cfg) docs) as [|v0] eqn:E2; [done|].
  apply load_schema_files_ok in E1. apply from_values_ok in E2 as [Hs Hv].
  assert (Hss : Forall2 (fun path s => exists doc, reads_doc path doc /\ validator_for doc = inr s)
                  (schemas cfg) (v_schemas v0)).
  { clear Hv. revert Hs. generalize (v_schemas v0) as ss.
    induction E1 as [|p d ps ds Hd _ IH]; intros ss Hs; inversion Hs; subst; constructor; eauto. }
  destruct (discriminator cfg) as [field|].
  - destruct (load_schema_files_map _ (schema_map cfg)) as [|ddocs] eqn:E3; [done|].
    destruct (with_discriminator_docs field ddocs _) as [|v1] eqn:E4; [done|]. intros [= <-].
    apply with_discriminator_docs_ok in E4 as (dm & -> & Hdm & Hall).
    unfold load_schema_files_map in E3.
    pose proof (load_schema_entries_ok _ _ (NoDup_fst_map_to_list (schema_map cfg)) E3) as He.
    pose proof (load_schema_entries_all _ _ E3) as Hr0. rewrite Forall_forall in Hr0.
    rewrite Hv. cbn. split_and!; try done.
    2:{ intros k [path Hk]. destruct (Hr0 (k, path)) as [doc Hd]; [by apply elem_of_map_to_list|].
        assert (Hdk : ddocs !! k = Some doc) by (apply He; exists path; by rewrite elem_of_map_to_list).
        destruct (Hall k doc Hdk) as [s Hs']. exists s. apply Hdm. eauto. }
    intros k s. rewrite Hdm. split.
    + intros (doc & Hk & Hval). apply He in Hk as (path & Hin & Hr).
      apply elem_of_map_to_list in Hin. eauto.
    + intros (path & doc & Hp & Hr & Hval). exists doc. split; [|done]. apply He. exists path.
      by rewrite elem_of_map_to_list.
  - intros [= <-]. rewrite Hv. cbn. by split_and!.
Qed.

End BuildFacts.

End Daemon.

(** ** On the sample instances *)

Definition no_toml (_ : bytes) : unit + Config := inl tt.

(** Files: a schema that requires [b], and a configuration. *)
Definition sample_fs (path : bytes) : io_error + bytes :=
  if bool_decide (path = lit "/b.json") then inr (print doc_str)
  else if bool_decide (path = lit "/conf") then inr (lit "conf")
  else inl (mkIoError OtherKind (Some 2) (lit "not found")).

Definition sample_validation : ValidationConfig :=
  mkValidationConfig Warn [lit "/b.json"] (Some (lit "kind")) {[ lit "k1" := lit "/b.json" ]}
    Optional Always true.

Definition built : Validator bytes :=
  mkValidator Warn [lit "b"] (Some (mkDiscriminator (lit "kind") {[ lit "k1" := lit "b" ]}))
    Optional Always true.

Lemma build_validator_spec_witness :
  build_validator (fun _ => []) sample_fs sample_validation = inr built
  /\ Forall2 (fun path s => exists doc, reads_doc sample_fs path doc /\ validator_for doc = inr s)
       (schemas sample_validation) (v_schemas built).
Proof.
  assert (H : build_validator (fun _ => []) sample_fs sample_validation = inr built)
    by (by vm_compute).
  split; [exact H|]. by apply (build_validator_spec (fun _ => []) sample_fs sample_validation built).
Defined.
