(* ===== verification/System.v ===== *)
(** * The process: [main] of [logfence-daemon/src/main.rs] from start to exit

    The signal handler, the listener task and whoever cancels the shutdown
    token, interleaved; the listener is any [ListenerTask], so that the facts
    hold for both transports. *)

From stdpp Require Import prelude strings list gmap relations.
From Stdlib Require Import ZArith Lia.
From S2P Require Import Prelude RustStd Config Json Validator Sample Metrics Effects Forwarder.
From S2P Require Import Listener DatagramListener Shutdown ConfigFacts Daemon.

Section System.
  Context {number serde_error schema schema_error toml_error : Type}.
  Context `{!SerdeJson number serde_error} `{!JsonSchema number schema schema_error}.
  Variable toml_from_str : bytes -> toml_error + Config.
  Variable config_error_display : ConfigError toml_error -> bytes.
  Variable io_error_display : io_error -> bytes.
  Variable config_path : bytes.

(** ** The transition system *)

(** [pr_signals] is history: the signals handled.  [pr_returned]: whether
    [handle_signals] has returned. *)
Record Process (L : Type) : Type := mkProcess {
  pr_daemon : DaemonState (schema := schema);
  pr_signals : list Signal;
  pr_returned : bool;
  pr_listener : L;
  pr_exit : option ExitCode
}.
Arguments mkProcess {L} _ _ _ _ _.
Arguments pr_daemon {L} _.
Arguments pr_signals {L} _.
Arguments pr_returned {L} _.
Arguments pr_listener {L} _.
Arguments pr_exit {L} _.

Section Steps.
  Context {L : Type} `{!ListenerTask L}.
  Implicit Types p : Process L.

(** The token and its child, which the listener holds, are cancelled. *)
Definition cancel_token (d : DaemonState) : DaemonState (schema := schema) :=
  mkDaemon (ds_validator d) true (ds_store d) (ds_logged d).

Definition exit_process p : Process L :=
  mkProcess (pr_daemon p) (pr_signals p) (pr_returned p) (pr_listener p) (Some ExitSuccess).

Definition set_listener p (l : L) : Process L :=
  mkProcess (pr_daemon p) (pr_signals p) (pr_returned p) l (pr_exit p).

(** The result of the listener task is logged, not looked at. *)
Inductive main_step : Process L -> Process L -> Prop :=
| ms_signal p sig returned d' :
    pr_exit p = None -> pr_returned p = false ->
    handle_signal toml_from_str config_error_display io_error_display config_path (pr_daemon p) sig
      = (returned, d') ->
    main_step p (mkProcess d' (pr_signals p ++ [sig]) returned
                   (if returned then task_cancel (pr_listener p) else pr_listener p) None)
| ms_cancel p :
    pr_exit p = None ->
    main_step p (mkProcess (cancel_token (pr_daemon p)) (pr_signals p) (pr_returned p)
                   (task_cancel (pr_listener p)) None)
| ms_listener p l' :
    pr_exit p = None -> task_step (pr_listener p) l' -> main_step p (set_listener p l')
| ms_exit p :
    pr_exit p = None -> pr_returned p = true -> task_finished (pr_listener p) = true ->
    main_step p (exit_process p).

(** A step that changes something; and those that wait for nobody. *)
Definition main_progress p p' : Prop := main_step p p' /\ p <> p'.

Inductive main_due : Process L -> Process L -> Prop :=
| md_listener p l' :
    pr_exit p = None -> task_due (pr_listener p) l' -> main_due p (set_listener p l')
| md_exit p :
    pr_exit p = None -> pr_returned p = true -> task_finished (pr_listener p) = true ->
    main_due p (exit_process p).

(** ** The invariant *)

Record main_inv p : Prop := {
  inv_listener : task_inv (pr_listener p);
  inv_token : ds_shutdown (pr_daemon p) = task_cancelled (pr_listener p);
  inv_term : pr_returned p = existsb is_term (pr_signals p);
  inv_returned : pr_returned p = true -> task_cancelled (pr_listener p) = true;
  inv_exit c : pr_exit p = Some c ->
    c = ExitSuccess /\ pr_returned p = true /\ task_finished (pr_listener p) = true
}.

Lemma handle_signal_token d sig returned d' :
  handle_signal toml_from_str config_error_display io_error_display config_path d sig = (returned, d') ->
  returned = is_term sig /\ ds_shutdown d' = (ds_shutdown d || returned).
Proof.
  destruct sig as [|fs|]; cbn [handle_signal]; intros H; simplify_eq; cbn.
  - by rewrite orb_true_r.
  - destruct (reload_validator _ _ _ fs config_path) as [e|[c v]]; simplify_eq; cbn;
      by rewrite orb_false_r.
  - by rewrite orb_false_r.
Qed.

Context `{!ListenerTaskLaws L}.

Lemma main_inv_step p p' : main_inv p -> main_step p p' -> main_inv p'.
Proof.
  intros [Hi Htok Hterm Hret Hex] Hs.
  destruct Hs as [p sig returned d' He Hr Hh|p He|p l' He Hl|p He Hr Hf]; split; cbn; try done.
  - destruct returned; [by apply task_inv_cancel|done].
  - apply handle_signal_token in Hh as [_ ->]. rewrite Htok. destruct returned.
    + rewrite orb_true_r. symmetry. apply task_cancel_cancels.
    + apply orb_false_r.
  - apply handle_signal_token in Hh as [-> _]. rewrite existsb_app, <- Hterm, Hr. cbn.
    by rewrite orb_false_r.
  - intros ->. apply task_cancel_cancels.
  - by apply task_inv_cancel.
  - symmetry. apply task_cancel_cancels.
  - intros _. apply task_cancel_cancels.
  - by eapply task_inv_step.
  - by rewrite (task_cancelled_step _ _ Hl).
  - intros Hr. rewrite (task_cancelled_step _ _ Hl). auto.
  - intros c Hc. congruence.
  - by intros c [= <-].
Qed.

(** ** The end *)

Definition main_measure p : nat :=
  task_measure (pr_listener p) + match pr_exit p with Some _ => 0 | None => 1 end.

Lemma main_decreases p p' :
  main_inv p -> pr_returned p = true -> main_progress p p' ->
  pr_returned p' = true /\ (main_measure p' < main_measure p)%nat.
Proof.
  intros [Hi Htok Hterm Hret Hex] Hr [Hs Hne]. specialize (Hret Hr).
  destruct Hs as [p sig returned d' He Hr' Hh|p He|p l' He Hl|p He Hr' Hf]; cbn; unfold main_measure; cbn.
  - congruence.
  - destruct Hne. rewrite task_cancel_again by done. destruct p as [[v sh st lg] sg r l e]. cbn in *.
    unfold cancel_token. cbn. rewrite Hret in Htok. by subst.
  - split; [done|]. rewrite He. pose proof (task_decreases _ _ Hi Hret Hl). lia.
  - rewrite He. split; [done|lia].
Qed.

Lemma main_settles p :
  main_inv p -> pr_returned p = true ->
  settles main_progress main_due
    (fun p' => pr_exit p' = Some ExitSuccess \/ (pr_exit p' = None /\ task_blocked (pr_listener p'))) p.
Proof.
  intros Hi Hr. apply (settles_measure _ _ (fun p => main_inv p /\ pr_returned p = true) _ main_measure);
    [| |done].
  - intros p1 p2 [Hi1 Hr1] Hp. destruct (main_decreases _ _ Hi1 Hr1 Hp) as [Hr2 Hm].
    split; [|done]. split; [|done]. eapply main_inv_step; [done|apply Hp].
  - intros p1 [Hi1 Hr1]. destruct (pr_exit p1) as [c|] eqn:E.
    + left. left. by destruct (inv_exit _ Hi1 c E) as [-> _].
    + pose proof (inv_returned _ Hi1 Hr1) as Hc.
      destruct (task_live _ (inv_listener _ Hi1) Hc) as [Hf|[[l' Hl]|Hb]]; [right|right|by left; right].
      * exists (exit_process p1). by apply md_exit.
      * exists (set_listener p1 l'). by apply md_listener.
Qed.

(** Where the listener is held up, the answer it waits for is a step. *)
Lemma main_settles_served p :
  main_inv p -> pr_returned p = true ->
  settles main_progress main_progress (fun p' => pr_exit p' = Some ExitSuccess) p.
Proof.
  intros Hi Hr. destruct (main_settles p Hi Hr) as [Hsn Hend]. split; [done|]. intros p' Hrun Hnf.
  assert (Hi' : main_inv p').
  { clear Hend Hnf Hr Hsn. induction Hrun as [|p1 p2 p3 [H12 _] _ IH]; [done|]. apply IH. by eapply main_inv_step. }
  assert (Hstep : forall l', pr_exit p' = None -> task_step (pr_listener p') l' -> False).
  { intros l' He Hl. apply Hnf. exists (set_listener p' l'). split; [by apply ms_listener|]. intros Heq.
    apply (f_equal pr_listener) in Heq. cbn in Heq. subst l'.
    assert (Hc : task_cancelled (pr_listener p') = true).
    { apply Hi'. clear Hend Hnf Hl He Hi' Hsn. induction Hrun as [|p1 p2 p3 H12 _ IH]; [done|].
      assert (main_inv p2) by (eapply main_inv_step; [done|apply H12]).
      apply IH; [done|]. by destruct (main_decreases _ _ Hi Hr H12). }
    pose proof (task_decreases _ _ (inv_listener _ Hi') Hc Hl). lia. }
  destruct (Hend p' Hrun) as [He|[He Hb]]; [|done|].
  - intros [p2 Hd]. destruct Hd as [p' l' He Hl|p' He Hr' Hf].
    + by apply (Hstep l' He), task_due_step.
    + apply Hnf. exists (exit_process p'). split; [by apply ms_exit|]. intros Heq.
      apply (f_equal pr_exit) in Heq. cbn in Heq. congruence.
  - destruct (task_blocked_step _ (inv_listener _ Hi') Hb) as [l' Hl]. by destruct (Hstep l' He).
Qed.

End Steps.

(** ** From start-up *)

(** The listener [main] spawns. *)
Definition listener_init (cfg : DaemonConfig) : AcceptState + PoolTask :=
  match listen_transport cfg with
  | ListenUnixStream => inl (accept_init (max_connections cfg))
  | ListenUnixDgram => inr (mkPoolTask (init_state (Z.to_nat (max_connections cfg))) None)
  end.

(** The process after start-up; [registered] are the results of the three
    [signal()] calls. *)
Definition process_init (registered : list (io_error + unit)) (st : Started) : Process (AcceptState + PoolTask) :=
  mkProcess (daemon_init st) [] (negb (all_registered registered))
    (listener_init (daemon (st_config st))) None.

(** Both listeners, for a configuration. *)
Definition listeners (cfg : DaemonConfig) : ListenerTask (AcceptState + PoolTask) :=
  @either_task _ _ (accept_task (max_connections cfg))
    (pool_task (max_message_size cfg) (Z.to_nat (max_connections cfg))).

Lemma listeners_laws cfg : 0 < max_connections cfg -> @ListenerTaskLaws _ (listeners cfg).
Proof.
  intros Hn. apply either_task_laws; [apply accept_task_laws; lia|apply pool_task_laws; lia].
Qed.

(** The listener stays what it is. *)
Definition is_pool (l : AcceptState + PoolTask) : bool := match l with inl _ => false | inr _ => true end.

Lemma main_step_pool cfg p p' :
  @main_step _ (listeners cfg) p p' -> is_pool (pr_listener p') = is_pool (pr_listener p).
Proof.
  intros Hs. destruct Hs as [p sig [] d' _ _ _|p _|p l' _ Hl|p _ _ _]; cbn; try done.
  - by destruct (pr_listener p).
  - by destruct (pr_listener p).
  - by destruct (pr_listener p), l'.
Qed.

(** The limit of the configuration the daemon started with. *)
Definition connection_limit (st : Started (schema := schema)) : Z :=
  max_connections (daemon (st_config st)).

Section Started.
  Variables (fs : bytes -> io_error + bytes) (ex : bool) (hf : io_error + bytes).
  Variables (w0 w1 : World (option (Validator schema))) (st : Started (schema := schema)).
  Hypothesis started :
    start toml_from_str io_error_display fs config_path ex hf w0 = (Done (inr st), w1).
  (** It is a [usize]. *)
  Hypothesis connections_usize : 0 <= connection_limit st.

Lemma started_positive : 0 < connection_limit st.
Proof.
  apply start_config in started. apply load_ok in started as (_ & _ & Hc & _). unfold connection_limit in *. lia.
Qed.

Lemma process_inv p :
  rtc (@main_step _ (listeners (daemon (st_config st)))) (process_init [inr tt; inr tt; inr tt] st) p -> @main_inv _ (listeners (daemon (st_config st))) p.
Proof.
  intros Hr. pose proof (listeners_laws _ started_positive) as Hl.
  apply rtc_ind_r with (P := @main_inv _ (listeners (daemon (st_config st)))) in Hr; [done| |].
  - split; cbn; try done; unfold listener_init; destruct (listen_transport _); cbn; try done.
    + apply accept_inv_reachable; [done|apply rtc_refl].
    + apply pool_init.
  - intros p1 p2 _ Hs Hi. by eapply main_inv_step.
Qed.

(** C19: the process exits only after SIGTERM.  From a successful start, under any
    interleaving of signals, listener and token, an exit has code 0, a SIGTERM
    was handled before it, and the listener had returned; in particular a
    token cancelled by the forwarder (the terminate policy) does not make the
    process exit, however long the listener has been gone. *)
Theorem exits_only_after_sigterm p c :
  rtc (@main_step _ (listeners (daemon (st_config st)))) (process_init [inr tt; inr tt; inr tt] st) p -> pr_exit p = Some c ->
  c = ExitSuccess /\ existsb is_term (pr_signals p) = true
  /\ ds_shutdown (pr_daemon p) = true /\ @task_finished _ (listeners (daemon (st_config st))) (pr_listener p) = true.
Proof.
  intros Hr Hc. pose proof (process_inv p Hr) as [_ Htok Hterm Hret Hex].
  destruct (Hex c Hc) as (-> & Hr1 & Hf). split_and!; try done; [congruence|].
  rewrite Htok. by apply Hret.
Qed.

Lemma process_pool p :
  rtc (@main_step _ (listeners (daemon (st_config st)))) (process_init [inr tt; inr tt; inr tt] st) p ->
  is_pool (pr_listener p) = bool_decide (listen_transport (daemon (st_config st)) = ListenUnixDgram).
Proof.
  intros Hr. apply rtc_ind_r with (P := fun p => is_pool (pr_listener p)
    = bool_decide (listen_transport (daemon (st_config st)) = ListenUnixDgram)) in Hr; [done| |].
  - cbn. unfold listener_init. by destruct (listen_transport _).
  - intros p1 p2 _ Hs Hp. by rewrite (main_step_pool _ _ _ Hs).
Qed.

(** C6: SIGTERM ends the process.  From a successful start and any state that is then
    reachable, once a SIGTERM has been handled only finitely many steps
    remain, whatever clients do.  As long as the calls to rsyslog that are
    under way return, they lead to exit code 0.  Even if none ever returns,
    they do, with one exception: a datagram listener that is held up
    in [send] on the full channel of a worker that is in such a call. *)
Theorem sigterm_ends_the_process p :
  rtc (@main_step _ (listeners (daemon (st_config st)))) (process_init [inr tt; inr tt; inr tt] st) p ->
  existsb is_term (pr_signals p) = true ->
  settles (@main_progress _ (listeners (daemon (st_config st)))) (@main_progress _ (listeners (daemon (st_config st))))
    (fun p' => pr_exit p' = Some ExitSuccess) p
  /\ settles (@main_progress _ (listeners (daemon (st_config st)))) (@main_due _ (listeners (daemon (st_config st))))
    (fun p' => pr_exit p' = Some ExitSuccess
       \/ (listen_transport (daemon (st_config st)) = ListenUnixDgram
           /\ exists t, pr_listener p' = inr t /\ send_blocked t)) p.
Proof.
  intros Hr Ht. pose proof (process_inv p Hr) as Hi.
  pose proof (listeners_laws _ started_positive) as Hl.
  assert (Hret : pr_returned p = true) by (by rewrite (inv_term _ Hi)).
  split; [by apply main_settles_served|].
  destruct (main_settles p Hi Hret) as [Hsn Hend]. split; [done|]. intros p' Hrun Hnf.
  destruct (Hend p' Hrun Hnf) as [He|[_ Hb]]; [by left|right].
  assert (Hr' : rtc (@main_step _ (listeners (daemon (st_config st)))) p p').
  { eapply rtc_subrel, Hrun. by intros p1 p2 [? _]. }
  pose proof (process_pool p' ltac:(by etrans)) as Hp.
  destruct (pr_listener p') as [a|t]; [done|]. split; [|by exists t].
  symmetry in Hp. by apply bool_decide_eq_true in Hp.
Qed.

End Started.
End System.

(** ** A run of the process *)

(** A configuration with one datagram worker. *)
Definition dgram_config : Config :=
  mkConfig (mkDaemonConfig (lit "/s") (lit "0660") None 1 65536 ListenUnixDgram OctetCount Original)
    RsyslogConfig_default (mkValidationConfig Strict [lit "/b.json"] None ∅ Never Never false)
    LoggingConfig_default MetricsConfig_default.

Definition sample_toml (text : bytes) : unit + Config :=
  if bool_decide (text = lit "conf") then inr dgram_config else inl tt.

Definition dgram_started : Started (schema := bytes) :=
  mkStarted dgram_config (Validator_new Strict [lit "b"])
    (mkForwarder (UnixDgram (lit "/run/syslog")) 4 Drop true) None (mkBound 432 (lit "h")).

Definition start_world : World (option (Validator bytes)) := idle_world None (replicate 6 (inr tt)).

Lemma dgram_start :
  start sample_toml (fun _ => []) sample_fs (lit "/conf") false (inr (lit "h")) start_world
  = (Done (inr dgram_started), snd (start sample_toml (fun _ => []) sample_fs (lit "/conf") false
                                      (inr (lit "h")) start_world)).
Proof. by vm_compute. Defined.

Abbreviation sample_step := (@main_step nat unit bytes unit unit _ _ sample_toml (fun _ => [])
  (fun _ => []) (lit "/conf") _ (listeners (daemon dgram_config))).

(** After a failed reload, SIGTERM. *)
Definition term_state : Process (AcceptState + PoolTask) :=
  mkProcess _ (cancel_token (daemon_init dgram_started)) [SIGHUP (fun _ => inl (io_other [])); SIGTERM] true
    (inr (mkPoolTask (request_shutdown (init_state 1)) None)) None.

Lemma term_reachable : rtc sample_step (process_init [inr tt; inr tt; inr tt] dgram_started) term_state.
Proof.
  eapply rtc_l; [by eapply (ms_signal _ _ _ _ _ (SIGHUP (fun _ => inl (io_other []))))|].
  eapply rtc_l; [by eapply (ms_signal _ _ _ _ _ SIGTERM)|]. apply rtc_refl.
Defined.

(** The loop ends, the worker is joined, [main] returns. *)
Definition exit_state : Process (AcceptState + PoolTask) :=
  mkProcess _ (cancel_token (daemon_init dgram_started)) [SIGHUP (fun _ => inl (io_other [])); SIGTERM] true
    (inr (mkPoolTask (mkLState [new_worker] 0 Stopped true [] []) (Some true))) (Some ExitSuccess).

Lemma exit_reachable : rtc sample_step (process_init [inr tt; inr tt; inr tt] dgram_started) exit_state.
Proof.
  etrans; [exact term_reachable|].
  eapply rtc_l; [apply (ms_listener _ _ _ _ _ (inr (mkPoolTask (mkLState [new_worker] 0 Stopped true [] []) None)))|].
  { done. }
  { split; [|done]. apply pts_pool. by apply step_shutdown. }
  eapply rtc_l; [apply (ms_listener _ _ _ _ _ (inr (mkPoolTask (mkLState [new_worker] 0 Stopped true [] []) (Some true))))|].
  { done. }
  { split; [|done]. apply pts_joined. split; [done|]. by intros [|[|j]] w; cbn; intros; simplify_eq. }
  eapply rtc_l; [by apply ms_exit|]. apply rtc_refl.
Defined.

Lemma exits_only_after_sigterm_witness :
  ExitSuccess = ExitSuccess /\ existsb is_term (pr_signals _ exit_state) = true
  /\ ds_shutdown (pr_daemon _ exit_state) = true
  /\ @task_finished _ (listeners (daemon dgram_config)) (pr_listener _ exit_state) = true.
Proof.
  refine (exits_only_after_sigterm sample_toml (fun _ => []) (fun _ => []) (lit "/conf") sample_fs false
    (inr (lit "h")) start_world _ dgram_started dgram_start _ exit_state ExitSuccess exit_reachable _);
    by vm_compute.
Defined.

Lemma sigterm_ends_the_process_witness :
  settles (fun p p' => sample_step p p' /\ p <> p') (fun p p' => sample_step p p' /\ p <> p')
    (fun p' => pr_exit _ p' = Some ExitSuccess) term_state
  /\ settles (fun p p' => sample_step p p' /\ p <> p') (@main_due _ _ (listeners (daemon dgram_config)))
    (fun p' => pr_exit _ p' = Some ExitSuccess
       \/ (ListenUnixDgram = ListenUnixDgram
           /\ exists t, pr_listener _ p' = inr t /\ send_blocked t)) term_state.
Proof.
  refine (sigterm_ends_the_process sample_toml (fun _ => []) (fun _ => []) (lit "/conf") sample_fs false
    (inr (lit "h")) start_world _ dgram_started dgram_start _ term_state term_reachable _);
    by vm_compute.
Defined.
