(* ===== verification/Policy.v ===== *)
(** * The configured policy, from the files to rsyslog

    What the configuration file and the schema files say about a message
    ([admits]), and that the running daemon, through start-up, reloads and
    sessions, enforces exactly that. *)

From stdpp Require Import prelude strings list gmap.
From Stdlib Require Import ZArith Lia.
From S2P Require Import Prelude RustStd Syslog SyslogFacts Timestamp StructuredData SyslogRoundtrip.
From S2P Require Import Frame Config Json Validator Sample Metrics Effects Forwarder Session.
From S2P Require Import SessionFacts Filter Listener Daemon System.

Section Policy.
  Context {number serde_error schema schema_error toml_error : Type}.
  Context `{!SerdeJson number serde_error} `{!JsonSchema number schema schema_error}.
  Variable toml_from_str : bytes -> toml_error + Config.
  Variable config_error_display : ConfigError toml_error -> bytes.
  Variable io_error_display : io_error -> bytes.
  Variable debug_char : Z -> bytes.
  Variable process_id : Z.

Abbreviation files := (bytes -> io_error + bytes).

(** ** The policy *)

(** The schema file at [path] accepts the document. *)
Definition file_accepts (fs : files) (path : bytes) (val : Value number) : Prop :=
  exists doc s, reads_doc fs path doc /\ validator_for doc = inr s /\ is_valid s val = true.

(** The file the discriminator selects, if it selects one. *)
Definition policy_route (c : ValidationConfig) (val : Value number) : option bytes :=
  field ← discriminator c; x ← value_get val field; k ← as_str x; schema_map c !! k.

Definition policy_schema (fs : files) (c : ValidationConfig) (val : Value number) : Prop :=
  match policy_route c val with
  | Some path => file_accepts fs path val
  | None => schemas c = [] \/ Exists (fun path => file_accepts fs path val) (schemas c)
  end.

(** The message has the cookie the configuration demands and a JSON object
    after it, which in strict mode a schema file accepts: the one the
    discriminator selects, or one of those listed, if any are. *)
Definition admits (fs : files) (c : ValidationConfig) (m : SyslogMessage) : Prop :=
  exists bare o, cookie_policy (input_cee c) (msg m) bare /\ from_str bare = inr (Object o)
    /\ (mode c = Strict -> policy_schema fs c (Object o)).

Lemma reads_doc_fun (fs : files) path d d' : reads_doc fs path d -> reads_doc fs path d' -> d = d'.
Proof. intros (t & Hr & Hf) (t' & Hr' & Hf'). congruence. Qed.

Lemma listed_accepts fs paths ss val :
  Forall2 (fun path s => exists doc, reads_doc fs path doc /\ validator_for doc = inr s) paths ss ->
  Exists (fun s : schema => is_valid s val = true) ss <-> Exists (fun path => file_accepts fs path val) paths.
Proof.
  induction 1 as [|path s paths ss (doc & Hd & Hv) _ IH]; [by rewrite !Exists_nil|].
  rewrite !Exists_cons, IH. apply or_iff_compat_r. split.
  - intros Hs. by exists doc, s.
  - intros (doc' & s' & Hd' & Hv' & Hs). rewrite (reads_doc_fun _ _ _ _ Hd Hd') in Hv. congruence.
Qed.

Lemma schema_accepts_policy fs c (v : Validator schema) val :
  build_validator io_error_display fs c = inr v -> schema_accepts v val <-> policy_schema fs c val.
Proof.
  intros Hb. apply build_validator_spec in Hb as (_ & _ & _ & _ & Hs & Hd).
  assert (Hlist : (v_schemas v = [] \/ Exists (fun s => is_valid s val = true) (v_schemas v))
                  <-> (schemas c = [] \/ Exists (fun path => file_accepts fs path val) (schemas c))).
  { rewrite (listed_accepts _ _ _ _ Hs). apply or_iff_compat_r. by destruct Hs. }
  unfold schema_accepts, policy_schema, routed, policy_route.
  destruct (discriminator c) as [field|], (v_discriminator v) as [d|]; try done.
  destruct Hd as (<- & Hd & Hall). cbn [mbind option_bind].
  destruct (value_get val (disc_field d)) as [x|]; [|exact Hlist]. cbn [mbind option_bind].
  destruct (as_str x) as [k|]; [|exact Hlist]. cbn [mbind option_bind].
  destruct (schema_map c !! k) as [path|] eqn:Ep.
  - destruct (Hall k) as [s Hk]; [by eexists|]. rewrite Hk.
    destruct (proj1 (Hd k s) Hk) as (path' & doc & Hp & Hr & Hv). rewrite Ep in Hp. injection Hp as <-. split.
    + intros Hi. by exists doc, s.
    + intros (doc' & s' & Hr' & Hv' & Hi). rewrite (reads_doc_fun _ _ _ _ Hr Hr') in Hv. congruence.
  - destruct (disc_map d !! k) as [s|] eqn:Ek; [|exact Hlist].
    destruct (proj1 (Hd k s) Ek) as (path' & ? & Hp & _). by rewrite Ep in Hp.
Qed.

(** The validator that was built decides the policy. *)
Lemma build_validator_admits fs c (v : Validator schema) m :
  build_validator io_error_display fs c = inr v -> validate v m = Ok tt <-> admits fs c m.
Proof.
  intros Hb. rewrite validate_ok_iff. unfold admits.
  pose proof (fun val => schema_accepts_policy fs c v val Hb) as Hs.
  apply build_validator_spec in Hb as (-> & -> & _). by setoid_rewrite Hs.
Qed.

(** ** Reloads *)

(** The file system and the validation settings last loaded with success. *)
Definition effective (config_path : bytes) (cur : files * ValidationConfig) (sig : Signal)
    : files * ValidationConfig :=
  match sig with
  | SIGHUP fs =>
      match load fs toml_from_str config_path with
      | Ok cfg =>
          match build_validator io_error_display fs (validation cfg) : bytes + Validator schema with
          | inr _ => (fs, validation cfg)
          | inl _ => cur
          end
      | _ => cur
      end
  | _ => cur
  end.

(** Nothing is reloaded after the first SIGTERM. *)
Definition in_effect (config_path : bytes) (cur : files * ValidationConfig) (sigs : list Signal)
    : files * ValidationConfig :=
  foldl (effective config_path) cur (before_term sigs).

Abbreviation built_from := (fun cur v =>
  build_validator io_error_display (fst cur) (snd cur) = inr (v : Validator schema)).

Lemma signal_loop_effect config_path st sigs cur :
  built_from cur (ds_validator st) ->
  built_from (in_effect config_path cur sigs)
    (ds_validator (snd (signal_loop toml_from_str config_error_display io_error_display config_path st sigs))).
Proof.
  unfold in_effect. revert st cur. induction sigs as [|sig sigs IH]; intros st cur Hb; [done|].
  cbn [signal_loop before_term]. destruct sig as [|fs|]; cbn [handle_signal is_term foldl effective].
  - exact Hb.
  - unfold reload_validator. destruct (load fs toml_from_str config_path) as [cfg|e|]; [|by apply IH|by apply IH].
    destruct (build_validator io_error_display fs (validation cfg)) as [e|v] eqn:Ev; by apply IH.
  - by apply IH.
Qed.

(** The validator the handler has stored once it has seen [sigs]. *)
Definition validator_after (config_path : bytes) (st : DaemonState) (sigs : list Signal) : Validator schema :=
  ds_validator (snd (signal_loop toml_from_str config_error_display io_error_display config_path st sigs)).

(** What the handler stores before each of [n] messages, when [epochs] are the
    signals that arrive before each. *)
Definition stored (config_path : bytes) (st : DaemonState) (epochs : list (list Signal)) (n : nat)
    : list (option (Validator schema)) :=
  map (fun i => Some (validator_after config_path st (concat (take (S i) epochs)))) (seq 0 n).

Lemma in_force_some (vs : list (Validator schema)) cur : in_force cur (map Some vs) (length vs) = vs.
Proof. revert cur. induction vs as [|v vs IH]; intros cur; [done|]. cbn. f_equal. apply IH. Qed.

(** ** The daemon *)

(** The text for one message: the message as the settings make it if they
    admit it, and a report if they do not. *)
Definition policy_text (cfg : SessionConfig) (settings : files * ValidationConfig) (m o : SyslogMessage) : Prop :=
  let '(fs, c) := settings in
  (admits fs c m /\ exists v : Validator schema,
     build_validator io_error_display fs c = inr v /\ o = outgoing process_id cfg v m)
  \/ (~ admits fs c m /\ exists e,
     o = rejection_report process_id (sc_local_hostname cfg) (validation_payload cfg m e)).

(** For each message, one text, by the settings in effect. *)
Definition policy_output (cfg : SessionConfig) (at_message : nat -> files * ValidationConfig)
    (ms out : list SyslogMessage) : Prop :=
  length out = length ms
  /\ forall i m o, ms !! i = Some m -> out !! i = Some o -> policy_text cfg (at_message i) m o.

Lemma verdict_policy cfg cur (v : Validator schema) m :
  built_from cur v -> policy_text cfg cur m (verdict process_id cfg v m).
Proof.
  destruct cur as [fs c]. cbn [fst snd policy_text]. intros Hb.
  rewrite <- (build_validator_admits fs c v m Hb). unfold verdict.
  destruct (validate v m) as [[]|e|] eqn:E; [left; eauto|right|by apply validate_no_panic in E].
  split; [done|by exists e].
Qed.

(** The settings in effect at the [i]-th message. *)
Definition settings_at (config_path : bytes) (cur : files * ValidationConfig) (epochs : list (list Signal))
    (i : nat) : files * ValidationConfig :=
  in_effect config_path cur (concat (take (S i) epochs)).

Lemma filter_output_policy cfg config_path st cur epochs ms :
  built_from cur (ds_validator st) ->
  policy_output cfg (settings_at config_path cur epochs) ms
    (filter_output process_id cfg
       (in_force (ds_validator st) (stored config_path st epochs (length ms)) (length ms)) ms).
Proof.
  intros Hb.
  set (g i := validator_after config_path st (concat (take (S i) epochs))).
  assert (Hf : in_force (ds_validator st) (map (fun i => Some (g i)) (seq 0 (length ms))) (length ms)
               = map g (seq 0 (length ms))).
  { rewrite <- (map_map g Some). rewrite <- (in_force_some (map g (seq 0 (length ms))) (ds_validator st)) at 2.
    by rewrite length_map, length_seq. }
  change (stored config_path st epochs (length ms)) with (map (fun i => Some (g i)) (seq 0 (length ms))).
  rewrite Hf. unfold filter_output. split; [rewrite length_zip_with, length_map, length_seq; lia|].
  intros i m o Hm Ho. rewrite lookup_zip_with in Ho.
  apply bind_Some in Ho as (v & Hv & Ho). rewrite Hm in Ho. injection Ho as <-.
  rewrite list_lookup_fmap in Hv. apply fmap_Some in Hv as (j & Hj & ->).
  apply lookup_seq in Hj as [-> _]. cbn [plus].
  pose proof (signal_loop_effect config_path st (concat (take (S i) epochs)) cur Hb : built_from _ (g i)) as Hg.
  by apply verdict_policy.
Qed.

(** The validator of a daemon that started is built from its configuration. *)
Lemma start_built fs config_path ex hf w st w' :
  start toml_from_str io_error_display fs config_path ex hf w = (Done (inr st), w') ->
  built_from (fs, validation (st_config st)) (st_validator st).
Proof.
  unfold start. destruct (load fs toml_from_str config_path) as [cfg|e|]; [|done|done].
  destruct (build_validator io_error_display fs (validation cfg)) as [|v] eqn:Ev; [done|].
  unfold mbind, IO_bind. destruct (from_config _ _ w) as [[[e|fwd]| |] w1]; try done.
  match goal with |- match ?m w1 with _ => _ end = _ -> _ => destruct (m w1) as [[[e|b]| |] w2] end; try done.
  by intros [= <- _].
Qed.

(** C2: the daemon enforces the policy of its files.  A daemon started from a
    configuration file serves a client's connection while signals arrive: for
    every message of the client the settings in effect are those of the last
    configuration that loaded with all its schemas before the message was
    judged (a reload that fails changes nothing, none follows SIGTERM).  For
    each message there is one text: the message, prepared for forwarding, if
    those settings admit it, and a rejection report if they do not.  Whatever
    the operating system answers, what reaches rsyslog is a subsequence of
    these texts; when it accepts everything, the session ends and rsyslog has
    exactly these. *)
Theorem daemon_enforces_policy `{!DecodeEof OctetCountCodec} `{!DecodeEof DelimiterCodec}
    `{!DecodeEofLaws OctetCountCodec} `{!DecodeEofLaws DelimiterCodec}
    fs config_path ex hf w0 st w1 addr epochs ms chunks ending (w : World (Validator schema)) :
  let cfg := session_config (daemon (st_config st)) (bound_hostname (st_bound st)) addr in
  start toml_from_str io_error_display fs config_path ex hf w0 = (Done (inr st), w1) ->
  0 <= sc_max_message_size cfg <= isize_max - 21 -> Forall (session_ok cfg) ms ->
  Forall (fun c => c <> []) chunks -> concat chunks = concat (map (session_frame cfg) ms) ->
  len (concat chunks) + 21 <= usize_max -> ends_stream ending ->
  trace w = [] -> store_ok (stats w) -> current w = st_validator st ->
  updates w = stored config_path (daemon_init st) epochs (length ms) ->
  exists out, policy_output cfg (settings_at config_path (fs, validation (st_config st)) epochs) ms out
    /\ let '(o, w') := run_session debug_char process_id (st_forwarder st) cfg (map inr chunks ++ [ending]) w in
       delivered (trace w') `sublist_of` map (wire_form (st_forwarder st)) out
       /\ (Forall (eq (inr tt)) (answers w) -> (length ms + 4 <= length (answers w))%nat ->
           o = Done tt /\ delivered (trace w') = map (wire_form (st_forwarder st)) out).
Proof.
  intros cfg Hst Hn Hms Hc Heq Hl He Ht Hok Hcur Hup. eexists. split.
  { apply (filter_output_policy cfg config_path (daemon_init st) (fs, validation (st_config st)) epochs ms).
    by eapply start_built. }
  rewrite (run_session_frames _ _ _ _ chunks ms) by done. cbn [daemon_init ds_validator].
  rewrite <- Hcur, <- Hup.
  pose proof (handle_all_sublist process_id (st_forwarder st) cfg ms w) as Hs.
  pose proof (fun Hr => handle_all_ready process_id (st_forwarder st) cfg ms w Hr Hok) as Hr. rewrite Ht in *.
  destruct (handle_all _ _ _ ms w) as [o w'] eqn:Eh. split; [exact Hs|]. intros Hans Hlen.
  destruct Hr as (w2 & [= -> <-] & Hd & _); [by apply answers_ready|]. done.
Qed.

End Policy.

(** ** A reload between messages *)

(** Two configurations of a stream listener: strict with a schema that
    requires [b], and lenient without schemas. *)
Definition stream_config (c : ValidationConfig) : Config :=
  mkConfig (mkDaemonConfig (lit "/s") (lit "0660") None 1 1024 ListenUnixStream OctetCount Original)
    RsyslogConfig_default c LoggingConfig_default MetricsConfig_default.

Definition strict_config : Config :=
  stream_config (mkValidationConfig Strict [lit "/b.json"] None ∅ Never Never false).
Definition warn_config : Config := stream_config (mkValidationConfig Warn [] None ∅ Never Never false).

Definition two_tomls (text : bytes) : unit + Config :=
  if bool_decide (text = lit "conf") then inr strict_config
  else if bool_decide (text = lit "warn") then inr warn_config else inl tt.

Definition warn_fs (path : bytes) : io_error + bytes :=
  if bool_decide (path = lit "/conf") then inr (lit "warn") else inl (io_other []).

Definition stream_started : Started (schema := bytes) :=
  mkStarted strict_config strict_b (mkForwarder (UnixDgram (lit "/run/syslog")) 4 Drop true) None
    (mkBound 432 (lit "h")).

(** A reload that fails before the second message, one that succeeds before
    the third. *)
Definition two_reloads : list (list Signal) := [[]; [SIGHUP (fun _ => inl (io_other []))]; [SIGHUP warn_fs]].

Definition policy_ms : list SyslogMessage := [sample_msg; bad_msg; bad_msg].

Definition policy_cfg : SessionConfig := session_config (daemon strict_config) (lit "h") None.

Definition policy_world : World (Validator bytes) :=
  mkWorld (replicate 7 (inr tt)) [] false false MetricsStore_new strict_b
    (stored two_tomls (fun _ => []) (fun _ => []) (lit "/conf") (daemon_init stream_started) two_reloads 3).

Lemma policy_ms_ok : Forall (session_ok policy_cfg) policy_ms.
Proof.
  pose proof sample_ms_ok as H. unfold sample_ms in H. rewrite !Forall_cons in H.
  destruct H as ([Hg _] & [Hb _] & _). unfold policy_ms. rewrite !Forall_cons. by split_and!.
Defined.

Lemma daemon_enforces_policy_witness :
  let chunks := [concat (map (session_frame policy_cfg) policy_ms)] in
  let w' := snd (run_session (fun _ => []) 7 (st_forwarder stream_started) policy_cfg
                   (map inr chunks ++ [inr []]) policy_world) in
  exists out, policy_output (fun _ => []) 7 policy_cfg
      (settings_at two_tomls (fun _ => []) (lit "/conf") (sample_fs, validation strict_config) two_reloads)
      policy_ms out
    /\ delivered (trace w') = map (wire_form (st_forwarder stream_started)) out.
Proof.
  intros chunks w'.
  assert (Hst : start two_tomls (fun _ => []) sample_fs (lit "/conf") false (inr (lit "h")) start_world
    = (Done (inr stream_started), snd (start two_tomls (fun _ => []) sample_fs (lit "/conf") false
         (inr (lit "h")) start_world))) by (by vm_compute).
  destruct (daemon_enforces_policy two_tomls (fun _ => []) (fun _ => []) (fun _ => []) 7 sample_fs (lit "/conf")
    false (inr (lit "h")) start_world stream_started _ None two_reloads policy_ms chunks (inr []) policy_world Hst)
    as (out & Hp & Hd);
    [by vm_compute|exact policy_ms_ok|by repeat constructor|by vm_compute|by vm_compute|done|done|by vm_compute|done|done|].
  exists out. split; [exact Hp|]. unfold w'. revert Hd.
  destruct (run_session _ _ _ _ _ _) as [o w2]. intros [_ Hd]. apply Hd; [by apply Forall_replicate|by vm_compute].
Defined.
