(* ===== verification/DatagramPolicy.v ===== *)
(** * The configured policy in datagram mode

    The pool of DatagramFilter.v in a daemon that was started from its files
    and reloads them on SIGHUP: every datagram dispatched is answered as the
    settings in effect when it is judged say. *)

From stdpp Require Import prelude strings list gmap.
From Stdlib Require Import ZArith Lia.
From S2P Require Import Prelude RustStd Syslog SyslogFacts Timestamp StructuredData SyslogRoundtrip.
From S2P Require Import Frame Config Json Validator Sample Metrics Effects Forwarder Session.
From S2P Require Import SessionFacts Filter DatagramListener DatagramFilter Listener ConfigFacts Daemon System Policy.

Section DatagramPolicy.
  Context {number serde_error schema schema_error toml_error : Type}.
  Context `{!SerdeJson number serde_error} `{!JsonSchema number schema schema_error}.
  Variable toml_from_str : bytes -> toml_error + Config.
  Variable config_error_display : ConfigError toml_error -> bytes.
  Variable io_error_display : io_error -> bytes.
  Variable debug_char : Z -> bytes.
  Variable process_id : Z.

Abbreviation settings := ((bytes -> io_error + bytes) * ValidationConfig)%type.

(** The text for one datagram: by the policy if it is a message, a report on
    what is wrong with it if it is not. *)
Definition datagram_policy (base : SessionConfig) (cur : settings) (it : item) (o : SyslogMessage) : Prop :=
  let cfg := with_peer base (snd it) in
  match read_datagram debug_char (fst it) with
  | IsMessage m => policy_text io_error_display process_id cfg cur m o
  | IsProblem p => o = rejection_report process_id (sc_local_hostname cfg) (problem_payload cfg p)
  | Unwinds => False
  end.

(** Each datagram with the validator that is stored when the handler has seen
    the first [k] signals, [k] being the datagram's. *)
Definition judged (config_path : bytes) (st : DaemonState) (sigs : list Signal) (times : list (item * nat))
    : list (item * Validator schema) :=
  map (fun x => (fst x, validator_after toml_from_str config_error_display io_error_display config_path st
                          (take (snd x) sigs))) times.

Abbreviation readable := (fun x : item * nat => negb (datagram_panics (fst x))).

Lemma texts_policy base config_path st cur sigs times :
  build_validator io_error_display (fst cur) (snd cur) = inr (ds_validator st) ->
  Forall2 (fun x o => datagram_policy base
             (in_effect (schema := schema) toml_from_str io_error_display config_path cur (take (snd x) sigs)) (fst x) o)
    (List.filter readable times)
    (omap (datagram_text debug_char process_id base) (judged config_path st sigs times)).
Proof.
  intros Hb. induction times as [|[[b peer] k] times IH]; [done|].
  cbn [judged map List.filter omap list_omap fst snd]. unfold datagram_text at 1.
  pose proof (read_datagram_unwinds debug_char (b, peer)) as Hu. cbn [fst] in Hu.
  destruct (read_datagram debug_char b) as [m|p|] eqn:Er.
  1,2: destruct (datagram_panics (b, peer)); [by destruct Hu as [_ Hu]; specialize (Hu eq_refl)|];
    cbn [negb]; constructor; [|exact IH]; unfold datagram_policy; cbn [fst snd]; rewrite Er.
  - apply verdict_policy. by apply signal_loop_effect.
  - done.
  - rewrite (proj1 Hu eq_refl). exact IH.
Qed.

(** C13: the daemon enforces its policy in datagram mode.  A daemon started
    from a configuration file receives datagrams, any bytes from any peers,
    and spreads them over its workers, in any interleaving of receiving,
    dispatching and processing, while signals arrive; each dispatched
    datagram has the number of signals handled before it is judged.  For each
    one on which the parser does not unwind there is one text: the message
    prepared for forwarding if the settings in effect by then admit it, a
    rejection report if they do not or if it is no message.  Whatever the
    operating system answers, all that the workers together have sent is
    contained in these texts, with multiplicity: no datagram is answered by
    two workers or twice by one.  When the channels are empty, no datagram
    unwound a worker and rsyslog accepts everything, it is exactly these
    texts, in some order. *)
Theorem datagram_daemon_enforces_policy fs config_path ex hf w0 st w1 sigs times s ws :
  let cfg := daemon (st_config st) in
  let base := base_config cfg (bound_hostname (st_bound st)) in
  let n := Z.to_nat (max_connections cfg) in
  let effect k := in_effect (schema := schema) toml_from_str io_error_display config_path
                    (fs, validation (st_config st)) (take k sigs) in
  let sent := pool_delivered debug_char process_id (st_forwarder st) base s ws in
  start toml_from_str io_error_display fs config_path ex hf w0 = (Done (inr st), w1) ->
  0 <= max_connections cfg -> reachable (max_message_size cfg) n s -> map fst times = dispatched s ->
  pool_worlds debug_char n (judged config_path (daemon_init st) sigs times) ws ->
  exists out,
    Forall2 (fun x o => datagram_policy base (effect (snd x)) (fst x) o) (List.filter readable times) out
    /\ sent ⊆+ map (wire_form (st_forwarder st)) out
    /\ (Forall (fun wk => queue wk = []) (workers s) -> Forall (fun it => datagram_panics it = false) (dispatched s) ->
        Forall (fun w => Forall (eq (inr tt)) (answers w)
                  /\ (length (dispatched s) + 4 <= length (answers w))%nat) ws ->
        sent ≡ₚ map (wire_form (st_forwarder st)) out).
Proof.
  intros cfg base n effect sent Hst Hn Hr Ht Hw.
  assert (Hpos : (0 < n)%nat).
  { apply start_config in Hst. apply load_ok in Hst as (_ & _ & Hc & _). unfold n, cfg in *. lia. }
  assert (Hf : map fst (judged config_path (daemon_init st) sigs times) = dispatched s)
    by (unfold judged; by rewrite map_map).
  eexists. split; [|split].
  - by eapply (texts_policy base config_path (daemon_init st) (fs, _)), start_built.
  - by apply (pool_at_most_once debug_char process_id _ base (max_message_size cfg) n s).
  - intros Hq Hp Ha. by apply (pool_exactly_once debug_char process_id _ base (max_message_size cfg) n s).
Qed.

End DatagramPolicy.

(** ** Two workers, three datagrams, a reload *)

Definition pool_config (c : ValidationConfig) : Config :=
  mkConfig (mkDaemonConfig (lit "/s") (lit "0660") None 2 1024 ListenUnixDgram OctetCount Original)
    RsyslogConfig_default c LoggingConfig_default MetricsConfig_default.

Definition pool_tomls (text : bytes) : unit + Config :=
  sum_map id (fun cfg => pool_config (validation cfg)) (two_tomls text).

Definition pool_started : Started (schema := bytes) :=
  mkStarted (pool_config (validation strict_config)) strict_b
    (mkForwarder (UnixDgram (lit "/run/syslog")) 4 Drop true) None (mkBound 432 (lit "h")).

(** A message the schema refuses, no message, and the first again after a
    reload has dropped the schemas. *)
Definition refused_item : item := (display bad_msg, lit "<anonymous>").
Definition noise_item : item := (lit "noise", lit "<anonymous>").

Definition pool_times : list (item * nat) := [(refused_item, 0%nat); (noise_item, 0%nat); (refused_item, 1%nat)].

(** Three datagrams over two workers, all processed. *)
Definition pool_state (a b : item) : LState :=
  mkLState [mkWorker true [] None [a; a]; mkWorker true [] None [b]] 1 (Dispatch []) false [a; b; a] [a; b; a].

(** A harmless datagram is taken and processed. *)
Lemma worker_turn buf_len s i w it q :
  workers s !! i = Some w -> alive w = true -> in_hand w = None -> queue w = it :: q ->
  datagram_panics it = false ->
  rtc (step buf_len) s
    (mkLState (<[i := mkWorker true q None (processed w ++ [it])]> (workers s))
       (worker_idx s) (phase s) (shutdown_requested s) (received_items s) (dispatched s)).
Proof.
  intros Hw Ha Hh Hq Hp. eapply rtc_l; [by apply (step_take buf_len s i w it q)|]. apply rtc_once.
  set (w1 := mkWorker true q (Some it) (processed w)).
  pose proof (step_finish buf_len (mkLState (<[i := w1]> (workers s)) (worker_idx s) (phase s)
    (shutdown_requested s) (received_items s) (dispatched s)) i w1 it) as H.
  cbn in H. rewrite Hp, list_insert_insert_eq in H. apply H; [|done|done].
  apply list_lookup_insert_eq. by eapply lookup_lt_Some.
Qed.

Lemma pool_state_reachable x y :
  let a := (x, lit "<anonymous>") in let b := (y, lit "<anonymous>") in
  len x <= 1024 -> len y <= 1024 ->
  datagram_panics a = false -> datagram_panics b = false -> reachable 1024 2 (pool_state a b).
Proof.
  intros a b Hx Hy Ha Hb.
  set (at_ q0 p0 q1 p1 i batch sent := mkLState [mkWorker true q0 None p0; mkWorker true q1 None p1] i
         (Dispatch batch) false [a; b; a] sent).
  apply (rtc_l _ _ (at_ [] [] [] [] 0%nat [a; b; a] [])).
  { pose proof (step_receive 1024 (init_state 2) [inr (x, None); inr (y, None); inr (x, None)] eq_refl eq_refl) as H.
    cbn [drain] in H. rewrite !take_ge in H by (unfold len in *; lia). exact H. }
  apply (rtc_l _ _ (at_ [a] [] [] [] 1%nat [b; a] [a])).
  { by apply (step_dispatch 1024 (at_ [] [] [] [] 0%nat [a; b; a] []) a [b; a] new_worker); vm_compute; auto; lia. }
  apply (rtc_l _ _ (at_ [a] [] [b] [] 0%nat [a] [a; b])).
  { by apply (step_dispatch 1024 (at_ [a] [] [] [] 1%nat [b; a] [a]) b [a] new_worker); vm_compute; auto; lia. }
  etrans; [exact (worker_turn 1024 (at_ [a] [] [b] [] 0%nat [a] [a; b]) 0 _ a [] eq_refl eq_refl eq_refl eq_refl Ha)|].
  apply (rtc_l _ _ (at_ [a] [a] [b] [] 1%nat [] [a; b; a])).
  { by apply (step_dispatch 1024 (at_ [] [a] [b] [] 0%nat [a] [a; b]) a [] (mkWorker true [] None [a]));
      vm_compute; auto; lia. }
  etrans; [exact (worker_turn 1024 (at_ [a] [a] [b] [] 1%nat [] [a; b; a]) 0 _ a [] eq_refl eq_refl eq_refl eq_refl Ha)|].
  exact (worker_turn 1024 (at_ [] [a; a] [b] [] 1%nat [] [a; b; a]) 1 _ b [] eq_refl eq_refl eq_refl eq_refl Hb).
Qed.

Abbreviation pool_judged := (judged pool_tomls (fun _ => []) (fun _ => []) (lit "/conf")
  (daemon_init pool_started) [SIGHUP warn_fs] pool_times).

Definition pool_ws : list (World (Validator bytes)) :=
  map (fun j => mkWorld (replicate 7 (inr tt)) [] false false MetricsStore_new strict_b
                  (looks (fun _ => []) (share 2 j pool_judged))) [0%nat; 1%nat].

Lemma datagram_daemon_enforces_policy_witness :
  let base := base_config (daemon (pool_config (validation strict_config))) (lit "h") in
  exists out,
    Forall2 (fun x o => datagram_policy (fun _ => []) (fun _ => []) 7 base
        (in_effect pool_tomls (fun _ => []) (lit "/conf") (sample_fs, validation strict_config)
           (take (snd x) [SIGHUP warn_fs])) (fst x) o) pool_times out
    /\ pool_delivered (fun _ => []) 7 (st_forwarder pool_started) base (pool_state refused_item noise_item) pool_ws
       ≡ₚ map (wire_form (st_forwarder pool_started)) out.
Proof.
  intros base.
  assert (Hst : start pool_tomls (fun _ => []) sample_fs (lit "/conf") false (inr (lit "h")) start_world
    = (Done (inr pool_started), snd (start pool_tomls (fun _ => []) sample_fs (lit "/conf") false
         (inr (lit "h")) start_world))) by (by vm_compute).
  destruct (datagram_daemon_enforces_policy pool_tomls (fun _ => []) (fun _ => []) (fun _ => []) 7 sample_fs
    (lit "/conf") false (inr (lit "h")) start_world pool_started _ [SIGHUP warn_fs] pool_times (pool_state refused_item noise_item) pool_ws Hst)
    as (out & Hp & _ & Hd); [by vm_compute|by apply pool_state_reachable; vm_compute|done| |].
  - split; [done|]. intros [|[|j]] w [= <-]; done.
  - exists out. split.
    + by replace (List.filter _ _) with pool_times in Hp by (by vm_compute).
    + apply Hd; [by repeat constructor| |].
      * repeat (apply Forall_cons; split; [by vm_compute|]). constructor.
      * repeat (apply Forall_cons; split; [split; [by apply Forall_replicate|by vm_compute; lia]|]). constructor.
Defined.
