(* ===== verification/ClientTime.v ===== *)
(** * Timestamps of the client: [logfence-client/src/builder.rs]

    [epoch_secs_to_rfc3339] and [civil_from_days], against the Gregorian
    calendar. *)

From stdpp Require Import prelude strings list.
From Stdlib Require Import ZArith Lia.
From S2P Require Import Prelude RustStd Syslog SyslogFacts Timestamp.

(** [as i32] and [as i64]. *)
Definition wrap_i32 (z : Z) : Z := (z + 2 ^ 31) mod 2 ^ 32 - 2 ^ 31.
Definition wrap_i64 (z : Z) : Z := (z + 2 ^ 63) mod 2 ^ 64 - 2 ^ 63.

Definition civil_from_days (days : Z) : Z * Z * Z :=
  let z := wrap_i64 (wrap_i64 days + 719468) in
  let era := Z.quot (if 0 <=? z then z else z - 146096) 146097 in
  let doe := wrap 64 (z - era * 146097) in
  let yoe := (doe - doe / 1460 + doe / 36524 - doe / 146096) / 365 in
  let y := yoe + era * 400 in
  let doy := doe - (365 * yoe + yoe / 4 - yoe / 100) in
  let mp := (5 * doy + 2) / 153 in
  let d := doy - (153 * mp + 2) / 5 + 1 in
  let m := if mp <? 10 then mp + 3 else mp - 9 in
  let y := if m <=? 2 then y + 1 else y in
  (wrap_i32 y, m, d).

(** [{year:04}] of an [i32]: a minus sign counts towards the width. *)
Definition show_year (y : Z) : bytes :=
  if y <? 0 then lit "-" ++ show_pad 3 (- y) else show_pad 4 y.

Definition epoch_secs_to_rfc3339 (secs : Z) : bytes :=
  let days := secs / 86400 in
  let rem := secs mod 86400 in
  let h := rem / 3600 in
  let m := (rem mod 3600) / 60 in
  let s := rem mod 60 in
  let '(year, month, day) := civil_from_days days in
  show_year year ++ lit "-" ++ show_pad 2 month ++ lit "-" ++ show_pad 2 day ++ lit "T"
  ++ show_pad 2 h ++ lit ":" ++ show_pad 2 m ++ lit ":" ++ show_pad 2 s ++ lit "Z".

(** [now] is the duration since the epoch in whole seconds; [None] when the
    clock is before it ([unwrap_or_default]). *)
Definition now_rfc3339 (now : option Z) : bytes := epoch_secs_to_rfc3339 (default 0 now).

(** ** The calendar *)

(** Days from the first of January of year 1 to that of year [y]. *)
Definition days_to_year (y : Z) : Z := 365 * (y - 1) + (y - 1) / 4 - (y - 1) / 100 + (y - 1) / 400.

(** Days from the first of January to the first of month [m]. *)
Definition month_start (is_leap : bool) (m : Z) : Z :=
  foldr (fun k acc => month_length is_leap k + acc) 0 (seqZ 1 (m - 1)).

Definition days_to_month (y m : Z) : Z := month_start (leap y) m.

Definition days_since_epoch (y m d : Z) : Z :=
  days_to_year y - days_to_year 1970 + days_to_month y m + (d - 1).

Definition valid_date (y m d : Z) : Prop := 1 <= m <= 12 /\ 1 <= d <= days_in_month y m.

(** A year is as long as its leap rule says. *)
Lemma days_to_year_succ y :
  days_to_year (y + 1) = days_to_year y + (if leap y then 366 else 365).
Proof.
  unfold days_to_year, leap. replace (y + 1 - 1) with y by lia.
  destruct (Z.eqb_spec (y mod 4) 0), (Z.eqb_spec (y mod 100) 0), (Z.eqb_spec (y mod 400) 0);
    cbn [negb orb andb]; dlia.
Qed.

(** ** 400-year cycles *)

Lemma days_to_year_cycle y k : days_to_year (y + 400 * k) = days_to_year y + 146097 * k.
Proof.
  unfold days_to_year. replace (y + 400 * k - 1) with ((y - 1) + 400 * k) by lia. dlia.
Qed.

Lemma leap_cycle y k : leap (y + 400 * k) = leap y.
Proof.
  unfold leap.
  replace ((y + 400 * k) mod 4) with (y mod 4) by dlia.
  replace ((y + 400 * k) mod 100) with (y mod 100) by dlia.
  replace ((y + 400 * k) mod 400) with (y mod 400) by dlia. done.
Qed.

(** The month and the day from the day [doy] of a year that starts in March. *)
Definition month_day (doy : Z) : Z * Z :=
  let mp := (5 * doy + 2) / 153 in
  (if mp <? 10 then mp + 3 else mp - 9, doy - (153 * mp + 2) / 5 + 1).

(** March to December lie 59 or 60 days into the calendar year, January and
    February in the next calendar year. *)
Definition month_day_ok (doy : Z) : bool :=
  let '(m, d) := month_day doy in
  (1 <=? m) && (m <=? 12) && (1 <=? d)
  && (if 3 <=? m
      then (month_start false m + (d - 1) =? doy + 59) && (month_start true m + (d - 1) =? doy + 60)
           && (d <=? month_length false m) && (d <=? month_length true m)
      else (month_start false m + (d - 1) =? doy - 306) && (month_start true m + (d - 1) =? doy - 306)
           && ((doy =? 365) || (d <=? month_length false m)) && (d <=? month_length true m)).

Lemma month_days_ok doy : 0 <= doy <= 365 -> month_day_ok doy = true.
Proof.
  intros H. apply (all_from_spec month_day_ok 366 0); [vm_compute; reflexivity|lia].
Qed.

(** The year of the cycle and the day in it. *)
Definition year_of_era (doe : Z) : Z := (doe - doe / 1460 + doe / 36524 - doe / 146096) / 365.
Definition day_of_year (doe : Z) : Z :=
  let yoe := year_of_era doe in doe - (365 * yoe + yoe / 4 - yoe / 100).

Lemma year_of_era_range doe :
  0 <= doe < 146097 -> 0 <= year_of_era doe <= 399 /\ 0 <= day_of_year doe <= 365.
Proof. intros H. unfold day_of_year, year_of_era. dlia. Qed.

(** The last of February exists only when it should. *)
Lemma day_of_year_leap doe :
  0 <= doe < 146097 -> day_of_year doe = 365 -> leap (year_of_era doe + 1) = true.
Proof.
  intros H Hd. unfold leap.
  assert (Hl : (year_of_era doe + 1) mod 4 = 0
    /\ ((year_of_era doe + 1) mod 100 <> 0 \/ (year_of_era doe + 1) mod 400 = 0)).
  { revert Hd. unfold day_of_year, year_of_era. dlia. }
  destruct Hl as [H4 H100]. rewrite H4. cbn [Z.eqb andb].
  destruct (Z.eqb_spec ((year_of_era doe + 1) mod 100) 0); [|done]. cbn [negb orb].
  apply Z.eqb_eq. tauto.
Qed.

(** The date the algorithm gives inside the first cycle, which starts on the
    first of March of year 0. *)
Lemma era_date doe :
  0 <= doe < 146097 ->
  let '(m, d) := month_day (day_of_year doe) in
  let y := if m <=? 2 then year_of_era doe + 1 else year_of_era doe in
  valid_date y m d /\ days_since_epoch y m d + 719468 = doe /\ 0 <= y <= 400.
Proof.
  intros H. pose proof (year_of_era_range doe H) as [Hy Hd].
  pose proof (month_days_ok _ Hd) as Hok. pose proof (day_of_year_leap doe H) as Hleap.
  unfold month_day_ok in Hok. destruct (month_day (day_of_year doe)) as [m d].
  assert (Hdoe : doe = 365 * year_of_era doe + year_of_era doe / 4 - year_of_era doe / 100
                       + day_of_year doe) by (unfold day_of_year; lia).
  revert Hy Hd Hok Hleap Hdoe. generalize (year_of_era doe) (day_of_year doe).
  intros yoe doy Hy Hd Hok Hleap ->. unfold valid_date, days_since_epoch, days_to_month, days_in_month.
  destruct (Z.leb_spec 3 m) as [Hm|Hm].
  - rewrite (proj2 (Z.leb_gt m 2)) by lia.
    assert (Hyear : days_to_year yoe - days_to_year 1970 + 719468
      + (if leap yoe then 60 else 59) = 365 * yoe + yoe / 4 - yoe / 100).
    { unfold days_to_year, leap.
      destruct (Z.eqb_spec (yoe mod 4) 0), (Z.eqb_spec (yoe mod 100) 0), (Z.eqb_spec (yoe mod 400) 0);
        cbn [negb orb andb]; dlia. }
    destruct (leap yoe); lia.
  - rewrite (proj2 (Z.leb_le m 2)) by lia.
    assert (Hyear : days_to_year (yoe + 1) - days_to_year 1970 + 719468 - 306
      = 365 * yoe + yoe / 4 - yoe / 100) by (unfold days_to_year; dlia).
    destruct (leap (yoe + 1)); [lia|].
    assert (doy <> 365) by (intros E; by apply Hleap in E). lia.
Qed.

(** ** [civil_from_days] *)

Lemma wrap_i64_small z : - 2 ^ 63 <= z < 2 ^ 63 -> wrap_i64 z = z.
Proof. intros H. unfold wrap_i64. rewrite Z.mod_small by lia. lia. Qed.

Lemma wrap_i32_small z : - 2 ^ 31 <= z < 2 ^ 31 -> wrap_i32 z = z.
Proof. intros H. unfold wrap_i32. rewrite Z.mod_small by lia. lia. Qed.

(** The casts to and from [i64] and [u64] change nothing for any [u64] number
    of seconds. *)
Lemma civil_from_days_eq days :
  0 <= days <= u64_max / 86400 ->
  civil_from_days days =
  let z := days + 719468 in
  let '(m, d) := month_day (day_of_year (z mod 146097)) in
  (wrap_i32 ((if m <=? 2 then year_of_era (z mod 146097) + 1 else year_of_era (z mod 146097))
             + 400 * (z / 146097)), m, d).
Proof.
  intros H. assert (Hb : u64_max / 86400 = 213503982334601) by (by vm_compute).
  assert (Hz : 0 <= days + 719468 < 2 ^ 63) by lia.
  unfold civil_from_days. rewrite (wrap_i64_small days), (wrap_i64_small (_ + _)) by lia.
  rewrite (proj2 (Z.leb_le 0 (days + 719468))) by lia. rewrite Z.quot_div_nonneg by lia.
  replace (days + 719468 - (days + 719468) / 146097 * 146097) with ((days + 719468) mod 146097) by dlia.
  rewrite wrap_small by dlia. cbv zeta. unfold month_day, day_of_year.
  fold (year_of_era ((days + 719468) mod 146097)).
  destruct (_ <=? 2); do 3 f_equal; lia.
Qed.

Lemma month_start_nonneg b m : 1 <= m <= 12 -> 0 <= month_start b m.
Proof.
  intros H. apply Z.leb_le.
  destruct b; [apply (all_from_spec (fun k => 0 <=? month_start true k) 12 1)
              |apply (all_from_spec (fun k => 0 <=? month_start false k) 12 1)]; done || lia.
Qed.

Lemma days_to_year_mono y y' : y <= y' -> days_to_year y <= days_to_year y'.
Proof. intros H. unfold days_to_year. dlia. Qed.

Lemma valid_date_days y m d :
  valid_date y m d -> days_since_epoch y 1 1 <= days_since_epoch y m d.
Proof.
  intros [Hm Hd]. unfold days_since_epoch, days_to_month.
  pose proof (month_start_nonneg (leap y) m Hm).
  change (month_start (leap y) 1) with 0. lia.
Qed.

(** A date lies before the year [y0] when its day does. *)
Lemma valid_date_year y m d y0 :
  valid_date y m d -> days_since_epoch y m d < days_since_epoch y0 1 1 -> y < y0.
Proof.
  intros Hv Hd. apply valid_date_days in Hv. destruct (Z.lt_ge_cases y y0) as [|Hge]; [done|].
  apply days_to_year_mono in Hge. unfold days_since_epoch, days_to_month in *.
  change (month_start (leap y) 1) with 0 in *. change (month_start (leap y0) 1) with 0 in *. lia.
Qed.

Lemma civil_from_days_date days :
  0 <= days < days_since_epoch (2 ^ 31) 1 1 ->
  exists y m d, civil_from_days days = (y, m, d) /\ valid_date y m d /\ days_since_epoch y m d = days
    /\ 0 <= y.
Proof.
  intros H. assert (Hb : days_since_epoch (2 ^ 31) 1 1 = 784351576777) by (by vm_compute).
  rewrite civil_from_days_eq.
  2:{ replace (u64_max / 86400) with 213503982334601 by (by vm_compute). lia. }
  cbv zeta. set (z := days + 719468). assert (Hz : z = days + 719468) by done.
  pose proof (era_date (z mod 146097) ltac:(dlia)) as He.
  destruct (month_day (day_of_year (z mod 146097))) as [m d].
  set (y0 := if m <=? 2 then _ else _) in *. clearbody y0. destruct He as (Hv & Hd & Hy).
  assert (Hv' : valid_date (y0 + 400 * (z / 146097)) m d)
    by (unfold valid_date, days_in_month in *; by rewrite leap_cycle).
  assert (Hd' : days_since_epoch (y0 + 400 * (z / 146097)) m d = days).
  { unfold days_since_epoch, days_to_month in *. rewrite leap_cycle, days_to_year_cycle. dlia. }
  assert (y0 + 400 * (z / 146097) < 2 ^ 31) by (eapply valid_date_year; [exact Hv'|lia]).
  assert (0 <= z / 146097) by dlia.
  exists (y0 + 400 * (z / 146097)), m, d. rewrite wrap_i32_small by lia.
  split; [done|]. split; [done|]. split; [done|]. lia.
Qed.

(** C38: [civil_from_days] computes the Gregorian date.  For every day number up to the
    end of year 2147483647 (the range of the [i32] year) it returns a valid
    month and day, and the date is that many days after 1970-01-01 in a
    calendar stated by its leap rule and month lengths. *)
Theorem civil_from_days_correct days :
  0 <= days < days_since_epoch (2 ^ 31) 1 1 ->
  let '(y, m, d) := civil_from_days days in
  valid_date y m d /\ days_since_epoch y m d = days.
Proof.
  intros H. destruct (civil_from_days_date days H) as (y & m & d & -> & Hv & Hd & _). done.
Qed.

Lemma civil_from_days_correct_witness :
  civil_from_days 20587 = (2026, 5, 14) /\ valid_date 2026 5 14 /\ days_since_epoch 2026 5 14 = 20587.
Proof.
  split; [by vm_compute|].
  refine (civil_from_days_correct 20587 _). by vm_compute.
Defined.

(** ** Rendering *)

(** Two digits with the value of the number. *)
Definition pad2_ok (n : Z) : bool :=
  match show_pad 2 n with
  | [a; c] => is_ascii_digit a && is_ascii_digit c && ((bz a - 48) * 10 + (bz c - 48) =? n)
  | _ => false
  end.

Lemma show_pad2 n lo hi : lo <= n <= hi -> 0 <= lo -> hi <= 99 -> num2 lo hi (show_pad 2 n).
Proof.
  intros Hn Hlo Hhi.
  assert (Hok : pad2_ok n = true).
  { apply (all_from_spec pad2_ok 100 0); [vm_compute; reflexivity|lia]. }
  unfold pad2_ok in Hok. destruct (show_pad 2 n) as [|a [|c [|? ?]]]; try done.
  exists a, c. split; [done|]. apply andb_true_iff in Hok as [[Ha Hc]%andb_true_iff Hv].
  apply Z.eqb_eq in Hv. split; [done|]. split; [done|]. lia.
Qed.

Lemma show_pad4 n : 0 <= n <= 9999 -> length (show_pad 4 n) = 4%nat /\ digits (show_pad 4 n).
Proof.
  intros Hn. unfold show_pad.
  pose proof (show_uint_length n 4 ltac:(lia) ltac:(lia)) as Hl.
  pose proof (show_uint_digits n ltac:(lia)) as Hd. split.
  - rewrite length_app, length_replicate. lia.
  - apply Forall_app. split; [by apply Forall_replicate|done].
Qed.

Lemma epoch_secs_valid secs :
  0 <= secs < 253402300800 -> validate_timestamp (epoch_secs_to_rfc3339 secs) = Ok tt.
Proof.
  intros H. apply validate_timestamp_grammar. unfold epoch_secs_to_rfc3339.
  assert (Hb : days_since_epoch (2 ^ 31) 1 1 = 784351576777) by (by vm_compute).
  assert (Hb4 : days_since_epoch 10000 1 1 = 2932897) by (by vm_compute).
  destruct (civil_from_days_date (secs / 86400) ltac:(dlia)) as (y & m & d & -> & Hv & Hd & Hy).
  assert (y < 10000) by (eapply valid_date_year; [exact Hv|]; dlia).
  destruct Hv as [Hm Hday].
  assert (d <= 31).
  { revert Hday. unfold days_in_month, month_length. repeat case_match; lia. }
  unfold show_year. rewrite (proj2 (Z.ltb_ge y 0)) by lia.
  destruct (show_pad4 y ltac:(lia)) as [HY4 HYd].
  exists (show_pad 4 y), (show_pad 2 m), (show_pad 2 d), (show_pad 2 (secs mod 86400 / 3600)),
    (show_pad 2 (secs mod 86400 mod 3600 / 60)), (show_pad 2 (secs mod 86400 mod 60)), [], (lit "Z").
  split; [by simplify_list_eq|].
  split_and!; try done; try (apply show_pad2; dlia || lia); by left.
Qed.

(** The client's clock reading is a valid RFC 5424 timestamp: for every number of
    seconds until the end of year 9999, [epoch_secs_to_rfc3339] renders a
    text the daemon's [validate_timestamp] accepts. *)
Theorem epoch_secs_timestamp_valid secs :
  0 <= secs < 253402300800 -> validate_timestamp (epoch_secs_to_rfc3339 secs) = Ok tt.
Proof. apply epoch_secs_valid. Qed.

Lemma epoch_secs_timestamp_valid_witness :
  epoch_secs_to_rfc3339 1778760000 = lit "2026-05-14T12:00:00Z"
  /\ validate_timestamp (epoch_secs_to_rfc3339 1778760000) = Ok tt.
Proof.
  split; [by vm_compute|]. apply epoch_secs_timestamp_valid. by vm_compute.
Defined.

(** The casts are not safe for every [u64]: the year of the last second a
    [u64] can hold is past [i32::MAX], and the date returned is another one. *)
Lemma civil_from_days_overflow :
  let '(y, m, d) := civil_from_days (u64_max / 86400) in
  days_since_epoch y m d <> u64_max / 86400.
Proof. by vm_compute. Qed.
