(* ===== verification/Client.v ===== *)
(** * Client library: [logfence-client/src/{builder,error,transport}.rs]

    [MessageBuilder], and the two transports as instances of the [Transport]
    trait. *)

From stdpp Require Import prelude strings list gmap sorting.
From Stdlib Require Import ZArith Lia.
From S2P Require Import Prelude RustStd Syslog SyslogFacts Timestamp StructuredData SyslogRoundtrip.
From S2P Require Import Frame Config Json Validator Sample Metrics Effects Forwarder Session.
From S2P Require Import SenderRewrite ClientTime.

(** ** Errors *)

Inductive BuildError (serde_error : Type) : Type :=
| EmptyKey
| Serialize (e : serde_error).
Arguments EmptyKey {serde_error}.
Arguments Serialize {serde_error} e.

Inductive ClientError (serde_error : Type) : Type :=
| Build (e : BuildError serde_error)
| ClientTooLarge (max got : Z)
| ClientIo (e : io_error).
Arguments Build {serde_error} e.
Arguments ClientTooLarge {serde_error} max got.
Arguments ClientIo {serde_error} e.

(** ** Building *)

Record MessageBuilder (number : Type) : Type := mkBuilder {
  b_facility : Facility;
  b_severity : Severity;
  b_timestamp : option bytes;
  b_hostname : option bytes;
  b_app_name : option bytes;
  b_proc_id : option bytes;
  b_msg_id : option bytes;
  b_fields : list (bytes * Value number);
  b_cee_cookie : bool
}.
Arguments mkBuilder {number}.
Arguments b_facility {number} b : rename.
Arguments b_severity {number} b : rename.
Arguments b_timestamp {number} b : rename.
Arguments b_hostname {number} b : rename.
Arguments b_app_name {number} b : rename.
Arguments b_proc_id {number} b : rename.
Arguments b_msg_id {number} b : rename.
Arguments b_fields {number} b : rename.
Arguments b_cee_cookie {number} b : rename.

Section Builder.
  Context {number serde_error : Type} `{!SerdeJson number serde_error}.
  Implicit Types b : MessageBuilder number.

Definition MessageBuilder_new (process_id : Z) (f : Facility) (s : Severity) : MessageBuilder number :=
  mkBuilder f s None None None (Some (show_uint process_id)) None [] false.

Definition cee_cookie (enabled : bool) b : MessageBuilder number :=
  mkBuilder (b_facility b) (b_severity b) (b_timestamp b) (b_hostname b) (b_app_name b)
    (b_proc_id b) (b_msg_id b) (b_fields b) enabled.
Definition set_timestamp (ts : bytes) b : MessageBuilder number :=
  mkBuilder (b_facility b) (b_severity b) (Some ts) (b_hostname b) (b_app_name b)
    (b_proc_id b) (b_msg_id b) (b_fields b) (b_cee_cookie b).
Definition set_hostname (h : bytes) b : MessageBuilder number :=
  mkBuilder (b_facility b) (b_severity b) (b_timestamp b) (Some h) (b_app_name b)
    (b_proc_id b) (b_msg_id b) (b_fields b) (b_cee_cookie b).
Definition set_app_name (name : bytes) b : MessageBuilder number :=
  mkBuilder (b_facility b) (b_severity b) (b_timestamp b) (b_hostname b) (Some name)
    (b_proc_id b) (b_msg_id b) (b_fields b) (b_cee_cookie b).
Definition set_proc_id (pid : bytes) b : MessageBuilder number :=
  mkBuilder (b_facility b) (b_severity b) (b_timestamp b) (b_hostname b) (b_app_name b)
    (Some pid) (b_msg_id b) (b_fields b) (b_cee_cookie b).
Definition msgid (id : bytes) b : MessageBuilder number :=
  mkBuilder (b_facility b) (b_severity b) (b_timestamp b) (b_hostname b) (b_app_name b)
    (b_proc_id b) (Some id) (b_fields b) (b_cee_cookie b).

(** [val] is the result of [serde_json::to_value]. *)
Definition kv (key : bytes) (val : serde_error + Value number) b
    : BuildError serde_error + MessageBuilder number :=
  if bool_decide (key = []) then inl EmptyKey
  else
    match val with
    | inl e => inl (Serialize e)
    | inr value =>
        inr (mkBuilder (b_facility b) (b_severity b) (b_timestamp b) (b_hostname b) (b_app_name b)
               (b_proc_id b) (b_msg_id b) (btree_insert key value (b_fields b)) (b_cee_cookie b))
    end.

Definition build b : BuildError serde_error + SyslogMessage :=
  match to_string (Object (b_fields b)) with
  | inl e => inl (Serialize e)
  | inr json =>
      let m := if b_cee_cookie b then CEE_COOKIE ++ json else json in
      inr (mkMessage (mkPriority (b_facility b) (b_severity b)) (b_timestamp b) (b_hostname b)
             (b_app_name b) (b_proc_id b) (b_msg_id b) (lit "-") m)
  end.

End Builder.

(** ** Transports *)

(** The [Transport] trait. *)
Class Transport (T : Type) : Type :=
  send : forall {V serde_error}, T -> SyslogMessage -> IO V (ClientError serde_error + unit).

Record UnixTransport : Type := mkUnixTransport {
  ut_path : bytes;
  ut_max_size : Z
}.

Record UnixDatagramTransport : Type := mkDatagramTransport {
  dt_path : bytes;
  dt_max_size : Z;
  dt_max_attempts : Z
}.

Definition UnixTransport_new (path : bytes) (max_size : Z) : UnixTransport :=
  mkUnixTransport path max_size.
Definition UnixDatagramTransport_new (path : bytes) (max_size : Z) : UnixDatagramTransport :=
  mkDatagramTransport path max_size 4.
Definition max_attempts (n : Z) (t : UnixDatagramTransport) : UnixDatagramTransport :=
  mkDatagramTransport (dt_path t) (dt_max_size t) n.

Section Send.
  Context {V serde_error : Type}.

(** The connection slot is [connected] of the world. *)
Definition unix_send (t : UnixTransport) (m : SyslogMessage) : IO V (ClientError serde_error + unit) :=
  let wire := display m in
  if ut_max_size t <? len wire then mret (inl (ClientTooLarge (ut_max_size t) (len wire)))
  else
    let frame := show_uint (len wire) ++ lit " " ++ wire in
    c ← is_connected;
    r ← (if negb c then connect_stream (ut_path t) else mret (inr tt));
    match r with
    | inl e => mret (inl (ClientIo e))
    | inr _ =>
        c ← is_connected;
        if negb c then mret (inl (ClientIo (io_other (lit "internal: Unix stream not initialised"))))
        else
          r ← syscall (EvWriteAll frame);
          match r with
          | inl e => set_connected false;; mret (inl (ClientIo e))
          | inr _ => mret (inr tt)
          end
    end.

(** [unbound], then [shutdown(Read)] with [NotConnected] ignored. *)
Definition open_datagram : IO V (io_error + unit) :=
  try_io (syscall EvSetup) (fun _ =>
  try_io (r ← syscall EvSetup; mret (ignore_not_connected r)) (fun _ =>
  set_connected true;; mret (inr tt))).

(** The retry loop is that of the daemon's forwarder, which the transport
    repeats; any failure drops the socket. *)
Definition datagram_send (t : UnixDatagramTransport) (m : SyslogMessage)
    : IO V (ClientError serde_error + unit) :=
  let wire := display m in
  if dt_max_size t <? len wire then mret (inl (ClientTooLarge (dt_max_size t) (len wire)))
  else
    c ← is_connected;
    r ← (if negb c then open_datagram else mret (inr tt));
    match r with
    | inl e => mret (inl (ClientIo e))
    | inr _ =>
        c ← is_connected;
        if negb c then
          mret (inl (ClientIo (io_other (lit "internal: Unix datagram socket not initialised"))))
        else
          r ← send_dgram_with_retry wire (dt_path t) (dt_max_attempts t);
          match r with
          | inl e => set_connected false;; mret (inl (ClientIo e))
          | inr _ => mret (inr tt)
          end
    end.

End Send.

#[export] Instance UnixTransport_Transport : Transport UnixTransport := @unix_send.
#[export] Instance UnixDatagram_Transport : Transport UnixDatagramTransport := @datagram_send.

(** [MessageBuilder::send] *)
Definition builder_send {number serde_error V T} `{!SerdeJson number serde_error} `{!Transport T}
    (b : MessageBuilder number) (t : T) : IO V (ClientError serde_error + unit) :=
  match build b with
  | inl e => mret (inl (Build e))
  | inr m => send t m
  end.

(** ** The builder's payload *)

Section BuilderFacts.
  Context {number serde_error : Type} `{!SerdeJson number serde_error}
    `{!SerdeJsonLaws number serde_error}.

(** [kv] for each pair in turn. *)
Fixpoint kv_all (l : list (bytes * Value number)) (b : MessageBuilder number)
    : BuildError serde_error + MessageBuilder number :=
  match l with
  | [] => inr b
  | (k, v) :: r => match kv k (inr v) b with inl e => inl e | inr b' => kv_all r b' end
  end.

Lemma kv_all_fields l b :
  Forall (fun p => fst p <> []) l ->
  kv_all l b = inr (mkBuilder (b_facility b) (b_severity b) (b_timestamp b) (b_hostname b)
    (b_app_name b) (b_proc_id b) (b_msg_id b)
    (foldl (fun m p => btree_insert (fst p) (snd p) m) (b_fields b) l) (b_cee_cookie b)).
Proof.
  intros Hl. revert b. induction Hl as [|[k v] l Hk Hl IH]; intros b; cbn [kv_all foldl].
  { by destruct b. }
  unfold kv. rewrite bool_decide_eq_false_2 by done. by rewrite IH.
Qed.

(** The header fields a caller may set. *)
Definition builder_ok (b : MessageBuilder number) : Prop :=
  wf_timestamp (b_timestamp b) /\ field_ok 255 (b_hostname b) /\ field_ok 48 (b_app_name b)
  /\ field_ok 128 (b_proc_id b) /\ field_ok 32 (b_msg_id b).

Lemma build_wf b m : builder_ok b -> build b = inr m -> wf_message m.
Proof.
  intros (Ht & Hh & Ha & Hp & Hi). unfold build.
  destruct (to_string (Object (b_fields b))) as [|json] eqn:E; [done|]. intros [= <-].
  split_and!; try done; [by left|]. intros c. cbn [msg]. destruct (b_cee_cookie b).
  - destruct json as [|d json]; [by intros [= <-]|].
    change (last (CEE_COOKIE ++ d :: json) = Some c -> trimmed c = false).
    rewrite last_app_ne by done. by eapply to_string_trimmed.
  - by eapply to_string_trimmed.
Qed.

(** C39: from the builder to the daemon.  With well-formed header fields, the message a
    builder makes of a list of [kv] calls with non-empty keys is read by the
    daemon's parser exactly as built; its payload is the printed object of
    the fields, in key order, with the last value of a repeated key; an empty
    key is refused. *)
Theorem builder_roundtrip l b m :
  builder_ok b -> b_fields b = [] ->
  (match kv_all l b with inl e => inl e | inr b' => build b' end) = inr m ->
  Forall (fun p => fst p <> []) l
  /\ parse (display m) = Ok m
  /\ StronglySorted key_lt (btree_collect l)
  /\ (forall k, assoc_get k (btree_collect l) = assoc_get k (reverse l))
  /\ exists json, to_string (Object (btree_collect l)) = inr json
     /\ msg m = if b_cee_cookie b then CEE_COOKIE ++ json else json.
Proof.
  intros Hb Hf H.
  assert (Hl : Forall (fun p => fst p <> []) l).
  { clear Hb Hf. revert b H. induction l as [|[k v] l IH]; intros b H; constructor.
    - intros Hk. cbn [kv_all] in H. unfold kv in H. by rewrite bool_decide_eq_true_2 in H.
    - cbn [kv_all] in H. destruct (kv k (inr v) b) as [e|b']; [done|]. by eapply IH. }
  rewrite kv_all_fields, Hf in H by done. fold (btree_collect l) in H.
  split; [done|]. split; [|split; [apply btree_collect_sorted|split; [intros k; apply assoc_get_collect|]]].
  - apply parse_display_wf. eapply build_wf; [|exact H]. exact Hb.
  - unfold build in H. cbn [b_fields b_cee_cookie] in H.
    destruct (to_string _) as [|json]; [done|]. exists json. split; [done|]. by simplify_eq.
Qed.

End BuilderFacts.

Definition sample_builder : MessageBuilder nat :=
  set_app_name (lit "app") (MessageBuilder_new 42 User Info).

Definition sample_pairs : list (bytes * Value nat) :=
  [(lit "b", Number 1%nat); (lit "a", Number 7%nat); (lit "a", Number 2%nat)].

Definition built_message : SyslogMessage :=
  mkMessage (mkPriority User Info) None None (Some (lit "app")) (Some (lit "42")) None
    (lit "-") (print doc_ab).

Lemma builder_roundtrip_witness :
  Forall (fun p => fst p <> []) sample_pairs
  /\ parse (display built_message) = Ok built_message
  /\ StronglySorted key_lt (btree_collect sample_pairs)
  /\ (forall k, assoc_get k (btree_collect sample_pairs) = assoc_get k (reverse sample_pairs))
  /\ exists json, to_string (Object (btree_collect sample_pairs)) = inr json /\ msg built_message = json.
Proof.
  refine (builder_roundtrip sample_pairs sample_builder built_message _ _ _); [|done|by vm_compute].
  split_and!; first [done|by apply (bool_decide_unpack _); vm_compute].
Defined.

(** ** Sending *)

(** The result of a send, for use by the C interface. *)
Lemma unix_send_decodes {V serde_error} t m n (w : World V) :
  wf_message m -> utf8_message m -> ut_max_size t <= n -> n + 21 <= usize_max ->
  match unix_send (serde_error := serde_error) t m w with
  | (Done (inr _), w') =>
      exists pre frame, trace w' = trace w ++ pre ++ [EvWriteAll frame true]
        /\ Forall (fun e => match e with EvWriteAll _ _ => False | _ => True end) pre
        /\ decode (OctetCountCodec_new n) frame = (Ok (Some m), [])
  | (Done (inl (ClientTooLarge _ got)), w') => w' = w /\ got = len (display m) /\ ut_max_size t < got
  | (Done (inl (ClientIo _)), w') => connected w' = false
  | (Done (inl (Build _)), _) => False
  | (Waiting, w') => answers w' = []
  | (Panicked, _) => False
  end.
Proof.
  intros Hw Hu Hn Hb. unfold unix_send.
  destruct (Z.ltb_spec (ut_max_size t) (len (display m))) as [Hlt|Hge]; [done|].
  assert (Hd : decode (OctetCountCodec_new n) (show_uint (len (display m)) ++ lit " " ++ display m)
               = (Ok (Some m), [])).
  { pose proof (octet_frame_decodes (OctetCountCodec_new n) m []) as Hd. rewrite app_nil_r in Hd. apply Hd; try done.
    - cbn [oc_max_size OctetCountCodec_new]. lia.
    - change (len []) with 0. lia. }
  cbv zeta. revert Hd. generalize (show_uint (len (display m)) ++ lit " " ++ display m) as frame.
  intros frame Hd. destruct w as [ans tr [] ca st cu up].
  - unfold mbind, IO_bind, is_connected, mret, IO_ret, syscall. simpl.
    destruct ans as [|[e|[]] ans]; simpl; [done|done|]. exists [], frame. done.
  - unfold connect_stream, try_io, mbind, IO_bind, is_connected, mret, IO_ret, syscall,
      set_connected, add_event, set_answers, set_connected_w. simpl.
    do 4 (destruct ans as [|[?|[]] ans]; simpl; [done|done|]).
    destruct ans as [|[?|[]] ans]; simpl; [done|done|].
    exists [EvConnect (ut_path t) true; EvSetup true; EvSetup true; EvSetup true], frame.
    split; [by rewrite <- !app_assoc|]. split; [by repeat constructor|done].
Qed.

(** From the client's transport to the daemon's decoder.  An oversized message is
    refused before any call is made; after a successful send of a well-formed
    message exactly one frame was written, and the daemon's octet-count
    decoder, with a limit at least the client's, reads that message from it
    and nothing else; after any I/O error the connection is dropped. *)
Theorem client_send_decodes {V serde_error} t m n (w : World V) :
  wf_message m -> utf8_message m -> ut_max_size t <= n -> n + 21 <= usize_max ->
  match unix_send (serde_error := serde_error) t m w with
  | (Done (inr _), w') =>
      exists pre frame, trace w' = trace w ++ pre ++ [EvWriteAll frame true]
        /\ Forall (fun e => match e with EvWriteAll _ _ => False | _ => True end) pre
        /\ decode (OctetCountCodec_new n) frame = (Ok (Some m), [])
  | (Done (inl (ClientTooLarge _ got)), w') => w' = w /\ got = len (display m) /\ ut_max_size t < got
  | (Done (inl (ClientIo _)), w') => connected w' = false
  | (Done (inl (Build _)), _) => False
  | (Waiting, w') => answers w' = []
  | (Panicked, _) => False
  end.
Proof. apply unix_send_decodes. Qed.

Lemma client_send_decodes_witness :
  let t := UnixTransport_new (lit "/run/l") 1024 in
  let w := idle_world tt [inr tt; inr tt; inr tt; inr tt; inr tt] in
  match unix_send (serde_error := unit) t sample w with
  | (Done (inr _), w') =>
      exists pre frame, trace w' = trace w ++ pre ++ [EvWriteAll frame true]
        /\ Forall (fun e => match e with EvWriteAll _ _ => False | _ => True end) pre
        /\ decode (OctetCountCodec_new 65536) frame = (Ok (Some sample), [])
  | (Done (inl (ClientTooLarge _ got)), w') =>
      w' = w /\ got = len (display sample) /\ ut_max_size t < got
  | (Done (inl (ClientIo _)), w') => connected w' = false
  | (Done (inl (Build _)), _) => False
  | (Waiting, w') => answers w' = []
  | (Panicked, _) => False
  end.
Proof.
  intros t w. apply (client_send_decodes t sample 65536 w);
    [exact sample_wf|by split|by vm_compute|by vm_compute].
Defined.
