(* ===== verification/EndToEnd.v ===== *)
(** * From a client to the daemon

    The client's transports and the daemon's receivers composed: what the
    daemon does with the bytes a client delivered is what it would do with
    the messages whose [send] returned [Ok]. *)

From stdpp Require Import prelude strings list gmap.
From Stdlib Require Import ZArith Lia.
From S2P Require Import Prelude RustStd Syslog SyslogFacts Timestamp StructuredData SyslogRoundtrip.
From S2P Require Import Frame Config Json Validator Sample Metrics Effects Forwarder Session.
From S2P Require Import SessionFacts Filter DatagramListener DatagramFilter SenderRewrite ClientTime Client.

(** ** What a transport promises

    [Ok] means that the receiver got the wire form of the message once; an
    error, that it did not get it. *)
Class DeliversOnce (T : Type) `{!Transport T} : Type := {
  wire_of : SyslogMessage -> bytes;
  send_delivers {V E} (t : T) m : delivers (V := V) (wire_of m) (send (serde_error := E) t m)
}.

#[export] Instance unix_delivers_once : DeliversOnce UnixTransport.
Proof.
  exists (fun m => stream_frame (display m)). intros V E t m. unfold send, UnixTransport_Transport, unix_send.
  cbv zeta. apply delivers_if; [apply delivers_fail|].
  apply delivers_after; [apply silent_is_connected|]. intros c.
  apply delivers_after; [destruct c; [apply silent_ret|apply silent_connect]|].
  intros [e|_]; [apply delivers_fail|]. apply delivers_after; [apply silent_is_connected|].
  intros c'. apply delivers_if; [apply delivers_fail|].
  apply delivers_then; [by apply delivers_syscall|done|done|].
  intros e. apply silent_bind; [apply silent_set_connected|]. intros _. apply silent_ret.
Defined.

Lemma silent_open_datagram {V} : silent (open_datagram : IO V _).
Proof.
  unfold open_datagram, try_io.
  apply silent_bind; [by apply silent_syscall|]. intros [e|_]; [apply silent_ret|].
  apply silent_bind.
  - apply silent_bind; [by apply silent_syscall|]. intros r. apply silent_ret.
  - intros [e|_]; [apply silent_ret|].
    apply silent_bind; [apply silent_set_connected|]. intros _. apply silent_ret.
Qed.

#[export] Instance datagram_delivers_once : DeliversOnce UnixDatagramTransport.
Proof.
  exists display. intros V E t m. unfold send, UnixDatagram_Transport, datagram_send.
  cbv zeta. apply delivers_if; [apply delivers_fail|].
  apply delivers_after; [apply silent_is_connected|]. intros c.
  apply delivers_after; [destruct c; [apply silent_ret|apply silent_open_datagram]|].
  intros [e|_]; [apply delivers_fail|]. apply delivers_after; [apply silent_is_connected|].
  intros c'. apply delivers_if; [apply delivers_fail|].
  apply delivers_then; [apply delivers_send_dgram|done|done|].
  intros e. apply silent_bind; [apply silent_set_connected|]. intros _. apply silent_ret.
Defined.

(** ** A client's messages, one after the other *)

Section SendAll.
  Context {T E V : Type} `{!Transport T} `{!DeliversOnce T}.

Fixpoint send_all (t : T) (ms : list SyslogMessage) : IO V (list (ClientError E + unit)) :=
  match ms with
  | [] => mret []
  | m :: r => x ← send t m; xs ← send_all t r; mret (x :: xs)
  end.

(** The messages whose [send] returned [Ok]. *)
Fixpoint succeeded (rs : list (ClientError E + unit)) (ms : list SyslogMessage) : list SyslogMessage :=
  match rs, ms with
  | inr _ :: rs, m :: ms => m :: succeeded rs ms
  | inl _ :: rs, _ :: ms => succeeded rs ms
  | _, _ => []
  end.

Lemma succeeded_forall (P : SyslogMessage -> Prop) rs ms : Forall P ms -> Forall P (succeeded rs ms).
Proof.
  intros Hms. revert rs. induction Hms as [|m ms Hm _ IH]; intros [|[e|[]] rs]; cbn; try done.
  by constructor.
Qed.

Lemma succeeded_all rs ms :
  length rs = length ms -> Forall (fun r => r = inr tt) rs -> succeeded rs ms = ms.
Proof.
  intros Hl Hr. revert ms Hl. induction Hr as [|r rs -> _ IH]; intros [|m ms] Hl; try done.
  cbn. f_equal. apply IH. by injection Hl.
Qed.

Lemma send_all_delivers t ms w :
  match send_all t ms w with
  | (Done rs, w') => length rs = length ms
      /\ delivered (trace w') = delivered (trace w) ++ map wire_of (succeeded rs ms)
  | _ => True
  end.
Proof.
  revert w. induction ms as [|m ms IH]; intros w; cbn [send_all]; [cbn; by rewrite app_nil_r|].
  unfold mbind, IO_bind. pose proof (send_delivers (V := V) (E := E) t m w) as Hm.
  destruct (send t m w) as [[r| |] w1]; try done. specialize (IH w1).
  destruct (send_all t ms w1) as [[rs| |] w2]; try done. destruct IH as [Hl Hd].
  unfold mret, IO_ret. cbn [length]. split; [by rewrite Hl|].
  destruct r as [e|[]]; destruct Hm as [Hm _]; rewrite Hd, Hm; cbn [succeeded map]; [done|].
  by rewrite <- app_assoc.
Qed.

(** A message that was sent fits. *)
Lemma send_all_sizes max t ms w :
  (forall m w1 w2, send (V := V) (serde_error := E) t m w1 = (Done (inr tt), w2) -> len (display m) <= max) ->
  match send_all t ms w with
  | (Done rs, _) => Forall (fun m => len (display m) <= max) (succeeded rs ms)
  | _ => True
  end.
Proof.
  intros Hmax. revert w. induction ms as [|m ms IH]; intros w; cbn [send_all]; [constructor|].
  unfold mbind, IO_bind. destruct (send t m w) as [[r| |] w1] eqn:Hm; try done. specialize (IH w1).
  destruct (send_all t ms w1) as [[rs| |] w2]; try done.
  destruct r as [e|[]]; cbn [succeeded mret IO_ret]; [done|]. constructor; [|done]. by eapply Hmax.
Qed.

End SendAll.

Lemma unix_send_fits {V E} (t : UnixTransport) m (w1 w2 : World V) :
  send (serde_error := E) t m w1 = (Done (inr tt), w2) -> len (display m) <= ut_max_size t.
Proof.
  unfold send, UnixTransport_Transport, unix_send.
  by destruct (Z.ltb_spec (ut_max_size t) (len (display m))).
Qed.

Lemma datagram_send_fits {V E} (t : UnixDatagramTransport) m (w1 w2 : World V) :
  send (serde_error := E) t m w1 = (Done (inr tt), w2) -> len (display m) <= dt_max_size t.
Proof.
  unfold send, UnixDatagram_Transport, datagram_send.
  by destruct (Z.ltb_spec (dt_max_size t) (len (display m))).
Qed.

(** ** Datagrams *)

Section EndToEnd.
  Context {number serde_error schema schema_error V E : Type}.
  Context `{!SerdeJson number serde_error} `{!JsonSchema number schema schema_error}.
  Variable debug_char : Z -> bytes.
  Variable process_id : Z.
  Variables (f : Forwarder) (cfg : SessionConfig).

Lemma run_worker_messages base peer ms (w : World (Validator schema)) :
  Forall (fun m => wf_message m /\ utf8_message m) ms ->
  run_worker debug_char process_id f base (map (fun m => (display m, peer)) ms) w
  = handle_all process_id f (with_peer base peer) ms w.
Proof.
  intros Hms. revert w. induction Hms as [|m ms [Hw Hu] _ IH]; intros w; [done|].
  cbn [map run_worker handle_all]. unfold mbind, IO_bind, process_datagram, from_utf8.
  rewrite display_utf8, parse_display_wf by done.
  by destruct (handle_message _ _ _ m w) as [[[]| |] w1].
Qed.

(** Datagrams that fit the receive buffer arrive whole; a client's socket has
    no name. *)
Lemma drain_fits max ds :
  Forall (fun d => len d <= max) ds ->
  drain max (map (fun d => inr (d, None)) ds) = map (fun d => (d, lit "<anonymous>")) ds.
Proof.
  induction 1 as [|d ds Hd _ IH]; [done|]. cbn [map drain]. rewrite IH, take_ge; [done|].
  unfold len in Hd. lia.
Qed.

(** C15: datagrams, end to end.  A client sends well-formed messages through the
    datagram transport, with a size limit that is at most the daemon's,
    whatever the operating system answers to either side.  In any state of
    the daemon's pool, under any interleaving, in which the datagrams
    dispatched are those the client delivered, as they come through the
    receive buffer of [max_message_size] bytes: what worker [j] does with the
    datagrams handed to it is exactly what it does with its share of the
    messages whose [send] returned [Ok], in their order; each of those is in
    one share, and a message whose [send] returned an error has no effect. *)
Theorem datagram_end_to_end (t : UnixDatagramTransport) ms rs (wc wc' : World V)
    (dcfg : DaemonConfig) host n s j wk (wd : World (Validator schema)) :
  Forall (fun m => wf_message m /\ utf8_message m) ms ->
  delivered (trace wc) = [] -> send_all (E := E) t ms wc = (Done rs, wc') ->
  dt_max_size t <= max_message_size dcfg ->
  reachable (max_message_size dcfg) n s ->
  dispatched s = drain (max_message_size dcfg) (map (fun d => inr (d, None)) (delivered (trace wc'))) ->
  workers s !! j = Some wk ->
  run_worker debug_char process_id f (base_config dcfg host)
    (processed wk ++ option_list (in_hand wk) ++ queue wk) wd
  = handle_all process_id f (base_config dcfg host) (share n j (succeeded rs ms)) wd
  /\ concat (map (fun i => share n i (succeeded rs ms)) (seq 0 n)) ≡ₚ succeeded rs ms.
Proof.
  intros Hms Hc Hs Hmax Hr Hdis Hwk. pose proof (send_all_delivers (E := E) t ms wc) as Hd.
  pose proof (send_all_sizes (E := E) (dt_max_size t) t ms wc (datagram_send_fits t)) as Hsz.
  rewrite Hs in Hd, Hsz. destruct Hd as [_ Hd]. rewrite Hc in Hd. cbn [app] in Hd.
  apply pool_reachable in Hr as Hi.
  assert (Hn : (0 < n)%nat) by (apply lookup_lt_Some in Hwk; rewrite <- (pool_size _ _ Hi); lia).
  split; [|by apply shares_permutation].
  rewrite app_assoc. fold (taken wk). rewrite (pool_share _ _ Hi _ _ Hwk), Hdis, Hd, drain_fits.
  - rewrite map_map, share_fmap. change (wire_of) with display. rewrite run_worker_messages; [done|].
    apply (succeeded_forall _ rs) in Hms. rewrite Forall_forall in Hms |- *.
    intros m Hm. eapply Hms, elem_of_submseteq; [exact Hm|]. apply sublist_submseteq, share_sublist.
  - rewrite Forall_map. eapply Forall_impl; [exact Hsz|]. cbn. intros m Hm. lia.
Qed.

(** ** Streams *)

(** Streams, end to end.  A client sends well-formed messages through the stream
    transport and every [send] returns [Ok]: however the bytes it wrote are
    cut into reads, the daemon's session (octet counting, with a limit at
    least the client's) handles exactly those messages in their order. *)
Theorem stream_end_to_end `{!DecodeEof OctetCountCodec} `{!DecodeEof DelimiterCodec}
    `{!DecodeEofLaws OctetCountCodec} `{!DecodeEofLaws DelimiterCodec}
    (t : UnixTransport) ms rs chunks (wc wc' : World V) (wd : World (Validator schema)) :
  sc_framing cfg = OctetCount -> 0 <= ut_max_size t ->
  ut_max_size t <= sc_max_message_size cfg <= isize_max - 21 ->
  Forall (fun m => wf_message m /\ utf8_message m) ms ->
  delivered (trace wc) = [] -> send_all (E := E) t ms wc = (Done rs, wc') ->
  Forall (fun r => r = inr tt) rs ->
  Forall (fun c => c <> []) chunks -> concat chunks = concat (delivered (trace wc')) ->
  len (concat chunks) + 21 <= usize_max ->
  run_session debug_char process_id f cfg (map inr chunks ++ [inr []]) wd
  = handle_all process_id f cfg ms wd.
Proof.
  intros Hfr H0 Hmax Hms Hc Hs Hrs Hch Heq Hl.
  pose proof (send_all_delivers (E := E) t ms wc) as Hd. rewrite Hs, Hc in Hd.
  pose proof (send_all_sizes (E := E) (ut_max_size t) t ms wc (unix_send_fits t)) as Hsz. rewrite Hs in Hsz. destruct Hd as [Hlen Hd].
  rewrite succeeded_all in Hd, Hsz by done. cbn [app] in Hd. rewrite Hd in Heq.
  apply run_session_frames; [done|done|lia| |done| |done|done].
  - rewrite Forall_forall in *. intros m Hm. destruct (Hms m Hm) as [Hw Hu].
    split; [|by rewrite Hfr]. split; [done|]. split; [done|]. specialize (Hsz m Hm). cbn beta in Hsz. lia.
  - rewrite Heq. unfold session_frame. rewrite Hfr. done.
Qed.

End EndToEnd.

(** ** Two messages across *)

Definition sample_transport : UnixDatagramTransport := UnixDatagramTransport_new (lit "/run/l") 1024.

(** The second send fails for good; the third succeeds. *)
Definition client_world : World unit :=
  idle_world tt [inr tt; inr tt; inr tt; inl (io_other []); inr tt; inr tt; inr tt].

Lemma sample_ms_wf : Forall (fun m => wf_message m /\ utf8_message m) sample_ms.
Proof.
  eapply Forall_impl; [apply sample_ms_ok|]. by intros m [(Hw & Hu & _) _].
Qed.

(** A pool of one worker that has taken the first of the two datagrams. *)
Definition two_datagrams : LState :=
  mkLState [mkWorker true [harmless] (Some harmless) []] 0 (Dispatch []) false
    [harmless; harmless] [harmless; harmless].

Lemma two_datagrams_reachable : reachable 1024 1 two_datagrams.
Proof.
  eapply rtc_l; [apply (step_receive _ _ (replicate 2 (inr (display sample_msg, None)))); done|].
  eapply rtc_l; [by apply (step_dispatch _ _ harmless [harmless] new_worker); vm_compute; auto; lia|].
  eapply rtc_l; [by apply (step_take _ _ 0 (push new_worker harmless) harmless [])|].
  eapply rtc_l; [by apply (step_dispatch _ _ harmless [] (mkWorker true [] (Some harmless) [])); vm_compute; auto; lia|].
  apply rtc_refl.
Qed.

Definition datagram_cfg : DaemonConfig :=
  mkDaemonConfig (lit "/run/l") (lit "0660") None 1 1024 ListenUnixDgram OctetCount Original.

Lemma datagram_end_to_end_witness :
  let rs := [inr tt; inl (ClientIo (io_other [])); inr tt] in
  exists wc', send_all (E := unit) sample_transport sample_ms client_world = (Done rs, wc')
  /\ run_worker (fun _ => []) 7 sample_forwarder (base_config datagram_cfg (lit "h")) [harmless; harmless]
       (good_world strict_b)
     = handle_all 7 sample_forwarder (base_config datagram_cfg (lit "h")) [sample_msg; sample_msg]
         (good_world strict_b).
Proof.
  intros rs. exists (snd (send_all (E := unit) sample_transport sample_ms client_world)).
  assert (Hs : send_all (E := unit) sample_transport sample_ms client_world
               = (Done rs, snd (send_all (E := unit) sample_transport sample_ms client_world)))
    by (by vm_compute).
  split; [exact Hs|].
  refine (proj1 (datagram_end_to_end (fun _ => []) 7 sample_forwarder sample_transport
           sample_ms rs client_world _ datagram_cfg (lit "h") 1 two_datagrams 0
           (mkWorker true [harmless] (Some harmless) []) (good_world strict_b) sample_ms_wf eq_refl Hs _
           two_datagrams_reachable _ eq_refl)); by vm_compute.
Defined.

Lemma stream_end_to_end_witness :
  let t := UnixTransport_new (lit "/run/l") 1024 in
  let wc' := snd (send_all (E := unit) (V := unit) t sample_ms (idle_world tt (replicate 7 (inr tt)))) in
  concat sample_cuts = concat (delivered (trace wc'))
  /\ run_session (fun _ => []) 7 sample_forwarder sample_cfg (map inr sample_cuts ++ [inr []]) (good_world strict_b)
     = handle_all 7 sample_forwarder sample_cfg sample_ms (good_world strict_b).
Proof.
  intros t wc'. assert (Hc : concat sample_cuts = concat (delivered (trace wc'))) by (by vm_compute).
  split; [exact Hc|].
  refine (stream_end_to_end (E := unit) (fun _ => []) 7 sample_forwarder sample_cfg t sample_ms [inr tt; inr tt; inr tt]
    sample_cuts (idle_world tt (replicate 7 (inr tt))) wc' (good_world strict_b)
    eq_refl _ _ sample_ms_wf eq_refl _ _ sample_cuts_ok Hc _); try (by vm_compute).
  by repeat constructor.
Defined.
