(* ===== verification/Reconnect.v ===== *)
(** * A client that reconnects

    [UnixTransport] drops its connection on any write error and opens a new
    one at the next [send].  Each connection is a session of its own at the
    daemon, and the broken one may end in the middle of a frame. *)

From stdpp Require Import prelude strings list gmap.
From Stdlib Require Import ZArith Lia.
From S2P Require Import Prelude RustStd Syslog SyslogFacts Timestamp StructuredData SyslogRoundtrip.
From S2P Require Import Frame Config Json Validator Sample Metrics Effects Forwarder Session.
From S2P Require Import SessionFacts Filter SenderRewrite ClientTime Client EndToEnd.

(** ** Connections in a trace *)

(** The writes of a connection, with their success. *)
Abbreviation connection := (list (bytes * bool)).

(** Newest first. *)
Definition conn_step (cs : list connection) (e : Event) : list connection :=
  match e with
  | EvConnect _ true => [] :: cs
  | EvWriteAll data ok => match cs with c :: r => (c ++ [(data, ok)]) :: r | [] => [[(data, ok)]] end
  | _ => cs
  end.

Definition conns (tr : list Event) : list connection := foldl conn_step [] tr.

(** The connections a task opened, in order. *)
Definition connections_of (tr : list Event) : list connection := reverse (conns tr).

Lemma conns_app tr evs : conns (tr ++ evs) = foldl conn_step (conns tr) evs.
Proof. apply foldl_app. Qed.

(** What the peer can read of the writes: a write that succeeded is there in
    full, one that failed in part. *)
Inductive carries : connection -> bytes -> Prop :=
| carries_nil : carries [] []
| carries_all data c s : carries c s -> carries ((data, true) :: c) (data ++ s)
| carries_part p q c s : q <> [] -> carries c s -> carries ((p ++ q, false) :: c) (p ++ s).

(** ** One send *)

Section Send.
  Context {V E : Type}.
  Implicit Types w : World V.

(** What a [send] does to the connections: nothing, or it opens one that it
    cannot set up, or it writes the frame, on the open connection or on a new
    one.  The argument is whether it returned [Ok]. *)
Inductive send_effect (t : UnixTransport) (m : SyslogMessage) (w w' : World V) : bool -> Prop :=
| se_nothing :
    conns (trace w') = conns (trace w) -> connected w' = connected w -> send_effect t m w w' false
| se_unused :
    conns (trace w') = [] :: conns (trace w) -> connected w' = false -> send_effect t m w w' false
| se_write c r ok :
    len (display m) <= ut_max_size t ->
    conns (trace w') = (c ++ [(octet_frame m, ok)]) :: r -> connected w' = ok ->
    (connected w = true /\ conns (trace w) = c :: r \/ c = [] /\ r = conns (trace w)) ->
    send_effect t m w w' ok.

Lemma unix_send_effect (t : UnixTransport) m w :
  (connected w = true -> conns (trace w) <> []) ->
  match unix_send (serde_error := E) t m w with
  | (Done r, w') => send_effect t m w w' (match r with inr _ => true | inl _ => false end)
  | _ => True
  end.
Proof.
  intros Hc. unfold unix_send, connect_stream, try_io, mbind, IO_bind, is_connected, mret, IO_ret, syscall,
    set_connected, set_connected_w, add_event, set_answers. cbv zeta. destruct (Z.ltb_spec (ut_max_size t) (len (display m))) as [Hx|Hx]; [by apply se_nothing|].
  assert (Hfr : show_uint (len (display m)) ++ lit " " ++ display m = octet_frame m) by done. rewrite Hfr. clear Hfr.
  destruct w as [ans tr [] ca st cu up]; cbn [connected trace negb answers] in *.
  - destruct (conns tr) as [|c r] eqn:Ec; [by destruct (Hc eq_refl)|].
    destruct ans as [|[e|[]] ans]; cbn -[octet_frame conns conn_step]; [exact I| |];
      apply (se_write _ _ _ _ c r); cbn [trace connected]; rewrite ?conns_app, ?Ec; auto.
  - destruct ans as [|[e|[]] ans]; cbn -[octet_frame conns conn_step]; [exact I| |].
    { apply se_nothing; cbn [trace connected]; by rewrite ?conns_app. }
    do 3 (destruct ans as [|[e|[]] ans]; cbn -[octet_frame conns conn_step];
      [exact I|apply se_unused; cbn [trace connected]; by rewrite ?conns_app|]).
    destruct ans as [|[e|[]] ans]; cbn -[octet_frame conns conn_step]; [exact I| |];
      apply (se_write _ _ _ _ [] (conns tr)); cbn [trace connected]; rewrite ?conns_app; auto.
Qed.

(** ** A sequence of sends *)

Section Parts.
  Variable t : UnixTransport.

Definition fits (m : SyslogMessage) : Prop :=
  wf_message m /\ utf8_message m /\ len (display m) <= ut_max_size t.

Definition whole (part : list SyslogMessage) : connection := map (fun m => (octet_frame m, true)) part.

(** The connection carried the frames of [part], and at most one more frame
    that was cut, which was its last. *)
Definition carried (c : connection) (part : list SyslogMessage) : Prop :=
  Forall fits part
  /\ exists cut, c = whole part ++ cut
       /\ (cut = [] \/ exists m, fits m /\ cut = [(octet_frame m, false)]).

(** The connections so far (newest first) and the messages acknowledged on
    each; an open connection was not cut. *)
Definition conn_inv (w : World V) (parts : list (list SyslogMessage)) : Prop :=
  Forall2 carried (conns (trace w)) parts
  /\ (connected w = true -> exists part ps r, parts = part :: ps /\ conns (trace w) = whole part :: r).

Lemma whole_snoc part m : whole (part ++ [m]) = whole part ++ [(octet_frame m, true)].
Proof. unfold whole. by rewrite map_app. Qed.

(** A write on an open or a new connection. *)
Lemma carried_write part m (ok : bool) :
  fits m -> Forall fits part ->
  carried (whole part ++ [(octet_frame m, ok)]) (if ok then part ++ [m] else part).
Proof.
  intros Hm Hp. destruct ok.
  - split; [apply Forall_app; split; [done|by constructor]|]. exists []. rewrite whole_snoc, app_nil_r. auto.
  - split; [done|]. eexists. split; [done|]. eauto.
Qed.

Lemma send_effect_parts m w w' ok parts :
  wf_message m -> utf8_message m -> conn_inv w parts -> send_effect t m w w' ok ->
  exists parts', conn_inv w' parts'
    /\ concat (reverse parts') = concat (reverse parts) ++ (if ok then [m] else []).
Proof.
  intros Hw Hu [Hc Ho] He. destruct He as [Ht Hn|Ht Hn|c r ok Hs Ht Hn Hor].
  - exists parts. rewrite app_nil_r. split; [|done]. unfold conn_inv. by rewrite Ht, Hn.
  - exists ([] :: parts). rewrite reverse_cons, concat_app. cbn [concat app]. split; [|done].
    unfold conn_inv. rewrite Ht, Hn. split; [|done]. constructor; [|done]. split; [constructor|]. exists []. auto.
  - assert (Hm : fits m) by done.
    destruct Hor as [[Ho1 Hr]|[-> ->]].
    + destruct (Ho Ho1) as (part & ps & r' & -> & Hr'). rewrite Hr in *. injection Hr' as -> ->.
      inversion Hc as [|? ? ? ? [Hp _] Hc']; subst.
      exists ((if connected w' then part ++ [m] else part) :: ps). split.
      * split; [rewrite Ht; constructor; [by apply carried_write|done]|]. intros Hok. rewrite Ht, Hok.
        exists (part ++ [m]), ps, r'. by rewrite whole_snoc.
      * rewrite !reverse_cons, !concat_app. destruct (connected w'); cbn [concat]; rewrite ?app_nil_r, ?app_assoc; done.
    + exists ((if ok then [m] else []) :: parts). split.
      * split; [rewrite Ht; constructor; [exact (carried_write [] m ok Hm ltac:(constructor))|done]|].
        intros Hok. rewrite Ht. rewrite Hn in Hok. destruct ok; [|done]. by exists [m], parts, (conns (trace w)).
      * rewrite reverse_cons, concat_app. cbn [concat]. by rewrite app_nil_r.
Qed.

Lemma conn_inv_open w parts : conn_inv w parts -> connected w = true -> conns (trace w) <> [].
Proof. intros [_ Ho] Hc. destruct (Ho Hc) as (part & ps & r & _ & ->). done. Qed.

Lemma send_all_parts ms w parts rs w' :
  Forall (fun m => wf_message m /\ utf8_message m) ms -> conn_inv w parts ->
  send_all (E := E) t ms w = (Done rs, w') ->
  exists parts', conn_inv w' parts'
    /\ concat (reverse parts') = concat (reverse parts) ++ succeeded rs ms.
Proof.
  intros Hms. revert w parts rs. induction Hms as [|m ms [Hw Hu] _ IH]; intros w parts rs Hi; cbn [send_all].
  { intros [= <- <-]. exists parts. by rewrite app_nil_r. }
  unfold mbind, IO_bind. pose proof (unix_send_effect t m w (conn_inv_open _ _ Hi)) as He.
  unfold send, UnixTransport_Transport.
  destruct (unix_send t m w) as [[r| |] w1]; try done.
  destruct (send_effect_parts _ _ _ _ _ Hw Hu Hi He) as (parts1 & Hi1 & Hc1).
  destruct (send_all t ms w1) as [[rs'| |] w2] eqn:Es; try done. intros [= <- <-].
  destruct (IH _ _ _ Hi1 Es) as (parts2 & Hi2 & Hc2). exists parts2. split; [done|].
  rewrite Hc2, Hc1. destruct r as [e|[]]; cbn [succeeded]; rewrite <- app_assoc; done.
Qed.

End Parts.
End Send.

(** ** At the daemon *)

Lemma carries_whole part cut s :
  carries (whole part ++ cut) s -> exists s', s = concat (map octet_frame part) ++ s' /\ carries cut s'.
Proof.
  revert s. induction part as [|m part IH]; intros s Hs; [by exists s|].
  cbn [whole map app] in Hs. inversion Hs as [|? ? s1 Hs1|]; subst.
  destruct (IH s1 Hs1) as (s' & -> & Hc). exists s'. cbn [map concat]. by rewrite app_assoc.
Qed.

Lemma carries_cut fr s : carries [(fr, false)] s -> exists q, fr = s ++ q /\ q <> [].
Proof.
  intros Hs. inversion Hs as [| |p q ? s' Hq Hn]; subst. inversion Hn; subst. exists q. by rewrite app_nil_r.
Qed.

Section Daemon.
  Context {number serde_error schema schema_error V E : Type}.
  Context `{!SerdeJson number serde_error} `{!JsonSchema number schema schema_error}.
  Context `{!DecodeEof OctetCountCodec} `{!DecodeEof DelimiterCodec}.
  Context `{!DecodeEofLaws OctetCountCodec} `{!DecodeEofLaws DelimiterCodec}.
  Variable debug_char : Z -> bytes.
  Variable process_id : Z.
  Variables (f : Forwarder) (cfg : SessionConfig).

(** The session of a connection that carried the frames of [part]. *)
Definition session_handles (c : connection) (part : list SyslogMessage) : Prop :=
  forall chunks ending (wd : World (Validator schema)),
    carries c (concat chunks) -> Forall (fun s => s <> []) chunks -> ends_stream ending ->
    len (concat chunks) + sc_max_message_size cfg + 42 <= usize_max ->
    run_session debug_char process_id f cfg (map inr chunks ++ [ending]) wd
    = handle_all process_id f cfg part wd.

Lemma carried_session t c part :
  sc_framing cfg = OctetCount -> 0 <= ut_max_size t ->
  ut_max_size t <= sc_max_message_size cfg <= isize_max - 21 ->
  carried t c part -> session_handles c part.
Proof.
  intros Hf H0 Hmax (Hp & cut & -> & Hcut) chunks ending wd Hs Hne He Hl.
  assert (Hok : forall m, fits t m -> session_ok cfg m).
  { intros m (Hw & Hu & Hm). split; [split_and!; [done|done|lia]|by rewrite Hf]. }
  assert (Hfr : forall m, session_frame cfg m = octet_frame m) by (intros m; unfold session_frame; by rewrite Hf).
  assert (Hms : Forall (session_ok cfg) part) by (eapply Forall_impl; [exact Hp|exact Hok]).
  destruct (carries_whole _ _ _ Hs) as (s' & Hc & Hs'). rewrite <- (map_ext _ _ Hfr) in Hc.
  destruct Hcut as [->|(m & Hm & ->)].
  - inversion Hs'; subst. rewrite app_nil_r in Hc. apply run_session_frames; try done; lia.
  - destruct (carries_cut _ _ Hs') as (q & Hq & Hne').
    apply (run_session_cut _ _ _ _ chunks part m s' q); try done; [lia|by apply Hok|by rewrite Hfr].
Qed.

(** C12: the stream across reconnections.  A client sends well-formed messages
    through the stream transport, whatever the operating system answers, so
    that connections may break, at any byte of a frame, and are opened again.
    The messages whose [send] returned [Ok] are divided in order among the
    connections, and the daemon's session on each connection, however its
    bytes are cut into reads and whether it ends with end of file or an
    error, handles exactly its share: a frame cut by the break has no effect
    and hides none before it. *)
Theorem stream_reconnect (t : UnixTransport) ms rs (wc wc' : World V) :
  sc_framing cfg = OctetCount -> 0 <= ut_max_size t ->
  ut_max_size t <= sc_max_message_size cfg <= isize_max - 21 ->
  Forall (fun m => wf_message m /\ utf8_message m) ms ->
  trace wc = [] -> connected wc = false -> send_all (E := E) t ms wc = (Done rs, wc') ->
  exists parts, concat parts = succeeded rs ms
    /\ Forall2 session_handles (connections_of (trace wc')) parts.
Proof.
  intros Hf H0 Hmax Hms Ht Hc Hs.
  assert (Hi : conn_inv t wc []) by (split; [rewrite Ht; constructor|by rewrite Hc]).
  destruct (send_all_parts t ms wc [] rs wc' Hms Hi Hs) as (parts & [Hi' _] & Hp).
  exists (reverse parts). split; [exact Hp|]. apply Forall2_reverse.
  eapply Forall2_impl; [exact Hi'|]. intros c part. by apply carried_session.
Qed.

End Daemon.

(** ** A connection that breaks *)

(** The second write fails; the third message goes out on a new connection. *)
Definition breaking_world : World unit :=
  idle_world tt (replicate 5 (inr tt) ++ [inl (io_other [])] ++ replicate 5 (inr tt)).

Lemma stream_reconnect_witness :
  let t := UnixTransport_new (lit "/run/l") 1024 in
  let rs : list (ClientError unit + unit) := [inr tt; inl (ClientIo (io_other [])); inr tt] in
  let wc' := snd (send_all (E := unit) t sample_ms breaking_world) in
  length (connections_of (trace wc')) = 2%nat
  /\ exists parts, concat parts = succeeded rs sample_ms
     /\ Forall2 (session_handles (fun _ => []) 7 sample_forwarder sample_cfg) (connections_of (trace wc')) parts.
Proof.
  intros t rs wc'. split; [by vm_compute|].
  apply (stream_reconnect (E := unit) (fun _ => []) 7 sample_forwarder sample_cfg t sample_ms rs breaking_world wc');
    [done|done|by vm_compute|exact sample_ms_wf|done|done|by vm_compute].
Defined.
