(* ===== verification/ClientC.v ===== *)
(** * C interface: [logfence-client-c/src/lib.rs]

    A nullable C string is an [option] of its bytes (without the terminating
    NUL); a handle is an [option] of the client.  The memory itself (boxing,
    freeing) is not modelled beyond that. *)

From stdpp Require Import prelude strings list gmap.
From Stdlib Require Import ZArith Lia.
From S2P Require Import Prelude RustStd Syslog SyslogFacts Timestamp StructuredData SyslogRoundtrip.
From S2P Require Import Frame Json Validator Sample Metrics Effects Forwarder SenderRewrite.
From S2P Require Import ClientTime Client.

Definition LF_OK : Z := 0.
Definition LF_ERR_NULL : Z := 1.
Definition LF_ERR_INVALID : Z := 2.
Definition LF_ERR_BUILD : Z := 3.
Definition LF_ERR_IO : Z := 4.

(** The handle; the runtime has no state of its own here. *)
Record LfClient : Type := mkLfClient { lf_transport : UnixTransport }.

Record LfMsgAttr : Type := mkLfMsgAttr {
  attr_hostname : option bytes;
  attr_app_name : option bytes;
  attr_msg_id : option bytes;
  attr_proc_id : option bytes;
  attr_timestamp : option bytes;
  attr_cee_cookie : Z
}.

(** [runtime]: whether [Runtime::new] succeeds. *)
Definition lf_client_new (socket_path : option bytes) (max_msg_size : Z) (runtime : bool)
    : option LfClient :=
  match socket_path with
  | None => None
  | Some path_cstr =>
      match from_utf8 path_cstr with
      | None => None
      | Some path_str =>
          if runtime then Some (mkLfClient (UnixTransport_new path_str max_msg_size)) else None
      end
  end.

(** The handle after the call is gone; freeing [NULL] does nothing. *)
Definition lf_client_free (client : option LfClient) : option LfClient :=
  match client with Some _ => None | None => None end.

Definition lf_strerror (code : Z) : bytes :=
  match code with
  | 0 => lit "ok"
  | 1 => lit "null argument: client must not be NULL"
  | 2 => lit "invalid code: facility must be 0-23, severity must be 0-7"
  | 3 => lit "build error: json_body must be a valid JSON object string"
  | 4 => lit "I/O error: message could not be delivered to the socket"
  | _ => lit "unknown error code"
  end.

Definition cstr_to_opt (ptr : option bytes) : option bytes := s ← ptr; from_utf8 s.

Section Send.
  Context {number serde_error V : Type} `{!SerdeJson number serde_error}.
  (** [std::process::id()], and the seconds since the epoch at the call. *)
  Variable process_id : Z.
  Variable now : option Z.

Definition is_json_object (s : bytes) : bool :=
  match from_str s with
  | inr (Object _) => true
  | _ => false
  end.

Definition build_msg (fac : Facility) (sev : Severity) (attr : option LfMsgAttr) (body : bytes)
    : SyslogMessage :=
  let '(ts_override, hostname, app_name, proc_id_override, msg_id, cee) :=
    match attr with
    | None => (None, None, None, None, None, false)
    | Some a =>
        (cstr_to_opt (attr_timestamp a), cstr_to_opt (attr_hostname a), cstr_to_opt (attr_app_name a),
         cstr_to_opt (attr_proc_id a), cstr_to_opt (attr_msg_id a), negb (attr_cee_cookie a =? 0))
    end in
  mkMessage (mkPriority fac sev) (Some (default (now_rfc3339 now) ts_override)) hostname app_name
    (Some (default (show_uint process_id) proc_id_override)) msg_id (lit "-")
    (if cee : bool then CEE_COOKIE ++ body else body).

Definition lf_send (client : option LfClient) (facility severity : Z) (attr : option LfMsgAttr)
    (json_body : option bytes) : IO V Z :=
  match client with
  | None => mret LF_ERR_NULL
  | Some c =>
      match Facility_from_integer facility with
      | Err _ | Panic => mret LF_ERR_INVALID
      | Ok fac =>
          if 7 <? severity then mret LF_ERR_INVALID
          else
            let sev := Severity_from_integer severity in
            let body := match json_body with None => Some (lit "{}") | Some s => from_utf8 s end in
            match body with
            | None => mret LF_ERR_BUILD
            | Some body =>
                if negb (is_json_object body) then mret LF_ERR_BUILD
                else
                  r ← unix_send (serde_error := serde_error) (lf_transport c)
                        (build_msg fac sev attr body);
                  match r with
                  | inr _ => mret LF_OK
                  | inl _ => mret LF_ERR_IO
                  end
            end
      end
  end.

(** ** Codes *)

(** The body [lf_send] sends, if the arguments are acceptable. *)
Definition accepted_body (json_body : option bytes) : option bytes :=
  s ← match json_body with None => Some (lit "{}") | Some s => from_utf8 s end;
  if is_json_object s then Some s else None.

Definition valid_codes (facility severity : Z) : bool :=
  (0 <=? facility) && (facility <=? 23) && (severity <=? 7).

Lemma Facility_from_integer_iff n :
  (exists f, Facility_from_integer n = Ok f) <-> 0 <= n <= 23.
Proof.
  split.
  - intros [f Hf]. apply Facility_as_from in Hf as <-. apply Facility_as_u8_range.
  - intros Hn. assert (H : is_ok (Facility_from_integer n) = true).
    { apply (all_from_spec (fun n => is_ok (Facility_from_integer n)) 24 0); [done|lia]. }
    destruct (Facility_from_integer n) as [f| |]; [by exists f|done|done].
Qed.

Lemma send_body (io : bytes -> IO V (ClientError serde_error + unit)) body w :
  (if negb (is_json_object body) then mret LF_ERR_BUILD
   else r ← io body; match r with inr _ => mret LF_OK | inl _ => mret LF_ERR_IO end) w =
  match (s ← Some body; if is_json_object s then Some s else None) with
  | Some body =>
      match io body w with
      | (Done (inr _), w') => (Done LF_OK, w')
      | (Done (inl _), w') => (Done LF_ERR_IO, w')
      | (Waiting, w') => (Waiting, w')
      | (Panicked, w') => (Panicked, w')
      end
  | None => (Done LF_ERR_BUILD, w)
  end.
Proof.
  cbn. destruct (is_json_object body); [|done]. cbn [negb].
  unfold mbind, IO_bind. by destruct (io body w) as [[[e|[]]| |] w'].
Qed.

(** What [lf_send] returns.  A null handle gives [LF_ERR_NULL]; otherwise a code
    outside facility 0-23 or severity 0-7 gives [LF_ERR_INVALID]; otherwise a
    body that is not UTF-8 or not a JSON object gives [LF_ERR_BUILD]; in all
    these cases no call is made.  Otherwise the message is sent, and the code
    is [LF_OK] exactly when the transport delivered it, [LF_ERR_IO] exactly
    when it did not. *)
Lemma lf_send_codes client facility severity attr json_body (w : World V) :
  0 <= facility <= u8_max -> 0 <= severity <= u8_max ->
  lf_send client facility severity attr json_body w =
  match client with
  | None => (Done LF_ERR_NULL, w)
  | Some c =>
      if negb (valid_codes facility severity) then (Done LF_ERR_INVALID, w)
      else
        match accepted_body json_body, Facility_from_integer facility with
        | Some body, Ok fac =>
            match unix_send (serde_error := serde_error) (lf_transport c)
                    (build_msg fac (Severity_from_integer severity) attr body) w with
            | (Done (inr _), w') => (Done LF_OK, w')
            | (Done (inl _), w') => (Done LF_ERR_IO, w')
            | (Waiting, w') => (Waiting, w')
            | (Panicked, w') => (Panicked, w')
            end
        | _, _ => (Done LF_ERR_BUILD, w)
        end
  end.
Proof.
  intros Hf Hs. unfold lf_send, valid_codes, accepted_body. destruct client as [c|]; [|done].
  pose proof (Facility_from_integer_iff facility) as Hiff.
  destruct (Facility_from_integer facility) as [fac|e|].
  - assert (Hr : 0 <= facility <= 23) by (apply Hiff; by eexists).
    rewrite (proj2 (Z.leb_le 0 facility)), (proj2 (Z.leb_le facility 23)) by lia. cbn [andb].
    destruct (Z.ltb_spec 7 severity), (Z.leb_spec severity 7); try lia; [done|]. cbn [negb].
    destruct json_body as [s|]; [destruct (from_utf8 s) as [b|]; [|done]|]; apply (send_body (fun b => unix_send _ (build_msg _ _ _ b))).
  - assert (Hn : ~ 0 <= facility <= 23) by (intros Hx; apply Hiff in Hx as [? ?]; done).
    replace ((0 <=? facility) && (facility <=? 23)) with false by lia. done.
  - assert (Hn : ~ 0 <= facility <= 23) by (intros Hx; apply Hiff in Hx as [? ?]; done).
    replace ((0 <=? facility) && (facility <=? 23)) with false by lia. done.
Qed.

(** Attributes the daemon's grammar allows; what is not given is generated. *)
Definition attr_ok (a : LfMsgAttr) : Prop :=
  wf_timestamp (cstr_to_opt (attr_timestamp a)) /\ field_ok 255 (cstr_to_opt (attr_hostname a))
  /\ field_ok 48 (cstr_to_opt (attr_app_name a)) /\ field_ok 128 (cstr_to_opt (attr_proc_id a))
  /\ field_ok 32 (cstr_to_opt (attr_msg_id a)).

Lemma now_wf : 0 <= default 0 now < 253402300800 -> wf_timestamp (Some (now_rfc3339 now)).
Proof. intros H. by apply validate_timestamp_grammar, epoch_secs_valid. Qed.

Lemma wf_msg_cee body (cee : bool) :
  wf_msg body -> body <> [] -> wf_msg (if cee then CEE_COOKIE ++ body else body).
Proof. intros H Hb. destruct cee; [|done]. intros c. rewrite last_app_ne by done. apply H. Qed.

(** With such attributes, or none, and a clock before year 10000, what is
    sent is well formed: the daemon's parser reads it back. *)
Lemma build_msg_wf fac sev attr body :
  0 <= default 0 now < 253402300800 -> 0 <= process_id <= u32_max -> wf_msg body -> body <> [] ->
  match attr with None => True | Some a => attr_ok a end ->
  wf_message (build_msg fac sev attr body).
Proof.
  intros Hn Hp Hb Hne Ha. pose proof (now_wf Hn) as Ht. pose proof (pid_field_ok _ Hp) as Hpid.
  unfold build_msg. destruct attr as [a|].
  - destruct Ha as (Hts & Hh & Hap & Hpr & Hm). unfold wf_message.
    cbn [timestamp hostname app_name proc_id msg_id structured_data msg].
    refine (conj _ (conj Hh (conj Hap (conj _ (conj Hm (conj (or_introl eq_refl) _)))))).
    + by destruct (cstr_to_opt (attr_timestamp a)).
    + by destruct (cstr_to_opt (attr_proc_id a)).
    + by apply wf_msg_cee.
  - unfold wf_message. cbn [timestamp hostname app_name proc_id msg_id structured_data msg].
    exact (conj Ht (conj I (conj I (conj Hpid (conj I (conj (or_introl eq_refl) Hb)))))).
Qed.

Lemma build_msg_utf8 fac sev attr body :
  utf8_valid body = true -> utf8_message (build_msg fac sev attr body).
Proof.
  intros Hb. unfold build_msg, utf8_message. destruct attr as [a|]; [|done]. split; [done|].
  cbn [msg]. destruct (negb _); [|done]. by rewrite utf8_valid_app.
Qed.

Lemma accepted_body_utf8 json_body body :
  accepted_body json_body = Some body -> utf8_valid body = true.
Proof.
  unfold accepted_body, from_utf8. destruct json_body as [s|]; cbn.
  - destruct (utf8_valid s) eqn:E; [|done]. cbn. destruct (is_json_object s); [|done].
    by intros [= <-].
  - destruct (is_json_object _); [|done]. by intros [= <-].
Qed.

(** C40: from a C caller to the daemon.  With codes in range, attributes the
    grammar allows and a JSON object that does not end in a newline, [lf_send]
    returns [LF_OK] only after exactly one frame was written that the daemon's
    octet-count decoder reads as the message with this facility, severity,
    attributes and body; the only other code is [LF_ERR_IO], and then either
    nothing was written because the message exceeds the client's limit, or
    the connection was dropped.  It never panics, and waits only for an
    answer of the operating system. *)
Theorem lf_send_delivers c facility severity attr json_body body n (w : World V) :
  0 <= facility <= 23 -> 0 <= severity <= 7 ->
  accepted_body json_body = Some body -> wf_msg body -> body <> [] ->
  match attr with None => True | Some a => attr_ok a end ->
  0 <= default 0 now < 253402300800 -> 0 <= process_id <= u32_max ->
  ut_max_size (lf_transport c) <= n -> n + 21 <= usize_max ->
  match lf_send (Some c) facility severity attr json_body w with
  | (Done code, w') =>
      (code = LF_OK /\
       exists fac pre frame, Facility_as_u8 fac = facility
         /\ trace w' = trace w ++ pre ++ [EvWriteAll frame true]
         /\ Forall (fun e => match e with EvWriteAll _ _ => False | _ => True end) pre
         /\ decode (OctetCountCodec_new n) frame
            = (Ok (Some (build_msg fac (Severity_from_integer severity) attr body)), []))
      \/ (code = LF_ERR_IO /\ (w' = w \/ connected w' = false))
  | (Waiting, w') => answers w' = []
  | (Panicked, _) => False
  end.
Proof.
  intros Hf Hs Hb Hm Hne Ha Hn Hp Ht Hx. rewrite lf_send_codes by (unfold u8_max; lia).
  unfold valid_codes. rewrite (proj2 (Z.leb_le 0 facility)), (proj2 (Z.leb_le facility 23)),
    (proj2 (Z.leb_le severity 7)) by lia. cbn [andb negb]. rewrite Hb.
  destruct (proj2 (Facility_from_integer_iff facility) Hf) as [fac Hfac]. rewrite Hfac.
  apply Facility_as_from in Hfac.
  pose proof (unix_send_decodes (serde_error := serde_error) (lf_transport c)
    (build_msg fac (Severity_from_integer severity) attr body) n w
    (build_msg_wf _ _ _ _ Hn Hp Hm Hne Ha)
    (build_msg_utf8 _ _ _ _ (accepted_body_utf8 _ _ Hb)) Ht Hx) as Hu.
  destruct (unix_send _ _ w) as [[[[be|mx got|io]|[]]| |] w'].
  - done.
  - right. split; [done|]. left. apply Hu.
  - right. split; [done|]. by right.
  - left. split; [done|]. destruct Hu as (pre & frame & Hu). by exists fac, pre, frame.
  - exact Hu.
  - exact Hu.
Qed.

End Send.

Lemma lf_send_delivers_witness :
  let c := mkLfClient (UnixTransport_new (lit "/run/l") 1024) in
  let w := idle_world tt [inr tt; inr tt; inr tt; inr tt; inr tt] in
  match lf_send (serde_error := unit) 42 (Some 0) (Some c) 23 7 None None w with
  | (Done code, w') =>
      (code = LF_OK /\
       exists fac pre frame, Facility_as_u8 fac = 23
         /\ trace w' = trace w ++ pre ++ [EvWriteAll frame true]
         /\ Forall (fun e => match e with EvWriteAll _ _ => False | _ => True end) pre
         /\ decode (OctetCountCodec_new 65536) frame
            = (Ok (Some (build_msg 42 (Some 0) fac Debug None (lit "{}"))), []))
      \/ (code = LF_ERR_IO /\ (w' = w \/ connected w' = false))
  | (Waiting, w') => answers w' = []
  | (Panicked, _) => False
  end.
Proof.
  intros c w. apply (lf_send_delivers 42 (Some 0) c 23 7 None None (lit "{}") 65536 w);
    first [done | by vm_compute | idtac].
  intros b [= <-]. done.
Defined.
