(* ===== verification/JsonText.v ===== *)
(** * JSON text

    A reader and a compact printer of RFC 8259 text, and the part of JSON
    Schema the tests use ([type], [required], [properties]).  They are
    instances of the interfaces of Json.v and satisfy the laws of Validator.v:
    what is printed is read back, whatever the document.  The crates
    themselves stay parameters; the tests of the validator run on these. *)

From stdpp Require Import prelude strings list.
From Stdlib Require Import ZArith Lia.
From S2P Require Import Prelude RustStd Syslog SyslogFacts Timestamp StructuredData SyslogRoundtrip.
From S2P Require Import Config Json Validator.

(** ** Numbers *)

(** The longest prefix of bytes that satisfy a test. *)
Fixpoint span (p : byte -> bool) (s : bytes) : bytes * bytes :=
  match s with
  | c :: r => if p c then let '(a, b) := span p r in (c :: a, b) else ([], s)
  | [] => ([], [])
  end.

(** At least one digit. *)
Definition digits1 (s : bytes) : option bytes :=
  match span is_ascii_digit s with ([], _) => None | (_, r) => Some r end.

Definition skip_sign (p : byte -> bool) (s : bytes) : bytes :=
  match s with c :: r => if p c then r else s | [] => [] end.

Definition number_int (s : bytes) : option bytes :=
  match s with
  | c :: r => if Byte.eqb c "0" then Some r else digits1 s
  | [] => None
  end.

Definition number_frac (s : bytes) : option bytes :=
  match s with c :: r => if Byte.eqb c "." then digits1 r else Some s | [] => Some [] end.

Definition number_exp (s : bytes) : option bytes :=
  match s with
  | c :: r =>
      if Byte.eqb c "e" || Byte.eqb c "E"
      then digits1 (skip_sign (fun c => Byte.eqb c "+" || Byte.eqb c "-") r)
      else Some s
  | [] => Some []
  end.

(** [-]? int frac? exp? *)
Definition is_number (s : bytes) : bool :=
  match (a ← number_int (skip_sign (fun c => Byte.eqb c "-") s); b ← number_frac a; number_exp b) with
  | Some [] => true
  | _ => false
  end.

(** A number is its text. *)
Record jnum : Type := mkJnum { num_text : bytes; num_ok : is_number num_text = true }.

Definition jzero : jnum := mkJnum (lit "0") eq_refl.

Definition jnum_of (s : bytes) : option jnum :=
  match decide (is_number s = true) with left H => Some (mkJnum s H) | right _ => None end.

Abbreviation JValue := (Value jnum).

(** ** Printing *)

Definition hex_digit (d : Z) : byte :=
  default "0"%byte (Byte.of_N (Z.to_N (if d <? 10 then 48 + d else 87 + d))).

(** Escapes as [serde_json] writes them. *)
Definition escape (c : byte) : bytes :=
  match bz c with
  | 34 => ["\"%byte; x22]
  | 92 => ["\"%byte; "\"%byte]
  | 8 => ["\"%byte; "b"%byte]
  | 9 => ["\"%byte; "t"%byte]
  | 10 => ["\"%byte; "n"%byte]
  | 12 => ["\"%byte; "f"%byte]
  | 13 => ["\"%byte; "r"%byte]
  | n => if n <? 32 then lit "\u00" ++ [hex_digit (n / 16); hex_digit (n mod 16)] else [c]
  end.

Definition print_string (s : bytes) : bytes := x22 :: flat_map escape s ++ [x22].

(** Items between commas. *)
Fixpoint print_items (l : list bytes) : bytes :=
  match l with
  | [] => []
  | [s] => s
  | s :: r => s ++ ","%byte :: print_items r
  end.

Fixpoint print_value (v : JValue) : bytes :=
  match v with
  | Null => lit "null"
  | Bool b => if b then lit "true" else lit "false"
  | Number n => num_text n
  | String s => print_string s
  | Array a => "["%byte :: print_items (map print_value a) ++ ["]"%byte]
  | Object m =>
      "{"%byte :: print_items (map (fun kv => print_string (fst kv) ++ ":"%byte :: print_value (snd kv)) m)
      ++ ["}"%byte]
  end.

(** ** Reading *)

Definition json_space (c : byte) : bool :=
  Byte.eqb c " " || Byte.eqb c x09 || Byte.eqb c x0a || Byte.eqb c x0d.

Definition skip_space (s : bytes) : bytes := snd (span json_space s).

Definition hex_value (c : byte) : option Z :=
  let n := bz c in
  if (48 <=? n) && (n <=? 57) then Some (n - 48)
  else if (97 <=? n) && (n <=? 102) then Some (n - 87)
  else if (65 <=? n) && (n <=? 70) then Some (n - 55)
  else None.

Definition hex4 (a b c d : byte) : option Z :=
  a ← hex_value a; b ← hex_value b; c ← hex_value c; d ← hex_value d;
  Some (((a * 16 + b) * 16 + c) * 16 + d).

Definition byte_of (n : Z) : byte := default x00 (Byte.of_N (Z.to_N n)).

(** [char::encode_utf8] *)
Definition encode_utf8 (cp : Z) : bytes :=
  if cp <? 128 then [byte_of cp]
  else if cp <? 2048 then [byte_of (192 + cp / 64); byte_of (128 + cp mod 64)]
  else if cp <? 65536 then
    [byte_of (224 + cp / 4096); byte_of (128 + cp / 64 mod 64); byte_of (128 + cp mod 64)]
  else [byte_of (240 + cp / 262144); byte_of (128 + cp / 4096 mod 64);
        byte_of (128 + cp / 64 mod 64); byte_of (128 + cp mod 64)].

Definition simple_escape (c : byte) : option byte :=
  match bz c with
  | 34 => Some x22 | 92 => Some "\"%byte | 47 => Some "/"%byte | 98 => Some x08 | 116 => Some x09
  | 110 => Some x0a | 102 => Some x0c | 114 => Some x0d | _ => None
  end.

Definition cons_fst (a : bytes) (p : bytes * bytes) : bytes * bytes := (a ++ fst p, snd p).

(** The rest of a string after its opening quote; a surrogate needs its
    partner. *)
Fixpoint read_string_body (s : bytes) : option (bytes * bytes) :=
  match s with
  | [] => None
  | c :: r =>
      if Byte.eqb c x22 then Some ([], r)
      else if bz c <? 32 then None
      else if negb (Byte.eqb c "\") then cons_fst [c] <$> read_string_body r
      else match r with
      | [] => None
      | e :: r1 =>
          match simple_escape e with
          | Some d => cons_fst [d] <$> read_string_body r1
          | None =>
              if negb (Byte.eqb e "u") then None
              else match r1 with
              | h1 :: h2 :: h3 :: h4 :: r2 =>
                  match hex4 h1 h2 h3 h4 with
                  | None => None
                  | Some cp =>
                      if (cp <? 55296) || (57343 <? cp) then cons_fst (encode_utf8 cp) <$> read_string_body r2
                      else match r2 with
                      | b :: u :: g1 :: g2 :: g3 :: g4 :: r3 =>
                          match hex4 g1 g2 g3 g4 with
                          | Some lo =>
                              if Byte.eqb b "\" && Byte.eqb u "u" && (cp <? 56320) && (56320 <=? lo) && (lo <=? 57343)
                              then cons_fst (encode_utf8 (65536 + (cp - 55296) * 1024 + (lo - 56320)))
                                   <$> read_string_body r3
                              else None
                          | None => None
                          end
                      | _ => None
                      end
                  end
              | _ => None
              end
          end
      end
  end.

Definition number_char (c : byte) : bool :=
  is_ascii_digit c || Byte.eqb c "-" || Byte.eqb c "+" || Byte.eqb c "." || Byte.eqb c "e" || Byte.eqb c "E".

Definition read_number (s : bytes) : option (JValue * bytes) :=
  let '(t, r) := span number_char s in n ← jnum_of t; Some (Number n, r).

(** The three words. *)
Definition read_word (s : bytes) : option (JValue * bytes) :=
  match strip_prefix (lit "null") s, strip_prefix (lit "true") s, strip_prefix (lit "false") s with
  | Some r, _, _ => Some (Null, r)
  | _, Some r, _ => Some (Bool true, r)
  | _, _, Some r => Some (Bool false, r)
  | _, _, _ => None
  end.

(** Fuel bounds the depth of calls; the length of the text is enough
    ([read_print]). *)
Fixpoint read_value (fuel : nat) (s : bytes) : option (JValue * bytes) :=
  match fuel with
  | O => None
  | S f =>
      match skip_space s with
      | [] => None
      | c :: r =>
          if Byte.eqb c x22 then '(str, r) ← read_string_body r; Some (String str, r)
          else if Byte.eqb c "[" then
            match skip_space r with
            | d :: r' => if Byte.eqb d "]" then Some (Array [], r')
                         else '(a, r) ← read_elements f r; Some (Array a, r)
            | [] => None
            end
          else if Byte.eqb c "{" then
            match skip_space r with
            | d :: r' => if Byte.eqb d "}" then Some (Object [], r')
                         else '(m, r) ← read_members f r; Some (Object (btree_collect m), r)
            | [] => None
            end
          else match read_word (c :: r) with
          | Some vr => Some vr
          | None => read_number (c :: r)
          end
      end
  end
with read_elements (fuel : nat) (s : bytes) : option (list JValue * bytes) :=
  match fuel with
  | O => None
  | S f =>
      '(v, r) ← read_value f s;
      match skip_space r with
      | c :: r => if Byte.eqb c "]" then Some ([v], r)
                  else if Byte.eqb c "," then '(a, r) ← read_elements f r; Some (v :: a, r)
                  else None
      | [] => None
      end
  end
with read_members (fuel : nat) (s : bytes) : option (list (bytes * JValue) * bytes) :=
  match fuel with
  | O => None
  | S f =>
      match skip_space s with
      | q :: r =>
          if negb (Byte.eqb q x22) then None
          else
            '(k, r) ← read_string_body r;
            match skip_space r with
            | c :: r =>
                if negb (Byte.eqb c ":") then None
                else
                  '(v, r) ← read_value f r;
                  match skip_space r with
                  | c :: r => if Byte.eqb c "}" then Some ([(k, v)], r)
                              else if Byte.eqb c "," then '(m, r) ← read_members f r; Some ((k, v) :: m, r)
                              else None
                  | [] => None
                  end
            | [] => None
            end
      | [] => None
      end
  end.

Definition read_json (s : bytes) : unit + JValue :=
  match read_value (S (length s)) s with
  | Some (v, r) => if bool_decide (skip_space r = []) then inr v else inl tt
  | None => inl tt
  end.

#[export] Instance json_text : SerdeJson jnum unit := {
  from_str := read_json;
  to_string v := inr (print_value v);
  value_display := print_value;
  serde_error_display _ := lit "syntax error";
  number_of_u64 n := default jzero (jnum_of (show_uint n))
}.

(** ** What is printed is read back *)

Lemma read_escape c t : read_string_body (escape c ++ t) = cons_fst [c] <$> read_string_body t.
Proof. by destruct c. Qed.

Lemma read_string_print s rest : read_string_body (flat_map escape s ++ x22 :: rest) = Some (s, rest).
Proof.
  induction s as [|c s IH]; [done|]. cbn [flat_map]. rewrite <- app_assoc, read_escape, IH. done.
Qed.

Lemma skip_space_cons c r : json_space c = false -> skip_space (c :: r) = c :: r.
Proof. intros H. unfold skip_space. cbn [span]. by rewrite H. Qed.

Lemma span_app p s rest :
  Forall (fun c => p c = true) s -> match rest with [] => True | c :: _ => p c = false end ->
  span p (s ++ rest) = (s, rest).
Proof.
  intros Hs Hr. induction Hs as [|c s Hc Hs IH]; cbn.
  - destruct rest as [|c r]; [done|]. cbn. by rewrite Hr.
  - by rewrite Hc, IH.
Qed.

Lemma span_spec p s a b : span p s = (a, b) -> s = a ++ b /\ Forall (fun c => p c = true) a.
Proof.
  revert a b. induction s as [|c s IH]; intros a b; cbn; [by intros [= <- <-]|].
  destruct (p c) eqn:E; [|by intros [= <- <-]]. destruct (span p s) as [a' b']. intros [= <- <-].
  destruct (IH a' b' eq_refl) as [-> H]. by split; [|constructor].
Qed.

(** *** Numbers *)

Definition number_chars (s : bytes) : Prop := Forall (fun c => number_char c = true) s.

(** The rest of a scanner's input is reached over characters of numbers. *)
Definition scans (s r : bytes) : Prop := exists a, s = a ++ r /\ number_chars a.

Lemma scans_refl s : scans s s.
Proof. exists []. by split; [|constructor]. Qed.

Lemma scans_trans s t u : scans s t -> scans t u -> scans s u.
Proof. intros (a & -> & Ha) (b & -> & Hb). exists (a ++ b). rewrite app_assoc. split; [done|by apply Forall_app]. Qed.

Lemma scans_cons c s t : number_char c = true -> scans s t -> scans (c :: s) t.
Proof. intros Hc (a & -> & Ha). exists (c :: a). split; [done|]. by constructor. Qed.

Lemma digits1_scans s r : digits1 s = Some r -> scans s r.
Proof.
  unfold digits1. destruct (span is_ascii_digit s) as [[|c a] b] eqn:E; [done|]. intros [= <-].
  apply span_spec in E as [-> H]. exists (c :: a). split; [done|]. eapply Forall_impl; [exact H|].
  intros d Hd. cbn beta in Hd. unfold number_char. by rewrite Hd.
Qed.

Lemma skip_sign_scans p s : (forall c, p c = true -> number_char c = true) -> scans s (skip_sign p s).
Proof.
  intros Hp. destruct s as [|c r]; cbn; [apply scans_refl|]. destruct (p c) eqn:E; [|apply scans_refl].
  apply scans_cons; [by apply Hp|apply scans_refl].
Qed.

Lemma number_int_scans s r : number_int s = Some r -> scans s r.
Proof.
  destruct s as [|c s]; [done|]. unfold number_int. destruct (beq_spec c "0") as [->|_]; [|apply digits1_scans].
  intros [= <-]. by apply scans_cons, scans_refl.
Qed.

Lemma number_frac_scans s r : number_frac s = Some r -> scans s r.
Proof.
  destruct s as [|c s]; cbn; [intros [= <-]; apply scans_refl|].
  destruct (beq_spec c ".") as [->|_]; [|intros [= <-]; apply scans_refl].
  intros H. apply scans_cons; [done|by apply digits1_scans].
Qed.

Lemma number_exp_scans s r : number_exp s = Some r -> scans s r.
Proof.
  destruct s as [|c s]; [intros [= <-]; apply scans_refl|]. unfold number_exp.
  destruct (Byte.eqb c "e" || Byte.eqb c "E") eqn:E; [|intros [= <-]; apply scans_refl].
  intros H. apply scans_cons; [by destruct c|]. eapply scans_trans; [|by apply digits1_scans].
  apply skip_sign_scans. by intros [].
Qed.

Lemma is_number_chars s : is_number s = true -> s <> [] /\ number_chars s.
Proof.
  unfold is_number. intros H. split; [by intros ->|].
  destruct (number_int _) as [a|] eqn:E1; cbn in H; [|done].
  destruct (number_frac a) as [b|] eqn:E2; cbn in H; [|done].
  destruct (number_exp b) as [[|? ?]|] eqn:E3; [|done|done].
  assert (Hs : scans s []).
  { eapply scans_trans; [apply (skip_sign_scans (fun c => Byte.eqb c "-")); by intros []|].
    eapply scans_trans; [by apply number_int_scans|]. eapply scans_trans; [by apply number_frac_scans|].
    by apply number_exp_scans. }
  destruct Hs as (a' & -> & Ha). by rewrite app_nil_r.
Qed.

Lemma jnum_of_text n : jnum_of (num_text n) = Some n.
Proof.
  destruct n as [t H]. unfold jnum_of. cbn [num_text]. destruct (decide _) as [H'|]; [|done].
  f_equal. f_equal. apply proof_irrel.
Qed.

(** *** Documents *)

(** How many calls reading a value takes. *)
Fixpoint vsize (v : JValue) : nat :=
  match v with
  | Array a => S (list_sum (map (fun v => S (vsize v)) a))
  | Object m => S (list_sum (map (fun kv => S (vsize (snd kv))) m))
  | _ => 1
  end.

(** Where a number ends. *)
Definition ends (rest : bytes) : Prop :=
  match rest with [] => True | c :: _ => number_char c = false end.

(** The first byte of a printed value. *)
Definition value_head (c : byte) : bool :=
  negb (json_space c || Byte.eqb c "]" || Byte.eqb c "}" || Byte.eqb c "@").

Lemma value_head_inv c :
  value_head c = true -> json_space c = false /\ Byte.eqb c "]" = false /\ Byte.eqb c "@" = false.
Proof. by destruct c. Qed.

Lemma print_value_head v : exists c r, print_value v = c :: r /\ value_head c = true.
Proof.
  destruct v as [|[]|[t H]|s|a|m]; cbn [print_value]; try (by eexists _, _).
  cbn [num_text]. apply is_number_chars in H as [Hne Hc]. destruct t as [|c t]; [done|].
  exists c, t. split; [done|]. apply Forall_cons in Hc as [Hc _]. by destruct c.
Qed.

Lemma read_number_print n rest :
  ends rest -> read_number (num_text n ++ rest) = Some (Number n, rest).
Proof.
  intros He. unfold read_number. rewrite span_app; [|by apply is_number_chars, num_ok|done].
  by rewrite jnum_of_text.
Qed.

(** The value at the head of a text that starts with a character of a number. *)
Lemma read_value_number f c r :
  number_char c = true -> read_value (S f) (c :: r) = read_number (c :: r).
Proof. intros Hc. by destruct c. Qed.

Lemma sum_cons {A} (g : A -> nat) x l : list_sum (map g (x :: l)) = (g x + list_sum (map g l))%nat.
Proof. done. Qed.

Definition reads (v : JValue) : Prop :=
  forall f rest, (vsize v <= f)%nat -> ends rest ->
    read_value f (print_value v ++ rest) = Some (sorted_value v, rest).

Lemma read_elements_print a f rest :
  a <> [] -> Forall reads a -> (list_sum (map (fun v => S (vsize v)) a) <= f)%nat ->
  read_elements f (print_items (map print_value a) ++ "]"%byte :: rest) = Some (map sorted_value a, rest).
Proof.
  intros Hne Ha. revert f. induction Ha as [|v a Hv Ha IH]; intros f Hf; [done|].
  rewrite sum_cons in Hf.
  destruct f as [|f]; [lia|]. cbn [read_elements map print_items].
  destruct a as [|w a]; cbn [map].
  - rewrite Hv by (done || lia). done.
  - rewrite <- app_assoc. cbn [app]. rewrite Hv by (done || lia).
    cbn [mbind option_bind]. rewrite skip_space_cons by done. cbn [Byte.eqb]. 
    cbn [map] in IH, Hf. rewrite IH by (done || lia). done.
Qed.

Lemma read_members_print m f rest :
  m <> [] -> Forall (fun kv => reads (snd kv)) m ->
  (list_sum (map (fun kv => S (vsize (snd kv))) m) <= f)%nat ->
  read_members f
    (print_items (map (fun kv => print_string (fst kv) ++ ":"%byte :: print_value (snd kv)) m)
     ++ "}"%byte :: rest)
  = Some (map (fun kv => (fst kv, sorted_value (snd kv))) m, rest).
Proof.
  intros Hne Hm. revert f. induction Hm as [|[k v] m Hv Hm IH]; intros f Hf; [done|].
  rewrite sum_cons in Hf. cbn [snd] in Hv, Hf. destruct f as [|f]; [lia|].
  cbn [read_members map print_items fst snd].
  assert (Hk : forall t, print_string k ++ t = x22 :: flat_map escape k ++ x22 :: t).
  { intros t. unfold print_string. cbn [app]. by rewrite <- app_assoc. }
  destruct m as [|kw m]; cbn [map]; rewrite <- !app_assoc, Hk, skip_space_cons by done;
    cbn [Byte.eqb negb]; rewrite read_string_print; cbn [mbind option_bind app];
    rewrite skip_space_cons by done; cbn [negb].
  - rewrite Hv by (done || lia). done.
  - rewrite Hv by (done || lia).
    cbn [mbind option_bind]. rewrite skip_space_cons by done.
    cbn [map] in IH, Hf. rewrite IH by (done || lia). done.
Qed.

Lemma read_value_print v : reads v.
Proof.
  induction v as [|[]|n|s|a IH|m IH] using Value_ind'; intros [|f] rest Hf He; cbn in Hf; try lia; try done.
  - cbn [print_value]. destruct n as [[|c t] H] eqn:En; [done|]. cbn [num_text app].
    pose proof (proj2 (is_number_chars _ H)) as Hc. apply Forall_cons in Hc as [Hc _].
    rewrite read_value_number by done. exact (read_number_print (mkJnum (c :: t) H) rest He).
  - cbn [print_value]. unfold print_string. cbn [app]. rewrite <- app_assoc. cbn [app].
    cbn [read_value]. rewrite skip_space_cons by done. cbn [Byte.eqb]. by rewrite read_string_print.
  - cbn [print_value app]. rewrite <- app_assoc. destruct a as [|v a]; [done|].
    pose proof (read_elements_print (v :: a) f rest ltac:(done) IH ltac:(lia)) as Hr.
    destruct (print_value_head v) as (c & r & Hv & (Hs & Hb & _)%value_head_inv).
    assert (Hh : exists t, print_items (map print_value (v :: a)) ++ "]"%byte :: rest = c :: t).
    { destruct a; cbn [map print_items]; rewrite Hv; by eexists. }
    destruct Hh as [t Ht]. cbn [app] in Hr |- *. rewrite Ht in *. cbn [read_value].
    rewrite skip_space_cons by done. cbn [Byte.eqb]. rewrite skip_space_cons, Hb by done. by rewrite Hr.
  - cbn [print_value app]. rewrite <- app_assoc. destruct m as [|[k v] m]; [done|].
    pose proof (read_members_print ((k, v) :: m) f rest ltac:(done) IH ltac:(lia)) as Hr.
    assert (Hh : exists t, print_items (map (fun kv => print_string (fst kv) ++ ":"%byte :: print_value (snd kv))
                                ((k, v) :: m)) ++ "}"%byte :: rest = x22 :: t).
    { destruct m; by eexists. }
    destruct Hh as [t Ht]. cbn [app] in Hr |- *. rewrite Ht in *. cbn [read_value].
    rewrite skip_space_cons by done. cbn [Byte.eqb]. rewrite skip_space_cons by done. cbn [Byte.eqb]. by rewrite Hr.
Qed.

Lemma print_items_length l :
  (list_sum (map S (map (@length byte) l)) <= S (length (print_items l)))%nat.
Proof.
  induction l as [|s l IH]; [cbn; lia|]. rewrite map_cons, sum_cons. destruct l as [|t l].
  - cbn. lia.
  - change (print_items (s :: t :: l)) with (s ++ ","%byte :: print_items (t :: l)).
    rewrite length_app. cbn [length]. lia.
Qed.

Lemma sum_le {A} (g h : A -> nat) l :
  Forall (fun x => g x <= h x)%nat l -> (list_sum (map g l) <= list_sum (map h l))%nat.
Proof. induction 1; [done|]. rewrite !sum_cons. lia. Qed.

Lemma vsize_print v : (vsize v <= length (print_value v))%nat.
Proof.
  induction v as [|[]|[t H]|s|a IH|m IH] using Value_ind'; cbn [vsize print_value]; try (cbn; lia).
  - destruct t; [by destruct (is_number_chars _ H)|cbn; lia].
  - cbn [length]. rewrite length_app. pose proof (print_items_length (map print_value a)) as Hl.
    rewrite !map_map in Hl. cbn [length]. enough (list_sum (map (fun v => S (vsize v)) a)
      <= list_sum (map (fun v => S (length (print_value v))) a))%nat by lia.
    apply sum_le. eapply Forall_impl; [exact IH|]. intros v Hv. cbn beta in Hv |- *. lia.
  - cbn [length]. rewrite length_app.
    pose proof (print_items_length (map (fun kv => print_string (fst kv) ++ ":"%byte :: print_value (snd kv)) m)) as Hl.
    rewrite !map_map in Hl. cbn [length]. enough (list_sum (map (fun kv => S (vsize (snd kv))) m)
      <= list_sum (map (fun kv => S (length (print_string (fst kv) ++ ":"%byte :: print_value (snd kv)))) m))%nat by lia.
    apply sum_le. eapply Forall_impl; [exact IH|]. intros kv Hkv. cbn beta in Hkv |- *.
    rewrite length_app. cbn [length]. lia.
Qed.

(** What is printed is read back, with the keys in order. *)
Lemma read_print v : read_json (print_value v) = inr (sorted_value v).
Proof.
  unfold read_json. rewrite <- (app_nil_r (print_value v)) at 2.
  rewrite read_value_print; [done| |done]. pose proof (vsize_print v). lia.
Qed.

(** A value that was read has its keys in order, so each key once. *)
Lemma read_keys_sorted f :
  (forall s v r, read_value f s = Some (v, r) -> keys_sorted v)
  /\ (forall s a r, read_elements f s = Some (a, r) -> Forall keys_sorted a)
  /\ (forall s m r, read_members f s = Some (m, r) -> Forall (fun kv => keys_sorted (snd kv)) m).
Proof.
  induction f as [|f (IHv & IHe & IHm)]; [done|]. split_and!; intros s x r.
  - cbn [read_value]. destruct (skip_space s) as [|c t]; [done|].
    destruct (Byte.eqb c x22).
    { intros ([str t'] & _ & [= <- <-])%bind_Some. constructor. }
    destruct (Byte.eqb c "[").
    { destruct (skip_space t) as [|d t']; [done|]. destruct (Byte.eqb d "]"); [intros [= <- <-]; by repeat constructor|].
      intros ([a t''] & Ha & [= <- <-])%bind_Some. constructor. by eapply IHe. }
    destruct (Byte.eqb c "{").
    { destruct (skip_space t) as [|d t']; [done|]. destruct (Byte.eqb d "}"); [intros [= <- <-]; by repeat constructor|].
      intros ([m t''] & Hm & [= <- <-])%bind_Some. constructor; [apply btree_collect_sorted|].
      apply btree_collect_forall. by eapply IHm. }
    destruct (read_word (c :: t)) as [[w t']|] eqn:Ew.
    { intros [= -> ->]. revert Ew. unfold read_word. repeat case_match; intros; simplify_eq; constructor. }
    unfold read_number. destruct (span _ _) as [u t']. intros (n & _ & [= <- <-])%bind_Some. constructor.
  - cbn [read_elements]. intros ([v t] & Hv & H)%bind_Some. apply IHv in Hv.
    destruct (skip_space t) as [|c t']; [done|]. destruct (Byte.eqb c "]"); [injection H as <- <-; by repeat constructor|].
    destruct (Byte.eqb c ","); [|done]. apply bind_Some in H as ([a u] & Ha & [= <- <-]).
    constructor; [done|by eapply IHe].
  - cbn [read_members]. destruct (skip_space s) as [|q t]; [done|]. destruct (negb _); [done|].
    intros ([k t1] & _ & H)%bind_Some. destruct (skip_space t1) as [|c t2]; [done|]. destruct (negb _); [done|].
    apply bind_Some in H as ([v t3] & Hv & H). apply IHv in Hv.
    destruct (skip_space t3) as [|d t4]; [done|]. destruct (Byte.eqb d "}"); [injection H as <- <-; by repeat constructor|].
    destruct (Byte.eqb d ","); [|done]. apply bind_Some in H as ([m u] & Hm & [= <- <-]).
    constructor; [done|by eapply IHm].
Qed.

Lemma read_json_sorted s v : read_json s = inr v -> keys_sorted v.
Proof.
  unfold read_json. destruct (read_value _ s) as [[w r]|] eqn:E; [|done]. case_bool_decide; [|done].
  intros [= <-]. by eapply read_keys_sorted.
Qed.

Lemma read_json_no_at s v : read_json s = inr v -> starts_with (lit "@") s = false.
Proof.
  change (lit "@") with ["@"%byte]. destruct s as [|c s]; [done|]. unfold starts_with. cbn [strip_prefix].
  destruct (beq_spec "@" c) as [<-|]; [|done]. done.
Qed.

Lemma print_no_at v : starts_with (lit "@") (print_value v) = false.
Proof. by eapply read_json_no_at, read_print. Qed.

Lemma number_last s c : number_chars s -> last s = Some c -> trimmed c = false.
Proof.
  intros Hs Hl. apply last_Some_elem_of in Hl. unfold number_chars in Hs. rewrite Forall_forall in Hs.
  apply Hs in Hl. by destruct c.
Qed.

Lemma print_value_last v c : last (print_value v) = Some c -> trimmed c = false.
Proof.
  destruct v as [|[]|n|s|a|m]; cbn [print_value]; try (by intros [= <-]).
  - apply number_last, is_number_chars, num_ok.
  - unfold print_string. change (x22 :: flat_map escape s ++ [x22]) with ([x22] ++ flat_map escape s ++ [x22]).
    rewrite app_assoc, last_snoc. by intros [= <-].
  - rewrite app_comm_cons, last_snoc. by intros [= <-].
  - rewrite app_comm_cons, last_snoc. by intros [= <-].
Qed.

#[export] Instance json_text_laws : SerdeJsonLaws jnum unit.
Proof.
  refine {| exact_number := fun _ => true |}.
  - intros s v H%read_json_sorted. by apply keys_sorted_unique.
  - apply read_json_no_at.
  - intros v s [= <-]. apply print_no_at.
  - intros v s c [= <-]. apply print_value_last.
  - apply print_value_last.
  - intros s0 v w s _ Hu _ _ [= <-]. exists (sorted_value w). split; [apply read_print|].
    by apply value_equiv_sorted.
Defined.

(** ** Schemas *)

#[local] Set Warnings "-register-all".

(** The keywords [type], [required] and [properties]; others are ignored. *)
Inductive jschema : Type :=
  mkSchema (s_type : option bytes) (s_required : list bytes) (s_properties : list (bytes * jschema)).

(** [json_kind] is the name JSON Schema gives the type. *)
Fixpoint jschema_accepts (s : jschema) (v : JValue) : bool :=
  let 'mkSchema ty req props := s in
  match ty with Some t => bool_decide (json_kind v = t) | None => true end
  && match v with
     | Object m =>
         forallb (fun k => existsb (fun kv => bool_decide (fst kv = k)) m) req
         && forallb (fun ps => forallb (fun kv => negb (bool_decide (fst kv = fst ps))
                                                  || jschema_accepts (snd ps) (snd kv)) m) props
     | _ => true
     end.

Definition set_type (t : bytes) (s : jschema) : jschema := let 'mkSchema _ r p := s in mkSchema (Some t) r p.
Definition set_required (r : list bytes) (s : jschema) : jschema := let 'mkSchema t _ p := s in mkSchema t r p.
Definition set_properties (p : list (bytes * jschema)) (s : jschema) : jschema :=
  let 'mkSchema t r _ := s in mkSchema t r p.

Fixpoint compile_schema (v : JValue) : option jschema :=
  match v with
  | Object m =>
      foldr (fun kv acc =>
        s ← acc;
        if bool_decide (fst kv = lit "type") then
          match snd kv with String t => Some (set_type t s) | _ => None end
        else if bool_decide (fst kv = lit "required") then
          match snd kv with Array a => r ← mapM as_str a; Some (set_required r s) | _ => None end
        else if bool_decide (fst kv = lit "properties") then
          match snd kv with
          | Object ps =>
              p ← foldr (fun kv acc => l ← acc; d ← compile_schema (snd kv); Some ((fst kv, d) :: l)) (Some []) ps;
              Some (set_properties p s)
          | _ => None
          end
        else Some s) (Some (mkSchema None [] [])) m
  | _ => None
  end.

#[export] Instance json_text_schema : JsonSchema jnum jschema unit := {
  validator_for doc := match compile_schema doc with Some s => inr s | None => inl tt end;
  is_valid := jschema_accepts;
  schema_error_display _ := lit "not a schema"
}.

Lemma jschema_ind' (P : jschema -> Prop) :
  (forall t r p, Forall (fun ks => P (snd ks)) p -> P (mkSchema t r p)) -> forall s, P s.
Proof.
  intros H. fix IH 1. intros [t r p]. apply H. induction p as [|[k s] p IHp]; constructor; [apply IH|exact IHp].
Qed.

(** Folds over the entries of an object that do not look at their order. *)
Lemma entries_equiv (g : bytes -> JValue -> bool) m m' n :
  (forall k v w, value_equiv v w -> g k v = g k w) -> m ≡ₚ m' ->
  Forall2 (fun p q => fst p = fst q /\ value_equiv (snd p) (snd q)) m' n ->
  existsb (fun kv => g (fst kv) (snd kv)) m = existsb (fun kv => g (fst kv) (snd kv)) n
  /\ forallb (fun kv => g (fst kv) (snd kv)) m = forallb (fun kv => g (fst kv) (snd kv)) n.
Proof.
  intros Hg Hp Hf.
  assert (H1 : existsb (fun kv => g (fst kv) (snd kv)) m = existsb (fun kv => g (fst kv) (snd kv)) m'
               /\ forallb (fun kv => g (fst kv) (snd kv)) m = forallb (fun kv => g (fst kv) (snd kv)) m').
  { clear Hf. induction Hp as [|x l l' _ [IH1 IH2]|x y l|l l' l'' _ [IH1 IH2] _ [IH3 IH4]]; cbn.
    - done.
    - by rewrite IH1, IH2.
    - by rewrite !orb_assoc, !andb_assoc, (orb_comm (g _ _)), (andb_comm (g _ _)).
    - by rewrite IH1, IH2. }
  destruct H1 as [-> ->]. clear Hp m.
  induction Hf as [|p q m' n [Hk Hv] Hf [IH1 IH2]]; cbn; [done|].
  by rewrite IH1, IH2, Hk, (Hg _ _ _ Hv).
Qed.

Lemma json_kind_equiv (v w : JValue) : value_equiv v w -> json_kind v = json_kind w.
Proof. by destruct 1. Qed.

#[export] Instance json_text_schema_laws : JsonSchemaLaws jnum jschema unit.
Proof.
  split. cbn [is_valid json_text_schema]. intros s. induction s as [t r p IH] using jschema_ind'.
  intros v w He. cbn [jschema_accepts]. rewrite (json_kind_equiv v w He).
  destruct He as [| | | | |m m' n Hp Hf]; try done. f_equal. f_equal.
  - induction r as [|k r IHr]; [done|]. cbn [forallb]. rewrite IHr. f_equal.
    by apply (proj1 (entries_equiv (fun k' _ => bool_decide (k' = k)) m m' n ltac:(done) Hp Hf)).
  - induction IH as [|ks p Hs _ IHp]; [done|]. cbn [forallb]. rewrite IHp. f_equal.
    refine (proj2 (entries_equiv
      (fun k' v => negb (bool_decide (k' = fst ks)) || jschema_accepts (snd ks) v) m m' n _ Hp Hf)).
    intros k v w Hv. by rewrite (Hs v w Hv).
Qed.
