(* ===== verification/UnitTests.v ===== *)
(** * More unit tests, run on the model

    The tests of [frame.rs], [metrics.rs], [builder.rs], [transport.rs] and
    [logfence-client-c/src/lib.rs] that do not depend on what [serde_json]
    prints or parses or on the scheduler, in the form of SyslogTests.v.  A
    test that needs a socket runs on the answers its peer gives. *)

From stdpp Require Import prelude strings list gmap.
From Stdlib Require Import ZArith Lia.
From S2P Require Import Prelude RustStd Syslog SyslogTests Frame Json Metrics Effects Forwarder.
From S2P Require Import Filter ClientTime Client ClientC.

(** ** [frame.rs] *)

(** Its [sample_msg] and [all_nil_msg], parsed. *)
Definition frame_sample_msg (k : SyslogMessage -> bool) : bool :=
  unwrap (parse (quo "<190>1 2026-05-14T12:00:00Z host app 42 ID - {'k':'v'}")) k.

Definition all_nil_msg (k : SyslogMessage -> bool) : bool := unwrap (parse (lit "<13>1 - - - - - - body")) k.

(** [format!("{} {}", m.to_string().len(), m)] *)
Definition framed_wire (m : SyslogMessage) : bytes := show_uint (len (display m)) ++ lit " " ++ display m.

(** [codec.encode(..).unwrap()], with the buffer. *)
Definition encode_ok {C} `{!Encoder C} (c : C) (m : SyslogMessage) (buf : bytes) (k : bytes -> bool) : bool :=
  match encode c m buf with (Ok _, buf') => k buf' | _ => false end.

(** [codec.decode(&mut buf).unwrap().unwrap()], with the buffer. *)
Definition decode_ok {C} `{!Decoder C} (c : C) (buf : bytes) (k : SyslogMessage -> bytes -> bool) : bool :=
  match decode c buf with (Ok (Some m), buf') => k m buf' | _ => false end.

(** [codec.decode(&mut buf).unwrap().is_none()] *)
Definition decode_none_yet {C} `{!Decoder C} (c : C) (buf : bytes) : bool :=
  match decode c buf with (Ok None, _) => true | _ => false end.

Definition too_large (e : FrameError) : bool := match e with MessageTooLarge _ _ => true | _ => false end.

Definition octet_encode_format : bool :=
  frame_sample_msg (fun m =>
    let expected_body := display m in
    encode_ok (OctetCountCodec_new 65536) m [] (fun buf =>
      match from_utf8 buf with
      | Some frame =>
          match split_once " " frame with
          | Some (count_str, body) =>
              same (from_str_radix 10 usize_max count_str) (Some (len expected_body))
              && same body expected_body
          | None => false
          end
      | None => false
      end)).

Definition octet_encode_rejects_oversized : bool :=
  frame_sample_msg (fun m =>
    match encode (OctetCountCodec_new 10) m [] with (Err e, _) => too_large e | _ => false end).

Definition octet_decode_single_frame : bool :=
  frame_sample_msg (fun m =>
    decode_ok (OctetCountCodec_new 65536) (framed_wire m) (fun decoded buf =>
      same decoded m && same buf [])).

Definition octet_decode_two_frames_in_one_buffer : bool :=
  frame_sample_msg (fun m1 => all_nil_msg (fun m2 =>
    decode_ok (OctetCountCodec_new 65536) (framed_wire m1 ++ framed_wire m2) (fun d1 buf =>
    decode_ok (OctetCountCodec_new 65536) buf (fun d2 buf =>
      same d1 m1 && same d2 m2 && same buf [])))).

Definition octet_decode_partial_frame_returns_none : bool :=
  frame_sample_msg (fun m =>
    let full_wire := framed_wire m in
    decode_none_yet (OctetCountCodec_new 65536) (take (Nat.div2 (length full_wire)) full_wire)).

Definition octet_decode_partial_length_prefix_returns_none : bool :=
  decode_none_yet (OctetCountCodec_new 65536) (lit "123").

Definition octet_decode_rejects_oversized : bool :=
  frame_sample_msg (fun m =>
    match decode (OctetCountCodec_new 10) (framed_wire m) with (Err e, _) => too_large e | _ => false end).

Definition octet_decode_rejects_invalid_count : bool :=
  match decode (OctetCountCodec_new 65536) (lit "abc <190>1 - - - - - - x") with
  | (Err InvalidOctetCount, _) => true
  | _ => false
  end.

Definition octet_decode_rejects_prefix_too_long : bool :=
  match decode (OctetCountCodec_new 65536) (times (Z.to_nat (MAX_DIGITS + 1)) "1") with
  | (Err OctetCountPrefixTooLong, _) => true
  | _ => false
  end.

Definition octet_encode_decode_round_trip : bool :=
  frame_sample_msg (fun m =>
    encode_ok (OctetCountCodec_new 65536) m [] (fun buf =>
    decode_ok (OctetCountCodec_new 65536) buf (fun decoded buf => same decoded m && same buf []))).

Definition octet_encode_decode_embedded_newline : bool :=
  unwrap (parse (quo "<190>1 2026-05-14T00:00:00Z h a 1 ID - {'line':'a\nb'}")) (fun m =>
    encode_ok (OctetCountCodec_new 65536) m [] (fun buf =>
    decode_ok (OctetCountCodec_new 65536) buf (fun decoded _ => same decoded m))).

Definition delimiter_encode_appends_newline : bool :=
  frame_sample_msg (fun m =>
    encode_ok (DelimiterCodec_newline 65536) m [] (fun buf =>
      same (from_utf8 buf) (Some (display m ++ [x0a])))).

Definition delimiter_encode_rejects_oversized : bool :=
  frame_sample_msg (fun m =>
    match encode (DelimiterCodec_newline 10) m [] with (Err e, _) => too_large e | _ => false end).

Definition delimiter_decode_single_frame : bool :=
  all_nil_msg (fun m =>
    decode_ok (DelimiterCodec_newline 65536) (display m ++ [x0a]) (fun decoded buf =>
      same decoded m && same buf [])).

Definition delimiter_decode_two_frames : bool :=
  frame_sample_msg (fun m1 => all_nil_msg (fun m2 =>
    decode_ok (DelimiterCodec_newline 65536) (display m1 ++ [x0a] ++ display m2 ++ [x0a]) (fun d1 buf =>
    same d1 m1 && decode_ok (DelimiterCodec_newline 65536) buf (fun d2 buf => same d2 m2 && same buf [])))).

Definition delimiter_decode_partial_returns_none : bool :=
  frame_sample_msg (fun m => decode_none_yet (DelimiterCodec_newline 65536) (display m)).

Definition delimiter_decode_rejects_oversized : bool :=
  frame_sample_msg (fun m =>
    match decode (DelimiterCodec_newline 10) (display m ++ [x0a]) with (Err e, _) => too_large e | _ => false end).

Definition delimiter_encode_decode_round_trip : bool :=
  frame_sample_msg (fun m =>
    encode_ok (DelimiterCodec_newline 65536) m [] (fun buf =>
    decode_ok (DelimiterCodec_newline 65536) buf (fun decoded buf => same decoded m && same buf []))).

(** ** [metrics.rs] *)

(** The assertions on a snapshot. *)
Definition snap_is (snap : Snapshot) (r f d e : Z) : bool :=
  same (snap_received snap) r && same (snap_forwarded snap) f && same (snap_dropped snap) d
  && same (snap_errors snap) e.

Definition counters_start_at_zero : bool := snap_is (snapshot MetricsStore_new) 0 0 0 0.

Definition inc_received_increments_only_received : bool :=
  snap_is (snapshot (inc_received (inc_received MetricsStore_new))) 2 0 0 0.

Definition inc_all_counters_independently : bool :=
  snap_is (snapshot (inc_errors (inc_dropped (inc_forwarded (inc_received MetricsStore_new))))) 1 1 1 1.

Definition snapshot_display_format : bool :=
  same (Snapshot_display (mkSnapshot 10 7 2 1)) (lit "received=10 forwarded=7 dropped=2 errors=1").

(** The store is shared: both handles update the one value. *)
Definition arc_clone_shares_store : bool :=
  let snap := snapshot (inc_forwarded (inc_received MetricsStore_new)) in
  same (snap_received snap) 1 && same (snap_forwarded snap) 1.

(** ** [builder.rs] *)

Definition epoch_secs_known_dates : bool :=
  same (epoch_secs_to_rfc3339 0) (lit "1970-01-01T00:00:00Z")
  && same (epoch_secs_to_rfc3339 946684800) (lit "2000-01-01T00:00:00Z")
  && same (epoch_secs_to_rfc3339 951782400) (lit "2000-02-29T00:00:00Z")
  && same (epoch_secs_to_rfc3339 1778716800) (lit "2026-05-14T00:00:00Z")
  && same (epoch_secs_to_rfc3339 (1778716800 + 13 * 3600 + 45 * 60 + 30)) (lit "2026-05-14T13:45:30Z").

(** On the day of the last of them. *)
Definition now_rfc3339_format : bool :=
  let ts := now_rfc3339 (Some 1778716800) in
  same (len ts) 20
  && same (str_slice ts 4 5) (Some (lit "-")) && same (str_slice ts 7 8) (Some (lit "-"))
  && same (str_slice ts 10 11) (Some (lit "T")) && same (str_slice ts 13 14) (Some (lit ":"))
  && same (str_slice ts 16 17) (Some (lit ":")) && same (str_slice ts 19 20) (Some (lit "Z")).

Section BuilderTests.
  Context {number serde_error : Type} `{!SerdeJson number serde_error}.

(** [.build().unwrap()] *)
Definition build_ok (b : MessageBuilder number) (k : SyslogMessage -> bool) : bool :=
  match build b with inr m => k m | inl _ => false end.

Definition build_defaults : bool :=
  build_ok (MessageBuilder_new 4242 Local0 Info) (fun m =>
    same (Priority_as_integer (priority m)) 134
    && same (timestamp m) None && same (hostname m) None && same (app_name m) None
    && negb (same (proc_id m) None) && same (msg_id m) None
    && same (structured_data m) (lit "-") && same (msg m) (lit "{}")).

Definition build_with_all_header_fields : bool :=
  build_ok (msgid (lit "AUDIT") (set_proc_id (lit "9999") (set_app_name (lit "myapp")
              (set_hostname (lit "myhost") (set_timestamp (lit "2026-05-14T12:00:00Z")
              (MessageBuilder_new 4242 Daemon Warning)))))) (fun m =>
    same (timestamp m) (Some (lit "2026-05-14T12:00:00Z")) && same (hostname m) (Some (lit "myhost"))
    && same (app_name m) (Some (lit "myapp")) && same (proc_id m) (Some (lit "9999"))
    && same (msg_id m) (Some (lit "AUDIT"))).

Definition build_kv_empty_key_rejected : bool :=
  match kv (number := number) (serde_error := serde_error) [] (inr (String (lit "value"))) (MessageBuilder_new 4242 Local0 Info) with
  | inl EmptyKey => true
  | _ => false
  end.

Definition build_cee_cookie_empty_fields : bool :=
  build_ok (cee_cookie true (MessageBuilder_new 4242 Local0 Info)) (fun m =>
    same (msg m) (lit "@cee:{}")).

(** They hold of any [serde_json] that prints an empty object as [{}]. *)
Lemma builder_tests_pass :
  to_string (Object []) = inr (lit "{}") ->
  Forall (eq true) [build_defaults; build_with_all_header_fields; build_kv_empty_key_rejected;
                    build_cee_cookie_empty_fields].
Proof.
  intros He. repeat (apply Forall_cons; split; [|]); try apply Forall_nil; try done;
    unfold build_defaults, build_with_all_header_fields, build_cee_cookie_empty_fields, build_ok, build;
    cbn [b_fields MessageBuilder_new set_timestamp set_hostname set_app_name set_proc_id msgid cee_cookie];
    rewrite He; by vm_compute.
Qed.

End BuilderTests.

(** ** [transport.rs] *)

Definition transport_sample_msg : SyslogMessage :=
  mkMessage (mkPriority Local0 Info) None None (Some (lit "test")) None None (lit "-") (quo "{'k':'v'}").

Definition client_too_large {A} (r : outcome (ClientError unit + A)) : bool :=
  match r with Done (inl (ClientTooLarge _ _)) => true | _ => false end.

Definition sent_ok {A} (r : outcome (ClientError unit + A)) : bool :=
  match r with Done (inr _) => true | _ => false end.

(** The one text the peer receives. *)
Definition received_one (w : World unit) (k : bytes -> bool) : bool :=
  match delivered (trace w) with
  | [d] => match from_utf8 d with Some s => k s | None => false end
  | _ => false
  end.

Definition unix_transport_sends_octet_count_frame : bool :=
  let '(r, w) := send (serde_error := unit) (UnixTransport_new (lit "/test.sock") 65536) transport_sample_msg
                   (idle_world tt (replicate 5 (inr tt))) in
  let expected_wire := display transport_sample_msg in
  sent_ok r && received_one w (fun received =>
    match split_once " " received with
    | Some (count_str, body) =>
        same (parse_uint usize_max count_str) (Some (len expected_wire)) && same body expected_wire
    | None => false
    end).

(** Nobody listens at first. *)
Definition unix_transport_reconnects_after_error : bool :=
  let t := UnixTransport_new (lit "/reconnect.sock") 65536 in
  let '(r1, w1) := send (serde_error := unit) t transport_sample_msg
                     (idle_world tt (inl (io_other []) :: replicate 5 (inr tt))) in
  let '(r2, _) := send (serde_error := unit) t transport_sample_msg w1 in
  negb (sent_ok r1) && sent_ok r2.

Definition unix_transport_rejects_oversized_message : bool :=
  client_too_large (fst (send (UnixTransport_new (lit "/oversize.sock") 10) transport_sample_msg (idle_world tt []))).

Definition unix_datagram_transport_sends_raw_wire : bool :=
  let '(r, w) := send (serde_error := unit) (UnixDatagramTransport_new (lit "/dgram.sock") 65536)
                   transport_sample_msg (idle_world tt (replicate 3 (inr tt))) in
  sent_ok r && received_one w (fun received => same received (display transport_sample_msg)).

Definition unix_datagram_transport_rejects_oversized_message : bool :=
  client_too_large (fst (send (UnixDatagramTransport_new (lit "/oversize_dgram.sock") 10) transport_sample_msg
                           (idle_world tt []))).

(** The receiver's buffer is full for the first attempt and is then drained. *)
Definition unix_datagram_retries_on_buffer_full : bool :=
  sent_ok (fst (send (UnixDatagramTransport_new (lit "/dgram_retry.sock") 65536) transport_sample_msg
                  (idle_world tt [inr tt; inr tt; inl full_error; inr tt]))).

(** ** [logfence-client-c/src/lib.rs] *)

Definition cstr_to_opt_null_returns_none : bool := same (cstr_to_opt None) None.

Definition cstr_to_opt_valid_returns_some : bool := same (cstr_to_opt (Some (lit "myapp"))) (Some (lit "myapp")).

(** The process and the moment the tests run in. *)
Definition test_pid : Z := 4242.
Definition test_now : option Z := Some 1778716800.

Definition build_msg_null_attr_uses_defaults : bool :=
  let m := build_msg test_pid test_now Local0 Info None (lit "{}") in
  same (Priority_as_integer (priority m)) 134 && negb (same (timestamp m) None)
  && negb (same (proc_id m) None) && same (hostname m) None && same (app_name m) None
  && same (msg_id m) None && same (structured_data m) (lit "-") && same (msg m) (lit "{}").

Definition build_msg_cee_cookie_prefixes_body : bool :=
  let attr := mkLfMsgAttr None None None None None 1 in
  same (msg (build_msg test_pid test_now Daemon Warning (Some attr) (quo "{'k':'v'}"))) (quo "@cee:{'k':'v'}").

Definition build_msg_attr_fields_propagate : bool :=
  let attr := mkLfMsgAttr None (Some (lit "testapp")) (Some (lit "AUDIT")) None
                (Some (lit "2026-05-19T00:00:00Z")) 0 in
  let m := build_msg test_pid test_now Auth Notice (Some attr) (lit "{}") in
  same (app_name m) (Some (lit "testapp")) && same (msg_id m) (Some (lit "AUDIT"))
  && same (timestamp m) (Some (lit "2026-05-19T00:00:00Z")).

Definition lf_strerror_returns_nonnull_for_all_codes : bool :=
  forallb (fun code => negb (same (lf_strerror code) []))
    [LF_OK; LF_ERR_NULL; LF_ERR_INVALID; LF_ERR_BUILD; LF_ERR_IO; 99].

Definition lf_client_new_with_valid_path_returns_nonnull : bool :=
  match lf_client_new (Some (lit "/tmp/lf_unit_create_test.sock")) 65536 true with
  | Some c => match lf_client_free (Some c) with None => true | Some _ => false end
  | None => false
  end.

(** [str::contains] *)
Fixpoint contains (sub s : bytes) : bool :=
  starts_with sub s || match s with [] => false | _ :: r => contains sub r end.

Definition ends_with (sub s : bytes) : bool := starts_with (reverse sub) (reverse s).

Section LfSendTests.
  Context {number serde_error : Type} `{!SerdeJson number serde_error}.

(** A send through a fresh handle, and its return code. *)
Definition lf_send_new (fac sev : Z) (attr : option LfMsgAttr) (json : option bytes)
    (answers : list (io_error + unit)) : outcome Z * World unit :=
  lf_send (serde_error := serde_error) test_pid test_now
    (lf_client_new (Some (lit "/tmp/test.sock")) 65536 true) fac sev attr json (idle_world tt answers).

Definition code_is (code : Z) (r : outcome Z * World unit) : bool :=
  match fst r with Done c => same c code | _ => false end.

(** [recv_one_frame]: what follows the count of the one frame sent. *)
Definition recv_one_frame (w : World unit) (k : bytes -> bool) : bool :=
  received_one w (fun raw => match split_once " " raw with Some (_, m) => k m | None => false end).

Definition lf_send_null_client_returns_err_null : bool :=
  code_is LF_ERR_NULL (lf_send (serde_error := serde_error) test_pid test_now None 16 6 None None (idle_world tt [])).

Definition lf_send_invalid_facility_returns_err_invalid : bool :=
  code_is LF_ERR_INVALID (lf_send_new 24 6 None None []).

Definition lf_send_invalid_severity_returns_err_invalid : bool :=
  code_is LF_ERR_INVALID (lf_send_new 16 8 None None []).

Definition lf_send_non_object_json_returns_err_build : bool :=
  code_is LF_ERR_BUILD (lf_send_new 16 6 None (Some (lit "[1,2,3]")) []).

(** The connection is refused. *)
Definition lf_send_no_socket_returns_err_io : bool :=
  code_is LF_ERR_IO (lf_send_new 16 6 None None [inl (io_other [])]).

Definition lf_send_ok_with_default_attrs : bool :=
  let r := lf_send_new 16 6 None (Some (quo "{'event':'unit-success'}")) (replicate 5 (inr tt)) in
  code_is LF_OK r && recv_one_frame (snd r) (fun syslog_msg =>
    starts_with (lit "<134>1 ") syslog_msg && contains (quo "'event':'unit-success'") syslog_msg).

Definition lf_send_null_json_body_defaults_to_empty_object : bool :=
  let r := lf_send_new 16 6 None None (replicate 5 (inr tt)) in
  code_is LF_OK r && recv_one_frame (snd r) (fun syslog_msg => ends_with (lit " {}") syslog_msg).

Definition lf_send_with_all_attrs_populates_header_fields : bool :=
  let attr := mkLfMsgAttr None (Some (lit "myapp")) (Some (lit "AUDIT")) None
                (Some (lit "2026-05-19T00:00:00Z")) 0 in
  let r := lf_send_new 3 4 (Some attr) (Some (quo "{'action':'login'}")) (replicate 5 (inr tt)) in
  code_is LF_OK r && recv_one_frame (snd r) (fun syslog_msg =>
    starts_with (lit "<28>1 ") syslog_msg && contains (lit "2026-05-19T00:00:00Z") syslog_msg
    && contains (lit "myapp") syslog_msg && contains (lit "AUDIT") syslog_msg
    && contains (quo "'action':'login'") syslog_msg).

Definition lf_send_with_cee_cookie_adds_at_cee_prefix : bool :=
  let attr := mkLfMsgAttr None None None None None 1 in
  let r := lf_send_new 16 6 (Some attr) (Some (quo "{'event':'cee-test'}")) (replicate 5 (inr tt)) in
  code_is LF_OK r && recv_one_frame (snd r) (fun syslog_msg =>
    contains (quo "@cee:{'event':'cee-test'}") syslog_msg).

(** The first three do not reach the JSON parser; the others hold of any
    [serde_json] that reads an array as an array and objects as objects. *)
Lemma lf_send_argument_tests_pass :
  Forall (eq true) [lf_send_null_client_returns_err_null; lf_send_invalid_facility_returns_err_invalid;
                    lf_send_invalid_severity_returns_err_invalid].
Proof. repeat (apply Forall_cons; split; [by vm_compute|]). constructor. Qed.

Lemma accepted_object s :
  utf8_valid s = true -> is_json_object (serde_error := serde_error) s = true ->
  accepted_body (serde_error := serde_error) (Some s) = Some s.
Proof. intros Hu Ho. unfold accepted_body, from_utf8. rewrite Hu. cbn. by rewrite Ho. Qed.

Lemma lf_send_tests_pass :
  is_json_object (serde_error := serde_error) (lit "[1,2,3]") = false ->
  Forall (fun s => is_json_object (serde_error := serde_error) s = true)
    [lit "{}"; quo "{'event':'unit-success'}"; quo "{'action':'login'}"; quo "{'event':'cee-test'}"] ->
  Forall (eq true) [lf_send_non_object_json_returns_err_build; lf_send_no_socket_returns_err_io;
    lf_send_ok_with_default_attrs; lf_send_null_json_body_defaults_to_empty_object;
    lf_send_with_all_attrs_populates_header_fields; lf_send_with_cee_cookie_adds_at_cee_prefix].
Proof.
  intros Ha Ho. rewrite !Forall_cons in Ho. destruct Ho as (H1 & H2 & H3 & H4 & _).
  assert (Hn : accepted_body (serde_error := serde_error) None = Some (lit "{}")).
  { unfold accepted_body. cbn -[lit]. by rewrite H1. }
  assert (Hx : accepted_body (serde_error := serde_error) (Some (lit "[1,2,3]")) = None).
  { unfold accepted_body, from_utf8. rewrite (eq_refl : utf8_valid (lit "[1,2,3]") = true).
    cbn -[lit]. by rewrite Ha. }
  apply accepted_object in H2, H3, H4; [|by vm_compute..].
  rewrite !Forall_cons. split_and!; [..|constructor];
    unfold lf_send_non_object_json_returns_err_build, lf_send_no_socket_returns_err_io,
      lf_send_ok_with_default_attrs, lf_send_null_json_body_defaults_to_empty_object,
      lf_send_with_all_attrs_populates_header_fields, lf_send_with_cee_cookie_adds_at_cee_prefix,
      lf_send_new; cbv zeta; rewrite !lf_send_codes by done;
    rewrite ?Hx, ?Hn, ?H2, ?H3, ?H4; by vm_compute.
Qed.

End LfSendTests.

(** ** All of them *)

Definition frame_tests : list bool :=
  [octet_encode_format; octet_encode_rejects_oversized; octet_decode_single_frame;
   octet_decode_two_frames_in_one_buffer; octet_decode_partial_frame_returns_none;
   octet_decode_partial_length_prefix_returns_none; octet_decode_rejects_oversized;
   octet_decode_rejects_invalid_count; octet_decode_rejects_prefix_too_long;
   octet_encode_decode_round_trip; octet_encode_decode_embedded_newline;
   delimiter_encode_appends_newline; delimiter_encode_rejects_oversized; delimiter_decode_single_frame;
   delimiter_decode_two_frames; delimiter_decode_partial_returns_none; delimiter_decode_rejects_oversized;
   delimiter_encode_decode_round_trip].

Definition other_tests : list bool :=
  [counters_start_at_zero; inc_received_increments_only_received; inc_all_counters_independently;
   snapshot_display_format; arc_clone_shares_store; epoch_secs_known_dates; now_rfc3339_format;
   unix_transport_sends_octet_count_frame; unix_transport_reconnects_after_error;
   unix_transport_rejects_oversized_message; unix_datagram_transport_sends_raw_wire;
   unix_datagram_transport_rejects_oversized_message; unix_datagram_retries_on_buffer_full;
   cstr_to_opt_null_returns_none; cstr_to_opt_valid_returns_some; build_msg_null_attr_uses_defaults;
   build_msg_cee_cookie_prefixes_body; build_msg_attr_fields_propagate;
   lf_strerror_returns_nonnull_for_all_codes; lf_client_new_with_valid_path_returns_nonnull].

Theorem unit_tests_pass : Forall (eq true) (frame_tests ++ other_tests).
Proof. apply (bool_decide_unpack _). by vm_compute. Qed.
