(* ===== verification/DaemonTests.v ===== *)
(** * Unit tests of the daemon, run on the model

    The tests of [forwarder.rs] and [session.rs] that do not depend on a JSON
    schema or on the scheduler, in the form of SyslogTests.v. *)

From stdpp Require Import prelude strings list gmap.
From Stdlib Require Import ZArith Lia.
From S2P Require Import Prelude RustStd Syslog SyslogTests Frame Config Json Validator Metrics Effects.
From S2P Require Import SyslogRoundtrip Forwarder Session SessionFacts Filter UnitTests.

(** ** [forwarder.rs] *)

Definition rsyslog_cfg (transport : ForwardTransport) (socket : bytes) : RsyslogConfig :=
  mkRsyslogConfig transport socket (dgram_max_attempts RsyslogConfig_default)
    (dgram_exhausted RsyslogConfig_default).

(** [Forwarder::from_config(&cfg, ..).unwrap()] and a [forward] of the sample
    message, on the answers of the system. *)
Definition forward_with (cfg : RsyslogConfig) (token : bool) (answers : list (io_error + unit))
    : outcome (ForwardError + unit) * World unit :=
  (f ← from_config cfg token;
   match f with inl e => mret (inl e) | inr f => forward f transport_sample_msg end) (idle_world tt answers).

Definition forward_ok (r : outcome (ForwardError + unit) * World unit) : bool :=
  match fst r with Done (inr _) => true | _ => false end.

(** The buffer is full for the first attempt and the first retry. *)
Definition dgram_forward_retries_on_buffer_full : bool :=
  forward_ok (forward_with (rsyslog_cfg ForwardUnixDgram (lit "/rsyslog.sock")) false
                [inr tt; inr tt; inl full_error; inl full_error; inr tt]).

Definition unix_dgram_forward : bool :=
  let r := forward_with (rsyslog_cfg ForwardUnixDgram (lit "/rsyslog.sock")) false (replicate 3 (inr tt)) in
  forward_ok r && received_one (snd r) (fun received => same received (display transport_sample_msg)).

Definition unix_stream_forward_octet_count : bool :=
  let r := forward_with (rsyslog_cfg ForwardUnixStream (lit "/rsyslog.sock")) false (replicate 5 (inr tt)) in
  let expected_wire := display transport_sample_msg in
  forward_ok r && received_one (snd r) (fun received =>
    match split_once " " received with
    | Some (count_str, body) =>
        same (parse_uint usize_max count_str) (Some (len expected_wire)) && same body expected_wire
    | None => false
    end).

(** The connections a run made. *)
Definition connections (w : World unit) : nat :=
  length (List.filter (fun e => match e with EvConnect _ true => true | _ => false end) (trace w)).

(** Each clone has a slot of its own, so each task starts unconnected. *)
Definition clone_creates_independent_stream_connection : bool :=
  let cfg := rsyslog_cfg ForwardUnixStream (lit "/rsyslog.sock") in
  let r1 := forward_with cfg false (replicate 5 (inr tt)) in
  let r2 := forward_with cfg false (replicate 5 (inr tt)) in
  forward_ok r1 && forward_ok r2 && same (connections (snd r1) + connections (snd r2))%nat 2%nat.

Definition dgram_exhausted_terminate_cancels_shutdown_token : bool :=
  let r := forward_with (mkRsyslogConfig ForwardUnixDgram (lit "/rsyslog.sock") 1 Terminate) true
             [inr tt; inr tt; inl full_error] in
  match fst r with Done (inl _) => cancelled (snd r) | _ => false end.

(** ** [session.rs]: sender rewrite *)

Definition make_msg_with_sender (hostname app pid : option bytes) : SyslogMessage :=
  mkMessage (mkPriority Local0 Info) None hostname app pid (Some (lit "test-id")) (lit "-")
    (quo "{'event':'test'}").

Definition rewrite_sender_replaces_identity_fields : bool :=
  let r := rewrite_sender 4242 (make_msg_with_sender (Some (lit "orighost")) (Some (lit "myapp"))
             (Some (lit "1234"))) (lit "logfencedhost") in
  same (hostname r) (Some (lit "logfencedhost")) && same (app_name r) (Some (lit "logfenced"))
  && negb (same (proc_id r) None).

Definition rewrite_sender_preserves_original_in_sd : bool :=
  let r := rewrite_sender 4242 (make_msg_with_sender (Some (lit "orighost")) (Some (lit "myapp"))
             (Some (lit "1234"))) (lit "logfencedhost") in
  contains (quo "hostname='orighost'") (structured_data r) && contains (quo "app='myapp'") (structured_data r)
  && contains (quo "pid='1234'") (structured_data r)
  && contains (lit "[logfence-src@65944 ") (structured_data r).

Definition rewrite_sender_nil_fields_become_dash_in_sd : bool :=
  let r := rewrite_sender 4242 (make_msg_with_sender None None None) (lit "logfencedhost") in
  contains (quo "hostname='-'") (structured_data r) && contains (quo "app='-'") (structured_data r)
  && contains (quo "pid='-'") (structured_data r).

Definition rewrite_sender_appends_to_existing_sd : bool :=
  let m := make_msg_with_sender (Some (lit "host")) (Some (lit "app")) (Some (lit "42")) in
  let m := mkMessage (priority m) (timestamp m) (hostname m) (app_name m) (proc_id m) (msg_id m)
             (quo "[myid@123 key='val']") (msg m) in
  let r := rewrite_sender 4242 m (lit "logfencedhost") in
  starts_with (quo "[myid@123 key='val']") (structured_data r)
  && contains (lit "[logfence-src@65944 ") (structured_data r).

Definition rewrite_sender_preserves_msg_id_and_payload : bool :=
  let r := rewrite_sender 4242 (make_msg_with_sender (Some (lit "host")) (Some (lit "app")) None)
             (lit "logfencedhost") in
  same (msg_id r) (Some (lit "test-id")) && same (msg r) (quo "{'event':'test'}").

Definition rewrite_sender_escapes_special_chars_in_sd_params : bool :=
  let r := rewrite_sender 4242 (make_msg_with_sender (Some (quo "host'with'quotes")) (Some (lit "app\back")) None)
             (lit "logfencedhost") in
  contains (quo "hostname='host\'with\'quotes'") (structured_data r)
  && contains (quo "app='app\\back'") (structured_data r).

Definition session_sender_logfenced_rewrites_forwarded_message : bool :=
  let r := rewrite_sender 4242 (make_msg_with_sender (Some (lit "client-host")) (Some (lit "client-app"))
             (Some (lit "999"))) (lit "daemon-host") in
  same (hostname r) (Some (lit "daemon-host")) && same (app_name r) (Some (lit "logfenced"))
  && contains (quo "hostname='client-host'") (structured_data r)
  && contains (quo "app='client-app'") (structured_data r) && contains (quo "pid='999'") (structured_data r).

Theorem daemon_tests_pass :
  Forall (eq true)
    [dgram_forward_retries_on_buffer_full; unix_dgram_forward; unix_stream_forward_octet_count;
     clone_creates_independent_stream_connection; dgram_exhausted_terminate_cancels_shutdown_token;
     rewrite_sender_replaces_identity_fields; rewrite_sender_preserves_original_in_sd;
     rewrite_sender_nil_fields_become_dash_in_sd; rewrite_sender_appends_to_existing_sd;
     rewrite_sender_preserves_msg_id_and_payload; rewrite_sender_escapes_special_chars_in_sd_params;
     session_sender_logfenced_rewrites_forwarded_message].
Proof. apply (bool_decide_unpack _). by vm_compute. Qed.

(** ** [session.rs]: sessions without schemas

    They hold of any [serde_json] that reads the objects in them as objects. *)

Definition make_session_cfg (framing : FramingMode) : SessionConfig :=
  mkSessionConfig framing 65536 Original (lit "-") (lit "<test>").

Definition session_msg : SyslogMessage :=
  mkMessage (mkPriority Local0 Info) None None (Some (lit "test")) None None (lit "-")
    (quo "{'action':'login'}").

Definition sample_msg_wire : bytes := display session_msg.

Definition make_forwarder : Forwarder := mkForwarder (UnixDgram (lit "/rsyslog.sock")) 4 Drop false.

Definition count_frame (wire : bytes) : bytes := show_uint (len wire) ++ lit " " ++ wire.

(** The message of the two tests on cookies. *)
Definition cee_test_msg (body : bytes) : SyslogMessage :=
  mkMessage (mkPriority Local0 Info) None None None None None (lit "-") body.

Section SessionTests.
  Context {number serde_error schema schema_error : Type}.
  Context `{!SerdeJson number serde_error} `{!JsonSchema number schema schema_error}.

(** A session on one write of the client, the receiver taking everything. *)
Definition session_on (framing : FramingMode) (v : Validator schema) (frame : bytes)
    : outcome unit * World (Validator schema) :=
  run_session (fun _ => []) 4242 make_forwarder (make_session_cfg framing) [inr frame; inr []]
    (idle_world v [inr tt; inr tt]).

Definition session_received (r : outcome unit * World (Validator schema)) (k : bytes -> bool) : bool :=
  match fst r, delivered (trace (snd r)) with
  | Done _, [d] => k d
  | _, _ => false
  end.

Definition session_forwards_valid_octet_count_message : bool :=
  session_received (session_on OctetCount (Validator_new Off []) (count_frame sample_msg_wire))
    (fun received => same received sample_msg_wire).

Definition session_forwards_valid_newline_message : bool :=
  session_received (session_on Newline (Validator_new Off []) (sample_msg_wire ++ [x0a]))
    (fun received => same received sample_msg_wire).

Definition session_increments_forwarded_counter : bool :=
  snap_is (snapshot (stats (snd (session_on OctetCount (Validator_new Off []) (count_frame sample_msg_wire)))))
    1 1 0 0.

Definition session_cee_output_always_adds_cookie : bool :=
  let wire := display (cee_test_msg (quo "{'event':'plain'}")) in
  session_received (session_on OctetCount
      (with_output_cee Always (Validator_new Off [])) (count_frame wire))
    (fun forwarded => contains (quo "@cee:{'event':'plain'}") forwarded).

(** The report is the serializer's; that there is one, and nothing else. *)
Definition session_cee_input_required_rejects_plain_json : bool :=
  let wire := display (cee_test_msg (quo "{'event':'no-cookie'}")) in
  let r := session_on OctetCount
      (with_input_cee Always (Validator_new Off [])) (count_frame wire) in
  snap_is (snapshot (stats (snd r))) 1 0 1 0
  && session_received r (fun report => same report
       (display (rejection_report 4242 (lit "-")
          (validation_payload (make_session_cfg OctetCount) (cee_test_msg (quo "{'event':'no-cookie'}"))
             (MissingCeeCookie (serde_error := serde_error)))))).

(** What such a session comes to. *)
Lemma session_on_one framing v m :
  session_ok (make_session_cfg framing) m -> len (session_frame (make_session_cfg framing) m) <= 65536 ->
  exists w', session_on framing v (session_frame (make_session_cfg framing) m) = (Done tt, w')
    /\ delivered (trace w') = [display (verdict 4242 (make_session_cfg framing) v m)]
    /\ stats w' = (if accepts v m then inc_forwarded else inc_dropped) (inc_received MetricsStore_new).
Proof.
  intros Hm Hl. unfold session_on. change [inr (session_frame (make_session_cfg framing) m); inr []]
    with (map (inr (A := io_error)) [session_frame (make_session_cfg framing) m] ++ [inr []]).
  rewrite (run_session_frames _ _ _ _ _ [m]).
  - destruct (handle_message_ready 4242 make_forwarder (make_session_cfg framing) 0 m (idle_world v [inr tt; inr tt]))
      as (w' & Hh & _ & _ & Hd & Hs); [by exists 1%nat|].
    exists w'. cbn [handle_all]. unfold mbind, IO_bind. by rewrite Hh.
  - done.
  - by constructor.
  - constructor; [|constructor]. intros Hn. destruct Hm as [_ Hx]. unfold session_frame, octet_frame in Hn.
    destruct (sc_framing (make_session_cfg framing)); by apply app_eq_nil in Hn as [_ ?].
  - cbn [map concat]. done.
  - cbn [concat]. rewrite app_nil_r. unfold usize_max, u64_max. lia.
  - done.
Qed.

Lemma test_session_ok framing m :
  parse (display m) = Ok m -> utf8_valid (display m) = true -> utf8_message m ->
  len (display m) <= 65536 -> (x0a ∉ display m) -> session_ok (make_session_cfg framing) m.
Proof. intros Hp Hu Hum Hl Hn. split; [|done]. split; [by apply (parse_wf (display m))|done]. Qed.

(** A test on one message: its session, by [session_on_one], and the verdict. *)
Ltac run_test test framing v m Hok Hv :=
  let w := fresh in let Hr := fresh in let Hd := fresh in let Hs := fresh in
  destruct (session_on_one framing v m) as (w & Hr & Hd & Hs); [apply Hok..|];
  unfold test; cbv zeta;
  change (session_on framing v _) with (session_on framing v (session_frame (make_session_cfg framing) m));
  unfold session_received; rewrite Hr; cbn [fst snd]; rewrite ?Hd, ?Hs;
  unfold verdict, accepts; rewrite !Hv;
  first [by vm_compute|symmetry; apply andb_true_iff; split; [by vm_compute|by apply bool_decide_eq_true_2]].

(** The messages of the tests can be framed either way. *)
Lemma test_messages_ok framing :
  Forall (fun m => session_ok (make_session_cfg framing) m
                   /\ len (session_frame (make_session_cfg framing) m) <= 65536)
    [session_msg; cee_test_msg (quo "{'event':'plain'}"); cee_test_msg (quo "{'event':'no-cookie'}")].
Proof.
  rewrite !Forall_cons. split_and!; [..|constructor]; try (by destruct framing; vm_compute);
    apply test_session_ok; try (by vm_compute); try (by split; vm_compute);
    apply (bool_decide_unpack _); by vm_compute.
Qed.

Lemma validate_plain v m fields :
  v_mode v = Off -> v_input_cee v = Never -> starts_with CEE_COOKIE (msg m) = false ->
  from_str (msg m) = inr (Object fields) -> validate (schema := schema) v m = Ok tt.
Proof. intros Ho Hn Hc Hf. unfold validate. rewrite Hn, Hc. cbn. by rewrite Hf, Ho. Qed.

Abbreviation off_validator := (Validator_new (schema := schema) Off []).

Lemma session_tests_pass fields1 fields2 :
  from_str (quo "{'action':'login'}") = inr (Object fields1) ->
  from_str (quo "{'event':'plain'}") = inr (Object fields2) ->
  Forall (eq true)
    [session_forwards_valid_octet_count_message; session_forwards_valid_newline_message;
     session_increments_forwarded_counter; session_cee_output_always_adds_cookie;
     session_cee_input_required_rejects_plain_json].
Proof.
  intros H1 H2.
  assert (Hv : validate off_validator session_msg = Ok tt) by (by eapply validate_plain).
  assert (Hw : validate (with_output_cee Always off_validator) (cee_test_msg (quo "{'event':'plain'}")) = Ok tt)
    by (by eapply validate_plain).
  assert (Hx : validate (with_input_cee Always off_validator) (cee_test_msg (quo "{'event':'no-cookie'}"))
               = Err MissingCeeCookie) by (by vm_compute).
  pose proof (test_messages_ok OctetCount) as Ho. rewrite !Forall_cons in Ho. destruct Ho as (Ho1 & Ho2 & Ho3 & _).
  pose proof (test_messages_ok Newline) as Hl. rewrite !Forall_cons in Hl. destruct Hl as (Hl1 & _).
  rewrite !Forall_cons. split_and!; [..|constructor].
  - run_test session_forwards_valid_octet_count_message OctetCount
      (Validator_new (schema := schema) Off []) session_msg Ho1 Hv.
  - run_test session_forwards_valid_newline_message Newline
      (Validator_new (schema := schema) Off []) session_msg Hl1 Hv.
  - run_test session_increments_forwarded_counter OctetCount
      (Validator_new (schema := schema) Off []) session_msg Ho1 Hv.
  - run_test session_cee_output_always_adds_cookie OctetCount
      (with_output_cee Always (Validator_new (schema := schema) Off []))
      (cee_test_msg (quo "{'event':'plain'}")) Ho2 Hw.
  - run_test session_cee_input_required_rejects_plain_json OctetCount
      (with_input_cee Always (Validator_new (schema := schema) Off []))
      (cee_test_msg (quo "{'event':'no-cookie'}")) Ho3 Hx.
Qed.

End SessionTests.
