(* ===== verification/ConfigTests.v ===== *)
(** * The unit tests of [logfence-daemon/src/config.rs], run on the model

    The tests load texts, so they run on a small reader of TOML ([toml_read]:
    comments, table headers, and keys with strings without escapes, integers,
    booleans and arrays of strings, one to a line), an instance of the
    interface of ConfigDe.v. *)

From stdpp Require Import prelude strings list gmap.
From Stdlib Require Import ZArith Lia.
From S2P Require Import Prelude RustStd Syslog SyslogTests Config ConfigFacts ConfigDe.

(** ** A reader of simple TOML *)

Definition blank (c : byte) : bool := Byte.eqb c " ".

Definition strip (s : bytes) : bytes := trim_end_matches blank (trim_start_matches blank s).

(** The text up to the next separator, for each separator. *)
Fixpoint split_on (c : byte) (s : bytes) : list bytes :=
  match s with
  | [] => [[]]
  | d :: r =>
      if Byte.eqb d c then [] :: split_on c r
      else match split_on c r with [] => [[d]] | l :: ls => (d :: l) :: ls end
  end.

(** The text between two given bytes. *)
Definition between (a b : byte) (s : bytes) : option bytes :=
  match s with
  | c :: r =>
      if Byte.eqb c a then
        match last r with
        | Some d => if Byte.eqb d b then Some (take (length r - 1) r) else None
        | None => None
        end
      else None
  | [] => None
  end.

Definition read_toml_string (s : bytes) : option toml :=
  t ← between x22 x22 s; if existsb (Byte.eqb x22) t then None else Some (TString t).

Definition read_toml_value (s : bytes) : option toml :=
  if bool_decide (s = lit "true") then Some (TBoolean true)
  else if bool_decide (s = lit "false") then Some (TBoolean false)
  else match read_toml_string s with
  | Some v => Some v
  | None =>
      match between "[" "]" s with
      | Some items =>
          if bool_decide (strip items = []) then Some (TArray [])
          else TArray <$> mapM (fun i => read_toml_string (strip i)) (split_on "," items)
      | None => TInteger <$> parse_uint (2 ^ 63 - 1) s
      end
  end.

(** Change the table at a path, which is created if absent. *)
Fixpoint at_path (path : list bytes) (f : table -> table) (t : table) : table :=
  match path with
  | [] => f t
  | k :: p =>
      let sub := match tget k t with Some (TTable u) => u | _ => [] end in
      List.filter (fun kv => negb (bool_decide (fst kv = k))) t ++ [(k, TTable (at_path p f sub))]
  end.

Fixpoint read_lines (path : list bytes) (lines : list bytes) (t : table) : option table :=
  match lines with
  | [] => Some t
  | line :: rest =>
      let line := strip line in
      if bool_decide (line = []) || starts_with (lit "#") line then read_lines path rest t
      else match between "[" "]" line with
      | Some name =>
          let path := map strip (split_on "." name) in
          read_lines path rest (at_path path id t)
      | None =>
          '(k, v) ← split_once "=" line;
          v ← read_toml_value (strip v);
          read_lines path rest (at_path path (fun u => u ++ [(strip k, v)]) t)
      end
  end.

Definition toml_read (text : bytes) : unit + table :=
  match read_lines [] (split_on x0a text) [] with Some t => inr t | None => inl tt end.

#[export] Instance simple_toml : TomlDe unit := {
  toml_table := toml_read;
  de_variant v := match v with TString s => inr s | _ => inl (InvalidType (lit "a string")) end;
  de_fields _ v := match v with TTable t => inr t | _ => inl (InvalidType (lit "a table")) end;
  de_entries v := match v with TTable t => inr t | _ => inl (InvalidType (lit "a map")) end;
  de_error_at _ := tt
}.

#[export] Instance simple_toml_laws : TomlDeLaws unit.
Proof. by split. Qed.

(** ** The tests *)

#[export] Instance gmap_bytes_eq_dec : EqDecision (gmap bytes bytes) := _.

(** [write_toml]: a file system with the one file. *)
Definition write_toml (content : bytes) (path : bytes) : io_error + bytes :=
  if bool_decide (path = lit "/tmp/t.toml") then inr content
  else inl (io_other (lit "No such file or directory")).

Definition load_file (content : bytes) : res (ConfigError unit) Config :=
  load (write_toml content) toml_from_str (lit "/tmp/t.toml").

(** [load(f.path()).unwrap()] *)
Definition loaded (content : bytes) (k : Config -> bool) : bool :=
  match load_file content with Ok cfg => k cfg | _ => false end.

(** [matches!(err, ConfigError::Invalid(_))] *)
Definition load_invalid (content : bytes) : bool :=
  match load_file content with Err (ConfigInvalid _) => true | _ => false end.

Definition load_minimal_config : bool :=
  loaded (quo "
[daemon]
listen_socket = '/tmp/test.sock'

[rsyslog]
")
    (fun cfg => same (listen_socket (daemon cfg)) (lit "/tmp/test.sock")
      && same (transport (rsyslog cfg)) ForwardUnixDgram
      && same (mode (validation cfg)) Strict
      && same (schemas (validation cfg)) []).

Definition load_full_config : bool :=
  loaded (quo "
[daemon]
listen_socket = '/run/logfenced/logfenced.sock'
socket_mode = '0660'
max_connections = 128
max_message_size = 32768
framing = 'newline'

[rsyslog]
transport = 'unix_stream'
socket = '/run/syslog'

[validation]
mode = 'warn'
schemas = ['/etc/logfenced/schemas/audit.json']

[logging]
level = 'debug'
output = 'stderr'
")
    (fun cfg => same (max_connections (daemon cfg)) 128
      && same (framing (daemon cfg)) Newline
      && same (transport (rsyslog cfg)) ForwardUnixStream
      && same (rsyslog_socket (rsyslog cfg)) (lit "/run/syslog")
      && same (mode (validation cfg)) Warn
      && same (length (schemas (validation cfg))) 1%nat
      && same (level (logging cfg)) (lit "debug")).

Definition load_rejects_missing_file : bool :=
  match load (write_toml []) toml_from_str (lit "/nonexistent/path.toml") with
  | Err (ConfigIo _ _) => true
  | _ => false
  end.

Definition load_rejects_invalid_toml : bool :=
  match load_file (quo "not valid toml ][") with Err (ConfigParse _ _) => true | _ => false end.

Definition validate_rejects_zero_connections : bool :=
  load_invalid (quo "
[daemon]
max_connections = 0

[rsyslog]
").

Definition validate_rejects_bad_socket_mode : bool :=
  load_invalid (quo "[daemon]
socket_mode = '0999'

[rsyslog]
").

Definition load_discriminator_config : bool :=
  loaded (quo "
[daemon]
listen_socket = '/tmp/test.sock'

[rsyslog]

[validation]
mode = 'strict'
discriminator = 'service'

[validation.schema_map]
api-gateway = '/etc/logfenced/schemas/api.json'
auth-service = '/etc/logfenced/schemas/auth.json'
")
    (fun cfg => same (discriminator (validation cfg)) (Some (lit "service"))
      && same (size (schema_map (validation cfg))) 2%nat
      && same (schema_map (validation cfg) !! lit "api-gateway")
            (Some (lit "/etc/logfenced/schemas/api.json"))).

Definition validate_rejects_schema_map_without_discriminator : bool :=
  load_invalid (quo "
[daemon]
listen_socket = '/tmp/test.sock'

[rsyslog]

[validation.schema_map]
svc = '/etc/logfenced/schemas/svc.json'
").

Definition default_config_is_valid : bool :=
  let cfg := mkConfig DaemonConfig_default RsyslogConfig_default ValidationConfig_default
               LoggingConfig_default MetricsConfig_default in
  is_ok (validate_config (toml_error := unit) cfg).

Definition load_cee_cookie_config : bool :=
  loaded (quo "
[daemon]
listen_socket = '/tmp/test.sock'

[rsyslog]

[validation]
mode = 'off'
input_cee = 'always'
output_cee = 'optional'
")
    (fun cfg => same (input_cee (validation cfg)) Always
      && same (output_cee (validation cfg)) Optional).

Definition cee_cookie_mode_defaults_to_never : bool :=
  loaded (quo "[daemon]
listen_socket = '/tmp/t.sock'

[rsyslog]
")
    (fun cfg => same (input_cee (validation cfg)) Never
      && same (output_cee (validation cfg)) Never).

Definition load_canonical_json_config : bool :=
  loaded (quo "[daemon]
listen_socket = '/tmp/t.sock'

[rsyslog]

[validation]
canonical_json = true
")
    (fun cfg => (canonical_json (validation cfg))).

Definition canonical_json_defaults_to_false : bool :=
  loaded (quo "[daemon]
listen_socket = '/tmp/t.sock'

[rsyslog]
")
    (fun cfg => negb (canonical_json (validation cfg))).

Definition sender_defaults_to_original : bool :=
  loaded (quo "[daemon]
listen_socket = '/tmp/t.sock'

[rsyslog]
")
    (fun cfg => same (sender (daemon cfg)) Original).

Definition sender_logfenced_parses : bool :=
  loaded (quo "[daemon]
listen_socket = '/tmp/t.sock'
sender = 'logfenced'

[rsyslog]
")
    (fun cfg => same (sender (daemon cfg)) Logfenced).

Definition sender_original_parses : bool :=
  loaded (quo "[daemon]
listen_socket = '/tmp/t.sock'
sender = 'original'

[rsyslog]
")
    (fun cfg => same (sender (daemon cfg)) Original).

Definition listen_transport_defaults_to_unix_stream : bool :=
  loaded (quo "[daemon]
listen_socket = '/tmp/t.sock'

[rsyslog]
")
    (fun cfg => same (listen_transport (daemon cfg)) ListenUnixStream).

Definition listen_transport_unix_dgram_parses : bool :=
  loaded (quo "[daemon]
listen_socket = '/tmp/t.sock'
listen_transport = 'unix_dgram'

[rsyslog]
")
    (fun cfg => same (listen_transport (daemon cfg)) ListenUnixDgram).

Definition metrics_enabled_defaults_to_false : bool :=
  loaded (quo "[daemon]
listen_socket = '/tmp/t.sock'

[rsyslog]
")
    (fun cfg => negb (metrics_enabled (metrics cfg))).

Definition metrics_enabled_parses : bool :=
  loaded (quo "[daemon]
listen_socket = '/tmp/t.sock'

[rsyslog]

[metrics]
enabled = true
")
    (fun cfg => (metrics_enabled (metrics cfg))).

Definition dgram_max_attempts_defaults_to_4 : bool :=
  loaded (quo "[daemon]
listen_socket = '/tmp/t.sock'

[rsyslog]
")
    (fun cfg => same (dgram_max_attempts (rsyslog cfg)) 4).

Definition dgram_max_attempts_parses : bool :=
  loaded (quo "[daemon]
listen_socket = '/tmp/t.sock'

[rsyslog]
dgram_max_attempts = 0
")
    (fun cfg => same (dgram_max_attempts (rsyslog cfg)) 0).

Definition dgram_exhausted_defaults_to_drop : bool :=
  loaded (quo "[daemon]
listen_socket = '/tmp/t.sock'

[rsyslog]
")
    (fun cfg => same (dgram_exhausted (rsyslog cfg)) Drop).

Definition dgram_exhausted_terminate_parses : bool :=
  loaded (quo "[daemon]
listen_socket = '/tmp/t.sock'

[rsyslog]
dgram_exhausted = 'terminate'
")
    (fun cfg => same (dgram_exhausted (rsyslog cfg)) Terminate).

Theorem config_tests_pass :
  Forall (eq true)
    [load_minimal_config;
     load_full_config;
     load_rejects_missing_file;
     load_rejects_invalid_toml;
     validate_rejects_zero_connections;
     validate_rejects_bad_socket_mode;
     load_discriminator_config;
     validate_rejects_schema_map_without_discriminator;
     default_config_is_valid;
     load_cee_cookie_config;
     cee_cookie_mode_defaults_to_never;
     load_canonical_json_config;
     canonical_json_defaults_to_false;
     sender_defaults_to_original;
     sender_logfenced_parses;
     sender_original_parses;
     listen_transport_defaults_to_unix_stream;
     listen_transport_unix_dgram_parses;
     metrics_enabled_defaults_to_false;
     metrics_enabled_parses;
     dgram_max_attempts_defaults_to_4;
     dgram_max_attempts_parses;
     dgram_exhausted_defaults_to_drop;
     dgram_exhausted_terminate_parses].
Proof. apply (bool_decide_unpack _). by vm_compute. Qed.
