(* ===== verification/ValidatorTests.v ===== *)
(** * The unit tests of [logfence-daemon/src/validator.rs], run on the model

    With the JSON reader, printer and schemas of JsonText.v in place of the
    crates, in the form of SyslogTests.v. *)

From stdpp Require Import prelude strings list gmap.
From Stdlib Require Import ZArith Lia.
From S2P Require Import Prelude RustStd Syslog SyslogTests Config Json Validator JsonText.

(** The tests' [msg]. *)
Definition body_msg (body : bytes) : SyslogMessage :=
  mkMessage (mkPriority Local0 Info) None None None None None (lit "-") body.

Definition schema_requires_field (field : bytes) : JValue :=
  Object [(lit "type", String (lit "object")); (lit "required", Array [String field]);
          (lit "properties", Object [(field, Object [(lit "type", String (lit "string"))])])].

(** [unwrap] of a constructor's result. *)
Definition unwrap_sum {E A} (r : E + A) (k : A -> bool) : bool := match r with inr a => k a | inl _ => false end.

Abbreviation JValidator := (Validator jschema).

Definition new_validator (mode : ValidationMode) : JValidator := Validator_new mode [].

(** [v.validate(&msg(body)).is_ok()] *)
Definition v_accepts (v : JValidator) (body : bytes) : bool := is_ok (validate v (body_msg body)).

(** [matches!(v.validate(&msg(body)).unwrap_err(), ...)] *)
Definition v_rejects (v : JValidator) (body : bytes) (p : ValidationError unit -> bool) : bool :=
  match validate v (body_msg body) with Err e => p e | _ => false end.

Definition is_not_json (e : ValidationError unit) : bool := match e with NotJson _ => true | _ => false end.
Definition is_not_object (e : ValidationError unit) : bool := match e with NotObject _ => true | _ => false end.
Definition is_schema_rejected (e : ValidationError unit) : bool :=
  match e with SchemaRejected => true | _ => false end.
Definition is_unexpected_cookie (e : ValidationError unit) : bool :=
  match e with UnexpectedCeeCookie => true | _ => false end.
Definition is_missing_cookie (e : ValidationError unit) : bool :=
  match e with MissingCeeCookie => true | _ => false end.

(** [v.prepare_for_forwarding(&msg(body))] *)
Definition prepared (v : JValidator) (body : bytes) : Cow SyslogMessage := prepare_for_forwarding v (body_msg body).

Definition prepared_msg (v : JValidator) (body : bytes) : bytes := msg (into_owned (prepared v body)).

Definition is_borrowed {A} (c : Cow A) : bool := match c with Borrowed _ => true | Owned _ => false end.

(** Two services with a schema each. *)
Definition make_discriminator_validator (k : JValidator -> bool) : bool :=
  let schema other : JValue :=
    Object [(lit "type", String (lit "object"));
            (lit "required", Array [String (lit "service"); String other]);
            (lit "properties", Object [(lit "service", Object [(lit "type", String (lit "string"))]);
                                       (other, Object [(lit "type", String (lit "string"))])])] in
  let docs : gmap bytes JValue :=
    <[lit "auth-service" := schema (lit "event")]> (<[lit "api-gateway" := schema (lit "action")]> ∅) in
  unwrap_sum (with_discriminator_docs (lit "service") docs (new_validator Strict)) k.

Definition off_accepts_any_json_object : bool :=
  let v := new_validator Off in
  v_accepts v (quo "{'x':1}").

Definition off_rejects_non_json : bool :=
  let v := new_validator Off in
  v_rejects v (lit "not json") is_not_json.

Definition off_rejects_json_array : bool :=
  let v := new_validator Off in
  v_rejects v (lit "[1,2,3]") is_not_object.

Definition strict_no_schemas_accepts_any_object : bool :=
  let v := new_validator Strict in
  v_accepts v (quo "{'k':'v'}").

Definition strict_accepts_matching_message : bool :=
  unwrap_sum (from_values Strict [(schema_requires_field (lit "action"))]) (fun v =>
  v_accepts v (quo "{'action':'login'}")).

Definition strict_rejects_non_matching_message : bool :=
  unwrap_sum (from_values Strict [(schema_requires_field (lit "action"))]) (fun v =>
  v_rejects v (quo "{'other':'field'}") is_schema_rejected).

Definition strict_accepts_when_any_schema_matches : bool :=
  unwrap_sum (from_values Strict [(schema_requires_field (lit "action")); (schema_requires_field (lit "event"))]) (fun v =>
  v_accepts v (quo "{'event':'boot'}")).

Definition warn_forwards_non_matching_message : bool :=
  unwrap_sum (from_values Warn [(schema_requires_field (lit "action"))]) (fun v =>
  v_accepts v (quo "{'other':'field'}")).

Definition warn_still_rejects_non_json : bool :=
  let v := new_validator Warn in
  v_rejects v (lit "bad") (fun _ => true).

Definition discriminator_routes_to_correct_schema : bool :=
  make_discriminator_validator (fun v =>
  v_accepts v (quo "{'service':'api-gateway','action':'create'}")
  && v_accepts v (quo "{'service':'auth-service','event':'login'}")).

Definition discriminator_rejects_wrong_schema_for_service : bool :=
  make_discriminator_validator (fun v =>
  v_rejects v (quo "{'service':'api-gateway','event':'login'}") is_schema_rejected).

Definition discriminator_falls_back_to_linear_scan_for_unknown_service : bool :=
  unwrap_sum (from_values Strict [(schema_requires_field (lit "fallback_field"))]) (fun v =>
  unwrap_sum (with_discriminator_docs (lit "service") ∅ v) (fun v =>
  v_accepts v (quo "{'service':'unknown','fallback_field':'x'}")
  && v_rejects v (quo "{'service':'unknown','other':'x'}") is_schema_rejected)).

Definition discriminator_falls_back_when_field_absent : bool :=
  unwrap_sum (from_values Strict [(schema_requires_field (lit "action"))]) (fun v =>
  unwrap_sum (with_discriminator_docs (lit "service") (<[lit "api-gateway" := schema_requires_field (lit "action")]> ∅) v) (fun v =>
  v_accepts v (quo "{'action':'login'}"))).

Definition input_cee_never_rejects_cookie : bool :=
  let v := new_validator Off in
  v_rejects v (quo "@cee:{'event':'x'}") is_unexpected_cookie.

Definition input_cee_never_accepts_plain_json : bool :=
  let v := new_validator Off in
  v_accepts v (quo "{'event':'x'}").

Definition input_cee_optional_accepts_cee_message : bool :=
  let v := with_input_cee Optional (new_validator Off) in
  v_accepts v (quo "@cee:{'event':'x'}").

Definition input_cee_optional_accepts_plain_json : bool :=
  let v := with_input_cee Optional (new_validator Off) in
  v_accepts v (quo "{'event':'x'}").

Definition input_cee_always_rejects_plain_json : bool :=
  let v := with_input_cee Always (new_validator Off) in
  v_rejects v (quo "{'event':'x'}") is_missing_cookie.

Definition input_cee_always_accepts_cee_message : bool :=
  let v := with_input_cee Always (new_validator Off) in
  v_accepts v (quo "@cee:{'event':'x'}").

Definition input_cee_optional_validates_json_after_stripping : bool :=
  unwrap_sum (from_values Strict [(schema_requires_field (lit "action"))]) (fun v =>
  let v := with_input_cee Optional v in
  v_accepts v (quo "@cee:{'action':'login'}")
  && v_rejects v (quo "@cee:{'other':'x'}") is_schema_rejected).

Definition input_cee_always_validates_json_after_stripping : bool :=
  unwrap_sum (from_values Strict [(schema_requires_field (lit "event"))]) (fun v =>
  let v := with_input_cee Always v in
  v_accepts v (quo "@cee:{'event':'boot'}")
  && v_rejects v (quo "@cee:{'other':'boot'}") is_schema_rejected).

Definition output_cee_never_strips_existing_cookie : bool :=
  let v := with_output_cee Never (new_validator Off) in
  same (prepared_msg v (quo "@cee:{'event':'x'}")) (quo "{'event':'x'}").

Definition output_cee_never_preserves_plain_json : bool :=
  let v := with_output_cee Never (new_validator Off) in
  same (prepared_msg v (quo "{'event':'x'}")) (quo "{'event':'x'}").

Definition output_cee_optional_preserves_cee_message : bool :=
  let v := with_output_cee Optional (new_validator Off) in
  same (prepared_msg v (quo "@cee:{'event':'x'}")) (quo "@cee:{'event':'x'}").

Definition output_cee_optional_preserves_plain_json : bool :=
  let v := with_output_cee Optional (new_validator Off) in
  same (prepared_msg v (quo "{'event':'x'}")) (quo "{'event':'x'}").

Definition output_cee_always_adds_cookie_when_absent : bool :=
  let v := with_output_cee Always (new_validator Off) in
  same (prepared_msg v (quo "{'event':'x'}")) (quo "@cee:{'event':'x'}").

Definition output_cee_always_preserves_existing_cookie : bool :=
  let v := with_output_cee Always (new_validator Off) in
  same (prepared_msg v (quo "@cee:{'event':'x'}")) (quo "@cee:{'event':'x'}").

Definition prepare_for_forwarding_borrows_when_no_change_needed : bool :=
  let v := new_validator Off in
  is_borrowed (prepared v (quo "{'event':'x'}")).

Definition prepare_for_forwarding_owns_when_transformation_needed : bool :=
  let v := with_output_cee Always (new_validator Off) in
  negb (is_borrowed (prepared v (quo "{'event':'x'}"))).

Definition canonical_json_sorts_top_level_keys : bool :=
  let v := with_canonical_json true (new_validator Off) in
  same (prepared_msg v (quo "{'z':3,'a':1,'m':2}")) (quo "{'a':1,'m':2,'z':3}").

Definition canonical_json_sorts_nested_object_keys : bool :=
  let v := with_canonical_json true (new_validator Off) in
  same (prepared_msg v (quo "{'b':{'y':2,'x':1},'a':0}")) (quo "{'a':0,'b':{'x':1,'y':2}}").

Definition canonical_json_preserves_array_element_order : bool :=
  let v := with_canonical_json true (new_validator Off) in
  same (prepared_msg v (quo "{'items':[3,1,2]}")) (quo "{'items':[3,1,2]}").

Definition canonical_json_removes_extra_whitespace : bool :=
  let v := with_canonical_json true (new_validator Off) in
  same (prepared_msg v (quo "{ 'b' : 2 , 'a' : 1 }")) (quo "{'a':1,'b':2}").

Definition canonical_json_borrows_when_already_canonical : bool :=
  let v := with_canonical_json true (new_validator Off) in
  is_borrowed (prepared v (quo "{'a':1,'b':2}")).

Definition canonical_json_disabled_preserves_original_order : bool :=
  let v := new_validator Off in
  is_borrowed (prepared v (quo "{'z':3,'a':1}"))
  && same (prepared_msg v (quo "{'z':3,'a':1}")) (quo "{'z':3,'a':1}").

Definition canonical_json_combined_with_output_cee_always : bool :=
  let v := with_output_cee Always (with_canonical_json true (new_validator Off)) in
  same (prepared_msg v (quo "{'z':1,'a':2}")) (quo "@cee:{'a':2,'z':1}").

Definition canonical_json_combined_with_cee_optional_preserves_cookie : bool :=
  let v := with_output_cee Optional (with_canonical_json true (new_validator Off)) in
  same (prepared_msg v (quo "@cee:{'z':1,'a':2}")) (quo "@cee:{'a':2,'z':1}").

Definition canonical_json_combined_with_output_cee_never_strips_cookie : bool :=
  let v := with_output_cee Never (with_canonical_json true (new_validator Off)) in
  same (prepared_msg v (quo "@cee:{'z':1,'a':2}")) (quo "{'a':2,'z':1}").

Theorem validator_tests_pass :
  Forall (eq true)
    [off_accepts_any_json_object;
     off_rejects_non_json;
     off_rejects_json_array;
     strict_no_schemas_accepts_any_object;
     strict_accepts_matching_message;
     strict_rejects_non_matching_message;
     strict_accepts_when_any_schema_matches;
     warn_forwards_non_matching_message;
     warn_still_rejects_non_json;
     discriminator_routes_to_correct_schema;
     discriminator_rejects_wrong_schema_for_service;
     discriminator_falls_back_to_linear_scan_for_unknown_service;
     discriminator_falls_back_when_field_absent;
     input_cee_never_rejects_cookie;
     input_cee_never_accepts_plain_json;
     input_cee_optional_accepts_cee_message;
     input_cee_optional_accepts_plain_json;
     input_cee_always_rejects_plain_json;
     input_cee_always_accepts_cee_message;
     input_cee_optional_validates_json_after_stripping;
     input_cee_always_validates_json_after_stripping;
     output_cee_never_strips_existing_cookie;
     output_cee_never_preserves_plain_json;
     output_cee_optional_preserves_cee_message;
     output_cee_optional_preserves_plain_json;
     output_cee_always_adds_cookie_when_absent;
     output_cee_always_preserves_existing_cookie;
     prepare_for_forwarding_borrows_when_no_change_needed;
     prepare_for_forwarding_owns_when_transformation_needed;
     canonical_json_sorts_top_level_keys;
     canonical_json_sorts_nested_object_keys;
     canonical_json_preserves_array_element_order;
     canonical_json_removes_extra_whitespace;
     canonical_json_borrows_when_already_canonical;
     canonical_json_disabled_preserves_original_order;
     canonical_json_combined_with_output_cee_always;
     canonical_json_combined_with_cee_optional_preserves_cookie;
     canonical_json_combined_with_output_cee_never_strips_cookie].
Proof. apply (bool_decide_unpack _). by vm_compute. Qed.
