(* ===== verification/JsonTests.v ===== *)
(** * The remaining unit tests, run on the model

    The tests of [builder.rs], [logfence-client-c/src/lib.rs], [metrics.rs],
    [session.rs] and [datagram_listener.rs] that look into JSON text, with the
    reader, printer and schemas of JsonText.v in place of the crates. *)

From stdpp Require Import prelude strings list gmap.
From Stdlib Require Import ZArith Lia.
From S2P Require Import Prelude RustStd Syslog SyslogTests Frame Config Json Validator JsonText Metrics Effects.
From S2P Require Import Forwarder Session SessionFacts Filter DatagramListener Listener Stats Client ClientC.
From S2P Require Import UnitTests DaemonTests ValidatorTests.

(** ** [builder.rs] *)

Abbreviation JBuilder := (MessageBuilder jnum).

(** [MessageBuilder::new(Facility::Local0, Severity::Info)] *)
Definition local0_info : JBuilder := MessageBuilder_new 4242 Local0 Info.

(** [kv] for each pair in turn and [build], all unwrapped. *)
Fixpoint built_with (b : JBuilder) (fields : list (bytes * JValue)) (k : SyslogMessage -> bool) : bool :=
  match fields with
  | [] => unwrap_sum (build b) k
  | (key, value) :: rest => unwrap_sum (kv (serde_error := unit) key (inr value) b) (fun b => built_with b rest k)
  end.

(** [serde_json::from_str(text).unwrap()] *)
Definition parsed (text : bytes) (k : JValue -> bool) : bool := unwrap_sum (read_json text) k.

(** The comparisons of [serde_json::Value] the tests use. *)
Definition is_text (o : option JValue) (t : bytes) : bool := same (o ≫= as_str) (Some t).
Definition is_num (o : option JValue) (n : Z) : bool :=
  match o with Some (Number j) => same (num_text j) (show_uint n) | _ => false end.
Definition is_true (o : option JValue) : bool := match o with Some (Bool b) => b | _ => false end.

(** [serde_json::to_value] of an unsigned integer. *)
Definition uint_value (n : Z) : JValue := Number (number_of_u64 n).

Definition build_kv_string : bool :=
  built_with local0_info [(lit "action", String (lit "login"))] (fun m =>
    parsed (msg m) (fun v => is_text (value_get v (lit "action")) (lit "login"))).

Definition build_kv_integer : bool :=
  built_with local0_info [(lit "user_id", uint_value 42)] (fun m =>
    parsed (msg m) (fun v => is_num (value_get v (lit "user_id")) 42)).

Definition build_kv_bool : bool :=
  built_with local0_info [(lit "success", Bool true)] (fun m =>
    parsed (msg m) (fun v => is_true (value_get v (lit "success")))).

Definition build_kv_nested_object : bool :=
  let nested := Object [(lit "code", uint_value 200); (lit "reason", String (lit "OK"))] in
  built_with local0_info [(lit "response", nested)] (fun m =>
    parsed (msg m) (fun v => is_num (r ← value_get v (lit "response"); value_get r (lit "code")) 200)).

Definition build_kv_multiple_fields_sorted : bool :=
  built_with local0_info [(lit "z_last", uint_value 3); (lit "a_first", uint_value 1); (lit "m_middle", uint_value 2)]
    (fun m => same (msg m) (quo "{'a_first':1,'m_middle':2,'z_last':3}")).

Definition build_kv_duplicate_key_last_wins : bool :=
  built_with local0_info [(lit "key", String (lit "first")); (lit "key", String (lit "second"))] (fun m =>
    parsed (msg m) (fun v => is_text (value_get v (lit "key")) (lit "second"))).

Definition build_produces_valid_syslog_message : bool :=
  built_with (msgid (lit "TEST") (set_app_name (lit "roundtrip") (MessageBuilder_new 4242 Local7 Debug)))
    [(lit "hello", String (lit "world"))] (fun m =>
    let wire := display m in
    unwrap (parse wire) (fun parsed => same parsed m)).

Definition build_cee_cookie_prefixes_json : bool :=
  built_with (cee_cookie true local0_info) [(lit "event", String (lit "login"))] (fun m =>
    starts_with (lit "@cee:") (msg m)
    && parsed (drop 5 (msg m)) (fun v => is_text (value_get v (lit "event")) (lit "login"))).

Definition build_without_cee_cookie_has_no_prefix : bool :=
  built_with local0_info [(lit "event", String (lit "login"))] (fun m => negb (starts_with (lit "@cee:") (msg m))).

Definition build_cee_cookie_multiple_fields_sorted : bool :=
  built_with (cee_cookie true local0_info) [(lit "z", uint_value 3); (lit "a", uint_value 1)]
    (fun m => same (msg m) (quo "@cee:{'a':1,'z':3}")).

(** ** [logfence-client-c/src/lib.rs] *)

Abbreviation is_object_text := (is_json_object (number := jnum) (serde_error := unit)).

Definition json_object_accepts_empty_object : bool := is_object_text (lit "{}").

Definition json_object_accepts_populated_object : bool :=
  is_object_text (quo "{'action':'login','user_id':42}").

Definition json_object_rejects_array : bool := negb (is_object_text (lit "[]")).

Definition json_object_rejects_primitives : bool :=
  negb (is_object_text (lit "null")) && negb (is_object_text (lit "42"))
  && negb (is_object_text (quo "'string'")) && negb (is_object_text (lit "true")).

Definition json_object_rejects_malformed_json : bool :=
  negb (is_object_text (lit "{not json}")) && negb (is_object_text []).

(** ** [metrics.rs] *)

(** One client of the stats socket, and what it reads, trimmed. *)
Definition stats_socket_serves_json : bool :=
  let w := mkWorld (replicate 8 (inr tt)) [] false false (inc_forwarded (inc_received MetricsStore_new)) tt [] in
  let '(_, w') := serve_stats_socket (number := jnum) (serde_error := unit) [inr tt] w in
  match delivered (trace w') with
  | [buf] =>
      parsed (trim buf) (fun snap =>
        is_num (value_get snap (lit "received")) 1 && is_num (value_get snap (lit "forwarded")) 1
        && is_num (value_get snap (lit "dropped")) 0 && is_num (value_get snap (lit "errors")) 0)
  | _ => false
  end.

(** ** [session.rs] *)

(** The schema of [make_validator] in strict mode. *)
Definition requires_action : JValue := schema_requires_field (lit "action").

Definition make_validator (mode : ValidationMode) (k : JValidator -> bool) : bool :=
  let schemas := if bool_decide (mode = Off) then [] else [requires_action] in
  unwrap_sum (from_values mode schemas) k.

(** Every datagram the receiver got. *)
Definition receives {A V} (r : outcome A * World V) (k : list bytes -> bool) : bool :=
  match fst r with Done _ => k (delivered (trace (snd r))) | _ => false end.

Definition session_drops_invalid_json_message : bool :=
  make_validator Strict (fun v =>
    let wire := display (body_msg (quo "{'other':'field'}")) in
    let r := session_on (number := jnum) (serde_error := unit) (schema_error := unit) OctetCount v (count_frame wire) in
    let snap := snapshot (stats (snd r)) in
    same (snap_received snap) 1 && same (snap_dropped snap) 1 && same (snap_forwarded snap) 0
    && receives r (fun got => match got with [report] => contains (lit "message_dropped") report | _ => false end)).

(** The sender stores the strict validator before the second message. *)
Definition session_uses_reloaded_validator : bool :=
  make_validator Off (fun v_off =>
  make_validator Strict (fun v_strict =>
    let wire1 := display (body_msg (quo "{'event':'boot'}")) in
    let frame1 := count_frame wire1 in
    let w := mkWorld (replicate 2 (inr tt)) [] false false MetricsStore_new v_off [None; Some v_strict] in
    let r := run_session (number := jnum) (serde_error := unit) (schema_error := unit) (fun _ => []) 4242 make_forwarder (make_session_cfg OctetCount)
               [inr frame1; inr frame1; inr []] w in
    receives r (fun got =>
      match got with
      | [d; report] => same d wire1 && contains (lit "message_dropped") report
      | _ => false
      end))).

(** ** [datagram_listener.rs] *)

Definition make_daemon_cfg (listen : bytes) : DaemonConfig :=
  mkDaemonConfig listen (lit "0600") None 4 65536 ListenUnixDgram OctetCount Original.

(** [DatagramListener::bind(cfg, forwarder).unwrap()], every call succeeding. *)
Definition binds (exists_ : bool) (k : Bound -> bool) : bool :=
  match DatagramListener_bind (make_daemon_cfg (lit "/logfenced.sock")) exists_ (inr (lit "testhost"))
          (idle_world tt (replicate 6 (inr tt))) with
  | (Done (inr b), _) => k b
  | _ => false
  end.

(** The listener on one datagram of an unbound sender: bound, received in one
    drain of the socket, and handed to a worker. *)
Definition listener_on (v : JValidator) (datagram : bytes) (k : list bytes -> bool) : bool :=
  binds false (fun b =>
    let cfg := base_config (make_daemon_cfg (lit "/logfenced.sock")) (bound_hostname b) in
    let items := drain (max_message_size (make_daemon_cfg (lit "/logfenced.sock"))) [inr (datagram, None); inl full_error] in
    receives (run_worker (number := jnum) (serde_error := unit) (schema_error := unit) (fun _ => []) 4242
                make_forwarder cfg items (idle_world v (replicate 2 (inr tt)))) k).

Definition datagram_listener_forwards_valid_message : bool :=
  make_validator Off (fun v =>
    let wire := display session_msg in
    listener_on v wire (fun got => same got [wire])).

Definition datagram_listener_drops_invalid_message_and_reports : bool :=
  let schema := Object [(lit "type", String (lit "object")); (lit "required", Array [String (lit "action")])] in
  unwrap_sum (from_values Strict [schema]) (fun v =>
    let wire := display (body_msg (quo "{'other':'value'}")) in
    listener_on v wire (fun got =>
      match got with [report] => contains (lit "message_dropped") report | _ => false end)).

Definition datagram_listener_reports_parse_error : bool :=
  make_validator Off (fun v =>
    listener_on v (lit "not a syslog message at all") (fun got =>
      match got with report :: _ => contains (lit "message_dropped") report | [] => false end)).

Definition datagram_listener_removes_stale_socket_on_bind : bool := binds true (fun _ => true).

(** The first listener leaves its socket file behind. *)
Definition datagram_listener_successive_binds_succeed : bool := binds false (fun _ => binds true (fun _ => true)).

Definition stream_listener_still_works_alongside_datagram_type : bool :=
  let cfg := mkDaemonConfig (lit "/stream.sock") (lit "0600") None 4 65536 ListenUnixStream OctetCount Original in
  match Listener_bind cfg false (inr (lit "testhost")) (idle_world tt (replicate 6 (inr tt))) with
  | (Done (inr _), _) => true
  | _ => false
  end.

Definition both_directionality_enforcements_coexist : bool :=
  make_validator Off (fun v =>
    let wire := display session_msg in
    listener_on v wire (fun got => same got [wire])).

Theorem json_tests_pass :
  Forall (eq true)
    [build_kv_string; build_kv_integer; build_kv_bool; build_kv_nested_object;
     build_kv_multiple_fields_sorted; build_kv_duplicate_key_last_wins; build_produces_valid_syslog_message;
     build_cee_cookie_prefixes_json; build_without_cee_cookie_has_no_prefix;
     build_cee_cookie_multiple_fields_sorted;
     json_object_accepts_empty_object; json_object_accepts_populated_object; json_object_rejects_array;
     json_object_rejects_primitives; json_object_rejects_malformed_json; stats_socket_serves_json;
     session_drops_invalid_json_message; session_uses_reloaded_validator;
     datagram_listener_forwards_valid_message; datagram_listener_drops_invalid_message_and_reports;
     datagram_listener_reports_parse_error; datagram_listener_removes_stale_socket_on_bind;
     datagram_listener_successive_binds_succeed; stream_listener_still_works_alongside_datagram_type;
     both_directionality_enforcements_coexist].
Proof. apply (bool_decide_unpack _). by vm_compute. Qed.
